(* ===== verification/_CoqProject ===== *)
-Q . S2P
Prelude.v
Fmt.v
Utf8.v
Types.v
Wire.v
Credentials.v
Display.v
PerIp.v
DnsCache.v
Lock.v
Stats.v
Stream.v
Relay.v
Connect.v
Client.v
Hoare.v
Handshake.v
Parsing.v
Resolve.v
Udp.v
Session.v
Bind.v
Config.v
Server.v
Trace.v
Backends.v
Protocol.v
Text.v
PageText.v
Http.v
HttpSpec.v
Number.v
Dom.v
Dashboard.v
Html.v
DashboardSpec.v
Interleave.v
Oblivious.v
Ending.v
Drain.v
Cli.v
Overview.v
PageService.v
Tests.v
Fuzz.v
Properties.v
TestsAsync.v
Scenarios.v
Services.v
