(* ===== verification/Prelude.v ===== *)
(** * Merino, a SOCKS5 proxy: verification of the program under [src/src]

    ** The program

    [main.rs] parses the command line and builds a [SocksServer] ([actors.rs]),
    the actor front end of the library ([lib.rs]); [Merino] is the other front
    end, on plain tasks.  Both bind a listener per resolved address and run the
    shared [accept_loop]: it takes a permit of a semaphore, accepts, applies the
    per-source cap ([PerIpLimiter]), builds a [SOCKClient] and hands it over
    with permit and slot.  [run_client] drives it: registration with the
    statistics, the negotiation (greeting, method, USERPASS, request) under the
    handshake budget, then CONNECT, BIND or UDP ASSOCIATE, the relay, and the
    reply to a failure.  Names are resolved through an optional [DnsCache].
    [stats.rs] holds the counters and the registry of live clients, and
    [stats/http.rs] serves them over a small HTTP server with its own budget.

    ** The files

    Definitions keep the names of the code; a method [m] of a type [T] is [T_m].

    - [Prelude]: machine types, results, stable sorting, reachability, list
      lemmas; [Fmt], [Utf8], [Text]: what is used of Rust's formatting, UTF-8
      decoding and string splitting.
    - [Types] (constants, enumerations, addresses, [MerinoError], the functions
      that classify and map errors), [Wire] (all parsers and encoders),
      [Credentials] ([ct_eq], [authed]), [Display] (what is logged of a
      destination): the pure parts of [lib.rs].
    - [PerIp], [DnsCache], [Stats]: the shared objects, each with its
      operations, its invariant and the theorems over every sequence of them.
      [Lock]: their mutexes, with poison, and why the other files can do without.
      [Interleave]: the registry again, its operations taken apart into atomic
      actions that any number of connections interleave.
    - [Stream]: a transport under a deadline: bytes that arrive at given
      instants, an end, a fault or silence, scripted outcomes of writes, and the
      log of what was sent; [outcome] tells a result, an error, a cut-off
      ([Elapsed]), an operation that never completes ([Pending]) and a panic
      ([Crash]) apart.  [Relay]: [copy_bidirectional_counted] over every order of
      reads and ticks.  [Connect]: [connect_any], [bind_all] over the parameter
      [Net].
    - [Client]: the fields of [SOCKClient], the [World] of its handlers (clock,
      statistics, shared byte counters, cache, datagrams) and their monad, with
      the two program logics used throughout: [preserves] (an invariant, however
      the handler ends) and [timely] (it ends by its deadline).  [Handshake]
      ([negotiate], [auth], [from_stream]), [Resolve] ([addr_to_socket]), [Udp]
      ([handle_udp_associate]) and [Session] ([handle_request], [handle_bind],
      [init], [run_client]) are the handlers, written in it.
    - [Config] (the two server types, their constructors and setters; [Arc]s are
      indices into tables of the process) and [Server] ([accept_loop],
      [Merino::serve], [SocksConnection], [SocksServer::started]): a labelled
      step relation over every interleaving of accept loops and connections; a
      connection starts and ends as the task of the one front end
      ([task_started], [task_ended]) or as the actor of the other
      ([actor_started], [actor_ended]).
    - [Http]: [stats/http.rs].  [Cli]: [main.rs], from the options to the signals
      that stop the program.
    - [Dashboard]: the page of [stats/http.rs], its body as a document ([Dom]) and
      its script as statements over it ([js]), with the doubles and the number
      formats of the language in [Number]; a [Tab] is the page with the calls of
      [tick] that wait for an answer.  [PageText] is the text that is served, byte
      for byte, and [Html] reads it: the document of [Dashboard] is what a browser
      makes of it.  [DashboardSpec]: what the page shows.
    - Specifications and how the code meets them: [Hoare] (triples for the
      handlers), [Parsing] (the negotiation as a pure function of the bytes a
      client sends, written with the parsers of [Wire]), [Bind] (what a BIND lets
      in), [Protocol] (RFC 1928 / 1929 as an automaton over what a session
      writes, and the replies of the code that are outside of it), [Trace] (a
      session as steps of [Server]), [Backends] (the two front ends, from the
      arguments they are bound with to every run of them), [HttpSpec] (the response to each request
      head), [Oblivious] (a session does not depend on the statistics), [Ending]
      (triples under which handlers come to an end), [Drain] (a server whose
      connections end only as their sessions do), [Overview] and [PageService] (command line, server,
      endpoint and page together).
    - [Fuzz]: the parsers and the renderer of addresses one level down, with the
      panics of slicing, of capacities and of checked arithmetic, and the fuzz
      targets over them.
    - [Tests], [TestsAsync]: the unit tests of [lib.rs], [stats.rs] and [main.rs];
      [Properties]: the property tests of [src/tests], as functions of their inputs
      that pass on all of them; [Scenarios] and [Services]: the integration tests
      of sessions, and of whole servers with their statistics endpoint.  All of
      them are translated assertion by assertion and run on the definitions above.

    ** What the theorems show

    - The whole session: a well-behaved client's bytes reach its destination, an
      address or a name that resolves, and back, whole, in order and counted
      ([Session.run_client_connect]), one that
      fails to authenticate gets nowhere ([run_client_denied]); every failure is
      answered and counted ([run_client_failure]); every registration is
      released ([run_client_releases]); the handshake is bounded in time
      ([handshake_bounded]).
    - Authentication: a request is obtained only as the configured method
      demands ([Handshake.negotiate_sound], and from the command line on
      [Cli.users_file_enforced]), exactly the right credentials pass
      ([Credentials.authed_correct]) with work that does not depend on what was
      typed.
    - The protocol: whatever happens, a client is sent a conversation of the RFC,
      to which a session that fails may add one failure reply where the RFC has
      none - before a request, after [05 FF], in the data of a relay
      ([Protocol.run_client_conversation]); the last is what happens when a relay
      fails ([relay_failure_in_band]); what the negotiation
      answers depends on the bytes alone, not on their arrival
      ([Parsing.negotiate_equiv]).
    - Composition: a run of [run_client] is a run of the server's transitions
      ([Trace.run_client_simulated]) that leaves every other connection's row
      alone ([run_client_isolated]); bound and configured alike, the two
      backends start alike and are bisimilar ([Backends.backends_equivalent]).  From the command line to the wire, the
      endpoint lists the connections that run ([Overview.dashboard_truthful]), and
      on to the screen, so does the page ([PageService.page_tracks_server]) -
      unless a token is set, which its script cannot present
      ([token_blinds_page]).
    - Endings: a session whose streams end, whose writes do not stall and whose
      names are answered returns ([Ending.run_client_ends]), and from every state
      in which that holds of its clients a server, whose connections end only
      as [run_client] does, can come to the end of all of them: every permit,
      slot and registration comes back; what a session that hangs holds never
      does ([Drain.server_winds_down]).  The number of starts and ends is the
      same in every order ([Drain.step_to_do]).
    - No panics: on no input do the parsers or the renderer of addresses panic,
      slice bounds, capacities and overflow checked ([Fuzz.parsers_never_panic]).
    - Non-interference: nothing a client, a destination or the cache experiences
      depends on the statistics ([Oblivious.run_client_oblivious]).
    - Relay and connections: prefixes, totals, live counters and termination of
      the relay; the race over the resolved addresses; what a UDP association
      may send, and whom a BIND lets in ([Bind]).
    - Server: the permit account, the per-source cap and the statistics over
      every interleaving ([Server.server_capacity]), each branch of the accept
      loop, progress, and how idle listeners can pin permits.
    - Shared objects: freshness, bounds and eviction of the cache, the live
      registry and its views; action by action, the registry does nothing its
      whole operations could not do ([Interleave.registry_linearizable]), and a
      reader in the middle is off by the operations under way at most
      ([registry_in_flight]); a panic under a lock spoils nothing
      ([Lock.cache_survives_panics]).
    - The page: no datum becomes markup, over every order of answers
      ([DashboardSpec.page_no_injection]); it shows what it is answered
      ([page_shows]), uptimes exactly ([fmtUptime_exact]), and the spark line
      inside its canvas ([spark_in_canvas]).
    - Statistics endpoint: bounded heads, the bytes of a request read back
      ([Http.parse_head_render]), the token gate as
      non-interference ([Http.stats_token_gate]), time, and a refinement of the
      specification of what is served ([HttpSpec.handle_conn_refines]).
    - Wire formats: round trips and exact errors.

    ** Interfaces and assumptions

    Code outside [src] is a parameter with its documented behaviour as laws:
    [Net] (resolution, TCP connect and bind, UDP bind; no laws), [ArrivalOrder]
    (outcomes are received in the order of their times), [HashOrder] (a hash map
    iterates over its entries in some order), [Semaphore] (a counting semaphore
    that panics above a maximum), [Web] (JSON encoder, default hasher), [Json] (the browser's parser reads back what the encoder wrote),
    [Browser] (canvas, computed style), [System] (files, CSV records,
    [to_socket_addrs]); [Answers] is the hypothesis of [Ending] on a network.  Of
    the actor runtime: it starts an actor once, and drops it when it has called
    [ctx.stop()] or a panic has taken its task down.
    The files give concrete instances for the witnesses.

    ** Bounds and fuel

    Reads are structural in the number of bytes asked for, the relay and the UDP
    loop in the list of scheduler events, for which every list is considered
    ([Running] or a cut-off when it is exhausted; [Relay.relay_terminates] gives
    a number of reads that is enough).  [Utf8] decoding has the length of the
    input as fuel, and [Http.read_head] one more iteration than there are bytes
    to come; that it is enough is part of [Http.read_head_bounded].  Counters
    are numbers modulo 2^64; identifiers are assumed not to wrap.  The numbers of
    the page are doubles: rationals rounded to 53 bits after every operation,
    which is all there is to them between the subnormal range and overflow, where
    every number of the script lies.

    ** What is not modelled

    Logging; flushing (a no-op on sockets); argument and CSV parsing
    (third-party; their results are inputs); what the runtime does between
    [System::stop] and its end; the memory order of atomics, which are
    sequentially consistent here; of the page, its style sheet other than as
    text, and answers that are JSON but not what the endpoint encodes; of the
    tests, those that start the program and read its log, those of the third-party
    parsers, and those of [tests/actors.rs] that repeat a test of
    [tests/socks5.rs] through the other front end; the benches, which measure
    time; packaging.  All
    connections of a server report to its one [Stats], as both front ends
    arrange.  A panic ends the task and drops what it holds, as in a build that
    unwinds; the release profile aborts the process instead. *)
From Stdlib Require Export Init.Byte Strings.Byte ZifyBool Sorted.
From stdpp Require Export base gmap strings list vector numbers relations sorting.

(** ** Scopes and machine types *)

Create HintDb merino.
Create Rewrite HintDb merino.
Declare Scope merino_scope.
Delimit Scope merino_scope with merino.

(** Rust's unsigned integers: a [u8] is one of the 256 constructors of [byte];
    the wider ones are [N] with their bound stated where it matters, and
    lengths and indices ([usize]) are [nat]. *)
Abbreviation u8 := Init.Byte.byte.
Abbreviation u16 := N.
Abbreviation u32 := N.
Abbreviation u64 := N.
Abbreviation usize := nat.

Definition u16_max : N := 65535.
Definition u64_modulus : N := 18446744073709551616.

Definition u16_wf (n : N) : bool := bool_decide (n < 65536)%N.

(** [fetch_add] / [fetch_sub] on an [AtomicU64] wrap around. *)
Definition u64_add (a b : N) : N := ((a + b) mod u64_modulus)%N.
Definition u64_sub (a b : N) : N := ((a + u64_modulus - b mod u64_modulus) mod u64_modulus)%N.

Lemma to_N_inj (a b : u8) : Byte.to_N a = Byte.to_N b → a = b.
Proof. intros H. apply (f_equal Byte.of_N) in H. rewrite !Byte.of_to_N in H. congruence. Qed.

(** Through [N]: the standard decision procedure is a match with 65536 cases. *)
#[global] Instance byte_eq_dec : EqDecision u8 := λ a b,
  match decide (Byte.to_N a = Byte.to_N b) with
  | left H => left (to_N_inj a b H)
  | right H => right (λ E, H (f_equal Byte.to_N E))
  end.

#[global] Instance byte_countable : Countable u8 :=
  inj_countable Byte.to_N Byte.of_N Byte.of_to_N.

(** The low eight bits of a number, as a byte. *)
Definition byte_of_N (n : N) : u8 := default x00 (Byte.of_N (n mod 256)%N).

Lemma to_N_lt (b : u8) : (Byte.to_N b < 256)%N.
Proof. pose proof (Byte.to_N_bounded b). lia. Qed.

Lemma to_N_byte_of_N (n : N) : Byte.to_N (byte_of_N n) = (n mod 256)%N.
Proof.
  unfold byte_of_N. destruct (Byte.of_N (n mod 256)) as [b|] eqn:E; simpl.
  - by apply Byte.to_of_N.
  - apply Byte.of_N_None_iff in E. pose proof (N.mod_upper_bound n 256). lia.
Qed.

Lemma byte_of_to_N (b : u8) : byte_of_N (Byte.to_N b) = b.
Proof. apply to_N_inj. rewrite to_N_byte_of_N. apply N.mod_small, to_N_lt. Qed.

(** [usize::from(u8)]. *)
Definition usize_of_u8 (b : u8) : usize := N.to_nat (Byte.to_N b).

(** [n as u8] on a length. *)
Definition u8_of_usize (n : usize) : u8 := byte_of_N (N.of_nat n).

Lemma usize_of_u8_lt (b : u8) : usize_of_u8 b < 256.
Proof. unfold usize_of_u8. pose proof (to_N_lt b). lia. Qed.

Lemma usize_of_u8_of_usize (n : nat) : n < 256 → usize_of_u8 (u8_of_usize n) = n.
Proof.
  intros H. unfold usize_of_u8, u8_of_usize. rewrite to_N_byte_of_N, N.mod_small; lia.
Qed.

Lemma u8_of_usize_of_u8 (b : u8) : u8_of_usize (usize_of_u8 b) = b.
Proof. unfold u8_of_usize, usize_of_u8. rewrite N2Nat.id. apply byte_of_to_N. Qed.

(** Bit operations on [u8]. *)
Definition u8_or (a b : u8) : u8 := byte_of_N (N.lor (Byte.to_N a) (Byte.to_N b)).
Definition u8_xor (a b : u8) : u8 := byte_of_N (N.lxor (Byte.to_N a) (Byte.to_N b)).
Definition u8_of_bool (b : bool) : u8 := if b then x01 else x00.

Lemma small_bits (n i : N) : (n < 256)%N → (8 ≤ i)%N → N.testbit n i = false.
Proof.
  intros Hn Hi. destruct (decide (n = 0)%N) as [->|Hz]; [apply N.bits_0|].
  apply N.bits_above_log2. apply (N.lt_le_trans _ 8); [|done].
  apply N.log2_lt_pow2; [lia|]. done.
Qed.

Lemma bits_small (n : N) : (∀ i, (8 ≤ i)%N → N.testbit n i = false) → (n < 256)%N.
Proof.
  intros H. destruct (decide (n = 0)%N) as [->|Hz]; [lia|].
  destruct (N.lt_ge_cases n 256) as [|Hge]; [done|]. exfalso.
  assert (8 ≤ N.log2 n)%N as Hl by (apply N.log2_le_pow2; [lia|done]).
  specialize (H _ Hl). rewrite N.bit_log2 in H; [done|lia].
Qed.

Lemma to_N_u8_or (a b : u8) : Byte.to_N (u8_or a b) = N.lor (Byte.to_N a) (Byte.to_N b).
Proof.
  unfold u8_or. rewrite to_N_byte_of_N. apply N.mod_small, bits_small.
  intros i Hi. rewrite N.lor_spec, !small_bits; auto using to_N_lt.
Qed.

Lemma to_N_u8_xor (a b : u8) : Byte.to_N (u8_xor a b) = N.lxor (Byte.to_N a) (Byte.to_N b).
Proof.
  unfold u8_xor. rewrite to_N_byte_of_N. apply N.mod_small, bits_small.
  intros i Hi. rewrite N.lxor_spec, !small_bits; auto using to_N_lt.
Qed.

Lemma u8_or_zero (a b : u8) : u8_or a b = x00 ↔ a = x00 ∧ b = x00.
Proof.
  split.
  - intros H. apply (f_equal Byte.to_N) in H. rewrite to_N_u8_or in H.
    apply N.lor_eq_0_iff in H as [Ha Hb].
    split; by apply to_N_inj.
  - intros [-> ->]. done.
Qed.

Lemma u8_xor_zero (a b : u8) : u8_xor a b = x00 ↔ a = b.
Proof.
  split.
  - intros H. apply (f_equal Byte.to_N) in H. rewrite to_N_u8_xor in H.
    apply to_N_inj. by apply N.lxor_eq.
  - intros ->. apply to_N_inj. rewrite to_N_u8_xor. apply N.lxor_nilpotent.
Qed.

(** ** Big-endian [u16] *)

(** [port.to_be_bytes()]. *)
Definition u16_to_be_bytes (n : u16) : list u8 := [byte_of_N (n / 256)%N; byte_of_N n].

(** [u16::from(hi) << 8 | u16::from(lo)]. *)
Definition u16_of_be (hi lo : u8) : u16 :=
  N.lor (N.shiftl (Byte.to_N hi) 8) (Byte.to_N lo).

Lemma u16_of_be_eq (hi lo : u8) : u16_of_be hi lo = (Byte.to_N hi * 256 + Byte.to_N lo)%N.
Proof.
  unfold u16_of_be. rewrite N.shiftl_mul_pow2. change (2 ^ 8)%N with 256%N.
  assert (N.land (Byte.to_N hi * 256) (Byte.to_N lo) = 0)%N as Hland;
    [|by rewrite N.add_nocarry_lxor, N.lxor_lor].
  apply N.bits_inj_0. intros i. rewrite N.land_spec.
  destruct (N.lt_ge_cases i 8) as [Hi|Hi].
  - change 256%N with (2 ^ 8)%N. by rewrite N.mul_pow2_bits_low.
  - rewrite (small_bits (Byte.to_N lo)); auto using to_N_lt. apply andb_false_r.
Qed.

Lemma u16_of_be_wf (hi lo : u8) : u16_wf (u16_of_be hi lo) = true.
Proof.
  unfold u16_wf. apply bool_decide_eq_true. rewrite u16_of_be_eq.
  pose proof (to_N_lt hi). pose proof (to_N_lt lo). lia.
Qed.

Lemma u16_be_roundtrip (n : u16) :
  u16_wf n = true → u16_of_be (byte_of_N (n / 256)) (byte_of_N n) = n.
Proof.
  intros Hwf%bool_decide_eq_true. rewrite u16_of_be_eq, !to_N_byte_of_N.
  rewrite (N.mod_small (n / 256)) by (apply N.Div0.div_lt_upper_bound; lia).
  rewrite (N.mul_comm _ 256). symmetry. apply N.Div0.div_mod.
Qed.

Lemma u16_be_inv (hi lo : u8) : u16_to_be_bytes (u16_of_be hi lo) = [hi; lo].
Proof.
  unfold u16_to_be_bytes. rewrite u16_of_be_eq.
  pose proof (to_N_lt hi). pose proof (to_N_lt lo).
  assert ((Byte.to_N hi * 256 + Byte.to_N lo) / 256 = Byte.to_N hi)%N as ->.
  { symmetry. apply (N.div_unique _ 256 _ (Byte.to_N lo)); lia. }
  rewrite byte_of_to_N. do 2 f_equal. apply to_N_inj. rewrite to_N_byte_of_N.
  symmetry. apply (N.mod_unique _ 256 (Byte.to_N hi)); lia.
Qed.

(** ** Rust's [Result] *)

Inductive result (E A : Type) : Type :=
  | Ok (a : A)
  | Err (e : E).
Arguments Ok {E A} a.
Arguments Err {E A} e.

#[global] Instance result_eq_dec `{EqDecision E, EqDecision A} : EqDecision (result E A).
Proof. solve_decision. Defined.

#[global] Instance result_ret {E} : MRet (result E) := λ A a, Ok a.
#[global] Instance result_bind {E} : MBind (result E) := λ A B f r,
  match r with Ok a => f a | Err e => Err e end.
#[global] Instance result_fmap {E} : FMap (result E) := λ A B f r,
  match r with Ok a => Ok (f a) | Err e => Err e end.

Definition is_ok {E A} (r : result E A) : bool :=
  match r with Ok _ => true | Err _ => false end.
Definition map_err {E F A} (f : E → F) (r : result E A) : result F A :=
  match r with Ok a => Ok a | Err e => Err (f e) end.
Definition ok_or {E A} (o : option A) (e : E) : result E A :=
  match o with Some a => Ok a | None => Err e end.

Lemma result_bind_Ok {E A B} (r : result E A) (f : A → result E B) b :
  r ≫= f = Ok b ↔ ∃ a, r = Ok a ∧ f a = Ok b.
Proof. destruct r as [a|e]; simpl; naive_solver. Qed.

Lemma result_bind_Err {E A B} (r : result E A) (f : A → result E B) e :
  r ≫= f = Err e ↔ r = Err e ∨ ∃ a, r = Ok a ∧ f a = Err e.
Proof. destruct r as [a|e']; simpl; naive_solver. Qed.

Lemma ok_or_Ok {E A} (o : option A) (e : E) a : ok_or o e = Ok a ↔ o = Some a.
Proof. destruct o; simpl; naive_solver. Qed.

(** Inverts a chain of [?]-propagated results in the context. *)
Ltac inv_result :=
  repeat match goal with
  | H : (_ ≫= _) = Ok _ |- _ => apply result_bind_Ok in H as (? & ? & ?)
  | H : ok_or _ _ = Ok _ |- _ => apply ok_or_Ok in H
  | H : Ok _ = Err _ |- _ => discriminate H
  | H : Err _ = Ok _ |- _ => discriminate H
  | p : (_ * _)%type |- _ => destruct p
  | _ => progress simplify_eq/=
  end.

(** ** Fixed-size arrays *)

(** [<[u8; n]>::try_from(slice)]: exactly [n] bytes or nothing. *)
Fixpoint try_from_slice (n : nat) (l : list u8) : option (vec u8 n) :=
  match n, l with
  | 0, [] => Some [#]
  | S n, b :: l => v ← try_from_slice n l; Some (b ::: v)
  | _, _ => None
  end.

Lemma try_from_slice_Some n l (v : vec u8 n) :
  try_from_slice n l = Some v ↔ vec_to_list v = l.
Proof.
  revert l. induction v as [|b n v IH]; intros [|c l]; simpl.
  - done.
  - split; [done|]. intros [=].
  - split; [done|]. intros [=].
  - rewrite bind_Some. split.
    + intros (v' & Hv & [= -> Heq]). apply Eqdep_dec.inj_pair2_eq_dec in Heq; [subst|apply Nat.eq_dec]. f_equal. by apply IH.
    + intros [= -> Hl]. exists v. split; [by apply IH|done].
Qed.

Lemma try_from_slice_vec n (v : vec u8 n) : try_from_slice n (vec_to_list v) = Some v.
Proof. by apply try_from_slice_Some. Qed.

Lemma try_from_slice_is_Some n l : is_Some (try_from_slice n l) ↔ length l = n.
Proof.
  revert l. induction n as [|n IH]; intros [|b l]; simpl; try (split; [intros [??]|]; done).
  split.
  - intros [v Hv]. apply bind_Some in Hv as (w & Hw & _). f_equal. apply IH. eauto.
  - intros [= Hl]. apply IH in Hl as [w Hw]. rewrite Hw. simpl. eauto.
Qed.

Lemma try_from_slice_None n l : length l ≠ n → try_from_slice n l = None.
Proof.
  intros H. destruct (try_from_slice n l) as [v|] eqn:E; [|done].
  exfalso. apply H, try_from_slice_is_Some. eauto.
Qed.

#[global] Arguments try_from_slice : simpl never.
#[global] Arguments byte_of_N : simpl never.
#[global] Arguments usize_of_u8 : simpl never.
#[global] Arguments u8_of_usize : simpl never.
#[global] Arguments u16_of_be : simpl never.
#[global] Arguments u64_add : simpl never.
#[global] Arguments u64_sub : simpl never.

(** ** Reachability *)

(** An invariant of the steps holds of everything reachable. *)
Lemma rtc_invariant {A} (R : A → A → Prop) (I : A → Prop) x y :
  (∀ x y, R x y → I x → I y) → rtc R x y → I x → I y.
Proof. intros Hstep. induction 1; eauto. Qed.

(** ** Stable sorting and [min_by_key] *)

Section sort.
Context {A : Type} (le : A → A → bool).

Fixpoint insert_sorted (x : A) (l : list A) : list A :=
  match l with
  | [] => [x]
  | y :: l' => if le x y then x :: l else y :: insert_sorted x l'
  end.

(** [sort_by] is stable: equal elements keep their order. *)
Definition sort_by (l : list A) : list A := foldr insert_sorted [] l.

Lemma insert_sorted_perm x l : insert_sorted x l ≡ₚ x :: l.
Proof.
  induction l as [|y l IH]; simpl; [done|]. destruct (le x y); [done|].
  rewrite IH. constructor.
Qed.

Lemma sort_by_perm l : sort_by l ≡ₚ l.
Proof. induction l as [|x l IH]; simpl; [done|]. by rewrite insert_sorted_perm, IH. Qed.

Context (le_total : ∀ x y, le x y = false → le y x = true)
        (le_trans : ∀ x y z, le x y = true → le y z = true → le x z = true).

Lemma insert_sorted_sorted x l :
  StronglySorted (λ x y, le x y = true) l → StronglySorted (λ x y, le x y = true) (insert_sorted x l).
Proof using le_total le_trans.
  induction 1 as [|y l Hs IH Hall]; simpl; [by repeat constructor|].
  destruct (le x y) eqn:E.
  - constructor; [by constructor|]. constructor; [done|].
    eapply Forall_impl; [apply Hall|]. simpl. intros z. eauto.
  - constructor; [done|]. rewrite insert_sorted_perm. constructor; auto.
Qed.

Lemma sort_by_sorted l : StronglySorted (λ x y, le x y = true) (sort_by l).
Proof using le_total le_trans.
  induction l as [|x l IH]; simpl; [constructor|]. by apply insert_sorted_sorted.
Qed.
End sort.

(** [Iterator::min_by_key]: the first of the least elements. *)
Fixpoint min_by_key {A} (key : A → N) (l : list A) : option A :=
  match l with
  | [] => None
  | x :: l =>
      match min_by_key key l with
      | None => Some x
      | Some y => if (key y <? key x)%N then Some y else Some x
      end
  end.

Lemma min_by_key_None {A} (key : A → N) l : min_by_key key l = None ↔ l = [].
Proof. destruct l; simpl; [done|]. destruct (min_by_key key l); [case_match|]; done. Qed.

Lemma min_by_key_Some {A} (key : A → N) l x :
  min_by_key key l = Some x → x ∈ l ∧ ∀ y, y ∈ l → (key x ≤ key y)%N.
Proof.
  revert x. induction l as [|z l IH]; intros x; simpl; [done|].
  setoid_rewrite elem_of_cons. destruct (min_by_key key l) as [y|] eqn:E.
  - destruct (IH _ eq_refl) as [Hin Hmin].
    destruct (N.ltb_spec (key y) (key z)); intros [= <-]; split; auto.
    + intros y' [->|?]; [lia|auto].
    + intros y' [->|Hy']; [lia|]. specialize (Hmin _ Hy'). lia.
  - apply min_by_key_None in E as ->. intros [= <-]. split; [auto|].
    intros y' [->|H%not_elem_of_nil]; [lia|done].
Qed.

(** Wrap-around arithmetic by the defining equations of the quotients. *)
Ltac u64_lia :=
  unfold u64_add, u64_sub, u64_modulus in *; zify; Z.to_euclidean_division_equations; lia.

Lemma u64_add_comm a b : u64_add a b = u64_add b a.
Proof. unfold u64_add. by rewrite N.add_comm. Qed.

Lemma u64_add_assoc a b c : u64_add (u64_add a b) c = u64_add a (u64_add b c).
Proof.
  unfold u64_add. rewrite N.Div0.add_mod_idemp_l, N.Div0.add_mod_idemp_r. f_equal. lia.
Qed.

Lemma u64_add_S a n : u64_add a (N.of_nat (S n)) = u64_add (u64_add a 1) (N.of_nat n).
Proof. unfold u64_add. rewrite N.Div0.add_mod_idemp_l. f_equal. lia. Qed.

Lemma u64_of_nat_S n :
  (N.of_nat (S n) mod u64_modulus = u64_add (N.of_nat n mod u64_modulus) 1)%N.
Proof. unfold u64_add. rewrite N.Div0.add_mod_idemp_l. f_equal. lia. Qed.

Lemma u64_add_right_comm a b c : u64_add (u64_add a b) c = u64_add (u64_add a c) b.
Proof. rewrite !u64_add_assoc. f_equal. apply u64_add_comm. Qed.

Lemma StronglySorted_impl {A} (R S : A → A → Prop) l :
  (∀ x y, R x y → S x y) → StronglySorted R l → StronglySorted S l.
Proof. intros H. induction 1; constructor; [done|]. eapply Forall_impl; eauto. Qed.

(** A list ranked by a total order and cut at [k]: nothing that was cut ranks
    before something that was kept. *)
Lemma top_k {A} (le : A → A → bool) k (l : list A) :
  (∀ x y, le x y = false → le y x = true) →
  (∀ x y z, le x y = true → le y z = true → le x z = true) →
  length (firstn k (sort_by le l)) ≤ k ∧
  StronglySorted (λ x y, le x y = true) (firstn k (sort_by le l)) ∧
  ∃ rest, l ≡ₚ firstn k (sort_by le l) ++ rest ∧
          ∀ x y, x ∈ firstn k (sort_by le l) → y ∈ rest → le x y = true.
Proof.
  intros Htot Htr. pose proof (sort_by_sorted le Htot Htr l) as Hs.
  split_and!.
  - rewrite length_firstn. lia.
  - rewrite <- (firstn_skipn k (sort_by le l)) in Hs.
    by apply StronglySorted_app_1_l in Hs.
  - exists (skipn k (sort_by le l)). rewrite firstn_skipn, sort_by_perm. split; [done|].
    intros x y. rewrite <- (firstn_skipn k (sort_by le l)) in Hs.
    by apply (StronglySorted_app_1_elem_of (λ x y, le x y = true)).
Qed.

(** Sorting commutes with a map that preserves the order. *)
Lemma sort_by_fmap {A B} (leA : A → A → bool) (leB : B → B → bool) (f : A → B) l :
  (∀ x y, leB (f x) (f y) = leA x y) → sort_by leB (f <$> l) = f <$> sort_by leA l.
Proof.
  intros Hf.
  assert (∀ x l, insert_sorted leB (f x) (f <$> l) = f <$> insert_sorted leA x l) as Hins.
  { intros x l'. induction l' as [|y l' IH]; [done|].
    rewrite fmap_cons. cbn [insert_sorted]. rewrite Hf. destruct (leA x y); [done|].
    by rewrite IH. }
  unfold sort_by. induction l as [|x l IH]; [done|]. rewrite fmap_cons. cbn [foldr].
  by rewrite IH, Hins.
Qed.
