(* ===== verification/Fmt.v ===== *)
(** * Strings and formatting

    Rust strings are [string]s, that is their UTF-8 bytes; [as_bytes] is the
    conversion.  The [format!] directives the proxy uses ([{}] on unsigned
    integers, [{:x}], [{:02x}], [{:016x}]) and the facts about the characters
    they produce. *)
From Stdlib Require Export Ascii.
From stdpp Require Export pretty.
From S2P Require Import Prelude.

Definition as_bytes (s : string) : list u8 := String.list_byte_of_string s.
Definition of_bytes (l : list u8) : string := String.string_of_list_byte l.

Lemma as_bytes_of_bytes l : as_bytes (of_bytes l) = l.
Proof. apply String.list_byte_of_string_of_list_byte. Qed.

Lemma of_bytes_as_bytes s : of_bytes (as_bytes s) = s.
Proof. apply String.string_of_list_byte_of_string. Qed.

Lemma as_bytes_cons c s : as_bytes (String c s) = byte_of_ascii c :: as_bytes s.
Proof. done. Qed.

Lemma as_bytes_app s t : as_bytes (s +:+ t) = as_bytes s ++ as_bytes t.
Proof.
  induction s as [|c s IH]; [done|].
  change (String c s +:+ t) with (String c (s +:+ t)). by rewrite !as_bytes_cons, IH.
Qed.

Lemma as_bytes_inj s t : as_bytes s = as_bytes t → s = t.
Proof. intros H. rewrite <- (of_bytes_as_bytes s), <- (of_bytes_as_bytes t). by rewrite H. Qed.

Definition char_from (b : u8) : string := String (ascii_of_byte b) "".

Lemma as_bytes_char_from b : as_bytes (char_from b) = [b].
Proof. unfold char_from. by rewrite as_bytes_cons, byte_of_ascii_of_byte. Qed.

Definition hex_digit (n : N) : ascii :=
  default "0"%char (String.get (N.to_nat n) "0123456789abcdef").

(** The [k] low hexadecimal digits, most significant first: [{:0kx}]. *)
Fixpoint hex_fixed (k : nat) (n : N) : string :=
  match k with
  | 0 => ""
  | S k => hex_fixed k (n / 16) +:+ String (hex_digit (n mod 16)) ""
  end.

Fixpoint strip_zeros (s : string) : string :=
  match s with
  | String "0" (String _ _ as s') => strip_zeros s'
  | _ => s
  end.

(** [{:x}] of a [u16]. *)
Definition hex_u16 (n : u16) : string := strip_zeros (hex_fixed 4 n).

(** [{}] of an unsigned integer. *)
Definition dec (n : N) : string := pretty n.

Fixpoint join (sep : string) (l : list string) : string :=
  match l with
  | [] => ""
  | [s] => s
  | s :: l => s +:+ sep +:+ join sep l
  end.

(** ** Characters of the results *)

Definition all_chars (P : u8 → bool) (s : string) : bool := forallb P (as_bytes s).

Section all_chars.
Context (P : u8 → bool).

Lemma all_chars_app s t : all_chars P (s +:+ t) = all_chars P s && all_chars P t.
Proof. unfold all_chars. by rewrite as_bytes_app, forallb_app. Qed.

Lemma all_chars_String c s : all_chars P (String c s) = P (byte_of_ascii c) && all_chars P s.
Proof. done. Qed.

Lemma all_chars_strip s : all_chars P s = true → all_chars P (strip_zeros s) = true.
Proof.
  induction s as [|c s IH]; [done|]. intros H. rewrite all_chars_String in H.
  apply andb_prop in H as [Hc Hs]. simpl.
  repeat case_match; try (rewrite all_chars_String, Hc; done); auto.
Qed.

Lemma all_chars_join sep l :
  all_chars P sep = true → Forall (λ s, all_chars P s = true) l → all_chars P (join sep l) = true.
Proof.
  intros Hsep. induction 1 as [|s l Hs Hl IH]; [done|]. simpl.
  destruct l; [done|]. by rewrite !all_chars_app, Hs, Hsep, IH.
Qed.
End all_chars.

Definition is_hex_char (b : u8) : bool :=
  let n := Byte.to_N b in ((48 <=? n) && (n <=? 57) || (97 <=? n) && (n <=? 102))%N.
Definition is_digit (b : u8) : bool :=
  let n := Byte.to_N b in ((48 <=? n) && (n <=? 57))%N.

Lemma hex_digit_char n : is_hex_char (byte_of_ascii (hex_digit n)) = true.
Proof.
  unfold hex_digit. generalize (N.to_nat n) as k. intros k.
  do 16 (destruct k as [|k]; [reflexivity|]). by destruct k.
Qed.

Lemma hex_fixed_chars k n : all_chars is_hex_char (hex_fixed k n) = true.
Proof.
  revert n. induction k as [|k IH]; intros n; [done|]. simpl.
  by rewrite all_chars_app, IH, all_chars_String, hex_digit_char.
Qed.

Lemma pretty_N_go_chars x s : all_chars is_digit s = true → all_chars is_digit (pretty_N_go x s) = true.
Proof.
  revert s. induction (N.lt_wf_0 x) as [x _ IH]; intros s Hs.
  destruct (decide (x = 0)%N) as [->|Hx]; [done|].
  rewrite pretty_N_go_step by lia. apply IH; [apply N.div_lt; lia|].
  rewrite all_chars_String, Hs, andb_true_r.
  unfold pretty_N_char. by repeat case_match.
Qed.

Lemma dec_chars n : all_chars is_digit (dec n) = true.
Proof. unfold dec, pretty, pretty_N. case_decide; [done|]. by apply pretty_N_go_chars. Qed.

Lemma dec_inj n m : dec n = dec m → n = m.
Proof. apply (inj pretty). Qed.

Lemma all_chars_impl (P Q : u8 → bool) s :
  (∀ b, P b = true → Q b = true) → all_chars P s = true → all_chars Q s = true.
Proof. unfold all_chars. rewrite !forallb_forall. auto. Qed.

#[global] Arguments hex_fixed : simpl never.
#[global] Arguments dec : simpl never.
#[global] Arguments strip_zeros : simpl never.
