(* ===== verification/Utf8.v ===== *)
(** * UTF-8 as the standard library decodes it

    [str::from_utf8], [String::from_utf8_lossy] and the scalar values of a
    string.  A [&str] is handled as its list of scalar values, [encode] gives
    its bytes back. *)
From S2P Require Import Prelude Fmt.

(** ** Decoding *)

Definition is_cont (b : u8) : bool := ((128 <=? Byte.to_N b) && (Byte.to_N b <? 192))%N.

(** The second bytes allowed after a lead byte of three or four. *)
Definition second_ok (lead second : N) : bool :=
  (if lead =? 224 then (160 <=? second) && (second <? 192)
   else if lead =? 237 then (128 <=? second) && (second <? 160)
   else if lead =? 240 then (144 <=? second) && (second <? 192)
   else if lead =? 244 then (128 <=? second) && (second <? 144)
   else (128 <=? second) && (second <? 192))%N.

(** One scalar value and its length, or the length of a malformed sequence. *)
Inductive decoded := Char (c : N) (len : nat) | Bad (len : nat).

Definition low6 (b : u8) : N := (Byte.to_N b - 128)%N.

Definition decode_multi (n : N) (r : list u8) : decoded :=
  if (n <? 194)%N then Bad 1
  else if (n <? 224)%N then
    match r with
    | c1 :: _ => if is_cont c1 then Char ((n - 192) * 64 + low6 c1) 2 else Bad 1
    | [] => Bad 1
    end
  else if (n <? 240)%N then
    match r with
    | c1 :: r =>
        if second_ok n (Byte.to_N c1) then
          match r with
          | c2 :: _ => if is_cont c2 then Char ((n - 224) * 4096 + low6 c1 * 64 + low6 c2) 3 else Bad 2
          | [] => Bad 2
          end
        else Bad 1
    | [] => Bad 1
    end
  else if (n <? 245)%N then
    match r with
    | c1 :: r =>
        if second_ok n (Byte.to_N c1) then
          match r with
          | c2 :: r =>
              if is_cont c2 then
                match r with
                | c3 :: _ =>
                    if is_cont c3
                    then Char ((n - 240) * 262144 + low6 c1 * 4096 + low6 c2 * 64 + low6 c3) 4
                    else Bad 3
                | [] => Bad 3
                end
              else Bad 2
          | [] => Bad 2
          end
        else Bad 1
    | [] => Bad 1
    end
  else Bad 1.

Definition decode1 (b : u8) (r : list u8) : decoded :=
  if (Byte.to_N b <? 128)%N then Char (Byte.to_N b) 1 else decode_multi (Byte.to_N b) r.

(** The fuel is the length: every step consumes at least a byte. *)
Fixpoint from_utf8_go (fuel : nat) (l : list u8) : option (list N) :=
  match l with
  | [] => Some []
  | b :: r =>
      match fuel with
      | 0 => None
      | S fuel =>
          match decode1 b r with
          | Char c len => cons c <$> from_utf8_go fuel (skipn len l)
          | Bad _ => None
          end
      end
  end.

(** [str::from_utf8(l).ok()]. *)
Definition from_utf8 (l : list u8) : option (list N) := from_utf8_go (length l) l.

Definition REPLACEMENT : list u8 := [xef; xbf; xbd].

Fixpoint lossy_go (fuel : nat) (l : list u8) : list u8 :=
  match l, fuel with
  | b :: r, S fuel =>
      match decode1 b r with
      | Char _ len => firstn len l ++ lossy_go fuel (skipn len l)
      | Bad len => REPLACEMENT ++ lossy_go fuel (skipn len l)
      end
  | _, _ => []
  end.

(** [String::from_utf8_lossy(l)], as bytes. *)
Definition from_utf8_lossy (l : list u8) : list u8 := lossy_go (length l) l.

(** ** Encoding *)

Definition encode_char (c : N) : list u8 :=
  if (c <? 128)%N then [byte_of_N c]
  else if (c <? 2048)%N then [byte_of_N (192 + c / 64); byte_of_N (128 + c mod 64)]
  else if (c <? 65536)%N then
    [byte_of_N (224 + c / 4096); byte_of_N (128 + (c / 64) mod 64); byte_of_N (128 + c mod 64)]
  else
    [byte_of_N (240 + c / 262144); byte_of_N (128 + (c / 4096) mod 64);
     byte_of_N (128 + (c / 64) mod 64); byte_of_N (128 + c mod 64)].

Definition encode (s : list N) : list u8 := flat_map encode_char s.

Definition is_ascii (b : u8) : bool := (Byte.to_N b <? 128)%N.

(** ** Facts *)

Lemma decode1_len b r : match decode1 b r with Char _ n | Bad n => 1 ≤ n end.
Proof. unfold decode1, decode_multi. repeat case_match; simplify_eq; lia. Qed.

Lemma byte_of_N_eq (b : u8) n : n = Byte.to_N b → byte_of_N n = b.
Proof. intros ->. apply byte_of_to_N. Qed.

(** Division facts by the defining inequalities, for the decoders below. *)
Ltac div_lia := zify; Z.to_euclidean_division_equations; lia.

Ltac utf8_bounds :=
  unfold is_cont, low6 in *;
  repeat match goal with
  | b : u8 |- _ => lazymatch goal with
                   | _ : (Byte.to_N b < 256)%N |- _ => fail
                   | |- _ => pose proof (to_N_lt b)
                   end
  end.

Lemma second_ok_cont n c : second_ok n (Byte.to_N c) = true → is_cont c = true.
Proof. unfold second_ok, is_cont. repeat case_match; lia. Qed.

Lemma second_ok_e0 n c : second_ok n (Byte.to_N c) = true → (n = 224 → 160 ≤ Byte.to_N c)%N.
Proof. unfold second_ok. intros H ->. simpl in H. lia. Qed.

Lemma second_ok_f0 n c : second_ok n (Byte.to_N c) = true → (n = 240 → 144 ≤ Byte.to_N c)%N.
Proof. unfold second_ok. intros H ->. simpl in H. lia. Qed.

Lemma encode_2 b c1 :
  (194 ≤ Byte.to_N b < 224)%N → is_cont c1 = true →
  encode_char ((Byte.to_N b - 192) * 64 + low6 c1) = [b; c1].
Proof.
  intros Hb H1. unfold encode_char. utf8_bounds.
  destruct (N.ltb_spec ((Byte.to_N b - 192) * 64 + (Byte.to_N c1 - 128)) 128); [lia|].
  destruct (N.ltb_spec ((Byte.to_N b - 192) * 64 + (Byte.to_N c1 - 128)) 2048); [|lia].
  repeat f_equal; apply byte_of_N_eq; div_lia.
Qed.

Lemma encode_3 b c1 c2 :
  (224 ≤ Byte.to_N b < 240)%N → second_ok (Byte.to_N b) (Byte.to_N c1) = true → is_cont c2 = true →
  encode_char ((Byte.to_N b - 224) * 4096 + low6 c1 * 64 + low6 c2) = [b; c1; c2].
Proof.
  intros Hb Hs H2. pose proof (second_ok_cont _ _ Hs). pose proof (second_ok_e0 _ _ Hs).
  unfold encode_char. utf8_bounds.
  set (v := ((Byte.to_N b - 224) * 4096 + (Byte.to_N c1 - 128) * 64 + (Byte.to_N c2 - 128))%N).
  assert (v = (Byte.to_N b - 224) * 4096 + (Byte.to_N c1 - 128) * 64 + (Byte.to_N c2 - 128))%N
    as Hv by done. clearbody v.
  destruct (N.ltb_spec v 128); [lia|]. destruct (N.ltb_spec v 2048); [lia|].
  destruct (N.ltb_spec v 65536); [|lia].
  repeat f_equal; apply byte_of_N_eq; div_lia.
Qed.

Lemma encode_4 b c1 c2 c3 :
  (240 ≤ Byte.to_N b < 245)%N → second_ok (Byte.to_N b) (Byte.to_N c1) = true →
  is_cont c2 = true → is_cont c3 = true →
  encode_char ((Byte.to_N b - 240) * 262144 + low6 c1 * 4096 + low6 c2 * 64 + low6 c3)
  = [b; c1; c2; c3].
Proof.
  intros Hb Hs H2 H3. pose proof (second_ok_cont _ _ Hs). pose proof (second_ok_f0 _ _ Hs).
  unfold encode_char. utf8_bounds.
  set (v := ((Byte.to_N b - 240) * 262144 + (Byte.to_N c1 - 128) * 4096 +
             (Byte.to_N c2 - 128) * 64 + (Byte.to_N c3 - 128))%N).
  assert (v = (Byte.to_N b - 240) * 262144 + (Byte.to_N c1 - 128) * 4096 +
             (Byte.to_N c2 - 128) * 64 + (Byte.to_N c3 - 128))%N as Hv by done. clearbody v.
  destruct (N.ltb_spec v 128); [lia|]. destruct (N.ltb_spec v 2048); [lia|].
  destruct (N.ltb_spec v 65536); [lia|].
  repeat f_equal; apply byte_of_N_eq; div_lia.
Qed.

Lemma decode1_encode b r c len :
  decode1 b r = Char c len → firstn len (b :: r) = encode_char c ∧ len = length (encode_char c).
Proof.
  unfold decode1, decode_multi. destruct (N.ltb_spec (Byte.to_N b) 128) as [Hb|Hb].
  { intros [= <- <-]. unfold encode_char. destruct (N.ltb_spec (Byte.to_N b) 128); [|lia].
    simpl. by rewrite byte_of_to_N. }
  destruct (N.ltb_spec (Byte.to_N b) 194), (N.ltb_spec (Byte.to_N b) 224),
    (N.ltb_spec (Byte.to_N b) 240), (N.ltb_spec (Byte.to_N b) 245); try lia; try done;
    intros Hd; repeat (case_match; try discriminate Hd); injection Hd as <- <-.
  - by rewrite encode_2.
  - by rewrite encode_3.
  - by rewrite encode_4.
Qed.

(** A decoded string encodes back to its bytes. *)
Lemma from_utf8_encode l s : from_utf8 l = Some s → encode s = l.
Proof.
  unfold from_utf8. generalize (length l) as fuel. intros fuel. revert l s.
  induction fuel as [|fuel IH]; intros [|b r] s; simpl; try (by intros [= <-]).
  destruct (decode1 b r) as [c len|len] eqn:E; [|done].
  intros (s' & Hs & ->)%fmap_Some. destruct (decode1_encode _ _ _ _ E) as [Hf Hlen].
  apply IH in Hs. simpl. rewrite Hs, <- Hf. apply firstn_skipn.
Qed.

Lemma from_utf8_inj l k s : from_utf8 l = Some s → from_utf8 k = Some s → l = k.
Proof. intros H1%from_utf8_encode H2%from_utf8_encode. congruence. Qed.

(** Well-formed input is left alone by the lossy conversion. *)
Lemma from_utf8_lossy_valid l : is_Some (from_utf8 l) → from_utf8_lossy l = l.
Proof.
  unfold from_utf8, from_utf8_lossy. generalize (length l) as fuel. intros fuel. revert l.
  induction fuel as [|fuel IH]; intros [|b r]; simpl; [done|by intros [? ?]|done|].
  destruct (decode1 b r) as [c len|len]; [|by intros [? ?]].
  intros [s (s1 & Hs & _)%fmap_Some]. rewrite IH by (by exists s1). apply firstn_skipn.
Qed.

Lemma from_utf8_ascii l : forallb is_ascii l = true → from_utf8 l = Some (Byte.to_N <$> l).
Proof.
  unfold from_utf8. induction l as [|b l IH]; simpl; [done|]. intros [Hb Hl]%andb_prop.
  unfold decode1. unfold is_ascii in Hb. rewrite Hb. simpl. rewrite drop_0, IH by done. done.
Qed.

(** The other way: a scalar value is read back from its bytes. *)
Definition is_scalar (c : N) : bool := ((c <? 55296) || (57344 <=? c) && (c <? 1114112))%N.

Lemma to_N_small n : (n < 256)%N → Byte.to_N (byte_of_N n) = n.
Proof. intros H. rewrite to_N_byte_of_N. by apply N.mod_small. Qed.

Lemma is_cont_low n : (n < 64)%N → is_cont (byte_of_N (128 + n)) = true ∧ low6 (byte_of_N (128 + n)) = n.
Proof. intros H. unfold is_cont, low6. rewrite to_N_small by lia. lia. Qed.

Lemma decode_2 c r :
  (128 ≤ c < 2048)%N → decode1 (byte_of_N (192 + c / 64)) (byte_of_N (128 + c mod 64) :: r) = Char c 2.
Proof.
  intros Hc. destruct (is_cont_low (c mod 64)) as [Hk Hl]; [div_lia|].
  assert (194 ≤ 192 + c / 64 < 224)%N by div_lia. unfold decode1, decode_multi. rewrite Hk, Hl.
  rewrite to_N_small by lia. repeat (case_match; try lia). f_equal. div_lia.
Qed.

Lemma decode_3 c r :
  (2048 ≤ c < 65536)%N → is_scalar c = true →
  decode1 (byte_of_N (224 + c / 4096))
    (byte_of_N (128 + (c / 64) mod 64) :: byte_of_N (128 + c mod 64) :: r) = Char c 3.
Proof.
  intros Hc Hs. unfold is_scalar in Hs.
  destruct (is_cont_low (c mod 64)) as [Hk Hl]; [div_lia|].
  destruct (is_cont_low ((c / 64) mod 64)) as [_ Hl']; [div_lia|].
  assert (224 ≤ 224 + c / 4096 < 240)%N by div_lia.
  assert (second_ok (224 + c / 4096) (128 + (c / 64) mod 64) = true) as Hok
    by (unfold second_ok; repeat case_match; div_lia).
  unfold decode1, decode_multi. rewrite Hk, Hl, Hl'.
  rewrite !to_N_small by div_lia. rewrite Hok. repeat (case_match; try lia). f_equal. div_lia.
Qed.

Lemma decode_4 c r :
  (65536 ≤ c)%N → is_scalar c = true →
  decode1 (byte_of_N (240 + c / 262144))
    (byte_of_N (128 + (c / 4096) mod 64) :: byte_of_N (128 + (c / 64) mod 64) ::
     byte_of_N (128 + c mod 64) :: r) = Char c 4.
Proof.
  intros Hc Hs. unfold is_scalar in Hs.
  destruct (is_cont_low (c mod 64)) as [Hk Hl]; [div_lia|].
  destruct (is_cont_low ((c / 64) mod 64)) as [Hk' Hl']; [div_lia|].
  destruct (is_cont_low ((c / 4096) mod 64)) as [_ Hl'']; [div_lia|].
  assert (240 ≤ 240 + c / 262144 < 245)%N by div_lia.
  assert (second_ok (240 + c / 262144) (128 + (c / 4096) mod 64) = true) as Hok
    by (unfold second_ok; repeat case_match; div_lia).
  unfold decode1, decode_multi. rewrite Hk, Hk', Hl, Hl', Hl''.
  rewrite !to_N_small by div_lia. rewrite Hok. repeat (case_match; try lia). f_equal. div_lia.
Qed.

Lemma decode1_char c : is_scalar c = true →
  ∃ b r, encode_char c = b :: r ∧ ∀ l, decode1 b (r ++ l) = Char c (S (length r)).
Proof.
  intros Hs. unfold encode_char. destruct (N.ltb_spec c 128).
  { eexists _, []. split; [done|]. intros l. unfold decode1. rewrite to_N_small by lia.
    by rewrite (proj2 (N.ltb_lt c 128)). }
  destruct (N.ltb_spec c 2048); [|destruct (N.ltb_spec c 65536)]; (eexists _, _; split; [done|]);
    intros l; simpl.
  - by apply decode_2.
  - by apply decode_3.
  - by apply decode_4.
Qed.

Lemma from_utf8_go_encode s fuel :
  Forall (λ c, is_scalar c = true) s → length (encode s) ≤ fuel →
  from_utf8_go fuel (encode s) = Some s.
Proof.
  intros Hs. revert fuel. induction Hs as [|c s Hc _ IH]; intros fuel Hf; [by destruct fuel|].
  destruct (decode1_char c Hc) as (b & r & E & Hd). change (encode (c :: s)) with (encode_char c ++ encode s) in *.
  rewrite E in *. simpl in *. destruct fuel as [|fuel]; [lia|]. simpl. rewrite Hd. simpl.
  rewrite drop_app_length, IH by (rewrite length_app in Hf; lia). done.
Qed.

Lemma encode_from_utf8 s : Forall (λ c, is_scalar c = true) s → from_utf8 (encode s) = Some s.
Proof. intros Hs. by apply from_utf8_go_encode. Qed.

Lemma encode_app s t : encode (s ++ t) = encode s ++ encode t.
Proof. apply flat_map_app. Qed.

(** Only a line feed is written as one. *)
Lemma encode_char_control c b : b ∈ encode_char c → (Byte.to_N b < 128)%N → (c < 128)%N → Byte.to_N b = c.
Proof.
  intros Hb _ Hc. unfold encode_char in Hb. rewrite (proj2 (N.ltb_lt c 128)) in Hb by done.
  apply list_elem_of_singleton in Hb as ->. apply to_N_small. lia.
Qed.

Lemma encode_char_high c b : is_scalar c = true → b ∈ encode_char c → (128 ≤ c)%N → (128 ≤ Byte.to_N b)%N.
Proof.
  intros Hs Hb Hc. unfold encode_char, is_scalar in *. destruct (N.ltb_spec c 128); [lia|].
  destruct (N.ltb_spec c 2048); [|destruct (N.ltb_spec c 65536)];
    repeat (apply elem_of_cons in Hb as [->|Hb]; [rewrite to_N_small; div_lia|]);
    by apply elem_of_nil in Hb.
Qed.

Lemma encode_ascii s b :
  Forall (λ c, is_scalar c = true) s → b ∈ encode s → (Byte.to_N b < 128)%N → Byte.to_N b ∈ s.
Proof.
  intros Hs Hb Hlt. unfold encode in Hb. apply list_elem_of_In, in_flat_map in Hb as (c & Hc & Hb).
  apply list_elem_of_In in Hc, Hb. apply (list.Forall_forall _ s) with (x := c) in Hs; [|done].
  destruct (N.lt_ge_cases c 128) as [Hl|Hl].
  - by rewrite (encode_char_control _ _ Hb Hlt Hl).
  - pose proof (encode_char_high _ _ Hs Hb Hl). lia.
Qed.

Example lossy_example :
  from_utf8_lossy [x61; xff; xe2; x82; x62; xe2; x82; xac] =
  [x61] ++ REPLACEMENT ++ REPLACEMENT ++ [x62; xe2; x82; xac].
Proof. vm_compute. reflexivity. Qed.

#[global] Arguments from_utf8 : simpl never.
#[global] Arguments from_utf8_lossy : simpl never.
