(* ===== verification/Types.v ===== *)
(** * Data of the proxy ([src/src/lib.rs], the declarations)

    The protocol constants, the enumerations of RFC 1928 with the bytes they
    are cast to, the addresses, the error types and the functions that classify
    and map errors.  The standard library's [io::Error] and [SocketAddr] are
    written out with the fields the proxy reads. *)
From S2P Require Import Prelude Fmt.

(** ** Constants *)

Definition SOCKS_VERSION : u8 := x05.
Definition RESERVED : u8 := x00.

(** A [Duration], in nanoseconds. *)
Abbreviation Duration := N (only parsing).
Definition from_secs (s : N) : Duration := (s * 1000000000)%N.
Definition from_millis (ms : N) : Duration := (ms * 1000000)%N.
Definition as_secs (d : Duration) : N := (d / 1000000000)%N.

Definition DEFAULT_CONNECT_TIMEOUT : Duration := from_secs 30.
Definition CONNECT_ATTEMPT_DELAY : Duration := from_millis 250.
Definition LIVE_RELAY_INTERVAL : Duration := from_millis 250.
Definition RELAY_BUF_SIZE : usize := 8 * 1024.
Definition DEFAULT_MAX_CONNECTIONS : usize := 1024.
Definition DEFAULT_HANDSHAKE_TIMEOUT : Duration := from_secs 30.
Definition DEFAULT_DNS_CACHE_TTL : Duration := from_secs 60.
Definition DEFAULT_DNS_CACHE_ENTRIES : usize := 1024.

(** ** [std::io::Error] *)

Module ErrorKind.
Inductive t : Type :=
  | NotFound | PermissionDenied | ConnectionRefused | ConnectionReset
  | HostUnreachable | NetworkUnreachable | ConnectionAborted | NotConnected
  | AddrInUse | AddrNotAvailable | NetworkDown | BrokenPipe | AlreadyExists
  | WouldBlock | InvalidInput | InvalidData | TimedOut | WriteZero
  | Interrupted | Unsupported | UnexpectedEof | OutOfMemory | Other.

#[global] Instance eq_dec : EqDecision t.
Proof. solve_decision. Defined.
End ErrorKind.

(** The kind drives every decision of the proxy; the message only reaches the
    log. *)
Record io_error := io_Error_new { io_kind : ErrorKind.t; io_msg : string }.

#[global] Instance io_error_eq_dec : EqDecision io_error.
Proof. solve_decision. Defined.

(** ** [std::net] addresses *)

Abbreviation Ipv4Addr := (vec u8 4).
Abbreviation Ipv6Addr := (vec u8 16).

Inductive IpAddr : Type :=
  | IpV4 (a : Ipv4Addr)
  | IpV6 (a : Ipv6Addr).

#[global] Instance IpAddr_eq_dec : EqDecision IpAddr.
Proof. solve_decision. Defined.

(** The instance of the library does not evaluate, and with it no map keyed by
    addresses. *)
Fixpoint vec_of_list {A} (n : nat) (l : list A) : option (vec A n) :=
  match n, l with
  | 0, _ => Some vnil
  | S n, x :: l => vcons x <$> vec_of_list n l
  | S _, [] => None
  end.

Lemma vec_of_list_to_list {A n} (v : vec A n) : vec_of_list n (vec_to_list v) = Some v.
Proof. induction v as [|x n v IH]; [done|]. simpl. by rewrite IH. Qed.

#[global] Instance vec_bytes_countable n : Countable (vec u8 n) :=
  inj_countable vec_to_list (vec_of_list n) vec_of_list_to_list.

#[global] Instance IpAddr_countable : Countable IpAddr :=
  inj_countable' (λ ip, match ip with IpV4 a => inl a | IpV6 a => inr a end)
    (λ s, match s with inl a => IpV4 a | inr a => IpV6 a end)
    ltac:(by intros []).

Inductive SocketAddr : Type :=
  | SockV4 (ip : Ipv4Addr) (port : u16)
  | SockV6 (ip : Ipv6Addr) (port : u16) (flowinfo scope_id : u32).

#[global] Instance SocketAddr_eq_dec : EqDecision SocketAddr.
Proof. solve_decision. Defined.

#[global] Instance SocketAddr_countable : Countable SocketAddr :=
  inj_countable'
    (λ a, match a with SockV4 i p => inl (i, p) | SockV6 i p f s => inr (i, p, f, s) end)
    (λ s, match s with inl (i, p) => SockV4 i p | inr (i, p, f, s) => SockV6 i p f s end)
    ltac:(by intros []).

Definition sock_ip (a : SocketAddr) : IpAddr :=
  match a with SockV4 ip _ => IpV4 ip | SockV6 ip _ _ _ => IpV6 ip end.

Definition sock_port (a : SocketAddr) : u16 :=
  match a with SockV4 _ p => p | SockV6 _ p _ _ => p end.

(** [SocketAddr::new(ip, port)]. *)
Definition SocketAddr_new (ip : IpAddr) (port : u16) : SocketAddr :=
  match ip with IpV4 a => SockV4 a port | IpV6 a => SockV6 a port 0 0 end.

Definition ip_octets (ip : IpAddr) : list u8 :=
  match ip with IpV4 a => vec_to_list a | IpV6 a => vec_to_list a end.

Definition UNSPECIFIED_V4 : Ipv4Addr := [# x00; x00; x00; x00].

Definition is_unspecified (ip : IpAddr) : bool :=
  forallb (λ b, bool_decide (b = x00)) (ip_octets ip).

(** [Ipv6Addr::segments]. *)
Fixpoint segments (octets : list u8) : list u16 :=
  match octets with
  | hi :: lo :: rest => u16_of_be hi lo :: segments rest
  | _ => []
  end.

(** [Display] for addresses: dotted quads, and RFC 5952 for IPv6 (the longest
    run of at least two zero segments is compressed, a mapped IPv4 address is
    shown as such). *)
Definition ipv4_to_string (octets : list u8) : string :=
  join "." ((λ b, dec (Byte.to_N b)) <$> octets).

Fixpoint zero_run (i : nat) (segs : list u16) (cur longest : nat * nat) : nat * nat :=
  match segs with
  | [] => longest
  | seg :: segs =>
      if (seg =? 0)%N then
        let cur := (if cur.2 =? 0 then i else cur.1, S cur.2) in
        zero_run (S i) segs cur (if longest.2 <? cur.2 then cur else longest)
      else zero_run (S i) segs (0, 0) longest
  end.

Definition fmt_segments (segs : list u16) : string := join ":" (hex_u16 <$> segs).

Definition ipv6_to_string (a : Ipv6Addr) : string :=
  let octets := vec_to_list a in
  if forallb (λ b, bool_decide (b = x00)) (firstn 10 octets) &&
     bool_decide (firstn 2 (skipn 10 octets) = [xff; xff])
  then "::ffff:" +:+ ipv4_to_string (skipn 12 octets)
  else
    let segs := segments octets in
    let '(start, len) := zero_run 0 segs (0, 0) (0, 0) in
    if 1 <? len then
      fmt_segments (firstn start segs) +:+ "::" +:+ fmt_segments (skipn (start + len) segs)
    else fmt_segments segs.

Definition SocketAddr_to_string (a : SocketAddr) : string :=
  match a with
  | SockV4 ip port => ipv4_to_string (vec_to_list ip) +:+ ":" +:+ dec port
  | SockV6 ip port _ scope_id =>
      "[" +:+ ipv6_to_string ip +:+
      (if (scope_id =? 0)%N then "" else "%" +:+ dec scope_id) +:+ "]:" +:+ dec port
  end.

Example to_string_v6 :
  SocketAddr_to_string
    (SockV6 [# x20; x01; x0d; xb8; x00; x00; x00; x00; x00; x00; x00; x00; x00; x00; x00; x01] 443 0 0)
  = "[2001:db8::1]:443".
Proof. vm_compute. reflexivity. Qed.

(** ** [User] *)

Record User := { username : string; password : string }.

(** [User::new]: what its arguments turn [into] are strings. *)
Definition User_new (username password : string) : User :=
  {| username := username; password := password |}.

#[global] Instance User_eq_dec : EqDecision User.
Proof. solve_decision. Defined.

(** ** RFC 1928 enumerations *)

Inductive ResponseCode : Type :=
  | Success | Failure | RuleFailure | NetworkUnreachable | HostUnreachable
  | ConnectionRefused | TtlExpired | CommandNotSupported | AddrTypeNotSupported.

#[global] Instance ResponseCode_eq_dec : EqDecision ResponseCode.
Proof. solve_decision. Defined.

Definition ResponseCode_as_u8 (c : ResponseCode) : u8 :=
  match c with
  | Success => x00 | Failure => x01 | RuleFailure => x02
  | NetworkUnreachable => x03 | HostUnreachable => x04
  | ConnectionRefused => x05 | TtlExpired => x06
  | CommandNotSupported => x07 | AddrTypeNotSupported => x08
  end.

Inductive AddrType : Type := V4 | Domain | V6.

#[global] Instance AddrType_eq_dec : EqDecision AddrType.
Proof. solve_decision. Defined.

Definition AddrType_as_u8 (t : AddrType) : u8 :=
  match t with V4 => x01 | Domain => x03 | V6 => x04 end.

Definition AddrType_from (n : usize) : option AddrType :=
  match n with
  | 1 => Some V4
  | 3 => Some Domain
  | 4 => Some V6
  | _ => None
  end.

Inductive SockCommand : Type := Connect | Bind | UdpAssosiate.

#[global] Instance SockCommand_eq_dec : EqDecision SockCommand.
Proof. solve_decision. Defined.

Definition SockCommand_as_u8 (c : SockCommand) : u8 :=
  match c with Connect => x01 | Bind => x02 | UdpAssosiate => x03 end.

Definition SockCommand_from (n : usize) : option SockCommand :=
  match n with
  | 1 => Some Connect
  | 2 => Some Bind
  | 3 => Some UdpAssosiate
  | _ => None
  end.

Inductive AuthMethods : Type := NoAuth | UserPass | NoMethods.

Definition AuthMethods_as_u8 (m : AuthMethods) : u8 :=
  match m with NoAuth => x00 | UserPass => x02 | NoMethods => xff end.

(** ** [MerinoError] *)

Inductive MerinoError : Type :=
  | Io (e : io_error)
  | Socks (c : ResponseCode).

#[global] Instance MerinoError_eq_dec : EqDecision MerinoError.
Proof. solve_decision. Defined.

(** [impl From<MerinoError> for ResponseCode]. *)
Definition ResponseCode_from (e : MerinoError) : ResponseCode :=
  match e with
  | Socks c => c
  | Io _ => Failure
  end.

Definition truncated : MerinoError := Io (io_Error_new ErrorKind.UnexpectedEof "truncated SOCKS message").

(** ** Error classification and mapping *)

Definition is_disconnect_kind (kind : ErrorKind.t) : bool :=
  match kind with
  | ErrorKind.UnexpectedEof | ErrorKind.ConnectionReset | ErrorKind.ConnectionAborted | ErrorKind.BrokenPipe => true
  | _ => false
  end.

Definition is_client_disconnect (error : MerinoError) : bool :=
  match error with
  | Io io => is_disconnect_kind (io_kind io)
  | _ => false
  end.

Definition is_connection_failure (error : MerinoError) : bool :=
  match error with
  | Io io => bool_decide (io_kind io = ErrorKind.TimedOut)
  | Socks (NetworkUnreachable | HostUnreachable | ConnectionRefused | TtlExpired) => true
  | _ => false
  end.

Definition connect_timeout_error : MerinoError := Socks TtlExpired.

Definition dns_failure_error : MerinoError := Socks HostUnreachable.

Definition connect_error (error : io_error) : MerinoError :=
  match io_kind error with
  | ErrorKind.ConnectionRefused => Socks ConnectionRefused
  | ErrorKind.NetworkUnreachable | ErrorKind.NetworkDown => Socks NetworkUnreachable
  | ErrorKind.HostUnreachable | ErrorKind.AddrNotAvailable => Socks HostUnreachable
  | _ => Io error
  end.

(** ** Casts and parsers of the enumerations are inverse to each other *)

Lemma AddrType_from_as_u8 t : AddrType_from (usize_of_u8 (AddrType_as_u8 t)) = Some t.
Proof. by destruct t. Qed.

Lemma SockCommand_from_as_u8 c : SockCommand_from (usize_of_u8 (SockCommand_as_u8 c)) = Some c.
Proof. by destruct c. Qed.

Lemma AddrType_from_inv b t : AddrType_from (usize_of_u8 b) = Some t → b = AddrType_as_u8 t.
Proof. destruct b; vm_compute; intros [=]; by subst. Qed.

Lemma SockCommand_from_inv b c :
  SockCommand_from (usize_of_u8 b) = Some c → b = SockCommand_as_u8 c.
Proof. destruct b; vm_compute; intros [=]; by subst. Qed.

Lemma ResponseCode_as_u8_inj c d : ResponseCode_as_u8 c = ResponseCode_as_u8 d → c = d.
Proof. by destruct c, d. Qed.

(** A disconnect is never also a connection failure: the three log levels of
    [run_client] are exclusive. *)
Lemma disconnect_not_failure e :
  is_client_disconnect e = true → is_connection_failure e = false.
Proof. destruct e as [[[] ?]|[]]; done. Qed.

#[export] Hint Rewrite AddrType_from_as_u8 SockCommand_from_as_u8
  usize_of_u8_of_usize u8_of_usize_of_u8 try_from_slice_vec : merino.
