(* ===== verification/Wire.v ===== *)
(** * Wire formats ([src/src/lib.rs], the pure parsers and encoders)

    The parsers of the greeting, the USERPASS sub-negotiation, the request and
    the UDP header, and the encoders of the reply and of the UDP header.  Each
    parser is characterised by an encoder written from RFC 1928 / RFC 1929
    ([encode_greeting], [encode_userpass], [encode_request],
    [encode_udp_request]): it accepts exactly the byte strings that start with
    an encoding, and returns what was encoded. *)
From S2P Require Import Prelude Fmt Types.

(** ** The shared splitters *)

Definition take_ (bytes : list u8) (len : usize) : result MerinoError (list u8 * list u8) :=
  if length bytes <? len then Err truncated
  else Ok (firstn len bytes, skipn len bytes).

Definition take_addr (bytes : list u8) (addr_type : AddrType)
    : result MerinoError (list u8 * list u8) :=
  match addr_type with
  | Domain =>
      match bytes with
      | dlen :: rest => take_ rest (usize_of_u8 dlen)
      | [] => Err truncated
      end
  | V4 => take_ bytes 4
  | V6 => take_ bytes 16
  end.

Definition take_port (bytes : list u8) : result MerinoError (u16 * list u8) :=
  match bytes with
  | hi :: lo :: rest => Ok (u16_of_be hi lo, rest)
  | _ => Err truncated
  end.

(** ** The parsers *)

Definition parse_greeting (bytes : list u8)
    : result MerinoError (u8 * u8 * list u8 * usize) :=
  match bytes with
  | version :: nmethods :: rest =>
      '(methods, _) ← take_ rest (usize_of_u8 nmethods);
      let consumed := 2 + length methods in
      Ok (version, nmethods, methods, consumed)
  | _ => Err truncated
  end.

Record UserPassRequest :=
  { up_version : u8; up_username : list u8; up_password : list u8 }.

Definition parse_userpass (bytes : list u8) : result MerinoError (UserPassRequest * usize) :=
  match bytes with
  | version :: ulen :: rest =>
      '(username, rest) ← take_ rest (usize_of_u8 ulen);
      match rest with
      | plen :: rest =>
          '(password, rest) ← take_ rest (usize_of_u8 plen);
          Ok ({| up_version := version; up_username := username; up_password := password |},
              length bytes - length rest)
      | [] => Err truncated
      end
  | _ => Err truncated
  end.

Record SOCKSReq :=
  { req_version : u8; req_command : SockCommand; req_addr_type : AddrType;
    req_addr : list u8; req_port : u16 }.

Definition parse_request (bytes : list u8) : result MerinoError (SOCKSReq * usize) :=
  match bytes with
  | version :: command :: _rsv :: atyp :: rest =>
      command ← ok_or (SockCommand_from (usize_of_u8 command)) (Socks CommandNotSupported);
      addr_type ← ok_or (AddrType_from (usize_of_u8 atyp)) (Socks AddrTypeNotSupported);
      '(addr, rest) ← take_addr rest addr_type;
      '(port, rest) ← take_port rest;
      Ok ({| req_version := version; req_command := command; req_addr_type := addr_type;
             req_addr := addr; req_port := port |},
          length bytes - length rest)
  | _ => Err truncated
  end.

Record UdpRequest :=
  { udp_frag : u8; udp_addr_type : AddrType; udp_addr : list u8; udp_port : u16 }.

Definition parse_udp_header (bytes : list u8) : result MerinoError (UdpRequest * usize) :=
  match bytes with
  | _rsv :: _rsv2 :: frag :: atyp :: rest =>
      addr_type ← ok_or (AddrType_from (usize_of_u8 atyp)) (Socks AddrTypeNotSupported);
      '(addr, rest) ← take_addr rest addr_type;
      '(port, rest) ← take_port rest;
      Ok ({| udp_frag := frag; udp_addr_type := addr_type; udp_addr := addr; udp_port := port |},
          length bytes - length rest)
  | _ => Err truncated
  end.

(** ** The encoders *)

Definition encode_udp_header (addr : SocketAddr) : list u8 :=
  [RESERVED; RESERVED; x00] ++
  match addr with
  | SockV4 ip port => [AddrType_as_u8 V4] ++ vec_to_list ip ++ u16_to_be_bytes port
  | SockV6 ip port _ _ => [AddrType_as_u8 V6] ++ vec_to_list ip ++ u16_to_be_bytes port
  end.

Record SocksReply := { buf : list u8 }.

Definition SocksReply_from_bound (status : ResponseCode) (bound : option SocketAddr) : SocksReply :=
  {| buf :=
       [SOCKS_VERSION; ResponseCode_as_u8 status; RESERVED] ++
       match bound with
       | Some (SockV4 ip port) =>
           [AddrType_as_u8 V4] ++ vec_to_list ip ++ u16_to_be_bytes port
       | Some (SockV6 ip port _ _) =>
           [AddrType_as_u8 V6] ++ vec_to_list ip ++ u16_to_be_bytes port
       | None => [AddrType_as_u8 V4] ++ [x00; x00; x00; x00] ++ [x00; x00]
       end |}.

Definition SocksReply_new (status : ResponseCode) : SocksReply :=
  SocksReply_from_bound status None.

Definition SocksReply_with_addr (status : ResponseCode) (bound : SocketAddr) : SocksReply :=
  SocksReply_from_bound status (Some bound).

Definition SocksReply_as_bytes (r : SocksReply) : list u8 := buf r.

(** ** Reference encoders (RFC 1928 §3, §4, §7; RFC 1929 §2) *)

Definition addr_wf (t : AddrType) (addr : list u8) : bool :=
  match t with
  | V4 => length addr =? 4
  | V6 => length addr =? 16
  | Domain => length addr <? 256
  end.

Definition encode_addr (t : AddrType) (addr : list u8) : list u8 :=
  match t with
  | Domain => u8_of_usize (length addr) :: addr
  | V4 | V6 => addr
  end.

Definition encode_greeting (version : u8) (methods : list u8) : list u8 :=
  version :: u8_of_usize (length methods) :: methods.

Definition encode_userpass (r : UserPassRequest) : list u8 :=
  up_version r :: u8_of_usize (length (up_username r)) :: up_username r ++
  u8_of_usize (length (up_password r)) :: up_password r.

Definition userpass_wf (r : UserPassRequest) : bool :=
  (length (up_username r) <? 256) && (length (up_password r) <? 256).

Definition encode_request (rsv : u8) (r : SOCKSReq) : list u8 :=
  [req_version r; SockCommand_as_u8 (req_command r); rsv; AddrType_as_u8 (req_addr_type r)] ++
  encode_addr (req_addr_type r) (req_addr r) ++ u16_to_be_bytes (req_port r).

Definition request_wf (r : SOCKSReq) : bool :=
  addr_wf (req_addr_type r) (req_addr r) && u16_wf (req_port r).

Definition encode_udp_request (rsv rsv2 : u8) (r : UdpRequest) : list u8 :=
  [rsv; rsv2; udp_frag r; AddrType_as_u8 (udp_addr_type r)] ++
  encode_addr (udp_addr_type r) (udp_addr r) ++ u16_to_be_bytes (udp_port r).

Definition udp_request_wf (r : UdpRequest) : bool :=
  addr_wf (udp_addr_type r) (udp_addr r) && u16_wf (udp_port r).

(** What a client reads back from a reply: the code, the bound address as IP
    and port, and the bytes after the reply. *)
Definition decode_reply (bytes : list u8) : option (u8 * IpAddr * u16 * list u8) :=
  match bytes with
  | ver :: rep :: _ :: atyp :: rest =>
      if bool_decide (ver = SOCKS_VERSION) then
        match AddrType_from (usize_of_u8 atyp) with
        | Some V4 =>
            match take_addr rest V4 with
            | Ok (a, rest) => ip ← try_from_slice 4 a;
                match take_port rest with Ok (p, rest) => Some (rep, IpV4 ip, p, rest) | Err _ => None end
            | Err _ => None
            end
        | Some V6 =>
            match take_addr rest V6 with
            | Ok (a, rest) => ip ← try_from_slice 16 a;
                match take_port rest with Ok (p, rest) => Some (rep, IpV6 ip, p, rest) | Err _ => None end
            | Err _ => None
            end
        | _ => None
        end
      else None
  | _ => None
  end.

(** ** The splitters accept exactly what the encoders produce *)

Lemma take_Ok l n a r : take_ l n = Ok (a, r) ↔ length a = n ∧ l = a ++ r.
Proof.
  unfold take_. destruct (Nat.ltb_spec (length l) n) as [Hlt|Hge]; split.
  - done.
  - intros [<- ->]. rewrite length_app in Hlt. lia.
  - intros [= <- <-]. split; [rewrite length_firstn; lia|].
    symmetry. apply firstn_skipn.
  - intros [<- ->]. rewrite firstn_app, skipn_app, Nat.sub_diag, firstn_all, skipn_all. simpl.
    by rewrite app_nil_r.
Qed.

Lemma take_Err l n e : take_ l n = Err e ↔ e = truncated ∧ length l < n.
Proof.
  unfold take_. destruct (Nat.ltb_spec (length l) n) as [Hlt|Hge]; split; naive_solver lia.
Qed.

Lemma take_addr_Ok l t a r :
  take_addr l t = Ok (a, r) ↔ addr_wf t a = true ∧ l = encode_addr t a ++ r.
Proof.
  destruct t; simpl; [|destruct l as [|d l]|].
  - by rewrite take_Ok, Nat.eqb_eq.
  - split; [done|]. by intros [_ ?].
  - rewrite take_Ok, Nat.ltb_lt. split.
    + intros [Hlen ->]. pose proof (usize_of_u8_lt d). split; [lia|].
      by rewrite Hlen, u8_of_usize_of_u8.
    + intros [Hlen [= -> ->]]. by rewrite usize_of_u8_of_usize.
  - by rewrite take_Ok, Nat.eqb_eq.
Qed.

Lemma take_addr_Err l t e : take_addr l t = Err e → e = truncated.
Proof.
  destruct t; [|destruct l|]; simpl; intros H; try (by simplify_eq); by apply take_Err in H as [? _].
Qed.

Lemma take_port_Ok l p r :
  take_port l = Ok (p, r) ↔ u16_wf p = true ∧ l = u16_to_be_bytes p ++ r.
Proof.
  split.
  - destruct l as [|hi [|lo l]]; simpl; [done..|]. intros [= <- <-].
    split; [apply u16_of_be_wf|]. change (hi :: lo :: l) with ([hi; lo] ++ l).
    by rewrite <- (u16_be_inv hi lo).
  - intros [Hwf ->]. simpl. by rewrite u16_be_roundtrip.
Qed.

Lemma take_port_Err l e : take_port l = Err e ↔ e = truncated ∧ length l < 2.
Proof. destruct l as [|hi [|lo l]]; simpl; naive_solver lia. Qed.

Lemma addr_wf_encode_length t a b :
  addr_wf t a = true → addr_wf t b = true → length a = length b →
  length (encode_addr t a) = length (encode_addr t b).
Proof. destruct t; simpl; lia. Qed.

#[export] Hint Resolve u16_of_be_wf : merino.

(** The common tail of the request and of the UDP header: address then port. *)
Definition addr_port_tail (t : AddrType) (a : list u8) (p : u16) : list u8 :=
  encode_addr t a ++ u16_to_be_bytes p.

(** A tail cut short anywhere is reported as truncated. *)
Lemma addr_port_truncated t a p k :
  addr_wf t a = true → k < length (addr_port_tail t a p) →
  ('(_, rest) ← take_addr (firstn k (addr_port_tail t a p)) t; take_port rest) = Err truncated.
Proof.
  unfold addr_port_tail. intros Hwf Hk.
  destruct (take_addr _ t) as [[a' r]|e] eqn:E; simpl.
  - destruct (take_port r) as [[p' r']|e] eqn:E'; [exfalso|apply take_port_Err in E' as [-> _]; done].
    apply take_addr_Ok in E as [Hwf' E]. apply take_port_Ok in E' as [_ ->].
    assert (length a' = length a) as Hlen.
    { destruct t; simpl in *; [lia| |lia]. destruct k as [|k]; [done|]. simpl in E.
      apply Nat.ltb_lt in Hwf, Hwf'. injection E as E _. apply (f_equal usize_of_u8) in E.
      rewrite !usize_of_u8_of_usize in E; lia. }
    apply (f_equal length) in E. rewrite length_firstn, !length_app in *. simpl in *.
    pose proof (addr_wf_encode_length _ _ _ Hwf Hwf' ltac:(lia)). lia.
  - by apply take_addr_Err in E as ->.
Qed.

(** ** Parser properties *)

(** Offsets reported by the parsers are the length of what was recognised. *)
Lemma consumed_app {A} (l k r : list A) : l = k ++ r → length l - length r = length k.
Proof. intros ->. rewrite length_app. lia. Qed.

Lemma parse_request_Ok bytes r n :
  parse_request bytes = Ok (r, n) ↔
  ∃ rsv rest, request_wf r = true ∧ bytes = encode_request rsv r ++ rest ∧
              n = length (encode_request rsv r).
Proof.
  split.
  - destruct bytes as [|v [|c [|rsv [|t rest]]]]; simpl; [done..|]. intros H. inv_result.
    match goal with H1 : take_addr _ _ = _, H2 : take_port _ = _ |- _ =>
      apply take_addr_Ok in H1 as [? ->]; apply take_port_Ok in H2 as [? ->] end.
    match goal with H1 : SockCommand_from _ = _, H2 : AddrType_from _ = _ |- _ =>
      apply SockCommand_from_inv in H1 as ->; apply AddrType_from_inv in H2 as -> end.
    eexists rsv, _. unfold request_wf; simpl. split; [by apply andb_true_intro|].
    rewrite <- !app_assoc. split; [done|]. rewrite !length_app. simpl. lia.
  - intros (rsv & rest & [Ha Hp]%andb_prop & -> & ->). unfold encode_request. simpl.
    rewrite SockCommand_from_as_u8. simpl. rewrite AddrType_from_as_u8. simpl.
    rewrite <- app_assoc. rewrite (proj2 (take_addr_Ok _ _ _ _) (conj Ha eq_refl)). simpl.
    rewrite u16_be_roundtrip by done.
    destruct r; simpl. do 2 f_equal. rewrite !length_app. simpl. lia.
Qed.

(** C31: the request parser accepts exactly the frames of RFC 1928 §4: it
    returns request [r] and offset [n] if and only if the input starts with an
    encoding of the well-formed request [r] that is [n] bytes long, whatever
    the reserved byte and whatever follows. *)
Theorem parse_request_spec bytes r n :
  parse_request bytes = Ok (r, n) ↔
  ∃ rsv rest, request_wf r = true ∧ bytes = encode_request rsv r ++ rest ∧
              n = length (encode_request rsv r).
Proof. apply parse_request_Ok. Qed.

(** A request cut short anywhere is reported as truncated, never as a
    request and never as an unsupported command or address: every strict prefix
    of a well-formed frame yields the [UnexpectedEof] error. *)
Theorem parse_request_prefix rsv r k :
  request_wf r = true → k < length (encode_request rsv r) →
  parse_request (firstn k (encode_request rsv r)) = Err truncated.
Proof.
  intros [Ha Hp]%andb_prop Hk. unfold encode_request in *.
  destruct k as [|[|[|[|k]]]]; simpl; [done..|].
  rewrite SockCommand_from_as_u8. simpl. rewrite AddrType_from_as_u8. simpl.
  pose proof (addr_port_truncated _ _ (req_port r) k Ha) as Htr.
  unfold addr_port_tail in Htr. simpl in Hk. specialize (Htr ltac:(lia)).
  destruct (take_addr _ _) as [[a rest]|e]; simpl in *; [|by simplify_eq].
  destruct (take_port _) as [[p rest']|e]; simpl; by simplify_eq.
Qed.

(** The body after the four header bytes is too short for its address type. *)
Definition body_short (ty : AddrType) (rest : list u8) : bool :=
  match ty, rest with
  | V4, _ => length rest <? 6
  | V6, _ => length rest <? 18
  | Domain, [] => true
  | Domain, dlen :: rest => length rest <? usize_of_u8 dlen + 2
  end.

Lemma take_port_short n l e :
  ('(_, rest) ← take_ l n; take_port rest) = Err e ↔ e = truncated ∧ length l < n + 2.
Proof.
  destruct (take_ l n) as [[a r]|e'] eqn:E; simpl.
  - apply take_Ok in E as [<- ->]. rewrite take_port_Err, length_app. naive_solver lia.
  - apply take_Err in E as [-> ?]. naive_solver lia.
Qed.

Lemma addr_port_Err ty rest e :
  ('(_, rest) ← take_addr rest ty; take_port rest) = Err e ↔
  e = truncated ∧ body_short ty rest = true.
Proof.
  destruct ty; simpl; [|destruct rest as [|d rest]|]; simpl;
    rewrite ?take_port_short, ?Nat.ltb_lt; naive_solver.
Qed.

(** Every way a request is refused, in the order the code checks: fewer
    than four header bytes, then the command, then the address type, then a
    body that is too short for the address type; there is no other error. *)
Theorem parse_request_errors bytes e :
  parse_request bytes = Err e ↔
  match bytes with
  | _ :: c :: _ :: t :: rest =>
      match SockCommand_from (usize_of_u8 c), AddrType_from (usize_of_u8 t) with
      | None, _ => e = Socks CommandNotSupported
      | Some _, None => e = Socks AddrTypeNotSupported
      | Some _, Some ty => e = truncated ∧ body_short ty rest = true
      end
  | _ => e = truncated
  end.
Proof.
  destruct bytes as [|v [|c [|rsv [|t rest]]]]; simpl; try naive_solver.
  destruct (SockCommand_from _) as [cmd|]; simpl; [|naive_solver].
  destruct (AddrType_from _) as [ty|]; simpl; [|naive_solver].
  rewrite <- addr_port_Err.
  destruct (take_addr rest ty) as [[a r]|e']; simpl; [|naive_solver].
  destruct (take_port r) as [[p r']|e'']; simpl; naive_solver.
Qed.

Theorem parse_greeting_spec bytes v nm methods n :
  parse_greeting bytes = Ok (v, nm, methods, n) ↔
  ∃ rest, length methods < 256 ∧ nm = u8_of_usize (length methods) ∧
          bytes = encode_greeting v methods ++ rest ∧ n = length (encode_greeting v methods).
Proof.
  split.
  - destruct bytes as [|v' [|nm' rest]]; simpl; [done..|]. intros H. inv_result.
    match goal with H : take_ _ _ = _ |- _ => apply take_Ok in H as [Hl ->] end.
    eexists. pose proof (usize_of_u8_lt nm). unfold encode_greeting. rewrite Hl, u8_of_usize_of_u8.
    split_and!; [lia|done|done|]. simpl. lia.
  - intros (rest & Hl & -> & -> & ->). simpl. rewrite usize_of_u8_of_usize by done.
    rewrite (proj2 (take_Ok _ _ _ _) (conj eq_refl eq_refl)). done.
Qed.

Lemma parse_userpass_Ok bytes r n :
  parse_userpass bytes = Ok (r, n) ↔
  ∃ rest, userpass_wf r = true ∧ bytes = encode_userpass r ++ rest ∧
          n = length (encode_userpass r).
Proof.
  split.
  - destruct bytes as [|v [|ul rest]]; simpl; [done..|].
    destruct (take_ rest _) as [[u [|pl rest1]]|] eqn:E1; simpl; [done| |done].
    destruct (take_ rest1 _) as [[p rest2]|] eqn:E2; simpl; [|done]. intros [= <- <-].
    apply take_Ok in E1 as [Hu ->], E2 as [Hp ->]. exists rest2.
    pose proof (usize_of_u8_lt ul). pose proof (usize_of_u8_lt pl).
    unfold userpass_wf, encode_userpass; simpl.
    rewrite !Hu, !Hp, !u8_of_usize_of_u8, <- !app_assoc. simpl.
    split_and!; [lia|done|]. rewrite !length_app. simpl. rewrite length_app. simpl. lia.
  - intros (rest & [Hu Hp]%andb_prop & -> & ->). unfold encode_userpass. simpl.
    rewrite usize_of_u8_of_usize by lia. rewrite <- app_assoc.
    rewrite (proj2 (take_Ok _ _ _ _) (conj eq_refl eq_refl)). simpl.
    rewrite usize_of_u8_of_usize by lia.
    rewrite (proj2 (take_Ok _ _ _ _) (conj eq_refl eq_refl)). simpl.
    destruct r; simpl. do 2 f_equal. rewrite !length_app. simpl. rewrite length_app. lia.
Qed.

(** The USERPASS parser accepts exactly the frames of RFC 1929 §2, and
    returns the version, user name and password that were encoded together with
    the length of the frame. *)
Theorem parse_userpass_spec bytes r n :
  parse_userpass bytes = Ok (r, n) ↔
  ∃ rest, userpass_wf r = true ∧ bytes = encode_userpass r ++ rest ∧
          n = length (encode_userpass r).
Proof. apply parse_userpass_Ok. Qed.

Theorem parse_udp_header_spec bytes r n :
  parse_udp_header bytes = Ok (r, n) ↔
  ∃ rsv rsv2 rest, udp_request_wf r = true ∧ bytes = encode_udp_request rsv rsv2 r ++ rest ∧
                   n = length (encode_udp_request rsv rsv2 r).
Proof.
  split.
  - destruct bytes as [|rsv [|rsv2 [|f [|t rest]]]]; simpl; [done..|]. intros H. inv_result.
    match goal with H1 : take_addr _ _ = _, H2 : take_port _ = _ |- _ =>
      apply take_addr_Ok in H1 as [? ->]; apply take_port_Ok in H2 as [? ->] end.
    match goal with H2 : AddrType_from _ = _ |- _ => apply AddrType_from_inv in H2 as -> end.
    eexists rsv, rsv2, _. unfold udp_request_wf; simpl. split; [by apply andb_true_intro|].
    rewrite <- !app_assoc. split; [done|]. rewrite !length_app. simpl. lia.
  - intros (rsv & rsv2 & rest & [Ha Hp]%andb_prop & -> & ->). unfold encode_udp_request. simpl.
    rewrite AddrType_from_as_u8. simpl.
    rewrite <- app_assoc. rewrite (proj2 (take_addr_Ok _ _ _ _) (conj Ha eq_refl)). simpl.
    rewrite u16_be_roundtrip by done.
    destruct r; simpl. do 2 f_equal. rewrite !length_app. simpl. lia.
Qed.

(** The header of [encode_udp_header] as a request of [parse_udp_header]. *)
Definition udp_request_of (a : SocketAddr) : UdpRequest :=
  {| udp_frag := x00;
     udp_addr_type := match a with SockV4 _ _ => V4 | SockV6 _ _ _ _ => V6 end;
     udp_addr := ip_octets (sock_ip a);
     udp_port := sock_port a |}.

Lemma encode_udp_header_eq a :
  encode_udp_header a = encode_udp_request RESERVED RESERVED (udp_request_of a).
Proof. by destruct a. Qed.

Lemma udp_request_of_wf a : u16_wf (sock_port a) = true → udp_request_wf (udp_request_of a) = true.
Proof.
  intros Hp. apply andb_true_intro. split; [|done].
  destruct a; simpl; by rewrite length_vec_to_list.
Qed.

(** A datagram re-framed for the client with [encode_udp_header] is read
    back by the proxy's own parser with fragment 0, the sender's address and
    port, and the payload exactly after the reported offset. *)
Theorem udp_header_roundtrip a payload :
  u16_wf (sock_port a) = true →
  ∃ n, parse_udp_header (encode_udp_header a ++ payload) = Ok (udp_request_of a, n) ∧
       skipn n (encode_udp_header a ++ payload) = payload ∧
       n = length (encode_udp_header a) ∧ (n = 10 ∨ n = 22).
Proof.
  intros Hp. exists (length (encode_udp_header a)). split_and!.
  - apply parse_udp_header_spec. exists RESERVED, RESERVED, payload.
    rewrite encode_udp_header_eq. auto using udp_request_of_wf.
  - by rewrite skipn_app, skipn_all, Nat.sub_diag.
  - done.
  - destruct a; simpl; rewrite length_app, length_vec_to_list; simpl; auto.
Qed.

Lemma udp_header_roundtrip_witness :
  ∃ n, parse_udp_header
         (encode_udp_header (SockV4 [# x7f; x00; x00; x01] 9000) ++ [x68; x69]) =
         Ok (udp_request_of (SockV4 [# x7f; x00; x00; x01] 9000), n) ∧
       skipn n (encode_udp_header (SockV4 [# x7f; x00; x00; x01] 9000) ++ [x68; x69]) =
         [x68; x69] ∧
       n = length (encode_udp_header (SockV4 [# x7f; x00; x00; x01] 9000)) ∧ (n = 10 ∨ n = 22).
Proof.
  apply (udp_header_roundtrip (SockV4 [# x7f; x00; x00; x01] 9000) [x68; x69]).
  vm_compute. reflexivity.
Defined.

Lemma parse_request_prefix_witness :
  parse_request (firstn 9 (encode_request x00
    {| req_version := x05; req_command := Connect; req_addr_type := V4;
       req_addr := [x7f; x00; x00; x01]; req_port := 8080 |})) = Err truncated.
Proof. apply parse_request_prefix; [vm_compute; reflexivity|vm_compute; lia]. Defined.

(** The address a client reads out of a reply: the bound address, or
    [0.0.0.0:0] when the reply carries none. *)
Definition reply_addr (bound : option SocketAddr) : IpAddr * u16 :=
  match bound with
  | Some a => (sock_ip a, sock_port a)
  | None => (IpV4 UNSPECIFIED_V4, 0%N)
  end.

(** Every reply is one well-formed RFC 1928 §6 reply: a client reads back
    the status code, the bound address and port (all zeroes when none is given)
    and is left exactly at the byte after the reply, which is 10 or 22 bytes
    long and so fits the 22 bytes reserved for it. *)
Theorem reply_roundtrip status bound rest :
  u16_wf (snd (reply_addr bound)) = true →
  let bytes := SocksReply_as_bytes (SocksReply_from_bound status bound) in
  decode_reply (bytes ++ rest) =
    Some (ResponseCode_as_u8 status, fst (reply_addr bound), snd (reply_addr bound), rest) ∧
  (length bytes = 10 ∨ length bytes = 22).
Proof.
  intros Hp. destruct bound as [[ip p|ip p f sc]|]; simpl in *; [| |by auto].
  all: rewrite <- app_assoc.
  all: rewrite (proj2 (take_Ok _ _ (vec_to_list ip) _))
         by (split; [apply length_vec_to_list|done]).
  all: cbv beta iota; rewrite try_from_slice_vec; simpl; rewrite u16_be_roundtrip by done.
  all: split; [done|]; rewrite length_app, length_vec_to_list; simpl; auto.
Qed.

Lemma reply_roundtrip_witness :
  u16_wf 4321 = true ∧
  let bytes := SocksReply_as_bytes
                 (SocksReply_with_addr Success (SockV4 [# x7f; x00; x00; x01] 4321)) in
  decode_reply (bytes ++ [xaa]) = Some (x00, IpV4 [# x7f; x00; x00; x01], 4321%N, [xaa]) ∧
  (length bytes = 10 ∨ length bytes = 22).
Proof.
  split; [reflexivity|].
  apply (reply_roundtrip Success (Some (SockV4 [# x7f; x00; x00; x01] 4321)) [xaa]).
  reflexivity.
Defined.

#[global] Arguments parse_greeting : simpl never.
#[global] Arguments parse_userpass : simpl never.
#[global] Arguments parse_request : simpl never.
#[global] Arguments parse_udp_header : simpl never.
