(* ===== verification/Credentials.v ===== *)
(** * Credentials ([src/src/lib.rs]: [credential_width], [ct_eq],
      [SOCKClient::authed])

    The login check.  [ct_eq] is written with the same accumulator and the same
    number of iterations as the code; [ct_eq_cost] counts those iterations. *)
From S2P Require Import Prelude Fmt Types.

Definition credential_width (users : list User) : usize :=
  default 0
    (foldr (λ user acc,
       let w := max (length (as_bytes (username user))) (length (as_bytes (password user))) in
       Some (match acc with None => w | Some m => max w m end)) None users).

(** [a.get(i).copied().unwrap_or(0)]. *)
Definition byte_at (a : list u8) (i : usize) : u8 := default x00 (a !! i).

Definition ct_eq_loop (a b : list u8) (idx : list usize) (diff : u8) : u8 :=
  fold_left (λ diff i, u8_or diff (u8_xor (byte_at a i) (byte_at b i))) idx diff.

Definition ct_eq (a b : list u8) (width : usize) : bool :=
  let diff := u8_of_bool (negb (length a =? length b)) in
  bool_decide (ct_eq_loop a b (seq 0 width) diff = x00).

(** [SOCKClient::authed] over the fields it reads. *)
Definition authed (authed_users : list User) (credential_width : usize)
    (user_name pass_word : list u8) : bool :=
  fold_left (λ found candidate,
    let username_ok := ct_eq user_name (as_bytes (username candidate)) credential_width in
    let password_ok := ct_eq pass_word (as_bytes (password candidate)) credential_width in
    found || (username_ok && password_ok)) authed_users false.

(** ** What the comparison decides *)

Lemma ct_eq_loop_zero a b idx diff :
  ct_eq_loop a b idx diff = x00 ↔ diff = x00 ∧ ∀ i, i ∈ idx → byte_at a i = byte_at b i.
Proof.
  revert diff. induction idx as [|i idx IH]; intros diff.
  - simpl. split; [|naive_solver]. intros ->. split; [done|].
    intros i Hi. by apply not_elem_of_nil in Hi.
  - change (ct_eq_loop a b (i :: idx) diff)
      with (ct_eq_loop a b idx (u8_or diff (u8_xor (byte_at a i) (byte_at b i)))).
    rewrite IH, u8_or_zero, u8_xor_zero. setoid_rewrite elem_of_cons.
    naive_solver.
Qed.

(** The loop compares the first [width] positions and the lengths. *)
Lemma ct_eq_true a b width :
  ct_eq a b width = true ↔
  length a = length b ∧ ∀ i, i < width → byte_at a i = byte_at b i.
Proof.
  unfold ct_eq. rewrite bool_decide_eq_true, ct_eq_loop_zero.
  assert (u8_of_bool (negb (length a =? length b)) = x00 ↔ length a = length b) as ->.
  { destruct (Nat.eqb_spec (length a) (length b)); simpl; naive_solver. }
  setoid_rewrite elem_of_seq. naive_solver lia.
Qed.

Lemma byte_at_ext a b n :
  length a = length b → length b ≤ n → (∀ i, i < n → byte_at a i = byte_at b i) → a = b.
Proof.
  intros Hl Hn H. apply list_eq_same_length with (n := length b); [done|done|].
  intros i x y Hi Hx Hy. specialize (H i ltac:(lia)). unfold byte_at in H.
  rewrite Hx, Hy in H. done.
Qed.

(** When the stored value fits the width, the comparison is equality. *)
Lemma ct_eq_spec a b width : length b ≤ width → ct_eq a b width = true ↔ a = b.
Proof.
  intros Hw. rewrite ct_eq_true. split; [|naive_solver].
  intros [Hl H]. by apply (byte_at_ext a b width).
Qed.

Lemma credential_width_ge users u :
  u ∈ users →
  length (as_bytes (username u)) ≤ credential_width users ∧
  length (as_bytes (password u)) ≤ credential_width users.
Proof.
  unfold credential_width. induction users as [|v users IH]; simpl; [by intros ?%not_elem_of_nil|].
  intros [->|Hu]%elem_of_cons; [destruct (foldr _ _ _); simpl; lia|].
  specialize (IH Hu). destruct (foldr _ _ _); simpl in *; lia.
Qed.

Lemma authed_foldr users w u p found :
  fold_left (λ found candidate,
    found || (ct_eq u (as_bytes (username candidate)) w &&
              ct_eq p (as_bytes (password candidate)) w)) users found = true ↔
  found = true ∨ ∃ c, c ∈ users ∧ ct_eq u (as_bytes (username c)) w = true ∧
                      ct_eq p (as_bytes (password c)) w = true.
Proof.
  revert found. induction users as [|c users IH]; intros found; simpl.
  - split; [auto|]. intros [?|(c & Hc%not_elem_of_nil & _)]; done.
  - rewrite IH, orb_true_iff, andb_true_iff. setoid_rewrite elem_of_cons. split.
    + intros [[?|[??]]|(c' & ? & ?)]; eauto 6.
    + intros [?|(c' & [->|?] & ? & ?)]; eauto 6.
Qed.

Lemma authed_iff users user_name pass_word :
  authed users (credential_width users) user_name pass_word = true ↔
  ∃ u, u ∈ users ∧ as_bytes (username u) = user_name ∧ as_bytes (password u) = pass_word.
Proof.
  unfold authed. rewrite authed_foldr. split.
  - intros [?|(u & Hu & Hn & Hp)]; [done|]. exists u.
    destruct (credential_width_ge _ _ Hu).
    apply ct_eq_spec in Hn, Hp; auto.
  - intros (u & Hu & <- & <-). right. exists u.
    destruct (credential_width_ge _ _ Hu). rewrite !ct_eq_spec; auto.
Qed.

(** C30: a login succeeds if and only if the two byte strings are, exactly, the
    user name and the password of one configured user; padding, prefixes and
    embedded NULs never match, and a name never combines with another user's
    password. *)
Theorem authed_correct users user_name pass_word :
  authed users (credential_width users) user_name pass_word = true ↔
  ∃ u, u ∈ users ∧ as_bytes (username u) = user_name ∧ as_bytes (password u) = pass_word.
Proof. apply authed_iff. Qed.

Lemma authed_correct_witness_users :
  authed [User_new "alice" "secret"; User_new "bob" "hunter2!"]
    (credential_width [User_new "alice" "secret"; User_new "bob" "hunter2!"])
    (as_bytes "bob") (as_bytes "hunter2!") = true.
Proof. vm_compute. reflexivity. Qed.

(** ** The work of a login

    The same loops with a counter of the positions compared. *)

Definition ct_eq_counted (a b : list u8) (width : usize) : bool * nat :=
  let '(diff, work) :=
    fold_left (λ '(diff, work) i,
                 (u8_or diff (u8_xor (byte_at a i) (byte_at b i)), S work))
      (seq 0 width) (u8_of_bool (negb (length a =? length b)), 0) in
  (bool_decide (diff = x00), work).

Definition authed_counted (authed_users : list User) (credential_width : usize)
    (user_name pass_word : list u8) : bool * nat :=
  fold_left (λ '(found, work) candidate,
    let '(username_ok, w1) :=
      ct_eq_counted user_name (as_bytes (username candidate)) credential_width in
    let '(password_ok, w2) :=
      ct_eq_counted pass_word (as_bytes (password candidate)) credential_width in
    (found || (username_ok && password_ok), work + w1 + w2)) authed_users (false, 0).

Lemma ct_eq_counted_eq a b width : ct_eq_counted a b width = (ct_eq a b width, width).
Proof.
  unfold ct_eq_counted, ct_eq, ct_eq_loop.
  generalize (u8_of_bool (negb (length a =? length b))) as d. intros d.
  assert (∀ l d k, fold_left (λ '(diff, work) i,
      (u8_or diff (u8_xor (byte_at a i) (byte_at b i)), S work)) l (d, k) =
    (fold_left (λ diff i, u8_or diff (u8_xor (byte_at a i) (byte_at b i))) l d, length l + k))
    as Hl.
  { induction l as [|i l IH]; intros d' k; simpl; [done|]. rewrite IH. f_equal. lia. }
  by rewrite Hl, length_seq, Nat.add_0_r.
Qed.

(** A login does the same work for every name and password: the loop
    compares [2 * width] positions per configured user, whatever was typed, how
    long it is, and whether and where it matched. *)
Theorem authed_constant_work users w user_name pass_word :
  authed_counted users w user_name pass_word =
    (authed users w user_name pass_word, 2 * w * length users).
Proof.
  unfold authed_counted, authed.
  assert (∀ us found k,
    fold_left (λ '(found, work) candidate,
      let '(username_ok, w1) := ct_eq_counted user_name (as_bytes (username candidate)) w in
      let '(password_ok, w2) := ct_eq_counted pass_word (as_bytes (password candidate)) w in
      (found || (username_ok && password_ok), work + w1 + w2)) us (found, k) =
    (fold_left (λ found candidate,
       found || (ct_eq user_name (as_bytes (username candidate)) w &&
                 ct_eq pass_word (as_bytes (password candidate)) w)) us found,
     k + 2 * w * length us)) as Hus.
  { induction us as [|c us IH]; intros found k; simpl; [f_equal; lia|].
    rewrite !ct_eq_counted_eq. rewrite IH. f_equal. lia. }
  rewrite Hus. done.
Qed.
