(* ===== verification/Display.v ===== *)
(** * Rendering of client-supplied data for the log ([src/src/lib.rs]:
      [sanitize_domain], [pretty_print_addr], [expected_ip])

    Names come off the wire and are logged: everything outside printable ASCII
    is escaped. *)
From S2P Require Import Prelude Fmt Types.

Definition is_printable (b : u8) : bool :=
  ((32 <=? Byte.to_N b) && (Byte.to_N b <=? 126))%N.

Definition sanitize_domain (addr : list u8) : string :=
  fold_left (λ rendered byte,
    if is_printable byte then rendered +:+ char_from byte
    else rendered +:+ "\x" +:+ hex_fixed 2 (Byte.to_N byte)) addr "".

(** [addr.get(..n).and_then(|first| <[u8; n]>::try_from(first).ok())]. *)
Definition get_octets (n : nat) (addr : list u8) : option (vec u8 n) :=
  if length addr <? n then None else try_from_slice n (firstn n addr).

Definition pretty_print_addr (addr_type : AddrType) (addr : list u8) : string :=
  match addr_type with
  | Domain => sanitize_domain addr
  | V4 =>
      match addr with
      | a :: b :: c :: d :: _ =>
          dec (Byte.to_N a) +:+ "." +:+ dec (Byte.to_N b) +:+ "." +:+
          dec (Byte.to_N c) +:+ "." +:+ dec (Byte.to_N d)
      | _ => "<invalid ipv4: " +:+ dec (N.of_nat (length addr)) +:+ " bytes>"
      end
  | V6 =>
      match get_octets 16 addr with
      | Some octets => join ":" (hex_u16 <$> segments (vec_to_list octets))
      | None => "<invalid ipv6: " +:+ dec (N.of_nat (length addr)) +:+ " bytes>"
      end
  end.

Definition expected_ip (addr_type : AddrType) (addr : list u8) : option IpAddr :=
  ip ← match addr_type with
       | V4 => octets ← get_octets 4 addr; Some (IpV4 octets)
       | V6 => octets ← get_octets 16 addr; Some (IpV6 octets)
       | Domain => None
       end;
  if negb (is_unspecified ip) then Some ip else None.

Example pretty_v4 : pretty_print_addr V4 [x7f; x00; x00; x01] = "127.0.0.1".
Proof. vm_compute. reflexivity. Qed.
Example pretty_v6 :
  pretty_print_addr V6 [x20; x01; x0d; xb8; x00; x00; x00; x00; x00; x00; x00; x00; x00; x00; x00; x01]
  = "2001:db8:0:0:0:0:0:1".
Proof. vm_compute. reflexivity. Qed.
Example pretty_esc : pretty_print_addr Domain [x1b; x5b; x61] = "\x1b[a".
Proof. vm_compute. reflexivity. Qed.

(** ** The rendered text is printable *)

Lemma printable_hex b : is_hex_char b = true → is_printable b = true.
Proof. unfold is_hex_char, is_printable. lia. Qed.

Lemma printable_digit b : is_digit b = true → is_printable b = true.
Proof. unfold is_digit, is_printable. lia. Qed.

Lemma dec_printable n : all_chars is_printable (dec n) = true.
Proof. eapply all_chars_impl; [apply printable_digit|apply dec_chars]. Qed.

Lemma hex_printable k n : all_chars is_printable (hex_fixed k n) = true.
Proof. eapply all_chars_impl; [apply printable_hex|apply hex_fixed_chars]. Qed.

#[export] Hint Resolve dec_printable hex_printable all_chars_strip : merino.
#[export] Hint Rewrite @all_chars_app dec_printable hex_printable : merino.

(** One byte of a rendered name. *)
Definition escape (b : u8) : string :=
  if is_printable b then char_from b else "\x" +:+ hex_fixed 2 (Byte.to_N b).

Lemma sanitize_domain_bytes addr :
  as_bytes (sanitize_domain addr) = addr ≫= λ b, as_bytes (escape b).
Proof.
  unfold sanitize_domain.
  match goal with |- as_bytes (fold_left ?f _ _) = _ =>
    assert (∀ acc, as_bytes (fold_left f addr acc) =
                   as_bytes acc ++ (addr ≫= λ b, as_bytes (escape b))) as H; [|apply H] end.
  induction addr as [|b addr IH]; intros acc.
  - cbn. by rewrite app_nil_r.
  - rewrite bind_cons. cbn [fold_left]. rewrite IH, app_assoc, <- as_bytes_app. unfold escape.
    by destruct (is_printable b).
Qed.

Lemma escape_printable b : all_chars is_printable (escape b) = true.
Proof.
  unfold escape. destruct (is_printable b) eqn:E.
  - unfold all_chars. rewrite as_bytes_char_from. simpl. by rewrite E.
  - rewrite all_chars_app, hex_printable. done.
Qed.

Lemma sanitize_domain_printable addr : all_chars is_printable (sanitize_domain addr) = true.
Proof.
  unfold all_chars. rewrite sanitize_domain_bytes.
  induction addr as [|b addr IH]; [done|]. rewrite bind_cons, forallb_app, IH.
  pose proof (escape_printable b) as Hb. unfold all_chars in Hb. by rewrite Hb.
Qed.

(** Whatever bytes a client sends as a destination, of whatever type and
    length, the text rendered for the log is printable ASCII only: no escape
    sequence, line break or non-ASCII byte can reach the operator's terminal. *)
Theorem pretty_print_addr_printable t addr :
  all_chars is_printable (pretty_print_addr t addr) = true.
Proof.
  destruct t; simpl.
  - destruct addr as [|a [|b [|c [|d rest]]]]; by autorewrite with merino.
  - apply sanitize_domain_printable.
  - destruct (get_octets 16 addr) as [v|]; [|by autorewrite with merino].
    apply all_chars_join; [done|]. apply Forall_fmap, Forall_true. intros n.
    unfold hex_u16, compose. auto with merino.
Qed.

(** Rendering a name escapes nothing it does not have to: a name made of
    printable ASCII is logged as it is, and an unprintable byte anywhere is the
    four characters [\xNN] in its place. *)
Theorem sanitize_domain_spec pre b post :
  forallb is_printable pre = true → is_printable b = false →
  sanitize_domain pre = of_bytes pre ∧
  sanitize_domain (pre ++ b :: post) =
    of_bytes pre +:+ "\x" +:+ hex_fixed 2 (Byte.to_N b) +:+ sanitize_domain post.
Proof.
  intros Hpre Hb.
  assert (as_bytes (sanitize_domain pre) = pre) as Hp.
  { rewrite sanitize_domain_bytes. induction pre as [|c pre IH]; [done|]. simpl in Hpre.
    apply andb_prop in Hpre as [Hc Hpre]. rewrite bind_cons, IH by done.
    unfold escape. by rewrite Hc, as_bytes_char_from. }
  split; apply as_bytes_inj.
  - by rewrite Hp, as_bytes_of_bytes.
  - rewrite !as_bytes_app, as_bytes_of_bytes, !sanitize_domain_bytes, bind_app.
    rewrite <- sanitize_domain_bytes, Hp, bind_cons, <- sanitize_domain_bytes.
    unfold escape at 1. rewrite Hb. by rewrite as_bytes_app, <- app_assoc.
Qed.

Lemma sanitize_domain_spec_witness :
  sanitize_domain [x61] = of_bytes [x61] ∧
  sanitize_domain ([x61] ++ x1b :: [x62]) =
    of_bytes [x61] +:+ "\x" +:+ hex_fixed 2 (Byte.to_N x1b) +:+ sanitize_domain [x62].
Proof. apply (sanitize_domain_spec [x61] x1b [x62]); reflexivity. Defined.
