(* ===== verification/PerIp.v ===== *)
(** * Per-source connection cap ([src/src/lib.rs]: [PerIpLimiter], [IpSlot])

    The limiter's counter map, the slots it hands out and their release on
    drop.  The specification is the multiset of the slots that are held. *)
From stdpp Require Export gmultiset.
From S2P Require Import Prelude Fmt Types.

(** ** The code *)

Record PerIpLimiter := { limit : usize; counts : gmap IpAddr usize }.

(** The limiter of a slot is the one shared by the server. *)
Record IpSlot := { slot_ip : IpAddr }.

Definition PerIpLimiter_new (limit : usize) : PerIpLimiter :=
  {| limit := max limit 1; counts := ∅ |}.

(** [counts.entry(ip).or_insert(0)] leaves the entry behind even when the slot
    is then refused. *)
Definition try_acquire (self : PerIpLimiter) (ip : IpAddr) : option IpSlot * PerIpLimiter :=
  let held := default 0 (counts self !! ip) in
  let counts := <[ip := held]> (counts self) in
  if limit self <=? held then (None, {| limit := limit self; counts := counts |})
  else (Some {| slot_ip := ip |}, {| limit := limit self; counts := <[ip := held + 1]> counts |}).

(** [Drop for IpSlot].  [None] stands for the underflow of [*held -= 1], which
    panics or wraps depending on the build. *)
Definition IpSlot_drop (slot : IpSlot) (self : PerIpLimiter) : option PerIpLimiter :=
  match counts self !! slot_ip slot with
  | None => Some self
  | Some 0 => None
  | Some (S held) =>
      Some {| limit := limit self;
              counts := if held =? 0 then delete (slot_ip slot) (counts self)
                        else <[slot_ip slot := held]> (counts self) |}
  end.

(** ** The specification: the multiset of held slots *)

(** The counter of a source is the number of its slots, absent when zero. *)
Definition count_of (n : nat) : option usize := match n with 0 => None | S _ => Some n end.

Record limiter_spec (l : PerIpLimiter) (slots : gmultiset IpAddr) : Prop := {
  spec_limit : 0 < limit l;
  spec_counts : ∀ ip, counts l !! ip = count_of (multiplicity ip slots);
  spec_bound : ∀ ip, multiplicity ip slots ≤ limit l
}.

Lemma count_of_default n : default 0 (count_of n) = n.
Proof. by destruct n. Qed.

Lemma limiter_spec_new n : limiter_spec (PerIpLimiter_new n) ∅.
Proof.
  split; simpl; [lia| |]; intros ip; rewrite multiplicity_empty; [apply lookup_empty|lia].
Qed.

Section operations.
Context (l : PerIpLimiter) (slots : gmultiset IpAddr) (Hspec : limiter_spec l slots).

Lemma try_acquire_refused ip :
  multiplicity ip slots = limit l → try_acquire l ip = (None, l).
Proof using Hspec.
  intros Hm. unfold try_acquire. rewrite (spec_counts _ _ Hspec), count_of_default, Hm, Nat.leb_refl.
  rewrite insert_id; [by destruct l|]. rewrite (spec_counts _ _ Hspec), Hm.
  pose proof (spec_limit _ _ Hspec). by destruct (limit l); [lia|].
Qed.

Lemma try_acquire_granted ip :
  multiplicity ip slots < limit l →
  ∃ l', try_acquire l ip = (Some {| slot_ip := ip |}, l') ∧ limit l' = limit l ∧
        limiter_spec l' (slots ⊎ {[+ ip +]}).
Proof using Hspec.
  intros Hm. unfold try_acquire. rewrite (spec_counts _ _ Hspec), count_of_default.
  destruct (Nat.leb_spec (limit l) (multiplicity ip slots)); [lia|].
  eexists. split_and!; [done|done|]. pose proof (spec_limit _ _ Hspec).
  split; simpl; [done| |]; intros ip'; rewrite multiplicity_disj_union, multiplicity_singleton.
  - rewrite insert_insert_eq. destruct (decide (ip' = ip)) as [->|Hne].
    + rewrite lookup_insert_eq, Nat.add_1_r. done.
    + rewrite lookup_insert_ne by done. rewrite (spec_counts _ _ Hspec). f_equal. lia.
  - pose proof (spec_bound _ _ Hspec ip'). case_decide; subst; lia.
Qed.

Lemma IpSlot_drop_held ip :
  ip ∈ slots →
  ∃ l', IpSlot_drop {| slot_ip := ip |} l = Some l' ∧ limit l' = limit l ∧
        limiter_spec l' (slots ∖ {[+ ip +]}).
Proof using Hspec.
  intros Hin. rewrite elem_of_multiplicity in Hin. unfold IpSlot_drop; simpl.
  rewrite (spec_counts _ _ Hspec).
  destruct (multiplicity ip slots) as [|n] eqn:E; [lia|]. simpl.
  eexists. split_and!; [done|done|].
  split; simpl; [apply (spec_limit _ _ Hspec)| |]; intros ip';
    rewrite multiplicity_difference, multiplicity_singleton.
  - destruct (decide (ip' = ip)) as [->|Hne].
    + rewrite E. destruct n as [|n]; simpl.
      * apply lookup_delete_eq.
      * by rewrite lookup_insert_eq.
    + rewrite Nat.sub_0_r, <- (spec_counts _ _ Hspec ip').
      destruct (n =? 0); [by rewrite lookup_delete_ne|by rewrite lookup_insert_ne].
  - pose proof (spec_bound _ _ Hspec ip'). lia.
Qed.
End operations.

(** ** Every interleaving of acquisitions and drops *)

Inductive limiter_step : PerIpLimiter * gmultiset IpAddr → PerIpLimiter * gmultiset IpAddr → Prop :=
  | step_acquire l slots ip l' :
      try_acquire l ip = (Some {| slot_ip := ip |}, l') →
      limiter_step (l, slots) (l', slots ⊎ {[+ ip +]})
  | step_refuse l slots ip l' :
      try_acquire l ip = (None, l') → limiter_step (l, slots) (l', slots)
  | step_drop l slots ip l' :
      ip ∈ slots → IpSlot_drop {| slot_ip := ip |} l = Some l' →
      limiter_step (l, slots) (l', slots ∖ {[+ ip +]}).

Lemma limiter_step_spec s s' :
  limiter_step s s' → limiter_spec (fst s) (snd s) → limiter_spec (fst s') (snd s').
Proof.
  intros Hstep Hspec. destruct Hstep as [l slots ip l' Ha|l slots ip l' Ha|l slots ip l' Hin Hd];
    simpl in *.
  - destruct (decide (multiplicity ip slots = limit l)) as [E|E].
    + rewrite (try_acquire_refused _ _ Hspec ip E) in Ha. done.
    + pose proof (spec_bound _ _ Hspec ip).
      destruct (try_acquire_granted _ _ Hspec ip ltac:(lia)) as (l2 & E2 & _ & ?).
      rewrite E2 in Ha. by simplify_eq.
  - destruct (decide (multiplicity ip slots = limit l)) as [E|E].
    + rewrite (try_acquire_refused _ _ Hspec ip E) in Ha. by simplify_eq.
    + pose proof (spec_bound _ _ Hspec ip).
      destruct (try_acquire_granted _ _ Hspec ip ltac:(lia)) as (l2 & E2 & _ & ?).
      rewrite E2 in Ha. by simplify_eq.
  - destruct (IpSlot_drop_held _ _ Hspec ip Hin) as (l2 & E2 & _ & ?).
    rewrite E2 in Hd. by simplify_eq.
Qed.

Lemma limiter_step_limit s s' : limiter_step s s' → limit (fst s') = limit (fst s).
Proof.
  intros []; simpl in *; unfold try_acquire, IpSlot_drop in *; repeat case_match; by simplify_eq.
Qed.

Definition limiter_reachable (n : usize) : PerIpLimiter * gmultiset IpAddr → Prop :=
  rtc limiter_step (PerIpLimiter_new n, ∅).

Lemma limiter_reachable_inv n l slots :
  limiter_reachable n (l, slots) → limiter_spec l slots ∧ limit l = max n 1.
Proof.
  intros H.
  apply (rtc_invariant limiter_step
    (λ s, limiter_spec (fst s) (snd s) ∧ limit (fst s) = max n 1)) in H; [done| |].
  - intros s s' Hstep [Hspec <-]. split; [by eapply limiter_step_spec|].
    by eapply limiter_step_limit.
  - split; [apply limiter_spec_new|done].
Qed.

(** Over every interleaving of accepted and refused connections and of
    connections that end, no source ever holds more slots than the configured
    limit (zero counts as one), and the limiter's counter of a source is exactly
    the number of its open connections, with no entry left for a source that
    has none. *)
Theorem per_ip_cap n l slots ip :
  limiter_reachable n (l, slots) →
  multiplicity ip slots ≤ max n 1 ∧
  counts l !! ip = (if decide (ip ∈ slots) then Some (multiplicity ip slots) else None).
Proof.
  intros [Hspec Hlim]%limiter_reachable_inv. split.
  - rewrite <- Hlim. apply Hspec.
  - rewrite (spec_counts _ _ Hspec).
    case_decide as Hin; rewrite elem_of_multiplicity in Hin;
      destruct (multiplicity ip slots); (done || lia).
Qed.

(** A connection is refused exactly when its source already holds its
    limit: the refusal changes nothing and affects no other source, a source
    below its limit always gets a slot, and dropping any held slot succeeds (the
    counter never underflows) and frees room for the same source again. *)
Theorem per_ip_progress n l slots ip :
  limiter_reachable n (l, slots) →
  (multiplicity ip slots = max n 1 → try_acquire l ip = (None, l)) ∧
  (multiplicity ip slots < max n 1 →
     ∃ l', try_acquire l ip = (Some {| slot_ip := ip |}, l') ∧
           limiter_reachable n (l', slots ⊎ {[+ ip +]})) ∧
  (ip ∈ slots →
     ∃ l' l'', IpSlot_drop {| slot_ip := ip |} l = Some l' ∧
               try_acquire l' ip = (Some {| slot_ip := ip |}, l'') ∧
               ∀ ip', counts l'' !! ip' = counts l !! ip').
Proof.
  intros Hr. destruct (limiter_reachable_inv _ _ _ Hr) as [Hspec <-]. split_and!.
  - apply (try_acquire_refused _ _ Hspec).
  - intros Hlt. destruct (try_acquire_granted _ _ Hspec ip Hlt) as (l' & E & _ & _).
    exists l'. split; [done|]. eapply rtc_r; [done|]. by constructor.
  - intros Hin. destruct (IpSlot_drop_held _ _ Hspec ip Hin) as (l' & E & Hl & Hspec').
    pose proof (spec_bound _ _ Hspec ip) as Hb. rewrite elem_of_multiplicity in Hin.
    destruct (try_acquire_granted _ _ Hspec' ip) as (l'' & E' & _ & Hspec'').
    { rewrite multiplicity_difference, multiplicity_singleton, decide_True by done. lia. }
    exists l', l''. split_and!; [done..|]. intros ip'.
    rewrite (spec_counts _ _ Hspec''), (spec_counts _ _ Hspec).
    rewrite multiplicity_disj_union, multiplicity_difference, multiplicity_singleton.
    f_equal. case_decide; subst; lia.
Qed.

(** ** Witnesses: one source at a limit of one, another one free *)

Definition localhost : IpAddr := IpV4 [# x7f; x00; x00; x01].
Definition one_held : PerIpLimiter * gmultiset IpAddr :=
  (snd (try_acquire (PerIpLimiter_new 1) localhost), ∅ ⊎ {[+ localhost +]}).

Lemma one_held_reachable : limiter_reachable 1 one_held.
Proof.
  eapply rtc_l; [|apply rtc_refl]. constructor. unfold try_acquire. simpl.
  by rewrite lookup_empty.
Qed.

Lemma per_ip_cap_witness :
  multiplicity localhost (snd one_held) ≤ max 1 1 ∧
  counts (fst one_held) !! localhost =
    (if decide (localhost ∈ snd one_held) then Some (multiplicity localhost (snd one_held)) else None).
Proof. apply (per_ip_cap 1 (fst one_held) (snd one_held)), one_held_reachable. Defined.

Lemma per_ip_progress_witness :
  let '(l, slots) := one_held in
  (multiplicity localhost slots = max 1 1 → try_acquire l localhost = (None, l)) ∧
  (multiplicity localhost slots < max 1 1 →
     ∃ l', try_acquire l localhost = (Some {| slot_ip := localhost |}, l') ∧
           limiter_reachable 1 (l', slots ⊎ {[+ localhost +]})) ∧
  (localhost ∈ slots →
     ∃ l' l'', IpSlot_drop {| slot_ip := localhost |} l = Some l' ∧
               try_acquire l' localhost = (Some {| slot_ip := localhost |}, l'') ∧
               ∀ ip', counts l'' !! ip' = counts l !! ip').
Proof. apply (per_ip_progress 1 (fst one_held) (snd one_held)), one_held_reachable. Defined.
