(* ===== verification/DnsCache.v ===== *)
(** * The positive DNS cache ([src/src/lib.rs]: [CacheEntry], [DnsCache])

    The bounded map of resolved names with its five counters.  The clock is an
    argument of every operation ([Instant::now()]), and the iteration order of
    the [HashMap], which decides ties between equally old entries, is a
    parameter of each insertion. *)
From S2P Require Import Prelude Fmt Types Display.

(** ** The code *)

Record CacheEntry := { addrs : list SocketAddr; expires_at : N; inserted_at : N }.

Record DnsCache := {
  ttl : Duration;
  max_entries : usize;
  entries : gmap string CacheEntry;
  hits : u64;
  misses : u64;
  inserts : u64;
  evictions : u64;
  expired_dropped : u64
}.

(** The order in which [HashMap::iter] visits a map: some enumeration of it. *)
Class HashOrder := {
  hash_iter : gmap string CacheEntry → list (string * CacheEntry);
  hash_iter_perm m : hash_iter m ≡ₚ map_to_list m
}.

(** The latest representable [Instant] on unix ([i64] seconds), beyond which
    [Instant + Duration] panics. *)
Definition instant_max : N := 9223372036854775808 * 1000000000 - 1.

Definition DnsCache_new (ttl : Duration) (max_entries : usize) : DnsCache :=
  {| ttl := ttl; max_entries := max max_entries 1; entries := ∅;
     hits := 0; misses := 0; inserts := 0; evictions := 0; expired_dropped := 0 |}.

Definition DnsCache_get (self : DnsCache) (name : string) (now : N)
    : option (list SocketAddr) * DnsCache :=
  match entries self !! name with
  | None =>
      (None, {| ttl := ttl self; max_entries := max_entries self; entries := entries self;
                hits := hits self; misses := u64_add (misses self) 1; inserts := inserts self;
                evictions := evictions self; expired_dropped := expired_dropped self |})
  | Some entry =>
      if (expires_at entry <=? now)%N then
        (None, {| ttl := ttl self; max_entries := max_entries self;
                  entries := delete name (entries self);
                  hits := hits self; misses := u64_add (misses self) 1; inserts := inserts self;
                  evictions := evictions self;
                  expired_dropped := u64_add (expired_dropped self) 1 |})
      else
        (Some (addrs entry),
         {| ttl := ttl self; max_entries := max_entries self; entries := entries self;
            hits := u64_add (hits self) 1; misses := misses self; inserts := inserts self;
            evictions := evictions self; expired_dropped := expired_dropped self |})
  end.

(** The part of [insert] that makes room: [retain] the live entries, then evict
    the oldest if the map is still full. *)
Definition make_room `{!HashOrder} (self : DnsCache) (now : N) : DnsCache :=
  if max_entries self <=? size (entries self) then
    let live := filter (λ kv, now < expires_at (kv.2))%N (entries self) in
    let expired := N.of_nat (size (entries self) - size live) in
    let expired_dropped :=
      if (0 <? expired)%N then u64_add (expired_dropped self) expired
      else expired_dropped self in
    match (if max_entries self <=? size live
           then min_by_key (λ kv, inserted_at kv.2) (hash_iter live) else None) with
    | Some (oldest, _) =>
        {| ttl := ttl self; max_entries := max_entries self; entries := delete oldest live;
           hits := hits self; misses := misses self; inserts := inserts self;
           evictions := u64_add (evictions self) 1; expired_dropped := expired_dropped |}
    | None =>
        {| ttl := ttl self; max_entries := max_entries self; entries := live;
           hits := hits self; misses := misses self; inserts := inserts self;
           evictions := evictions self; expired_dropped := expired_dropped |}
    end
  else self.

(** How [insert] ends: it returns, or [now + self.ttl] panics after room was
    made (the poisoned lock is recovered by the next caller). *)
Inductive insert_outcome := Returned (c : DnsCache) | Panicked (c : DnsCache).

Definition DnsCache_insert `{!HashOrder} (self : DnsCache) (name : string)
    (new_addrs : list SocketAddr) (now : N) : insert_outcome :=
  match new_addrs with
  | [] => Returned self
  | _ :: _ =>
      let self := make_room self now in
      if (instant_max <? now + ttl self)%N then Panicked self
      else
        Returned
          {| ttl := ttl self; max_entries := max_entries self;
             entries := <[name := {| addrs := new_addrs; expires_at := now + ttl self;
                                     inserted_at := now |}]> (entries self);
             hits := hits self; misses := misses self; inserts := u64_add (inserts self) 1;
             evictions := evictions self; expired_dropped := expired_dropped self |}
  end.

Record DnsName := { dn_name : string; dn_expires_in_secs : N }.

Record DnsSnapshot := {
  ds_enabled : bool; ds_ttl_secs : N; ds_max_entries : usize; ds_entries : usize;
  ds_hits : u64; ds_misses : u64; ds_inserts : u64; ds_evictions : u64;
  ds_expired_dropped : u64; ds_names : list DnsName
}.

Definition TOP_LIST_LEN : usize := 20.

(** [expires_at.saturating_duration_since(now)] is the truncated subtraction
    of [N]. *)
Definition DnsCache_snapshot `{!HashOrder} (self : DnsCache) (now : N) : DnsSnapshot :=
  let names := (λ kv : string * CacheEntry,
      {| dn_name := sanitize_domain (as_bytes kv.1);
         dn_expires_in_secs := as_secs (expires_at kv.2 - now) |}) <$> hash_iter (entries self) in
  {| ds_enabled := true; ds_ttl_secs := as_secs (ttl self); ds_max_entries := max_entries self;
     ds_entries := size (entries self); ds_hits := hits self; ds_misses := misses self;
     ds_inserts := inserts self; ds_evictions := evictions self;
     ds_expired_dropped := expired_dropped self;
     ds_names := firstn TOP_LIST_LEN
       (sort_by (λ a b, dn_expires_in_secs a <=? dn_expires_in_secs b)%N names) |}.

Definition DnsSnapshot_disabled : DnsSnapshot :=
  {| ds_enabled := false; ds_ttl_secs := 0; ds_max_entries := 0; ds_entries := 0;
     ds_hits := 0; ds_misses := 0; ds_inserts := 0; ds_evictions := 0;
     ds_expired_dropped := 0; ds_names := [] |}.

(** ** What [make_room] keeps *)

Section make_room.
Context `{!HashOrder} (c : DnsCache) (now : N).

(** The live part of a map at [now]. *)
Definition live_at (m : gmap string CacheEntry) : gmap string CacheEntry :=
  filter (λ kv, now < expires_at (kv.2))%N m.

Lemma elem_of_hash_iter (m : gmap string CacheEntry) k e :
  (k, e) ∈ hash_iter m ↔ m !! k = Some e.
Proof. rewrite hash_iter_perm. apply elem_of_map_to_list. Qed.

(** Either there was room, or only live entries stay and, when those still
    fill the cache, one of the oldest of them is gone. *)
Lemma make_room_cases :
  (make_room c now = c ∧ size (entries c) < max_entries c) ∨
  (max_entries c ≤ size (entries c) ∧
   (entries (make_room c now) = live_at (entries c) ∧ size (live_at (entries c)) < max_entries c ∨
    max_entries c ≤ size (live_at (entries c)) ∧
    (entries (make_room c now) = live_at (entries c) ∧ live_at (entries c) = ∅ ∨
     ∃ oldest e, live_at (entries c) !! oldest = Some e ∧
       entries (make_room c now) = delete oldest (live_at (entries c)) ∧
       ∀ k e', live_at (entries c) !! k = Some e' → (inserted_at e ≤ inserted_at e')%N))).
Proof.
  unfold make_room. fold (live_at (entries c)).
  destruct (Nat.leb_spec (max_entries c) (size (entries c))) as [Hfull|]; [right|by left].
  split; [done|].
  destruct (Nat.leb_spec (max_entries c) (size (live_at (entries c)))) as [Hfull'|]; [right|by left].
  split; [done|].
  destruct (min_by_key _ _) as [[oldest e]|] eqn:E.
  - apply min_by_key_Some in E as [Hin Hmin]. right. exists oldest, e.
    split_and!; [by apply elem_of_hash_iter|done|].
    intros k e' Hk. apply (Hmin (k, e')). by apply elem_of_hash_iter.
  - apply min_by_key_None in E. left. split; [done|].
    apply map_to_list_empty_iff, Permutation_nil_r. by rewrite <- E, hash_iter_perm.
Qed.

Lemma make_room_lookup k e :
  entries (make_room c now) !! k = Some e → entries c !! k = Some e.
Proof.
  assert (∀ k e, live_at (entries c) !! k = Some e → entries c !! k = Some e) as Hlive.
  { unfold live_at. intros k' e'. rewrite map_lookup_filter_Some. tauto. }
  destruct make_room_cases as [[-> _]|[_ [[-> _]|(_ & [[-> _]|(o & e' & _ & -> & _)])]]]; auto.
  rewrite lookup_delete_Some. naive_solver.
Qed.

Lemma make_room_static :
  ttl (make_room c now) = ttl c ∧ max_entries (make_room c now) = max_entries c ∧
  hits (make_room c now) = hits c ∧ misses (make_room c now) = misses c ∧
  inserts (make_room c now) = inserts c.
Proof. unfold make_room. repeat case_match; done. Qed.

Lemma make_room_size :
  0 < max_entries c → size (entries c) ≤ max_entries c →
  size (entries (make_room c now)) < max_entries c.
Proof.
  intros Hpos Hle.
  assert (size (live_at (entries c)) ≤ size (entries c)) as Hlive
    by (apply map_subseteq_size, map_filter_subseteq).
  destruct make_room_cases as [[-> ?]|[_ [[-> ?]|(Hfull & [[-> Hemp]|(o & e' & Ho & -> & _)])]]];
    [done|done| |].
  - rewrite Hemp, map_size_empty in *. lia.
  - rewrite map_size_delete_Some by eauto. lia.
Qed.
End make_room.

(** ** Histories

    A history is the list of operations so far, newest first. *)

Inductive cache_op :=
  | OpGet (name : string) (now : N)
  | OpInsert (ho : HashOrder) (name : string) (new_addrs : list SocketAddr) (now : N).

Definition op_time (o : cache_op) : N :=
  match o with OpGet _ t | OpInsert _ _ _ t => t end.

Definition outcome_cache (o : insert_outcome) : DnsCache :=
  match o with Returned c | Panicked c => c end.

Definition run_op (c : DnsCache) (o : cache_op) : DnsCache :=
  match o with
  | OpGet name now => snd (DnsCache_get c name now)
  | OpInsert ho name new_addrs now => outcome_cache (DnsCache_insert c name new_addrs now)
  end.

Fixpoint run_history (t : Duration) (n : usize) (h : list cache_op) : DnsCache :=
  match h with
  | [] => DnsCache_new t n
  | o :: h => run_op (run_history t n h) o
  end.

(** [Instant::now()] never goes back. *)
Fixpoint monotonic (h : list cache_op) : Prop :=
  match h with
  | o :: ((o' :: _) as h') => (op_time o' ≤ op_time o)%N ∧ monotonic h'
  | _ => True
  end.

(** An insertion stores its answer unless it is empty or panics. *)
Definition stores (t : Duration) (new_addrs : list SocketAddr) (now : N) : bool :=
  negb (bool_decide (new_addrs = [])) && (now + t <=? instant_max)%N.

#[global] Arguments stores : simpl never.

(** The specification: the latest answer stored for a name, and when. *)
Fixpoint last_insert (t : Duration) (name : string) (h : list cache_op)
    : option (N * list SocketAddr) :=
  match h with
  | [] => None
  | OpInsert _ name' new_addrs now :: h =>
      if bool_decide (name' = name) && stores t new_addrs now
      then Some (now, new_addrs) else last_insert t name h
  | OpGet _ _ :: h => last_insert t name h
  end.

Record cache_inv (t : Duration) (n : usize) (h : list cache_op) (c : DnsCache) : Prop := {
  inv_ttl : ttl c = t;
  inv_max : max_entries c = max n 1;
  inv_size : size (entries c) ≤ max_entries c;
  inv_entry k e : entries c !! k = Some e →
    last_insert t k h = Some (inserted_at e, addrs e) ∧ addrs e ≠ [] ∧
    expires_at e = (inserted_at e + t)%N
}.

Lemma get_entries_sub c name now k e :
  entries (snd (DnsCache_get c name now)) !! k = Some e → entries c !! k = Some e.
Proof.
  unfold DnsCache_get. repeat case_match; simpl; rewrite ?lookup_delete_Some; naive_solver.
Qed.

Lemma get_static c name now :
  ttl (snd (DnsCache_get c name now)) = ttl c ∧
  max_entries (snd (DnsCache_get c name now)) = max_entries c ∧
  size (entries (snd (DnsCache_get c name now))) ≤ size (entries c).
Proof.
  unfold DnsCache_get. repeat case_match; simpl; split_and!; auto.
  apply map_subseteq_size, delete_subseteq.
Qed.

(** The three ways an insertion ends. *)
Lemma insert_cases `{!HashOrder} c name l now :
  (l = [] ∧ DnsCache_insert c name l now = Returned c) ∨
  (l ≠ [] ∧ (instant_max < now + ttl c)%N ∧
   DnsCache_insert c name l now = Panicked (make_room c now)) ∨
  (l ≠ [] ∧ (now + ttl c ≤ instant_max)%N ∧
   ∃ c', DnsCache_insert c name l now = Returned c' ∧ ttl c' = ttl c ∧
     max_entries c' = max_entries c ∧
     entries c' = <[name := {| addrs := l; expires_at := now + ttl c; inserted_at := now |}]>
                    (entries (make_room c now)) ∧
     hits c' = hits c ∧ misses c' = misses c ∧ inserts c' = u64_add (inserts c) 1 ∧
     evictions c' = evictions (make_room c now) ∧
     expired_dropped c' = expired_dropped (make_room c now)).
Proof.
  destruct (make_room_static c now) as (Ht & Hm & Hh & Hmi & Hi).
  destruct l as [|a l]; [by left|right]. simpl. rewrite Ht.
  destruct (N.ltb_spec instant_max (now + ttl c)); [left; by split_and!|right].
  split_and!; [done|done|]. eexists. split; [done|]. simpl. by rewrite Hm, Hh, Hmi, Hi.
Qed.

Lemma cache_inv_run t n h : cache_inv t n h (run_history t n h).
Proof.
  induction h as [|o h IH]; simpl.
  - split; simpl; [done|done|rewrite map_size_empty; lia|].
    intros k e. by rewrite lookup_empty.
  - destruct IH as [Ht Hm Hs He]. generalize dependent (run_history t n h). intros c Ht Hm Hs He.
    destruct o as [name now|ho name l now]; simpl.
    + destruct (get_static c name now) as (Ht' & Hm' & Hs'). split; [congruence..|lia|].
      intros k e Hk%get_entries_sub. by apply He.
    + destruct (make_room_static c now) as (Ht' & Hm' & _).
      pose proof (make_room_size c now ltac:(lia) Hs) as Hs'.
      destruct (insert_cases c name l now)
        as [[-> ->]|[(Hl & Hover & ->)|(Hl & Hover & c' & -> & Ht2 & Hm2 & He2 & _)]]; simpl.
      * split; [done..|]. intros k e Hk. unfold stores. simpl. rewrite andb_false_r. by apply He.
      * split; [congruence|congruence|lia|]. intros k e Hk%make_room_lookup. simpl.
        assert (stores t l now = false) as ->; [unfold stores; rewrite <- Ht; lia|].
        rewrite andb_false_r. by apply He.
      * assert (stores t l now = true) as Hst.
        { unfold stores. rewrite bool_decide_eq_false_2 by done. rewrite <- Ht. by apply N.leb_le. }
        split; [congruence|congruence| |].
        { rewrite He2, map_size_insert, Hm2.
          destruct (entries (make_room c now) !! name); simpl; lia. }
        intros k e. rewrite He2, Ht. simpl. rewrite Hst, andb_true_r. destruct (decide (name = k)) as [->|Hne].
        -- rewrite lookup_insert_eq. intros [= <-]. by rewrite bool_decide_eq_true_2.
        -- rewrite lookup_insert_ne by done. rewrite bool_decide_eq_false_2 by done.
           intros Hk%make_room_lookup. by apply He.
Qed.

(** Bound of every stored time by the clock of the latest operation. *)
Lemma last_insert_time t name o h t0 l :
  monotonic (o :: h) → last_insert t name (o :: h) = Some (t0, l) → (t0 ≤ op_time o)%N.
Proof.
  revert o. induction h as [|o' h IH]; intros o Hm Hl.
  - destruct o; simpl in *; [done|]. destruct (_ && _); [by simplify_eq|done].
  - destruct Hm as [Hle Hm]. specialize (IH o' Hm).
    destruct o; simpl in Hl, Hle |- *; [|destruct (_ && _); [by simplify_eq|]];
      (etrans; [by apply IH|done]).
Qed.

(** The cache never holds more names than its limit (zero counts as one),
    after any sequence of lookups and insertions, with any clock and any
    iteration order of the map, panicking insertions included; and it never
    holds an empty answer. *)
Theorem dns_cache_bounded t n h :
  size (entries (run_history t n h)) ≤ max n 1 ∧
  ∀ k e, entries (run_history t n h) !! k = Some e → addrs e ≠ [].
Proof.
  destruct (cache_inv_run t n h) as [_ Hm Hs He]. split; [by rewrite <- Hm|].
  intros k e Hk. by apply He in Hk as (_ & ? & _).
Qed.

(** C32: a hit is never stale and never mixed up: it returns exactly the
    latest answer stored for that very name, stored less than the time-to-live
    ago; a name whose latest answer is older, or that was never stored, misses. *)
Theorem dns_cache_fresh t n h name now l :
  monotonic (OpGet name now :: h) →
  fst (DnsCache_get (run_history t n h) name now) = Some l →
  ∃ stored, last_insert t name h = Some (stored, l) ∧
            (stored ≤ now)%N ∧ (now < stored + t)%N ∧ l ≠ [].
Proof.
  intros Hm Hget. destruct (cache_inv_run t n h) as [_ _ _ He].
  unfold DnsCache_get in Hget.
  destruct (entries _ !! name) as [e|] eqn:E; [|done].
  destruct (He _ _ E) as (Hlast & Hne & Hexp).
  destruct (N.leb_spec (expires_at e) now); [done|]. simpl in Hget. simplify_eq.
  exists (inserted_at e). split_and!; [done| |lia|done].
  apply (last_insert_time t name (OpGet name now) h _ (addrs e)); [done|].
  done.
Qed.

(** The eviction policy: a stored answer is found again until it expires,
    and a live entry of another name is lost only when the cache is full of
    live entries, and then only one, which is one of the oldest. *)
Theorem dns_cache_insert_spec `{!HashOrder} c name l now :
  l ≠ [] → (now + ttl c ≤ instant_max)%N →
  ∃ c', DnsCache_insert c name l now = Returned c' ∧
    (∀ later, (later < now + ttl c)%N → fst (DnsCache_get c' name later) = Some l) ∧
    (∀ k e, k ≠ name → entries c !! k = Some e → (now < expires_at e)%N →
       entries c' !! k = Some e ∨
       max_entries c ≤ size (live_at now (entries c)) ∧
       (∀ k' e', live_at now (entries c) !! k' = Some e' → (inserted_at e ≤ inserted_at e')%N) ∧
       (∀ k' e', k' ≠ k → k' ≠ name → live_at now (entries c) !! k' = Some e' →
          entries c' !! k' = Some e')).
Proof.
  intros Hl Hover.
  destruct (insert_cases c name l now)
    as [[-> _]|[(_ & ? & _)|(_ & _ & c' & Hins & _ & _ & He & _)]]; [done|lia|].
  exists c'. split_and!; [done| |].
  - intros later Hlt. unfold DnsCache_get. rewrite He, lookup_insert_eq. simpl.
    destruct (N.leb_spec (now + ttl c) later); [lia|done].
  - intros k e Hne Hk Hlive.
    assert (live_at now (entries c) !! k = Some e) as Hk'
      by (unfold live_at; by rewrite map_lookup_filter_Some).
    rewrite He, lookup_insert_ne by done.
    destruct (make_room_cases c now)
      as [[-> _]|[_ [[-> _]|(Hfull & [[-> Hemp]|(o & eo & Ho & -> & Hmin)])]]]; [by left..| |].
    { rewrite Hemp, lookup_empty in Hk'. done. }
    destruct (decide (o = k)) as [->|Hok]; [right|left; by rewrite lookup_delete_ne].
    rewrite Hk' in Ho. injection Ho as <-. split_and!; [done|done|].
    intros k' e' Hk1 Hk2 Hk3. by rewrite lookup_insert_ne, lookup_delete_ne by done.
Qed.

(** ** Accounting *)

Fixpoint gets (h : list cache_op) : nat :=
  match h with
  | [] => 0
  | OpGet _ _ :: h => S (gets h)
  | OpInsert _ _ _ _ :: h => gets h
  end.

Fixpoint stored (t : Duration) (h : list cache_op) : nat :=
  match h with
  | [] => 0
  | OpInsert _ _ l now :: h => (if stores t l now then 1 else 0) + stored t h
  | OpGet _ _ :: h => stored t h
  end.

(** Insertions that replaced an entry of the same name. *)
Fixpoint overwritten (t : Duration) (n : usize) (h : list cache_op) : nat :=
  match h with
  | [] => 0
  | OpInsert ho name l now :: h =>
      (if stores t l now &&
          bool_decide (is_Some (entries (make_room (run_history t n h) now) !! name))
       then 1 else 0) + overwritten t n h
  | OpGet _ _ :: h => overwritten t n h
  end.

(** Making room moves entries to the eviction and expiry counters. *)
Lemma make_room_account `{!HashOrder} c now :
  u64_add (u64_add (evictions (make_room c now)) (expired_dropped (make_room c now)))
          (N.of_nat (size (entries (make_room c now)))) =
  u64_add (u64_add (evictions c) (expired_dropped c)) (N.of_nat (size (entries c))).
Proof.
  unfold make_room. fold (live_at now (entries c)).
  destruct (Nat.leb_spec (max_entries c) (size (entries c))); [|done].
  assert (size (live_at now (entries c)) ≤ size (entries c)) as Hle
    by (apply map_subseteq_size, map_filter_subseteq).
  destruct (if _ <=? _ then _ else _) as [[o e]|] eqn:E.
  - assert (live_at now (entries c) !! o = Some e) as Ho.
    { destruct (_ <=? _); [|done]. apply min_by_key_Some in E as [Hin _].
      by apply elem_of_hash_iter in Hin. }
    cbn [evictions expired_dropped entries]. rewrite map_size_delete_Some by eauto.
    assert (size (live_at now (entries c)) ≠ 0)
      by (intros Hz%map_size_empty_inv; rewrite Hz, lookup_empty in Ho; done).
    destruct (N.ltb_spec 0 (N.of_nat (size (entries c) - size (live_at now (entries c)))));
      u64_lia.
  - cbn [evictions expired_dropped entries].
    destruct (N.ltb_spec 0 (N.of_nat (size (entries c) - size (live_at now (entries c)))));
      u64_lia.
Qed.

(** The counters the dashboard shows add up: every lookup is counted as
    exactly one hit or one miss, every stored answer as one insertion, and the
    entries present are the insertions less those that replaced an entry of the
    same name, the evictions and the expired entries dropped (all modulo
    [2^64], the width of the counters). *)
Theorem dns_cache_accounting t n h :
  let c := run_history t n h in
  u64_add (hits c) (misses c) = (N.of_nat (gets h) mod u64_modulus)%N ∧
  inserts c = (N.of_nat (stored t h) mod u64_modulus)%N ∧
  u64_add (u64_add (u64_add (evictions c) (expired_dropped c)) (N.of_nat (size (entries c))))
          (N.of_nat (overwritten t n h)) = inserts c.
Proof.
  induction h as [|o h IH]; [done|]. simpl in *.
  pose proof (inv_ttl _ _ _ _ (cache_inv_run t n h)) as Ht.
  generalize dependent (run_history t n h). intros c IH Ht.
  destruct IH as (Hg & Hi & Hc). destruct o as [name now|ho name l now]; simpl.
  - rewrite u64_of_nat_S, <- Hg.
    unfold DnsCache_get. destruct (entries c !! name) as [e|] eqn:E; [case_match|]; simpl.
    + rewrite map_size_delete_Some by eauto. split_and!; [|done|rewrite <- Hc].
      * by rewrite u64_add_assoc.
      * destruct (size (entries c)) as [|s] eqn:Es.
        { apply map_size_empty_inv in Es. by rewrite Es, lookup_empty in E. }
        by rewrite u64_add_S, <- u64_add_assoc.
    + split_and!; [|done|done]. apply u64_add_right_comm.
    + split_and!; [|done|done]. by rewrite u64_add_assoc.
  - destruct (make_room_static c now) as (_ & _ & Hh & Hm & Hin).
    pose proof (make_room_account c now) as Hacc.
    destruct (insert_cases c name l now)
      as [[-> ->]|[(Hl & Hover & ->)|(Hl & Hover & c' & -> & _ & _ & He & Hh' & Hm' & Hi' & Hev & Hex)]];
      simpl.
    + done.
    + assert (stores t l now = false) as -> by (unfold stores; rewrite <- Ht; lia). simpl.
      rewrite Hh, Hm, Hin, Hacc. done.
    + assert (stores t l now = true) as ->.
      { unfold stores. rewrite bool_decide_eq_false_2 by done. rewrite <- Ht. by apply N.leb_le. }
      rewrite Hh', Hm', Hi', Hev, Hex, He, map_size_insert. simpl.
      split_and!; [done|by rewrite Hi, u64_of_nat_S|].
      destruct (entries (make_room c now) !! name) eqn:E.
      * rewrite bool_decide_eq_true_2 by eauto. simpl.
        rewrite Hacc, u64_add_S, <- Hc. apply u64_add_right_comm.
      * rewrite bool_decide_eq_false_2 by (by intros [??]). simpl.
        rewrite u64_add_S, (u64_add_right_comm _ 1), Hacc, <- Hc. apply u64_add_right_comm.
Qed.

(** The dashboard's view of the cache: at most twenty names, each a name
    that is cached, rendered in printable ASCII, listed by time to expiry, and no
    cached name that was left out expires sooner than one that is listed. *)
Theorem dns_snapshot_top `{!HashOrder} c now :
  let names := ds_names (DnsCache_snapshot c now) in
  length names ≤ TOP_LIST_LEN ∧
  StronglySorted (λ a b, (dn_expires_in_secs a ≤ dn_expires_in_secs b)%N) names ∧
  (∀ d, d ∈ names → all_chars is_printable (dn_name d) = true ∧
     ∃ k e, entries c !! k = Some e ∧ dn_name d = sanitize_domain (as_bytes k) ∧
            dn_expires_in_secs d = as_secs (expires_at e - now)) ∧
  (length names = TOP_LIST_LEN ∨ length names = size (entries c)) ∧
  (∀ k e, entries c !! k = Some e →
     (∃ d, d ∈ names ∧ dn_name d = sanitize_domain (as_bytes k)) ∨
     ∀ d, d ∈ names → (dn_expires_in_secs d ≤ as_secs (expires_at e - now))%N).
Proof.
  simpl. set (key := λ kv : string * CacheEntry, _).
  set (le := λ a b, (dn_expires_in_secs a <=? dn_expires_in_secs b)%N).
  assert (∀ x y, le x y = true → (dn_expires_in_secs x ≤ dn_expires_in_secs y)%N) as Hle
    by (intros x y; apply N.leb_le).
  destruct (top_k le TOP_LIST_LEN (key <$> hash_iter (entries c))) as (Hlen & Hs & rest & Hperm & Hrest).
  { intros x y. unfold le. lia. }
  { intros x y z. unfold le. lia. }
  split_and!; [done|by eapply (StronglySorted_impl _ _ _ Hle)| | |].
  - intros d Hd. assert (d ∈ key <$> hash_iter (entries c)) as Hin
      by (rewrite Hperm; set_solver).
    apply list_elem_of_fmap in Hin as ([k e] & -> & Hin%elem_of_hash_iter).
    split; [apply sanitize_domain_printable|]. by exists k, e.
  - rewrite length_firstn, sort_by_perm, length_fmap, hash_iter_perm, length_map_to_list.
    lia.
  - intros k e Hk. assert (key (k, e) ∈ key <$> hash_iter (entries c)) as Hin.
    { apply list_elem_of_fmap. exists (k, e). by rewrite elem_of_hash_iter. }
    rewrite Hperm in Hin. apply elem_of_app in Hin as [Hin|Hin].
    + left. by exists (key (k, e)).
    + right. intros d Hd. by apply (Hle d (key (k, e))), Hrest.
Qed.

(** A time-to-live that the clock cannot represent turns every
    insertion into a panic: nothing is ever cached, although room was made for
    it. The command line accepts such values ([--dns-cache-ttl] is any [u64]
    number of seconds). *)
Theorem dns_cache_ttl_overflow secs n h `{!HashOrder} name l now :
  (9223372036854775808 ≤ secs)%N → l ≠ [] →
  entries (run_history (from_secs secs) n h) = ∅ ∧
  DnsCache_insert (run_history (from_secs secs) n h) name l now =
    Panicked (make_room (run_history (from_secs secs) n h) now).
Proof.
  intros Hsecs Hl.
  assert (∀ now, (instant_max < now + from_secs secs)%N) as Hover
    by (intros now'; unfold instant_max, from_secs; lia).
  split.
  - apply map_empty. intros k. destruct (entries _ !! k) as [e|] eqn:E; [exfalso|done].
    apply (cache_inv_run (from_secs secs) n h) in E as (Hlast & _ & _).
    revert Hlast. clear -Hover. induction h as [|[nm t|ho nm l t] h IH]; simpl; [done|done|].
    assert (stores (from_secs secs) l t = false) as ->.
    { unfold stores. specialize (Hover t). destruct (bool_decide _); simpl; [done|].
      by apply N.leb_gt. }
    by rewrite andb_false_r.
  - pose proof (inv_ttl _ _ _ _ (cache_inv_run (from_secs secs) n h)) as Ht.
    destruct (insert_cases (run_history (from_secs secs) n h) name l now)
      as [[? _]|[(_ & _ & ->)|(_ & Hle & _)]]; [done|done|].
    rewrite Ht in Hle. specialize (Hover now). lia.
Qed.

(** ** Witnesses *)

#[local] Program Instance map_order : HashOrder := {| hash_iter := map_to_list |}.
Solve Obligations with done.

Definition addr80 : SocketAddr := SockV4 [# x7f; x00; x00; x01] 80.

Lemma dns_cache_fresh_witness :
  ∃ stored, last_insert (from_secs 60) "a:80" [OpInsert map_order "a:80" [addr80] 5] =
              Some (stored, [addr80]) ∧
            (stored ≤ 6)%N ∧ (6 < stored + from_secs 60)%N ∧ [addr80] ≠ [].
Proof.
  apply (dns_cache_fresh (from_secs 60) 8 [OpInsert map_order "a:80" [addr80] 5] "a:80" 6).
  - simpl. split; [lia|done].
  - reflexivity.
Defined.

Lemma dns_cache_insert_spec_witness :
  ∃ c', DnsCache_insert (DnsCache_new (from_secs 60) 8) "a:80" [addr80] 5 = Returned c' ∧
    (∀ later, (later < 5 + from_secs 60)%N → fst (DnsCache_get c' "a:80" later) = Some [addr80]) ∧
    (∀ k e, k ≠ "a:80" → entries (DnsCache_new (from_secs 60) 8) !! k = Some e →
       (5 < expires_at e)%N →
       entries c' !! k = Some e ∨
       max_entries (DnsCache_new (from_secs 60) 8) ≤
         size (live_at 5 (entries (DnsCache_new (from_secs 60) 8))) ∧
       (∀ k' e', live_at 5 (entries (DnsCache_new (from_secs 60) 8)) !! k' = Some e' →
          (inserted_at e ≤ inserted_at e')%N) ∧
       (∀ k' e', k' ≠ k → k' ≠ "a:80" →
          live_at 5 (entries (DnsCache_new (from_secs 60) 8)) !! k' = Some e' →
          entries c' !! k' = Some e')).
Proof. apply dns_cache_insert_spec; [done|vm_compute; discriminate]. Defined.

Lemma dns_cache_ttl_overflow_witness :
  entries (run_history (from_secs 18446744073709551615) 8 []) = ∅ ∧
  DnsCache_insert (run_history (from_secs 18446744073709551615) 8 []) "a:80" [addr80] 5 =
    Panicked (make_room (run_history (from_secs 18446744073709551615) 8 []) 5).
Proof. apply dns_cache_ttl_overflow; [lia|done]. Defined.
