(* ===== verification/Lock.v ===== *)
(** * Locks that outlive a panic ([lock] in [stats.rs]; [lock_counts] and the
      [match self.entries.lock()] of [DnsCache] in [lib.rs])

    A thread that panics while it holds a [Mutex] poisons it.  The program takes
    the guard out of the error everywhere; the other files of this development
    therefore treat shared maps as plain values.  Here the poison is in the
    state, and that treatment is proved right for the DNS cache, whose
    insertions can panic half-way. *)
From S2P Require Import Prelude Types DnsCache.

(** ** The mutex of the standard library *)

Record Mutex (A : Type) := { data : A; poisoned : bool }.
Arguments data {A} _.
Arguments poisoned {A} _.

Definition Mutex_new {A} (a : A) : Mutex A := {| data := a; poisoned := false |}.

(** [LockResult]: the guard gives access to the data, poisoned or not. *)
Definition mutex_lock {A} (m : Mutex A) : result A A :=
  if poisoned m then Err (data m) else Ok (data m).

(** How a critical section ends: with the data as it left them and a result, or
    unwinding. *)
Inductive section_end (A B : Type) : Type :=
  | Leaves (a : A) (b : B)
  | Unwinds (a : A).
Arguments Leaves {A B} a b.
Arguments Unwinds {A B} a.

(** ** The code *)

(** [Err(poisoned) => poisoned.into_inner()]. *)
Definition lock {A} (r : result A A) : A :=
  match r with
  | Ok guard => guard
  | Err poisoned => poisoned
  end.

(** [lock_counts]. *)
Definition lock_counts (r : result (gmap IpAddr usize) (gmap IpAddr usize)) : gmap IpAddr usize :=
  match r with
  | Ok guard => guard
  | Err poisoned => poisoned
  end.

(** A call that takes the lock; [None] if it panics. *)
Definition with_lock {A B} (body : A → section_end A B) (m : Mutex A) : option B * Mutex A :=
  match body (lock (mutex_lock m)) with
  | Leaves a b => (Some b, {| data := a; poisoned := poisoned m |})
  | Unwinds a => (None, {| data := a; poisoned := true |})
  end.

(** The same with [lock().unwrap()], which the code avoids. *)
Definition with_unwrap {A B} (body : A → section_end A B) (m : Mutex A) : option B * Mutex A :=
  match mutex_lock m with
  | Ok guard =>
      match body guard with
      | Leaves a b => (Some b, {| data := a; poisoned := false |})
      | Unwinds a => (None, {| data := a; poisoned := true |})
      end
  | Err _ => (None, m)
  end.

(** The critical sections of the cache; an insertion answers nothing. *)
Definition cache_section (op : cache_op) (c : DnsCache)
    : section_end DnsCache (option (list SocketAddr)) :=
  match op with
  | OpGet name now => let '(r, c) := DnsCache_get c name now in Leaves c r
  | OpInsert ho name new_addrs now =>
      match @DnsCache_insert ho c name new_addrs now with
      | Returned c => Leaves c None
      | Panicked c => Unwinds c
      end
  end.

(** ** Sequences of calls *)

Section calls.
Context {A B : Type} (take : (A → section_end A B) → Mutex A → option B * Mutex A).

Fixpoint calls (bodies : list (A → section_end A B)) (m : Mutex A) : list (option B) * Mutex A :=
  match bodies with
  | [] => ([], m)
  | body :: bodies =>
      let '(b, m) := take body m in
      let '(bs, m) := calls bodies m in (b :: bs, m)
  end.
End calls.

(** The same on the bare data. *)
Fixpoint plain {A B} (bodies : list (A → section_end A B)) (a : A) : list (option B) * A :=
  match bodies with
  | [] => ([], a)
  | body :: bodies =>
      let '(b, a) := match body a with Leaves a b => (Some b, a) | Unwinds a => (None, a) end in
      let '(bs, a) := plain bodies a in (b :: bs, a)
  end.

(** The recovery makes poison invisible: every sequence of critical sections,
    with panics among them, answers and leaves what it does on the bare data. *)
Lemma lock_transparent {A B} (bodies : list (A → section_end A B)) m :
  (calls with_lock bodies m).1 = (plain bodies (data m)).1 ∧
  data (calls with_lock bodies m).2 = (plain bodies (data m)).2.
Proof.
  revert m. induction bodies as [|body bodies IH]; intros m; [done|]. simpl.
  unfold with_lock. assert (lock (mutex_lock m) = data m) as ->
    by (unfold mutex_lock; by destruct (poisoned m)).
  destruct (body (data m)) as [a b|a].
  - specialize (IH {| data := a; poisoned := poisoned m |}). simpl in IH.
    destruct (calls _ _ _), (plain _ _). simpl in *. by destruct IH as [-> ->].
  - specialize (IH {| data := a; poisoned := true |}). simpl in IH.
    destruct (calls _ _ _), (plain _ _). simpl in *. by destruct IH as [-> ->].
Qed.

(** Without it one panic would make every later call panic. *)
Lemma unwrap_spreads {A B} (bodies : list (A → section_end A B)) m :
  poisoned m = true → calls with_unwrap bodies m = (replicate (length bodies) None, m).
Proof.
  intros Hp. induction bodies as [|body bodies IH]; [done|]. cbn [calls length replicate].
  assert (with_unwrap body m = (None, m)) as -> by (unfold with_unwrap, mutex_lock; by rewrite Hp).
  by rewrite IH.
Qed.

(** ** The DNS cache behind its lock *)

Lemma cache_section_spec op c :
  match cache_section op c with Leaves c' _ | Unwinds c' => c' = run_op c op end.
Proof.
  destruct op as [name now|ho name l now]; simpl.
  - by destruct (DnsCache_get c name now).
  - by destruct (DnsCache_insert c name l now).
Qed.

(** However many insertions have panicked inside the lock, the cache is the one
    that the operations on the bare cache lead to, and a lookup answers what it
    does there. *)
Theorem cache_survives_panics ops m name now :
  let m' := (calls with_lock (cache_section <$> ops) m).2 in
  data m' = fold_left run_op ops (data m) ∧
  (with_lock (cache_section (OpGet name now)) m').1 =
    Some (DnsCache_get (fold_left run_op ops (data m)) name now).1.
Proof.
  intros m'. assert (data m' = fold_left run_op ops (data m)) as Hm.
  { unfold m'. rewrite (proj2 (lock_transparent _ _)). generalize (data m). clear.
    induction ops as [|op ops IH]; intros c; [done|]. cbn [fmap list_fmap plain fold_left].
    pose proof (cache_section_spec op c) as Hs.
    destruct (cache_section op c) as [c' b|c']; rewrite <- Hs, <- IH; by destruct (plain _ c'). }
  split; [done|]. unfold with_lock.
  assert (lock (mutex_lock m') = data m') as -> by (unfold mutex_lock; by destruct (poisoned m')).
  rewrite Hm. simpl. by destruct (DnsCache_get _ name now).
Qed.
