(* ===== verification/Stats.v ===== *)
(** * Always-on statistics ([src/src/stats.rs])

    The counters, the live client registry and its guards, and the snapshots
    the web service serialises.  The byte counters of a connection are shared
    ([Arc<AtomicU64>]) between its guard, its registry row and its relay: they
    are locations of a heap, so that a write through one is seen through the
    others.  The monotonic counters are a function from their names. *)
From stdpp Require Export functions.
From S2P Require Import Prelude Fmt Types Display DnsCache.

(** ** Shared atomics *)

Abbreviation loc := nat (only parsing).

Record Heap := { cell : gmap loc u64; next_cell : loc }.

Definition heap_empty : Heap := {| cell := ∅; next_cell := 0 |}.

(** [Arc::new(AtomicU64::new(v))]. *)
Definition heap_alloc (v : u64) (h : Heap) : loc * Heap :=
  (next_cell h, {| cell := <[next_cell h := v]> (cell h); next_cell := S (next_cell h) |}).

Definition heap_load (l : loc) (h : Heap) : u64 := default 0%N (cell h !! l).

Definition heap_store (l : loc) (v : u64) (h : Heap) : Heap :=
  {| cell := <[l := v]> (cell h); next_cell := next_cell h |}.

(** ** State *)

Inductive counter :=
  | accepted_total | refused_per_ip_total | handshake_timeouts | auth_failures | disconnects
  | requests_connect | requests_bind | requests_udp_associate
  | udp_datagrams | bytes_client_to_target | bytes_target_to_client.

#[global] Instance counter_eq_dec : EqDecision counter.
Proof. solve_decision. Defined.

Record ClientRecord := {
  cr_peer : SocketAddr; cr_local : option SocketAddr; cr_started_at : N;
  cr_command : option string; cr_bytes_up : loc; cr_bytes_down : loc
}.

(** [dns] names the registered cache in the process' table of caches. *)
Record Stats := {
  started_at : N;
  started_at_unix : u64;
  listeners : list string;
  active : u64;
  active_per_ip : gmap IpAddr u64;
  counters : counter → u64;
  errors_by_code : gmap u8 u64;
  dns : option loc;
  clients : gmap u64 ClientRecord;
  next_client_id : u64
}.

Record ActiveGuard := { g_ip : IpAddr; g_id : u64; g_bytes_up : loc; g_bytes_down : loc }.

Definition ActiveGuard_relay_counters (self : ActiveGuard) : loc * loc :=
  (g_bytes_up self, g_bytes_down self).

Definition Stats_new (now : N) (unix_now : u64) : Stats :=
  {| started_at := now; started_at_unix := unix_now; listeners := []; active := 0;
     active_per_ip := ∅; counters := λ _, 0%N; errors_by_code := ∅; dns := None;
     clients := ∅; next_client_id := 0 |}.

(** ** Operations *)

Definition counter_add (c : counter) (n : u64) (s : Stats) : Stats :=
  {| started_at := started_at s; started_at_unix := started_at_unix s;
     listeners := listeners s; active := active s; active_per_ip := active_per_ip s;
     counters := <[c := u64_add (counters s c) n]> (counters s);
     errors_by_code := errors_by_code s; dns := dns s; clients := clients s;
     next_client_id := next_client_id s |}.

Definition note_listeners (addrs : list SocketAddr) (s : Stats) : Stats :=
  {| started_at := started_at s; started_at_unix := started_at_unix s;
     listeners := listeners s ++ (SocketAddr_to_string <$> addrs);
     active := active s; active_per_ip := active_per_ip s; counters := counters s;
     errors_by_code := errors_by_code s; dns := dns s; clients := clients s;
     next_client_id := next_client_id s |}.

Definition register_dns (cache : loc) (s : Stats) : Stats :=
  {| started_at := started_at s; started_at_unix := started_at_unix s;
     listeners := listeners s; active := active s; active_per_ip := active_per_ip s;
     counters := counters s; errors_by_code := errors_by_code s; dns := Some cache;
     clients := clients s; next_client_id := next_client_id s |}.

Definition note_accepted (s : Stats) : Stats := counter_add accepted_total 1 s.
Definition note_refused_per_ip (s : Stats) : Stats := counter_add refused_per_ip_total 1 s.
Definition note_handshake_timeout (s : Stats) : Stats := counter_add handshake_timeouts 1 s.
Definition note_auth_failure (s : Stats) : Stats := counter_add auth_failures 1 s.
Definition note_disconnect (s : Stats) : Stats := counter_add disconnects 1 s.

Definition with_clients (f : gmap u64 ClientRecord → gmap u64 ClientRecord) (s : Stats) : Stats :=
  {| started_at := started_at s; started_at_unix := started_at_unix s;
     listeners := listeners s; active := active s; active_per_ip := active_per_ip s;
     counters := counters s; errors_by_code := errors_by_code s; dns := dns s;
     clients := f (clients s); next_client_id := next_client_id s |}.

Definition update_client (id : u64) (update : ClientRecord → ClientRecord) (s : Stats) : Stats :=
  with_clients (alter update id) s.

Definition request_counter (command : SockCommand) : counter :=
  match command with
  | Connect => requests_connect
  | Bind => requests_bind
  | UdpAssosiate => requests_udp_associate
  end.

Definition request_label (command : SockCommand) : string :=
  match command with
  | Connect => "connect"
  | Bind => "bind"
  | UdpAssosiate => "udp_associate"
  end.

Definition set_command (label : string) (r : ClientRecord) : ClientRecord :=
  {| cr_peer := cr_peer r; cr_local := cr_local r; cr_started_at := cr_started_at r;
     cr_command := Some label; cr_bytes_up := cr_bytes_up r; cr_bytes_down := cr_bytes_down r |}.

Definition note_request (client_id : option u64) (command : SockCommand) (s : Stats) : Stats :=
  let s := counter_add (request_counter command) 1 s in
  match client_id with
  | Some id => update_client id (set_command (request_label command)) s
  | None => s
  end.

Definition note_relay (up down : u64) (s : Stats) : Stats :=
  counter_add bytes_target_to_client down (counter_add bytes_client_to_target up s).

Definition note_udp_datagram (bytes : u64) (s : Stats) : Stats :=
  counter_add bytes_client_to_target bytes (counter_add udp_datagrams 1 s).

Definition note_udp_reply (bytes : u64) (s : Stats) : Stats :=
  counter_add bytes_target_to_client bytes s.

Definition note_error (code : u8) (s : Stats) : Stats :=
  {| started_at := started_at s; started_at_unix := started_at_unix s;
     listeners := listeners s; active := active s; active_per_ip := active_per_ip s;
     counters := counters s;
     errors_by_code := <[code := (default 0 (errors_by_code s !! code) + 1)%N]> (errors_by_code s);
     dns := dns s; clients := clients s; next_client_id := next_client_id s |}.

Definition begin_client (peer : SocketAddr) (local : option SocketAddr) (now : N)
    (s : Stats) (h : Heap) : ActiveGuard * Stats * Heap :=
  let id := next_client_id s in
  let '(bytes_up, h) := heap_alloc 0 h in
  let '(bytes_down, h) := heap_alloc 0 h in
  let record := {| cr_peer := peer; cr_local := local; cr_started_at := now;
                   cr_command := None; cr_bytes_up := bytes_up; cr_bytes_down := bytes_down |} in
  let ip := sock_ip peer in
  ({| g_ip := ip; g_id := id; g_bytes_up := bytes_up; g_bytes_down := bytes_down |},
   {| started_at := started_at s; started_at_unix := started_at_unix s;
      listeners := listeners s; active := u64_add (active s) 1;
      active_per_ip := <[ip := (default 0 (active_per_ip s !! ip) + 1)%N]> (active_per_ip s);
      counters := counters s; errors_by_code := errors_by_code s; dns := dns s;
      clients := <[id := record]> (clients s); next_client_id := u64_add id 1 |},
   h).

Definition ActiveGuard_drop (g : ActiveGuard) (s : Stats) : Stats :=
  {| started_at := started_at s; started_at_unix := started_at_unix s;
     listeners := listeners s; active := u64_sub (active s) 1;
     active_per_ip :=
       match active_per_ip s !! g_ip g with
       | Some count =>
           if (count <=? 1)%N then delete (g_ip g) (active_per_ip s)
           else <[g_ip g := (count - 1)%N]> (active_per_ip s)
       | None => active_per_ip s
       end;
     counters := counters s; errors_by_code := errors_by_code s; dns := dns s;
     clients := delete (g_id g) (clients s); next_client_id := next_client_id s |}.

(** ** Views *)

Record ClientView := {
  cv_id : u64; cv_peer : SocketAddr; cv_local : option SocketAddr; cv_elapsed_secs : N;
  cv_state : string; cv_command : option string;
  cv_bytes_client_to_target : u64; cv_bytes_target_to_client : u64
}.

Definition client_view (h : Heap) (now : N) (kv : u64 * ClientRecord) : ClientView :=
  let '(id, record) := kv in
  {| cv_id := id; cv_peer := cr_peer record; cv_local := cr_local record;
     cv_elapsed_secs := as_secs (now - cr_started_at record);
     cv_state := match cr_command record with Some _ => "relaying" | None => "negotiating" end;
     cv_command := cr_command record;
     cv_bytes_client_to_target := heap_load (cr_bytes_up record) h;
     cv_bytes_target_to_client := heap_load (cr_bytes_down record) h |}.

(** [Stats::clients]: the rows sorted by id, which are distinct, so that the
    iteration order of the map does not matter. *)
Definition ids_leb (a b : ClientView) : bool := (cv_id a <=? cv_id b)%N.

Definition clients_view (h : Heap) (now : N) (s : Stats) : list ClientView :=
  sort_by ids_leb (client_view h now <$> map_to_list (clients s)).

Definition CODE_SUCCESS : u8 := ResponseCode_as_u8 Success.
Definition CODE_FAILURE : u8 := ResponseCode_as_u8 Failure.
Definition CODE_RULE_FAILURE : u8 := ResponseCode_as_u8 RuleFailure.
Definition CODE_NETWORK_UNREACHABLE : u8 := ResponseCode_as_u8 NetworkUnreachable.
Definition CODE_HOST_UNREACHABLE : u8 := ResponseCode_as_u8 HostUnreachable.
Definition CODE_CONNECTION_REFUSED : u8 := ResponseCode_as_u8 ConnectionRefused.
Definition CODE_TTL_EXPIRED : u8 := ResponseCode_as_u8 TtlExpired.
Definition CODE_COMMAND_NOT_SUPPORTED : u8 := ResponseCode_as_u8 CommandNotSupported.
Definition CODE_ADDR_TYPE_NOT_SUPPORTED : u8 := ResponseCode_as_u8 AddrTypeNotSupported.

(** The arms of the [match], in order: the patterns are the constants above. *)
Definition code_name (code : u8) : string :=
  if bool_decide (code = CODE_SUCCESS) then "success"
  else if bool_decide (code = CODE_FAILURE) then "failure"
  else if bool_decide (code = CODE_RULE_FAILURE) then "rule_failure"
  else if bool_decide (code = CODE_NETWORK_UNREACHABLE) then "network_unreachable"
  else if bool_decide (code = CODE_HOST_UNREACHABLE) then "host_unreachable"
  else if bool_decide (code = CODE_CONNECTION_REFUSED) then "connection_refused"
  else if bool_decide (code = CODE_TTL_EXPIRED) then "ttl_expired"
  else if bool_decide (code = CODE_COMMAND_NOT_SUPPORTED) then "command_not_supported"
  else if bool_decide (code = CODE_ADDR_TYPE_NOT_SUPPORTED) then "addr_type_not_supported"
  else "unassigned".

(** Codes and names: the name of a code that is sent tells which it is. *)
Lemma code_name_inj c d :
  code_name (ResponseCode_as_u8 c) = code_name (ResponseCode_as_u8 d) → c = d.
Proof. by destruct c, d. Qed.

Record IpCount := { ic_ip : IpAddr; ic_count : u64 }.
Record ErrorSnapshot := { es_code : u8; es_name : string; es_count : u64 }.
Record ServerSnapshot := {
  ss_version : string; ss_uptime_secs : N; ss_started_at_unix : u64; ss_listeners : list string }.
Record ConnectionsSnapshot := {
  cs_active : u64; cs_active_per_ip : list IpCount; cs_accepted_total : u64;
  cs_refused_per_ip_total : u64; cs_handshake_timeouts : u64; cs_auth_failures : u64;
  cs_disconnects : u64 }.
Record RequestsSnapshot := { rq_connect : u64; rq_bind : u64; rq_udp_associate : u64 }.
Record TrafficSnapshot := {
  ts_bytes_client_to_target : u64; ts_bytes_target_to_client : u64; ts_udp_datagrams : u64;
  ts_requests : RequestsSnapshot }.
Record Snapshot := {
  snap_server : ServerSnapshot; snap_connections : ConnectionsSnapshot; snap_dns : DnsSnapshot;
  snap_traffic : TrafficSnapshot; snap_errors : list ErrorSnapshot }.

(** [Ord] for [IpAddr]: IPv4 before IPv6, octets lexicographically. *)
Fixpoint bytes_leb (a b : list u8) : bool :=
  match a, b with
  | [], _ => true
  | _ :: _, [] => false
  | x :: a, y :: b =>
      if (Byte.to_N x <? Byte.to_N y)%N then true
      else if (Byte.to_N y <? Byte.to_N x)%N then false else bytes_leb a b
  end.

Definition ip_leb (a b : IpAddr) : bool :=
  match a, b with
  | IpV4 x, IpV4 y => bytes_leb (vec_to_list x) (vec_to_list y)
  | IpV4 _, IpV6 _ => true
  | IpV6 _, IpV4 _ => false
  | IpV6 x, IpV6 y => bytes_leb (vec_to_list x) (vec_to_list y)
  end.

(** [b.count.cmp(&a.count).then_with(|| a.key.cmp(&b.key))] as a test. *)
Definition rank_leb {A} (key_leb : A → A → bool) (count : A → u64) (a b : A) : bool :=
  if (count b <? count a)%N then true
  else if (count a <? count b)%N then false else key_leb a b.

Definition errors_snapshot (s : Stats) : list ErrorSnapshot :=
  sort_by (rank_leb (λ a b, Byte.to_N (es_code a) <=? Byte.to_N (es_code b))%N es_count)
    ((λ kv, {| es_code := kv.1; es_name := code_name kv.1; es_count := kv.2 |})
       <$> map_to_list (errors_by_code s)).

Definition per_ip_snapshot (s : Stats) : list IpCount :=
  firstn TOP_LIST_LEN
    (sort_by (rank_leb (λ a b, ip_leb (ic_ip a) (ic_ip b)) ic_count)
       ((λ kv, {| ic_ip := kv.1; ic_count := kv.2 |}) <$> map_to_list (active_per_ip s))).

(** The registered cache, if any, is looked up in the table of caches. *)
Definition dns_snapshot `{!HashOrder} (caches : list DnsCache) (now : N) (s : Stats)
    : DnsSnapshot :=
  match dns s with
  | Some l => match caches !! l with
              | Some cache => DnsCache_snapshot cache now
              | None => DnsSnapshot_disabled
              end
  | None => DnsSnapshot_disabled
  end.

Definition snapshot `{!HashOrder} (version : string) (caches : list DnsCache) (now : N)
    (s : Stats) : Snapshot :=
  {| snap_server :=
       {| ss_version := version; ss_uptime_secs := as_secs (now - started_at s);
          ss_started_at_unix := started_at_unix s; ss_listeners := listeners s |};
     snap_connections :=
       {| cs_active := active s; cs_active_per_ip := per_ip_snapshot s;
          cs_accepted_total := counters s accepted_total;
          cs_refused_per_ip_total := counters s refused_per_ip_total;
          cs_handshake_timeouts := counters s handshake_timeouts;
          cs_auth_failures := counters s auth_failures;
          cs_disconnects := counters s disconnects |};
     snap_dns := dns_snapshot caches now s;
     snap_traffic :=
       {| ts_bytes_client_to_target := counters s bytes_client_to_target;
          ts_bytes_target_to_client := counters s bytes_target_to_client;
          ts_udp_datagrams := counters s udp_datagrams;
          ts_requests :=
            {| rq_connect := counters s requests_connect; rq_bind := counters s requests_bind;
               rq_udp_associate := counters s requests_udp_associate |} |};
     snap_errors := errors_snapshot s |}.

(** ** The registry over every interleaving

    The state of the process as far as the registry sees it: the statistics,
    the heap and the guards that are alive, one per connection. *)

Record registry := { r_stats : Stats; r_heap : Heap; r_guards : list ActiveGuard }.

Inductive registry_step : registry → registry → Prop :=
  | step_begin s h gs peer local now g s' h' :
      (next_client_id s + 1 < u64_modulus)%N →
      begin_client peer local now s h = (g, s', h') →
      registry_step {| r_stats := s; r_heap := h; r_guards := gs |}
                    {| r_stats := s'; r_heap := h'; r_guards := g :: gs |}
  | step_end s h gs1 g gs2 :
      registry_step {| r_stats := s; r_heap := h; r_guards := gs1 ++ g :: gs2 |}
                    {| r_stats := ActiveGuard_drop g s; r_heap := h; r_guards := gs1 ++ gs2 |}
  | step_progress s h gs g l v :
      g ∈ gs → l = g_bytes_up g ∨ l = g_bytes_down g →
      registry_step {| r_stats := s; r_heap := h; r_guards := gs |}
                    {| r_stats := s; r_heap := heap_store l v h; r_guards := gs |}
  | step_request s h gs id cmd :
      registry_step {| r_stats := s; r_heap := h; r_guards := gs |}
                    {| r_stats := note_request id cmd s; r_heap := h; r_guards := gs |}
  | step_count s h gs c n :
      registry_step {| r_stats := s; r_heap := h; r_guards := gs |}
                    {| r_stats := counter_add c n s; r_heap := h; r_guards := gs |}
  | step_error s h gs code :
      registry_step {| r_stats := s; r_heap := h; r_guards := gs |}
                    {| r_stats := note_error code s; r_heap := h; r_guards := gs |}.

Definition registry_init (now : N) (unix_now : u64) : registry :=
  {| r_stats := Stats_new now unix_now; r_heap := heap_empty; r_guards := [] |}.

Definition registry_reachable (now : N) (unix_now : u64) : registry → Prop :=
  rtc registry_step (registry_init now unix_now).

Definition count_ip (ip : IpAddr) (gs : list ActiveGuard) : N :=
  N.of_nat (length (filter (λ g, g_ip g = ip) gs)).

(** The two byte counters of a guard. *)
Definition guard_cells (g : ActiveGuard) : list loc := [g_bytes_up g; g_bytes_down g].

(** The row of a guard. *)
Record row_of (g : ActiveGuard) (r : ClientRecord) : Prop := {
  row_ip : sock_ip (cr_peer r) = g_ip g;
  row_up : cr_bytes_up r = g_bytes_up g;
  row_down : cr_bytes_down r = g_bytes_down g
}.

Record registry_inv (s : Stats) (h : Heap) (gs : list ActiveGuard) : Prop := {
  inv_next : (next_client_id s < u64_modulus)%N;
  inv_ids : NoDup (g_id <$> gs);
  inv_id_bound : Forall (λ g, g_id g < next_client_id s)%N gs;
  inv_len : (N.of_nat (length gs) ≤ next_client_id s)%N;
  inv_cells : NoDup (flat_map guard_cells gs);
  inv_cell_bound : Forall (λ l, l < next_cell h) (flat_map guard_cells gs);
  inv_active : active s = N.of_nat (length gs);
  inv_per_ip ip : active_per_ip s !! ip =
    if decide (count_ip ip gs = 0%N) then None else Some (count_ip ip gs);
  inv_row g : g ∈ gs → ∃ r, clients s !! g_id g = Some r ∧ row_of g r;
  inv_rows id r : clients s !! id = Some r → ∃ g, g ∈ gs ∧ g_id g = id
}.

Lemma registry_inv_init now unix_now : registry_inv (Stats_new now unix_now) heap_empty [].
Proof.
  split; simpl; try constructor; try done.
  by intros g ?%not_elem_of_nil.
Qed.

Lemma count_ip_cons ip g gs :
  count_ip ip (g :: gs) = ((if decide (g_ip g = ip) then 1 else 0) + count_ip ip gs)%N.
Proof. unfold count_ip. rewrite filter_cons. case_decide; simpl; lia. Qed.

Lemma count_ip_perm ip gs gs' : gs ≡ₚ gs' → count_ip ip gs = count_ip ip gs'.
Proof. intros H. unfold count_ip. by rewrite H. Qed.

(** The invariant does not depend on the order of the guards. *)
#[global] Instance registry_inv_perm s h : Proper ((≡ₚ) ==> iff) (registry_inv s h).
Proof.
  assert (∀ gs gs', gs ≡ₚ gs' → registry_inv s h gs → registry_inv s h gs') as Himpl.
  { intros gs gs' Hp []. split; try done.
    - by rewrite <- Hp.
    - by rewrite <- Hp.
    - by rewrite <- Hp.
    - by rewrite <- Hp.
    - by rewrite <- Hp.
    - by rewrite <- Hp.
    - intros ip. by rewrite <- (count_ip_perm ip _ _ Hp).
    - intros g. rewrite <- Hp. auto.
    - intros id r Hr. setoid_rewrite <- Hp. eauto. }
  intros gs gs' Hp. split; apply Himpl; [done|by symmetry].
Qed.

Lemma begin_client_inv s h gs peer local now g s' h' :
  (next_client_id s + 1 < u64_modulus)%N →
  begin_client peer local now s h = (g, s', h') →
  registry_inv s h gs → registry_inv s' h' (g :: gs).
Proof.
  intros Hlt [= <- <- <-] [Hn Hid Hidb Hlen Hc Hcb Ha Hip Hrow Hrows].
  assert (u64_add (next_client_id s) 1 = next_client_id s + 1)%N as Hnext
    by (unfold u64_add; by apply N.mod_small).
  assert (∀ g', g' ∈ gs → g_id g' ≠ next_client_id s) as Hfresh.
  { intros g' Hg'. rewrite Forall_forall in Hidb. specialize (Hidb _ Hg'). lia. }
  split; simpl; rewrite ?Hnext.
  - done.
  - constructor; [|done]. intros (g' & Heq & Hg')%list_elem_of_fmap.
    by apply (Hfresh g').
  - constructor; [simpl; lia|]. eapply Forall_impl; [done|]. simpl. lia.
  - lia.
  - rewrite Forall_forall in Hcb.
    assert (∀ l, l ∈ flat_map guard_cells gs → l < next_cell h) as Hcb' by auto.
    repeat constructor; [|intros Hin%Hcb'; lia|done].
    intros [Heq|Hin%Hcb']%elem_of_cons; lia.
  - repeat constructor; [lia..|].
    eapply Forall_impl; [done|]. simpl. lia.
  - unfold u64_add. rewrite Ha, N.mod_small; lia.
  - intros ip. rewrite count_ip_cons. simpl. destruct (decide (sock_ip peer = ip)) as [<-|Hne].
    + rewrite lookup_insert_eq, Hip. repeat case_decide; try lia; f_equal; simpl; lia.
    + rewrite lookup_insert_ne, Hip, N.add_0_l by done. done.
  - intros g' [->|Hg']%elem_of_cons; simpl.
    + rewrite lookup_insert_eq. eexists. split; [done|]. by split.
    + rewrite lookup_insert_ne by (symmetry; by apply Hfresh). by apply Hrow.
  - intros id r. rewrite lookup_insert_Some. setoid_rewrite elem_of_cons.
    intros [[<- <-]|[_ Hr]]; [eexists; split; [by left|done]|].
    destruct (Hrows _ _ Hr) as (g' & ? & ?). eauto.
Qed.

Lemma ActiveGuard_drop_inv s h g gs :
  registry_inv s h (g :: gs) → registry_inv (ActiveGuard_drop g s) h gs.
Proof.
  intros [Hn Hid Hidb Hlen Hc Hcb Ha Hip Hrow Hrows].
  apply NoDup_cons in Hid as [Hnotin Hid]. apply Forall_cons in Hidb as [Hg Hidb].
  assert (∀ g', g' ∈ gs → g_id g' ≠ g_id g) as Hother.
  { intros g' Hg' Heq. apply Hnotin. rewrite <- Heq. by apply list_elem_of_fmap_2. }
  split; simpl in *; try done.
  - lia.
  - by apply NoDup_cons in Hc as [_ [_ ?]%NoDup_cons].
  - by apply Forall_cons in Hcb as [_ [_ ?]%Forall_cons].
  - unfold u64_sub, u64_modulus in *. rewrite Ha. rewrite (N.mod_small 1) by lia.
    symmetry. apply (N.mod_unique _ _ 1); lia.
  - assert (active_per_ip s !! g_ip g = Some (1 + count_ip (g_ip g) gs)%N) as ->.
    { rewrite Hip, count_ip_cons. repeat case_decide; try done; lia. }
    intros ip. specialize (Hip ip).
    assert (g_ip g ≠ ip → count_ip ip (g :: gs) = count_ip ip gs) as Hsame.
    { intros Hne. by rewrite count_ip_cons, decide_False. }
    destruct (N.leb_spec (1 + count_ip (g_ip g) gs) 1).
    + destruct (decide (g_ip g = ip)) as [<-|Hne].
      * clear Hip. rewrite lookup_delete_eq. case_decide; [done|lia].
      * by rewrite lookup_delete_ne, Hip, Hsame by done.
    + destruct (decide (g_ip g = ip)) as [<-|Hne].
      * clear Hip. rewrite lookup_insert_eq. case_decide; [lia|f_equal; lia].
      * by rewrite lookup_insert_ne, Hip, Hsame by done.
  - intros g' Hg'. rewrite lookup_delete_ne by (symmetry; by apply Hother).
    apply Hrow. by right.
  - intros id r. rewrite lookup_delete_Some. intros [Hne Hr].
    destruct (Hrows _ _ Hr) as (g' & [->|Hg']%elem_of_cons & Hid'); [done|eauto].
Qed.

Lemma note_request_inv s h gs id cmd :
  registry_inv s h gs → registry_inv (note_request id cmd s) h gs.
Proof.
  intros [Hn Hid Hidb Hlen Hc Hcb Ha Hip Hrow Hrows]. destruct id as [id|]; [|by split].
  split; simpl in *; try done.
  - intros g Hg. destruct (Hrow _ Hg) as (r & Hr & Hrow').
    destruct (decide (id = g_id g)) as [->|Hne].
    + rewrite lookup_alter_eq, Hr. simpl. eexists. split; [done|]. by destruct Hrow'; split.
    + rewrite lookup_alter_ne by done. eauto.
  - intros id' r. destruct (decide (id = id')) as [->|Hne].
    + rewrite lookup_alter_eq, fmap_Some. intros (r' & Hr & _). eauto.
    + rewrite lookup_alter_ne by done. apply Hrows.
Qed.

Lemma counter_add_inv s h gs c n : registry_inv s h gs → registry_inv (counter_add c n s) h gs.
Proof. intros []. by split. Qed.

Lemma note_error_inv s h gs code : registry_inv s h gs → registry_inv (note_error code s) h gs.
Proof. intros []. by split. Qed.

Lemma heap_change_inv s h h' gs :
  next_cell h' = next_cell h → registry_inv s h gs → registry_inv s h' gs.
Proof. intros Hn []. split; try done. by rewrite Hn. Qed.

Lemma registry_step_inv w w' :
  registry_step w w' →
  registry_inv (r_stats w) (r_heap w) (r_guards w) →
  registry_inv (r_stats w') (r_heap w') (r_guards w').
Proof.
  intros [] Hinv; simpl in *.
  - by eapply begin_client_inv.
  - apply ActiveGuard_drop_inv. by rewrite Permutation_middle.
  - by apply (heap_change_inv _ h).
  - by apply note_request_inv.
  - by apply counter_add_inv.
  - by apply note_error_inv.
Qed.

Lemma registry_reachable_inv now unix_now w :
  registry_reachable now unix_now w → registry_inv (r_stats w) (r_heap w) (r_guards w).
Proof.
  intros Hr. eapply (rtc_invariant registry_step (λ w, registry_inv (r_stats w) (r_heap w) (r_guards w)));
    [apply registry_step_inv|done|apply registry_inv_init].
Qed.

(** ** What the dashboard shows *)

Lemma registry_ids s h gs :
  registry_inv s h gs → (map_to_list (clients s)).*1 ≡ₚ g_id <$> gs.
Proof.
  intros Hinv. apply NoDup_Permutation.
  - apply NoDup_fst_map_to_list.
  - apply (inv_ids _ _ _ Hinv).
  - intros id. rewrite !list_elem_of_fmap. split.
    + intros ([id' r] & -> & Hin%elem_of_map_to_list).
      destruct (inv_rows _ _ _ Hinv _ _ Hin) as (g & Hg & Heq). eauto.
    + intros (g & -> & Hg). destruct (inv_row _ _ _ Hinv _ Hg) as (r & Hr & _).
      exists (g_id g, r). by rewrite elem_of_map_to_list.
Qed.

(** Over every interleaving of connections that start, end, progress and
    fail, the dashboard counts exactly the connections that are open: the
    active total, the per-source totals (with no row for a source that has no
    connection) and one client row per connection, sorted by id. *)
Theorem registry_counts now unix_now w now' :
  registry_reachable now unix_now w →
  active (r_stats w) = N.of_nat (length (r_guards w)) ∧
  (∀ ip, active_per_ip (r_stats w) !! ip =
     if decide (count_ip ip (r_guards w) = 0%N) then None else Some (count_ip ip (r_guards w))) ∧
  cv_id <$> clients_view (r_heap w) now' (r_stats w) ≡ₚ g_id <$> r_guards w ∧
  StronglySorted (λ a b, (cv_id a ≤ cv_id b)%N) (clients_view (r_heap w) now' (r_stats w)).
Proof.
  intros Hinv%registry_reachable_inv. split_and!; [apply Hinv..| |].
  - rewrite <- (registry_ids _ _ _ Hinv). unfold clients_view.
    rewrite sort_by_perm, <- list_fmap_compose.
    apply Permutation_refl', list_fmap_ext. by intros _ [id r] _.
  - unfold clients_view.
    apply (StronglySorted_impl (λ a b, ids_leb a b = true)); [intros a b; apply N.leb_le|].
    apply sort_by_sorted; unfold ids_leb; lia.
Qed.

(** Rows of the client view once a byte counter was written. *)
Definition set_row_up (id v : u64) (row : ClientView) : ClientView :=
  if (cv_id row =? id)%N then
    {| cv_id := cv_id row; cv_peer := cv_peer row; cv_local := cv_local row;
       cv_elapsed_secs := cv_elapsed_secs row; cv_state := cv_state row;
       cv_command := cv_command row; cv_bytes_client_to_target := v;
       cv_bytes_target_to_client := cv_bytes_target_to_client row |}
  else row.

Lemma NoDup_flat_map_disjoint {A B} (f : A → list B) (l : list A) x y b :
  NoDup (flat_map f l) → x ∈ l → y ∈ l → b ∈ f x → b ∈ f y → x ≠ y → False.
Proof.
  induction l as [|z l IH]; simpl; [by intros _ ?%not_elem_of_nil|].
  intros (Hz & Hdisj & Hl)%NoDup_app Hx Hy Hbx Hby Hne.
  assert (∀ a, a ∈ l → b ∈ f a → b ∈ flat_map f l) as Hin.
  { intros a Ha Hb. apply list_elem_of_In, in_flat_map. exists a. by rewrite <- !list_elem_of_In. }
  apply elem_of_cons in Hx as [->|Hx], Hy as [->|Hy]; [done| | |by apply IH].
  - by apply (Hdisj b), (Hin y).
  - by apply (Hdisj b), (Hin x).
Qed.

Lemma registry_cell_owner s h gs g g' l :
  registry_inv s h gs → g ∈ gs → g' ∈ gs → l ∈ guard_cells g → l ∈ guard_cells g' → g_id g = g_id g'.
Proof.
  intros Hinv Hg Hg' Hl Hl'. destruct (decide (g_id g = g_id g')) as [|Hne]; [done|]. exfalso.
  eapply (NoDup_flat_map_disjoint guard_cells gs g g' l); try done; [apply Hinv|congruence].
Qed.

Lemma NoDup_fmap_inj {A B} (f : A → B) l x y :
  NoDup (f <$> l) → x ∈ l → y ∈ l → f x = f y → x = y.
Proof.
  induction l as [|z l IH]; [by intros _ ?%not_elem_of_nil|].
  rewrite fmap_cons. intros [Hz Hl]%NoDup_cons Hx Hy Heq.
  apply elem_of_cons in Hx as [->|Hx], Hy as [->|Hy]; [done| | |by apply IH];
    destruct Hz; [rewrite Heq|rewrite <- Heq]; by apply list_elem_of_fmap_2.
Qed.

Lemma registry_down_ne_up s h gs g g' :
  registry_inv s h gs → g ∈ gs → g' ∈ gs → g_bytes_down g' ≠ g_bytes_up g.
Proof.
  intros Hinv Hg Hg' Heq.
  assert (g' = g) as ->.
  { apply (NoDup_fmap_inj g_id gs); [apply Hinv|done..|].
    apply (registry_cell_owner s h gs g' g (g_bytes_down g')); try done; [right; by left|].
    rewrite Heq. by left. }
  pose proof (inv_cells _ _ _ Hinv) as Hnd. apply list_elem_of_split in Hg as (l1 & l2 & ->).
  rewrite flat_map_app in Hnd. apply NoDup_app in Hnd as (_ & _ & Hnd). simpl in Hnd.
  apply NoDup_cons in Hnd as [Hnd _]. apply Hnd. rewrite Heq. by left.
Qed.

(** A relay's progress is visible before the relay ends, in its own row
    and nowhere else: publishing a byte count through the counters handed to the
    relay changes that connection's row of the client list and no other row, and
    leaves every other statistic alone. *)
Theorem registry_live_bytes now unix_now w g v now' :
  registry_reachable now unix_now w → g ∈ r_guards w →
  clients_view (heap_store (g_bytes_up g) v (r_heap w)) now' (r_stats w) =
  set_row_up (g_id g) v <$> clients_view (r_heap w) now' (r_stats w).
Proof.
  intros Hinv%registry_reachable_inv Hg. unfold clients_view.
  rewrite <- (sort_by_fmap ids_leb ids_leb).
  2: { intros x y. unfold set_row_up, ids_leb. by repeat case_match. }
  f_equal. rewrite <- list_fmap_compose. apply list_fmap_ext. intros i [id r] Hi. simpl.
  apply list_elem_of_lookup_2, elem_of_map_to_list in Hi.
  destruct (inv_rows _ _ _ Hinv _ _ Hi) as (g' & Hg' & Hid).
  destruct (inv_row _ _ _ Hinv _ Hg') as (r' & Hr' & [_ Hup Hdown]).
  rewrite Hid, Hi in Hr'. injection Hr' as <-.
  unfold set_row_up, heap_load, heap_store; simpl. rewrite Hup, Hdown.
  rewrite (lookup_insert_ne _ (g_bytes_up g) (g_bytes_down g'))
    by (symmetry; by eapply registry_down_ne_up).
  rewrite <- Hid.
  destruct (N.eqb_spec (g_id g') (g_id g)) as [Heq|Hne].
  - rewrite (NoDup_fmap_inj g_id (r_guards w) g' g (inv_ids _ _ _ Hinv) Hg' Hg Heq).
    by rewrite lookup_insert_eq.
  - rewrite lookup_insert_ne; [done|]. intros Heq. apply Hne. symmetry.
    eapply (registry_cell_owner _ _ _ g g' _ Hinv Hg Hg'); [by left|]. rewrite Heq. by left.
Qed.

(** ** The rankings *)

Lemma bytes_leb_total a b : bytes_leb a b = false → bytes_leb b a = true.
Proof.
  revert b. induction a as [|x a IH]; intros [|y b]; simpl; try done.
  destruct (N.ltb_spec (Byte.to_N x) (Byte.to_N y)), (N.ltb_spec (Byte.to_N y) (Byte.to_N x));
    auto; lia.
Qed.

Lemma bytes_leb_trans a b c : bytes_leb a b = true → bytes_leb b c = true → bytes_leb a c = true.
Proof.
  revert b c. induction a as [|x a IH]; intros [|y b] [|z c]; simpl; try done.
  destruct (N.ltb_spec (Byte.to_N x) (Byte.to_N y)), (N.ltb_spec (Byte.to_N y) (Byte.to_N x)),
    (N.ltb_spec (Byte.to_N y) (Byte.to_N z)), (N.ltb_spec (Byte.to_N z) (Byte.to_N y)),
    (N.ltb_spec (Byte.to_N x) (Byte.to_N z)), (N.ltb_spec (Byte.to_N z) (Byte.to_N x));
    try done; try lia; apply IH.
Qed.

Lemma ip_leb_total a b : ip_leb a b = false → ip_leb b a = true.
Proof. destruct a, b; simpl; try done; apply bytes_leb_total. Qed.

Lemma ip_leb_trans a b c : ip_leb a b = true → ip_leb b c = true → ip_leb a c = true.
Proof. destruct a, b, c; simpl; try done; apply bytes_leb_trans. Qed.

Section rank.
Context {A : Type} (key_leb : A → A → bool) (count : A → u64).
Context (key_total : ∀ x y, key_leb x y = false → key_leb y x = true)
        (key_trans : ∀ x y z, key_leb x y = true → key_leb y z = true → key_leb x z = true).

Lemma rank_leb_total x y : rank_leb key_leb count x y = false → rank_leb key_leb count y x = true.
Proof using key_total.
  unfold rank_leb.
  destruct (N.ltb_spec (count y) (count x)), (N.ltb_spec (count x) (count y)); auto; lia.
Qed.

Lemma rank_leb_trans x y z :
  rank_leb key_leb count x y = true → rank_leb key_leb count y z = true →
  rank_leb key_leb count x z = true.
Proof using key_trans.
  unfold rank_leb.
  destruct (N.ltb_spec (count y) (count x)), (N.ltb_spec (count x) (count y)),
    (N.ltb_spec (count z) (count y)), (N.ltb_spec (count y) (count z)),
    (N.ltb_spec (count z) (count x)), (N.ltb_spec (count x) (count z));
    try done; try lia; apply key_trans.
Qed.

Lemma rank_leb_count x y : rank_leb key_leb count x y = true → (count y ≤ count x)%N.
Proof using.
  unfold rank_leb.
  destruct (N.ltb_spec (count y) (count x)), (N.ltb_spec (count x) (count y)); try done; lia.
Qed.
End rank.

(** The dashboard's list of sources is the true top of the ranking: at most
    twenty rows, largest first, each with the number of connections its source
    has open now, and no source that was left out has more open connections
    than one that is listed. *)
Theorem per_ip_snapshot_top now unix_now w :
  registry_reachable now unix_now w →
  let shown := per_ip_snapshot (r_stats w) in
  length shown ≤ TOP_LIST_LEN ∧
  StronglySorted (λ a b, (ic_count b ≤ ic_count a)%N) shown ∧
  NoDup (ic_ip <$> shown) ∧
  (∀ row, row ∈ shown → ic_count row = count_ip (ic_ip row) (r_guards w) ∧ (0 < ic_count row)%N) ∧
  (∀ ip row, row ∈ shown → ip ∉ ic_ip <$> shown → (count_ip ip (r_guards w) ≤ ic_count row)%N).
Proof.
  intros Hinv%registry_reachable_inv shown.
  set (rows := (λ kv, {| ic_ip := kv.1; ic_count := kv.2 |}) <$>
                 map_to_list (active_per_ip (r_stats w))).
  set (le := rank_leb (λ a b, ip_leb (ic_ip a) (ic_ip b)) ic_count).
  assert (∀ row, row ∈ rows ↔ active_per_ip (r_stats w) !! ic_ip row = Some (ic_count row)) as Hrows.
  { intros [ip n]. unfold rows. rewrite list_elem_of_fmap. simpl. rewrite <- elem_of_map_to_list.
    split; [by intros ([] & [= -> ->] & ?)|]. intros H. by exists (ip, n). }
  destruct (top_k le TOP_LIST_LEN rows) as (Hlen & Hs & rest & Hperm & Hcut).
  { intros x y. apply rank_leb_total. intros ??; apply ip_leb_total. }
  { intros x y z. apply rank_leb_trans. intros ???; apply ip_leb_trans. }
  change (firstn _ _) with shown in Hlen, Hs, Hperm, Hcut.
  assert (NoDup (ic_ip <$> rows)) as Hnd.
  { unfold rows. rewrite <- list_fmap_compose.
    apply (NoDup_fst_map_to_list (active_per_ip (r_stats w))). }
  split_and!; [done| | | |].
  - eapply StronglySorted_impl; [|exact Hs]. intros x y. apply rank_leb_count.
  - rewrite Hperm, fmap_app in Hnd. by apply NoDup_app in Hnd as (? & _).
  - intros row Hin. assert (row ∈ rows) as Hr by (rewrite Hperm; apply elem_of_app; by left).
    apply Hrows in Hr. rewrite (inv_per_ip _ _ _ Hinv) in Hr. case_decide; [done|].
    injection Hr as Hr. split; [done|lia].
  - intros ip row Hin Hnot. destruct (decide (count_ip ip (r_guards w) = 0%N)) as [->|Hne]; [lia|].
    assert ({| ic_ip := ip; ic_count := count_ip ip (r_guards w) |} ∈ rows) as Hr.
    { apply Hrows. simpl. by rewrite (inv_per_ip _ _ _ Hinv), decide_False. }
    rewrite Hperm, elem_of_app in Hr. destruct Hr as [Hr|Hr].
    + destruct Hnot. by apply (list_elem_of_fmap_2 ic_ip) in Hr.
    + apply (rank_leb_count (λ a b, ip_leb (ic_ip a) (ic_ip b)) _ _ _ (Hcut _ _ Hin Hr)).
Qed.

(** ** Witnesses *)

Definition demo_ip : SocketAddr := SockV4 [# x7f; x00; x00; x01] 4242.
Definition demo_guard : ActiveGuard :=
  {| g_ip := sock_ip demo_ip; g_id := 0; g_bytes_up := 0; g_bytes_down := 1 |}.
Definition demo_registry : registry :=
  let '(g, s, h) := begin_client demo_ip None 0 (Stats_new 0 0) heap_empty in
  {| r_stats := s; r_heap := h; r_guards := [g] |}.

Lemma demo_registry_reachable : registry_reachable 0 0 demo_registry.
Proof. eapply rtc_once, step_begin; [done|reflexivity]. Defined.

Lemma registry_counts_witness : active (r_stats demo_registry) = 1%N.
Proof. apply (registry_counts 0 0 demo_registry 0 demo_registry_reachable). Defined.

Lemma registry_live_bytes_witness :
  clients_view (heap_store (g_bytes_up demo_guard) 512 (r_heap demo_registry)) 0 (r_stats demo_registry) =
  set_row_up 0 512 <$> clients_view (r_heap demo_registry) 0 (r_stats demo_registry).
Proof.
  apply (registry_live_bytes 0 0 demo_registry demo_guard 512 0 demo_registry_reachable).
  by left.
Defined.

Lemma per_ip_snapshot_top_witness : length (per_ip_snapshot (r_stats demo_registry)) ≤ 20.
Proof. apply (per_ip_snapshot_top 0 0 demo_registry demo_registry_reachable). Defined.
