(* ===== verification/Stream.v ===== *)
(** * Byte streams under a deadline

    The [AsyncRead + AsyncWrite] transport of a client as the proxy sees it:
    bytes that arrive at given instants, then the end of the stream, a fault or
    silence; writes and shutdowns whose outcomes the peer and the kernel decide.
    [read_exact], [write_all] and [shutdown] are those of tokio, run under the
    deadline of the surrounding [timeout], which cancels what is in progress. *)
From S2P Require Import Prelude Fmt Types.

(** ** Outcomes of an awaited operation *)

(** [Elapsed]: cancelled at the deadline.  [Pending]: never completes.
    [Crash]: the task panicked. *)
Inductive outcome (E A : Type) : Type :=
  | Done (a : A)
  | Throw (e : E)
  | Elapsed
  | Pending
  | Crash.
Arguments Done {E A} a.
Arguments Throw {E A} e.
Arguments Elapsed {E A}.
Arguments Pending {E A}.
Arguments Crash {E A}.

(** An operation that would complete at [t] (never, if [None]): when it ends
    and whether it completed.  [timeout] polls the operation before its timer,
    so one that completes at the deadline itself is not cancelled. *)
Definition deadline_ok (dl : option N) (t : N) : bool :=
  match dl with Some d => (t <=? d)%N | None => true end.

Definition cut_at {E A} (dl : option N) : outcome E A :=
  match dl with Some _ => Elapsed | None => Pending end.

(** The clock when an operation is cut off. *)
Definition cut_clock (dl : option N) (now : N) : N :=
  match dl with Some d => N.max now d | None => now end.

(** ** The stream *)

Inductive stream_end : Type :=
  | EndEof (t : N)
  | EndErr (t : N) (e : io_error)
  | EndSilent.

(** A write takes [w_delay] (forever, if [None]), then succeeds or fails with
    [w_error]; [w_partial] bytes are accepted if it fails or is cut off. *)
Record write_outcome := {
  w_delay : option N; w_partial : usize; w_error : option io_error }.

#[global] Instance write_outcome_eq_dec : EqDecision write_outcome.
Proof. solve_decision. Defined.

Definition write_ok : write_outcome := {| w_delay := Some 0%N; w_partial := 0; w_error := None |}.

(** What the peer sees, in order: a write of [data] of which [n] bytes were
    accepted, or the end of the stream. *)
Inductive out_event : Type :=
  | OutWrite (data : list u8) (n : usize)
  | OutShutdown.

#[global] Instance out_event_eq_dec : EqDecision out_event.
Proof. solve_decision. Defined.

(** Outcomes that are not scripted are successes. *)
Record Stream := {
  rx : list (N * u8);
  rx_end : stream_end;
  writes : list write_outcome;
  shutdowns : list (option io_error);
  out : list out_event
}.

Definition eof_error : io_error := io_Error_new ErrorKind.UnexpectedEof "early eof".

Definition set_rx (l : list (N * u8)) (s : Stream) : Stream :=
  {| rx := l; rx_end := rx_end s; writes := writes s; shutdowns := shutdowns s; out := out s |}.

(** The bytes the peer has been sent. *)
Definition sent (o : out_event) : list u8 :=
  match o with OutWrite data n => firstn n data | OutShutdown => [] end.

Definition tx (s : Stream) : list u8 := flat_map sent (out s).

(** ** Operations *)

(** [read_exact(&mut [0; n])]. *)
Fixpoint read_exact (dl : option N) (n : usize) (now : N) (s : Stream)
    : outcome io_error (list u8) * N * Stream :=
  match n with
  | 0 => (Done [], now, s)
  | S n' =>
      match rx s with
      | (t, b) :: l =>
          let t := N.max now t in
          if deadline_ok dl t then
            match read_exact dl n' t (set_rx l s) with
            | (Done bs, t', s') => (Done (b :: bs), t', s')
            | r => r
            end
          else (cut_at dl, cut_clock dl now, s)
      | [] =>
          match rx_end s with
          | EndEof t =>
              if deadline_ok dl (N.max now t) then (Throw eof_error, N.max now t, s)
              else (cut_at dl, cut_clock dl now, s)
          | EndErr t e =>
              if deadline_ok dl (N.max now t) then (Throw e, N.max now t, s)
              else (cut_at dl, cut_clock dl now, s)
          | EndSilent => (cut_at dl, cut_clock dl now, s)
          end
      end
  end.

Definition next_write (s : Stream) : write_outcome := default write_ok (head (writes s)).

Definition log_write (data : list u8) (n : usize) (s : Stream) : Stream :=
  {| rx := rx s; rx_end := rx_end s; writes := tail (writes s); shutdowns := shutdowns s;
     out := out s ++ [OutWrite data n] |}.

(** [write_all(data)]. *)
Definition write_all (dl : option N) (data : list u8) (now : N) (s : Stream)
    : outcome io_error unit * N * Stream :=
  let w := next_write s in
  match w_delay w with
  | Some d =>
      if deadline_ok dl (now + d) then
        match w_error w with
        | None => (Done (), (now + d)%N, log_write data (length data) s)
        | Some e => (Throw e, (now + d)%N, log_write data (w_partial w) s)
        end
      else (cut_at dl, cut_clock dl now, log_write data (w_partial w) s)
  | None => (cut_at dl, cut_clock dl now, log_write data (w_partial w) s)
  end.

(** [shutdown()]: immediate on a socket. *)
Definition shutdown (s : Stream) : result io_error unit * Stream :=
  (match head (shutdowns s) with Some (Some e) => Err e | _ => Ok () end,
   {| rx := rx s; rx_end := rx_end s; writes := writes s; shutdowns := tail (shutdowns s);
      out := out s ++ [OutShutdown] |}).

(** ** Reads *)

Definition rx_bytes (s : Stream) : list u8 := (rx s).*2.

(** The clock after reading [l]. *)
Definition read_clock (now : N) (l : list (N * u8)) : N := foldl N.max now (l.*1).

Lemma read_clock_app now l k : read_clock now (l ++ k) = read_clock (read_clock now l) k.
Proof. unfold read_clock. by rewrite fmap_app, foldl_app. Qed.

Lemma foldl_max_ge now ts : (now ≤ foldl N.max now ts)%N.
Proof.
  revert now. induction ts as [|t ts IH]; intros now; simpl; [lia|].
  specialize (IH (N.max now t)). lia.
Qed.

Lemma foldl_max_elem now ts t : t ∈ ts → (t ≤ foldl N.max now ts)%N.
Proof.
  revert now. induction ts as [|u ts IH]; intros now; [by intros ?%not_elem_of_nil|].
  intros [->|Ht]%elem_of_cons; simpl; [|by apply IH].
  pose proof (foldl_max_ge (N.max now u) ts). lia.
Qed.

Lemma read_clock_ge now l : (now ≤ read_clock now l)%N.
Proof. apply foldl_max_ge. Qed.

Lemma read_clock_cons now t b l : read_clock now ((t, b) :: l) = read_clock (N.max now t) l.
Proof. done. Qed.

Lemma read_clock_le now l d :
  (now ≤ d)%N → Forall (λ tb, tb.1 ≤ d)%N l → (read_clock now l ≤ d)%N.
Proof.
  intros Hnow Hall. revert now Hnow.
  induction Hall as [|[t b] l Ht _ IH]; intros now Hnow; [done|].
  rewrite read_clock_cons. apply IH. simpl in Ht. lia.
Qed.

(** A read that completes consumed the next [n] bytes, in order, all of them
    before the deadline, and nothing else changed. *)
Lemma read_exact_Done dl n now s bs now' s' :
  read_exact dl n now s = (Done bs, now', s') ↔
  ∃ l, rx s = l ++ rx s' ∧ s' = set_rx (rx s') s ∧ bs = l.*2 ∧ length l = n ∧
       now' = read_clock now l ∧ (0 < n → deadline_ok dl now' = true).
Proof.
  revert now s bs now' s'. induction n as [|n IH]; intros now s bs now' s'; simpl.
  - split.
    + intros [= <- <- <-]. exists []. simpl. split_and!; try done; [by destruct s|lia].
    + intros ([|??] & Hrx & Hs & -> & Hlen & -> & _); [|done]. simpl in *.
      rewrite Hs, <- Hrx. by destruct s.
  - destruct (rx s) as [|[t b] l] eqn:Hrx.
    { split; [unfold cut_at; repeat case_match; done|]. by intros ([|??] & Hl & _ & _ & Hlen & _). }
    destruct (deadline_ok dl (N.max now t)) eqn:Hok.
    + destruct (read_exact dl n (N.max now t) (set_rx l s)) as [[o t'] s1] eqn:E.
      split.
      * destruct o; [|done..]. intros [= <- -> ->].
        apply IH in E as (k & Hk & Hs & -> & Hlen & -> & Hd). exists ((t, b) :: k). simpl.
        split_and!; [by rewrite <- Hk|exact Hs|done|by f_equal|done|].
        intros _. destruct n as [|n]; [|apply Hd; lia]. by destruct k.
      * intros ([|[t1 b1] k] & Hk & Hs & -> & Hlen & -> & Hd); [done|].
        injection Hk as <- <- Hk. rewrite read_clock_cons in *.
        assert (read_exact dl n (N.max now t) (set_rx l s) =
                (Done k.*2, read_clock (N.max now t) k, s')) as E'.
        { apply IH. exists k. split_and!; try done; [by injection Hlen|].
          intros _. apply Hd. lia. }
        rewrite E' in E. by injection E as <- <- <-.
    + split; [by destruct dl|]. intros ([|[t1 b1] k] & Hk & _ & _ & Hlen & -> & Hd); [done|].
      injection Hk as <- <- Hk. exfalso. specialize (Hd ltac:(lia)).
      unfold deadline_ok in *. destruct dl as [d|]; [|done].
      rewrite read_clock_cons in Hd. pose proof (read_clock_ge (N.max now t) k). lia.
Qed.

(** Bytes that are there before the deadline are read. *)
Lemma read_exact_prompt dl n now s l rest :
  rx s = l ++ rest → length l = n → deadline_ok dl now = true →
  Forall (λ tb, deadline_ok dl tb.1 = true) l →
  read_exact dl n now s = (Done l.*2, read_clock now l, set_rx rest s).
Proof.
  intros Hrx Hlen Hnow Hall. apply read_exact_Done. exists l. split_and!; try done.
  intros _. destruct dl as [d|]; [|done]. simpl in *. apply N.leb_le.
  apply read_clock_le; [lia|]. eapply Forall_impl; [done|]. simpl. lia.
Qed.

(** Whatever the outcome, the bytes consumed are a prefix, the log is untouched
    and the clock does not go back. *)
Lemma read_exact_frame dl n now s o now' s' :
  read_exact dl n now s = (o, now', s') →
  (∃ l, rx s = l ++ rx s' ∧ length l ≤ n) ∧ s' = set_rx (rx s') s ∧ (now ≤ now')%N.
Proof.
  revert now s o now' s'. induction n as [|n IH]; intros now s o now' s'; simpl.
  - intros [= <- <- <-]. split_and!; [by exists []|by destruct s|lia].
  - destruct (rx s) as [|[t b] l] eqn:Hrx.
    + intros H. assert (s' = s ∧ (now ≤ now')%N) as [-> ?]; [|split_and!;
        [exists []; split; [by rewrite Hrx|simpl; lia]|by destruct s|done]].
      unfold cut_clock in H. repeat case_match; simplify_eq; (split; [done|lia]).
    + destruct (deadline_ok dl (N.max now t)).
      * destruct (read_exact dl n (N.max now t) (set_rx l s)) as [[o1 t'] s1] eqn:E.
        intros H. assert (s' = s1 ∧ now' = t') as [-> ->]
          by (destruct o1; simplify_eq; done).
        apply IH in E as ((k & Hk & Hlen) & Hs & Hle). split_and!.
        -- exists ((t, b) :: k). simpl in *. split; [by rewrite <- Hk|lia].
        -- by rewrite Hs.
        -- lia.
      * intros [= <- <- <-]. split_and!; [exists []; split; [by rewrite Hrx|simpl; lia]|by destruct s|].
        unfold cut_clock. destruct dl; lia.
Qed.

(** A cancelled read ends at the deadline. *)
Lemma read_exact_clock d n now s o now' s' :
  (now ≤ d)%N → read_exact (Some d) n now s = (o, now', s') →
  (now' ≤ d)%N ∧ o ≠ Pending ∧ o ≠ Crash.
Proof.
  revert now s o now' s'. induction n as [|n IH]; intros now s o now' s' Hnow; simpl.
  - intros [= <- <- <-]. done.
  - destruct (rx s) as [|[t b] l] eqn:Hrx.
    + intros H. repeat case_match; simplify_eq; (split_and!; [lia|done..]).
    + destruct (N.leb_spec (N.max now t) d) as [Hle|].
      * destruct (read_exact (Some d) n (N.max now t) (set_rx l s)) as [[o1 t'] s1] eqn:E.
        apply IH in E as (? & ? & ?); [|done]. destruct o1; intros [= <- <- <-]; done.
      * intros [= <- <- <-]. split_and!; [lia|done..].
Qed.

(** ** Writes *)

Lemma tx_log_write data n s : tx (log_write data n s) = tx s ++ firstn n data.
Proof. unfold tx, log_write. simpl. rewrite flat_map_app. simpl. by rewrite app_nil_r. Qed.

(** The effect of a write on the stream: one more logged write, complete when
    it succeeds. *)
Lemma write_all_frame dl data now s o now' s' :
  write_all dl data now s = (o, now', s') →
  ∃ n, s' = log_write data n s ∧ (o = Done () → n = length data) ∧ (now ≤ now')%N ∧ o ≠ Crash.
Proof.
  unfold write_all, cut_at, cut_clock. intros H.
  repeat case_match; simplify_eq; eexists; (split_and!; [done|try done|lia|done]).
Qed.

Lemma write_all_Done dl data now s u now' s' :
  write_all dl data now s = (Done u, now', s') →
  s' = log_write data (length data) s ∧ tx s' = tx s ++ data ∧ (now ≤ now')%N.
Proof.
  intros H. destruct (write_all_frame _ _ _ _ _ _ _ H) as (n & -> & Hn & Hle & _).
  destruct u. rewrite Hn, tx_log_write, firstn_all by done. done.
Qed.

(** The next write succeeds at once. *)
Definition writable (s : Stream) : Prop := Forall (λ w, w = write_ok) (writes s).

#[global] Instance writable_dec s : Decision (writable s).
Proof. unfold writable. apply _. Defined.

Lemma write_all_writable dl data now s :
  writable s → deadline_ok dl now = true →
  write_all dl data now s = (Done (), now, log_write data (length data) s) ∧
  writable (log_write data (length data) s).
Proof.
  unfold writable, write_all, next_write. intros Hw Hdl. split.
  - destruct Hw as [|w l -> _]; simpl; by rewrite N.add_0_r, Hdl.
  - simpl. by destruct Hw.
Qed.

Lemma write_all_clock d data now s o now' s' :
  (now ≤ d)%N → write_all (Some d) data now s = (o, now', s') →
  (now' ≤ d)%N ∧ o ≠ Pending ∧ o ≠ Crash.
Proof.
  unfold write_all, deadline_ok, cut_at, cut_clock. intros Hnow H.
  repeat case_match; simplify_eq; (split_and!; [lia|done..]).
Qed.

#[global] Arguments read_exact : simpl never.
#[global] Arguments write_all : simpl never.
#[global] Arguments shutdown : simpl never.
