(* ===== verification/Relay.v ===== *)
(** * The counted relay ([src/src/lib.rs]: [copy_bidirectional_counted])

    The loop that copies both directions of a proxied connection and publishes
    running totals into the connection's shared counters.  Which direction is
    ready, how many bytes a read returns and when the ticker fires are decided
    by the kernel and the scheduler: the loop is a function of the list of these
    events, and the theorems hold for every list.  Flushing a socket does
    nothing. *)
From S2P Require Import Prelude Fmt Types Stats Stream.

(** ** The code *)

(** What the [select!]s wait for: bytes (or the end) on one side, in chunks of
    the reader's choosing, and the ticker. *)
Inductive relay_event : Type :=
  | ReadA (k : usize)
  | ReadB (k : usize)
  | Tick.

#[global] Instance relay_event_eq_dec : EqDecision relay_event.
Proof. solve_decision. Defined.

(** The two streams, whether each is still read from, the progress counters and
    the clock. *)
Record relay_state := {
  r_a : Stream; r_b : Stream; a_open : bool; b_open : bool;
  progress_up : u64; progress_down : u64; r_cells : Heap; r_now : N
}.

(** The result of one [read(&mut buf)]. *)
Inductive read_result : Type :=
  | ReadBytes (l : list u8) (now : N) (s : Stream)
  | ReadErr (e : io_error) (now : N)
  | ReadWaits.

Definition read_some (k : usize) (now : N) (s : Stream) : read_result :=
  match rx s with
  | [] =>
      match rx_end s with
      | EndEof t => ReadBytes [] (N.max now t) s
      | EndErr t e => ReadErr e (N.max now t)
      | EndSilent => ReadWaits
      end
  | _ :: _ =>
      let n := min (max k 1) RELAY_BUF_SIZE in
      ReadBytes (firstn n (rx s)).*2 (read_clock now (firstn n (rx s))) (set_rx (skipn n (rx s)) s)
  end.

(** How far the relay is. *)
Inductive relay_result : Type :=
  | Running (st : relay_state)
  | Finished (st : relay_state)
  | Failed (e : io_error) (st : relay_state)
  | Stuck (st : relay_state).

(** One arm of the inner [select!]: [src] was read, [dst] is written.  The
    result tells whether [src] reached its end, or the number of bytes moved. *)
Inductive pump_result : Type :=
  | Moved (n : usize) (now : N) (src dst : Stream)
  | Closed (now : N) (src dst : Stream)
  | PumpErr (e : io_error) (now : N) (src dst : Stream)
  | PumpStuck (src dst : Stream)
  | NotReady.

Definition pump (k : usize) (now : N) (src dst : Stream) : pump_result :=
  match read_some k now src with
  | ReadWaits => NotReady
  | ReadErr e now => PumpErr e now src dst
  | ReadBytes [] now src => Closed now src (shutdown dst).2
  | ReadBytes l now src =>
      match write_all None l now dst with
      | (Done _, now, dst) => Moved (length l) now src dst
      | (Throw e, now, dst) => PumpErr e now src dst
      | (_, _, dst) => PumpStuck src dst
      end
  end.

Definition set_ab (a b : Stream) (now : N) (st : relay_state) : relay_state :=
  {| r_a := a; r_b := b; a_open := a_open st; b_open := b_open st;
     progress_up := progress_up st; progress_down := progress_down st;
     r_cells := r_cells st; r_now := now |}.

Definition publish (counters : loc * loc) (st : relay_state) : relay_state :=
  {| r_a := r_a st; r_b := r_b st; a_open := a_open st; b_open := b_open st;
     progress_up := progress_up st; progress_down := progress_down st;
     r_cells := heap_store counters.2 (progress_down st)
                  (heap_store counters.1 (progress_up st) (r_cells st));
     r_now := r_now st |}.

(** The [publish] branch runs only when both are there. *)
Definition publish_opt (stats : bool) (counters : option (loc * loc)) (st : relay_state)
    : relay_state :=
  match counters with
  | Some c => if stats then publish c st else st
  | None => st
  end.

Definition relay_step (stats : bool) (counters : option (loc * loc)) (ev : relay_event)
    (st : relay_state) : relay_result :=
  match ev with
  | ReadA k =>
      if a_open st then
        match pump k (r_now st) (r_a st) (r_b st) with
        | NotReady => Running st
        | Closed now a b =>
            Running {| r_a := a; r_b := b; a_open := false; b_open := b_open st;
                       progress_up := progress_up st; progress_down := progress_down st;
                       r_cells := r_cells st; r_now := now |}
        | Moved n now a b =>
            Running {| r_a := a; r_b := b; a_open := a_open st; b_open := b_open st;
                       progress_up := u64_add (progress_up st) (N.of_nat n);
                       progress_down := progress_down st;
                       r_cells := r_cells st; r_now := now |}
        | PumpErr e now a b => Failed e (set_ab a b now st)
        | PumpStuck a b => Stuck (set_ab a b (r_now st) st)
        end
      else Running st
  | ReadB k =>
      if b_open st then
        match pump k (r_now st) (r_b st) (r_a st) with
        | NotReady => Running st
        | Closed now b a =>
            Running {| r_a := a; r_b := b; a_open := a_open st; b_open := false;
                       progress_up := progress_up st; progress_down := progress_down st;
                       r_cells := r_cells st; r_now := now |}
        | Moved n now b a =>
            Running {| r_a := a; r_b := b; a_open := a_open st; b_open := b_open st;
                       progress_up := progress_up st;
                       progress_down := u64_add (progress_down st) (N.of_nat n);
                       r_cells := r_cells st; r_now := now |}
        | PumpErr e now b a => Failed e (set_ab a b now st)
        | PumpStuck b a => Stuck (set_ab a b (r_now st) st)
        end
      else Running st
  | Tick => Running (publish_opt stats counters st)
  end.

(** The loop; when both sides are closed it ends and the final totals are
    stored. *)
Fixpoint relay_loop (stats : bool) (counters : option (loc * loc)) (evs : list relay_event)
    (st : relay_state) : relay_result :=
  if a_open st || b_open st then
    match evs with
    | [] => Running st
    | ev :: evs =>
        match relay_step stats counters ev st with
        | Running st => relay_loop stats counters evs st
        | r => r
        end
    end
  else Finished (publish_opt true counters st).

Definition relay_start (a b : Stream) (h : Heap) (now : N) : relay_state :=
  {| r_a := a; r_b := b; a_open := true; b_open := true; progress_up := 0; progress_down := 0;
     r_cells := h; r_now := now |}.

Definition copy_bidirectional_counted (stats : bool) (counters : option (loc * loc))
    (evs : list relay_event) (a b : Stream) (h : Heap) (now : N) : relay_result :=
  relay_loop stats counters evs (relay_start a b h now).

(** The state in which the relay is or was left. *)
Definition relay_final (r : relay_result) : relay_state :=
  match r with Running st | Finished st | Failed _ st | Stuck st => st end.

(** ** What a direction has moved *)

Definition write_of (chunk : list u8) : out_event := OutWrite chunk (length chunk).

(** Since [src0] and [dst0], the bytes read from the source were written to the
    destination, whole and in order, in non-empty chunks that fit the buffer;
    [n] counts them; once the source has ended the destination was shut down,
    and nothing was written after that. *)
Record direction (src0 dst0 src dst : Stream) (open : bool) (n : u64) (chunks : list (list u8))
    : Prop := {
  dir_rx : rx_bytes src0 = concat chunks ++ rx_bytes src;
  dir_end : rx_end src = rx_end src0;
  dir_out : out dst = out dst0 ++ (write_of <$> chunks) ++ (if open then [] else [OutShutdown]);
  dir_n : n = (N.of_nat (length (concat chunks)) mod u64_modulus)%N;
  dir_chunks : Forall (λ c, 0 < length c ≤ RELAY_BUF_SIZE) chunks;
  dir_closed : open = false → rx src = [] ∧ ∃ t, rx_end src0 = EndEof t
}.

(** Where a direction was cut short: a prefix of the source was delivered. *)
Definition delivered (src0 dst0 dst : Stream) : Prop :=
  ∃ l, l `prefix_of` rx_bytes src0 ∧ tx dst = tx dst0 ++ l.

Lemma sent_writes chunks : flat_map sent (write_of <$> chunks) = concat chunks.
Proof.
  induction chunks as [|c chunks IH]; [done|]. rewrite fmap_cons. simpl.
  by rewrite firstn_all, IH.
Qed.

Lemma direction_tx src0 dst0 src dst open n chunks :
  direction src0 dst0 src dst open n chunks → tx dst = tx dst0 ++ concat chunks.
Proof.
  intros []. unfold tx. rewrite dir_out0, !flat_map_app, sent_writes.
  by destruct open; simpl; rewrite !app_nil_r.
Qed.

Lemma direction_delivered src0 dst0 src dst open n chunks :
  direction src0 dst0 src dst open n chunks → delivered src0 dst0 dst.
Proof.
  intros H. exists (concat chunks). split; [|by eapply direction_tx].
  exists (rx_bytes src). apply H.
Qed.

(** A direction only looks at what is left of its source and at the log of its
    destination. *)
Lemma direction_frame src0 dst0 src dst src' dst' open n chunks :
  direction src0 dst0 src dst open n chunks →
  rx src' = rx src → rx_end src' = rx_end src → out dst' = out dst →
  direction src0 dst0 src' dst' open n chunks.
Proof.
  intros [] Hrx Hend Hout. split; try done.
  - by unfold rx_bytes; rewrite Hrx.
  - by rewrite Hend.
  - by rewrite Hout.
  - intros Ho. rewrite Hrx. auto.
Qed.

Lemma direction_init src dst : direction src dst src dst true 0 [].
Proof. split; try done. by rewrite !app_nil_r. Qed.

(** Reading touches neither the log nor the end; the other side is only
    written. *)
Lemma pump_frame k now src dst :
  match pump k now src dst with
  | Moved _ _ src' dst' | Closed _ src' dst' | PumpErr _ _ src' dst' | PumpStuck src' dst' =>
      out src' = out src ∧ rx dst' = rx dst ∧ rx_end dst' = rx_end dst ∧ writes src' = writes src
  | NotReady => True
  end.
Proof.
  unfold pump, read_some.
  destruct (rx src) as [|p l] eqn:Hrx; [destruct (rx_end src); done|].
  destruct (firstn _ _).*2; [done|].
  destruct (write_all None _ _ dst) as [[o now'] dst'] eqn:Hw.
  apply write_all_frame in Hw as (n & -> & _). by destruct o.
Qed.

Lemma read_chunk k (l : list (N * u8)) :
  l ≠ [] → let n := min (max k 1) RELAY_BUF_SIZE in 0 < length (firstn n l).*2 ≤ RELAY_BUF_SIZE.
Proof.
  intros Hl n. rewrite length_fmap, length_firstn. subst n. unfold RELAY_BUF_SIZE.
  destruct l; [done|]. simpl length. lia.
Qed.

(** A step of one direction moves one more chunk, or closes it, or leaves a
    prefix delivered. *)
Lemma pump_direction k now src0 dst0 src dst n chunks :
  direction src0 dst0 src dst true n chunks →
  match pump k now src dst with
  | Moved m _ src' dst' =>
      ∃ c, length c = m ∧
           direction src0 dst0 src' dst' true (u64_add n (N.of_nat m)) (chunks ++ [c])
  | Closed _ src' dst' => direction src0 dst0 src' dst' false n chunks
  | PumpErr _ _ src' dst' | PumpStuck src' dst' => delivered src0 dst0 dst'
  | NotReady => True
  end.
Proof.
  intros Hd. pose proof Hd as [Hrx Hend Hout Hn Hch Hcl]. unfold pump, read_some.
  destruct (rx src) as [|p l] eqn:Hl.
  { destruct (rx_end src) as [t|t e|] eqn:He.
    - split; try done.
      + by rewrite He.
      + unfold shutdown; cbn [out snd]. rewrite Hout, app_nil_r. by rewrite <- app_assoc.
      + intros _. split; [done|]. by exists t.
    - by eapply direction_delivered.
    - done. }
  pose proof (read_chunk k (p :: l) ltac:(done)) as Hlen. simpl in Hlen.
  set (m := min (max k 1) RELAY_BUF_SIZE) in *.
  assert (rx_bytes src = (firstn m (p :: l)).*2 ++ (skipn m (p :: l)).*2) as Hsplit.
  { unfold rx_bytes. by rewrite Hl, <- fmap_app, firstn_skipn. }
  destruct ((firstn m (p :: l)).*2) as [|b c] eqn:Hc; [simpl in Hlen; lia|].
  destruct (write_all None _ _ dst) as [[o now'] dst'] eqn:Hw.
  destruct (write_all_frame _ _ _ _ _ _ _ Hw) as (j & -> & Hj & _).
  assert (delivered src0 dst0 (log_write (b :: c) j dst)) as Hdel.
  { exists (concat chunks ++ firstn j (b :: c)). split.
    - rewrite Hrx, Hsplit. apply prefix_app. exists (skipn j (b :: c) ++ (skipn m (p :: l)).*2).
      by rewrite app_assoc, firstn_skipn.
    - rewrite tx_log_write, (direction_tx _ _ _ _ _ _ _ Hd). by rewrite app_assoc. }
  destruct o as [[]|e| | |]; try done. rewrite Hj by done.
  exists (b :: c). split; [done|]. split.
  - rewrite concat_app. cbn [concat]. rewrite app_nil_r, <- app_assoc, Hrx, Hsplit. done.
  - done.
  - unfold log_write; cbn [out]. rewrite Hout, fmap_app, !app_nil_r, <- app_assoc. done.
  - rewrite Hn, concat_app, length_app. cbn [concat]. rewrite app_nil_r.
    unfold u64_add. rewrite N.Div0.add_mod_idemp_l. f_equal. lia.
  - apply Forall_app. split; [done|]. by constructor.
  - done.
Qed.

(** ** Both directions together *)

Section relay.
Context (a0 b0 : Stream) (stats : bool) (counters : option (loc * loc)).

Definition relay_inv (st : relay_state) : Prop :=
  ∃ up down,
    direction a0 b0 (r_a st) (r_b st) (a_open st) (progress_up st) up ∧
    direction b0 a0 (r_b st) (r_a st) (b_open st) (progress_down st) down.

Definition relay_cut (st : relay_state) : Prop :=
  delivered a0 b0 (r_b st) ∧ delivered b0 a0 (r_a st).

Lemma relay_inv_cut st : relay_inv st → relay_cut st.
Proof. intros (up & down & H1 & H2). split; by eapply direction_delivered. Qed.

Lemma relay_inv_publish st : relay_inv st → relay_inv (publish_opt stats counters st).
Proof. intros (up & down & H1 & H2). exists up, down. by destruct counters, stats. Qed.

Lemma relay_step_inv ev st :
  relay_inv st →
  match relay_step stats counters ev st with
  | Running st' => relay_inv st'
  | Failed _ st' | Stuck st' => relay_cut st'
  | Finished _ => False
  end.
Proof.
  intros Hinv. pose proof Hinv as (up & down & H1 & H2). destruct ev as [k|k|]; simpl.
  - destruct (a_open st) eqn:Ho; [|done].
    pose proof (pump_frame k (r_now st) (r_a st) (r_b st)) as Hf.
    pose proof (pump_direction k (r_now st) _ _ _ _ _ _ H1) as Hd.
    destruct (pump _ _ _ _) as [n now a b|now a b|e now a b|a b|]; try done;
      destruct Hf as (Ha & Hb & Hbe & _).
    + destruct Hd as (c & <- & Hd). exists (up ++ [c]), down. simpl.
      split; [done|]. by eapply direction_frame.
    + exists up, down. simpl. split; [done|]. by eapply direction_frame.
    + split; [done|]. eapply direction_delivered. by eapply direction_frame.
    + split; [done|]. eapply direction_delivered. by eapply direction_frame.
  - destruct (b_open st) eqn:Ho; [|done].
    pose proof (pump_frame k (r_now st) (r_b st) (r_a st)) as Hf.
    pose proof (pump_direction k (r_now st) _ _ _ _ _ _ H2) as Hd.
    destruct (pump _ _ _ _) as [n now b a|now b a|e now b a|b a|]; try done;
      destruct Hf as (Ha & Hb & Hbe & _).
    + destruct Hd as (c & <- & Hd). exists up, (down ++ [c]). simpl.
      split; [by eapply direction_frame|done].
    + exists up, down. simpl. split; [by eapply direction_frame|done].
    + split; [|done]. eapply direction_delivered. by eapply direction_frame.
    + split; [|done]. eapply direction_delivered. by eapply direction_frame.
  - by apply relay_inv_publish.
Qed.

Lemma relay_loop_inv evs st :
  relay_inv st →
  match relay_loop stats counters evs st with
  | Running st' => relay_inv st'
  | Finished st' => relay_inv st' ∧ a_open st' = false ∧ b_open st' = false
  | Failed _ st' | Stuck st' => relay_cut st'
  end.
Proof.
  revert st. induction evs as [|ev evs IH]; intros st Hinv; simpl;
    destruct (a_open st || b_open st) eqn:Ho.
  - done.
  - apply orb_false_elim in Ho as [Ha Hb]. destruct counters; simpl; by split_and!.
  - pose proof (relay_step_inv ev st Hinv) as Hs.
    destruct (relay_step _ _ ev st); [by apply IH|done..].
  - apply orb_false_elim in Ho as [Ha Hb]. destruct counters; simpl; by split_and!.
Qed.
End relay.

Lemma relay_step_not_finished stats counters ev st st' :
  relay_step stats counters ev st ≠ Finished st'.
Proof. destruct ev; simpl; repeat case_match; congruence. Qed.

Lemma relay_loop_finished stats counters evs st st' :
  relay_loop stats counters evs st = Finished st' → ∃ s, st' = publish_opt true counters s.
Proof.
  revert st. induction evs as [|ev evs IH]; intros st; simpl; destruct (_ || _); try done;
    try (intros [= <-]; by eexists).
  pose proof (relay_step_not_finished stats counters ev st).
  destruct (relay_step _ _ ev st); [apply IH|..]; congruence.
Qed.

(** The relay's own start satisfies the invariant. *)
Lemma relay_start_inv a b h now : relay_inv a b (relay_start a b h now).
Proof. exists [], []. split; apply direction_init. Qed.

(** C5: whatever the interleaving, the chunking and the failures, the relay
    neither loses, reorders nor invents a byte: what each side has been sent is
    what it had been sent before the relay, followed by a prefix of what the
    other side sent. *)
Theorem relay_fidelity stats counters evs a b h now :
  let st := relay_final (copy_bidirectional_counted stats counters evs a b h now) in
  (∃ up, up `prefix_of` rx_bytes a ∧ tx (r_b st) = tx b ++ up) ∧
  (∃ down, down `prefix_of` rx_bytes b ∧ tx (r_a st) = tx a ++ down).
Proof.
  unfold copy_bidirectional_counted.
  pose proof (relay_loop_inv a b stats counters evs _ (relay_start_inv a b h now)) as H.
  destruct (relay_loop _ _ _ _) as [st|st|e st|st]; simpl in *.
  - by apply relay_inv_cut in H.
  - destruct H as [H _]. by apply relay_inv_cut in H.
  - done.
  - done.
Qed.

(** C23: a relay that ends has delivered everything: each side got all the
    bytes the other sent up to its end of stream, was then shut down exactly
    once and sent nothing more; and the byte counters of the connection hold
    the exact totals (modulo 2^64). *)
Theorem relay_complete stats c_up c_down evs a b h now st :
  copy_bidirectional_counted stats (Some (c_up, c_down)) evs a b h now = Finished st →
  c_up ≠ c_down →
  (∃ chunks, concat chunks = rx_bytes a ∧
             out (r_b st) = out b ++ (write_of <$> chunks) ++ [OutShutdown]) ∧
  (∃ chunks, concat chunks = rx_bytes b ∧
             out (r_a st) = out a ++ (write_of <$> chunks) ++ [OutShutdown]) ∧
  progress_up st = (N.of_nat (length (rx a)) mod u64_modulus)%N ∧
  progress_down st = (N.of_nat (length (rx b)) mod u64_modulus)%N ∧
  heap_load c_up (r_cells st) = progress_up st ∧
  heap_load c_down (r_cells st) = progress_down st.
Proof.
  unfold copy_bidirectional_counted. intros Hr Hne.
  pose proof (relay_loop_inv a b stats (Some (c_up, c_down)) evs _ (relay_start_inv a b h now)) as H.
  rewrite Hr in H. destruct H as ((up & down & H1 & H2) & Ha & Hb).
  rewrite Ha in H1. rewrite Hb in H2. destruct H1, H2.
  destruct (dir_closed0 eq_refl) as [Hra _], (dir_closed1 eq_refl) as [Hrb _].
  unfold rx_bytes in *. rewrite Hra, app_nil_r in dir_rx0. rewrite Hrb, app_nil_r in dir_rx1.
  split_and!; [by exists up|by exists down| | | |].
  - by rewrite dir_n0, <- dir_rx0, length_fmap.
  - by rewrite dir_n1, <- dir_rx1, length_fmap.
  - apply relay_loop_finished in Hr as [s ->]. unfold publish_opt, publish, heap_load, heap_store.
    simpl. by rewrite lookup_insert_ne, lookup_insert_eq.
  - apply relay_loop_finished in Hr as [s ->]. unfold publish_opt, publish, heap_load, heap_store.
    simpl. by rewrite lookup_insert_eq.
Qed.

(** ** The published totals *)

Lemma pump_grows k now src dst :
  match pump k now src dst with
  | Moved _ _ src' dst' | Closed _ src' dst' | PumpErr _ _ src' dst' | PumpStuck src' dst' =>
      tx src' = tx src ∧ length (tx dst) ≤ length (tx dst')
  | NotReady => True
  end.
Proof.
  unfold pump, read_some.
  destruct (rx src) as [|p l] eqn:Hrx.
  { destruct (rx_end src); try done. split; [done|].
    unfold tx, shutdown. cbn [out snd]. rewrite flat_map_app, length_app. lia. }
  destruct (firstn _ _).*2 as [|x xs].
  { split; [done|]. unfold tx, shutdown. cbn [out snd]. rewrite flat_map_app, length_app. lia. }
  destruct (write_all None _ _ dst) as [[o now'] dst'] eqn:Hw.
  apply write_all_frame in Hw as (n & -> & _).
  destruct o; (split; [done|]); rewrite tx_log_write, length_app; lia.
Qed.

Lemma relay_step_grows stats counters ev st :
  let st' := relay_final (relay_step stats counters ev st) in
  length (tx (r_a st)) ≤ length (tx (r_a st')) ∧ length (tx (r_b st)) ≤ length (tx (r_b st')) ∧
  (ev ≠ Tick → r_cells st' = r_cells st).
Proof.
  destruct ev as [k|k|]; simpl.
  - destruct (a_open st); [|done].
    pose proof (pump_grows k (r_now st) (r_a st) (r_b st)) as H.
    destruct (pump _ _ _ _); simpl; try done; destruct H as [-> H]; done.
  - destruct (b_open st); [|done].
    pose proof (pump_grows k (r_now st) (r_b st) (r_a st)) as H.
    destruct (pump _ _ _ _); simpl; try done; destruct H as [-> H]; done.
  - by destruct counters, stats.
Qed.

(** While the totals fit 64 bits, progress is what was delivered. *)
Lemma relay_inv_progress a b st :
  (N.of_nat (length (rx a)) < u64_modulus)%N → (N.of_nat (length (rx b)) < u64_modulus)%N →
  relay_inv a b st →
  (N.of_nat (length (tx (r_b st))) = N.of_nat (length (tx b)) + progress_up st)%N ∧
  (N.of_nat (length (tx (r_a st))) = N.of_nat (length (tx a)) + progress_down st)%N.
Proof.
  intros Ha Hb (up & down & H1 & H2).
  rewrite (direction_tx _ _ _ _ _ _ _ H1), (direction_tx _ _ _ _ _ _ _ H2), !length_app.
  rewrite (dir_n _ _ _ _ _ _ _ H1), (dir_n _ _ _ _ _ _ _ H2).
  pose proof (dir_rx _ _ _ _ _ _ _ H1) as E1. pose proof (dir_rx _ _ _ _ _ _ _ H2) as E2.
  apply (f_equal length) in E1, E2. unfold rx_bytes in *. rewrite length_app, !length_fmap in *.
  rewrite !N.mod_small; lia.
Qed.

Section published.
Context (a b : Stream) (c_up c_down : loc) (Hne : c_up ≠ c_down)
  (Ha : (N.of_nat (length (rx a)) < u64_modulus)%N) (Hb : (N.of_nat (length (rx b)) < u64_modulus)%N).

(** What is published never runs ahead of what was delivered. *)
Definition published (st : relay_state) : Prop :=
  (heap_load c_up (r_cells st) + N.of_nat (length (tx b)) ≤ N.of_nat (length (tx (r_b st))))%N ∧
  (heap_load c_down (r_cells st) + N.of_nat (length (tx a)) ≤ N.of_nat (length (tx (r_a st))))%N.

Lemma publish_load st :
  heap_load c_up (r_cells (publish (c_up, c_down) st)) = progress_up st ∧
  heap_load c_down (r_cells (publish (c_up, c_down) st)) = progress_down st.
Proof using Hne.
  unfold publish, heap_load, heap_store. simpl.
  by rewrite lookup_insert_eq, lookup_insert_ne, lookup_insert_eq.
Qed.

Lemma published_publish s st :
  relay_inv a b st → published st → published (publish_opt s (Some (c_up, c_down)) st).
Proof using Ha Hb Hne.
  intros Hinv Hp. destruct s; [|done]. destruct (relay_inv_progress a b st Ha Hb Hinv) as [H1 H2].
  destruct (publish_load st) as [L1 L2]. unfold published. simpl publish_opt. rewrite L1, L2.
  simpl. lia.
Qed.

Lemma published_step stats ev st :
  relay_inv a b st → published st →
  published (relay_final (relay_step stats (Some (c_up, c_down)) ev st)).
Proof using Ha Hb Hne.
  intros Hinv Hp. destruct (decide (ev = Tick)) as [->|Hev].
  { simpl. by apply published_publish. }
  destruct (relay_step_grows stats (Some (c_up, c_down)) ev st) as (H1 & H2 & H3).
  unfold published in *. rewrite H3 by done. lia.
Qed.

Lemma published_loop stats evs st :
  relay_inv a b st → published st →
  published (relay_final (relay_loop stats (Some (c_up, c_down)) evs st)).
Proof using Ha Hb Hne.
  revert st. induction evs as [|ev evs IH]; intros st Hinv Hp; simpl; destruct (_ || _).
  - done.
  - by apply (published_publish true).
  - pose proof (relay_step_inv a b stats (Some (c_up, c_down)) ev st Hinv) as Hs.
    pose proof (published_step stats ev st Hinv Hp) as Hp'.
    destruct (relay_step _ _ ev st); [by apply IH|done..].
  - by apply (published_publish true).
Qed.
End published.

(** The live counters never run ahead of the data: at every moment of
    every interleaving, and also when the relay fails, the totals shown for the
    connection are at most the bytes actually delivered, and after each tick
    they are exactly that. *)
Theorem relay_live_counters stats c_up c_down evs a b h now :
  c_up ≠ c_down →
  (N.of_nat (length (rx a)) < u64_modulus)%N → (N.of_nat (length (rx b)) < u64_modulus)%N →
  heap_load c_up h = 0%N → heap_load c_down h = 0%N →
  let r := copy_bidirectional_counted stats (Some (c_up, c_down)) evs a b h now in
  let up st := (heap_load c_up (r_cells st) + N.of_nat (length (tx b)))%N in
  let down st := (heap_load c_down (r_cells st) + N.of_nat (length (tx a)))%N in
  (up (relay_final r) ≤ N.of_nat (length (tx (r_b (relay_final r)))))%N ∧
  (down (relay_final r) ≤ N.of_nat (length (tx (r_a (relay_final r)))))%N ∧
  ∀ st st', r = Running st → relay_step true (Some (c_up, c_down)) Tick st = Running st' →
    up st' = N.of_nat (length (tx (r_b st'))) ∧ down st' = N.of_nat (length (tx (r_a st'))).
Proof.
  intros Hne Ha Hb Hu Hd r up down.
  assert (published a b c_up c_down (relay_final r)) as [H1 H2].
  { apply published_loop; try done; [apply relay_start_inv|].
    split; simpl; [rewrite Hu|rewrite Hd]; lia. }
  split_and!; [done..|]. intros st st' Hr [= <-].
  pose proof (relay_loop_inv a b stats (Some (c_up, c_down)) evs _ (relay_start_inv a b h now)) as Hi.
  unfold r, copy_bidirectional_counted in Hr. rewrite Hr in Hi.
  destruct (relay_inv_progress a b st Ha Hb Hi) as [P1 P2].
  destruct (publish_load c_up c_down Hne st) as [L1 L2]. unfold up, down.
  cbn [publish_opt]. rewrite L1, L2. simpl. lia.
Qed.

(** ** Termination *)

Definition is_read_a (ev : relay_event) : bool := match ev with ReadA _ => true | _ => false end.
Definition is_read_b (ev : relay_event) : bool := match ev with ReadB _ => true | _ => false end.
Definition count_ev (P : relay_event → bool) (evs : list relay_event) : nat :=
  length (List.filter P evs).

(** Reads of a side until it is closed, at most. *)
Definition reads_left (open : bool) (s : Stream) : nat := if open then S (length (rx s)) else 0.

Definition ends (s : Stream) : Prop := rx_end s ≠ EndSilent.

Lemma pump_progress k now src dst :
  ends src →
  match pump k now src dst with
  | Moved _ _ src' dst' => length (rx src') < length (rx src) ∧ rx dst' = rx dst ∧
                           rx_end src' = rx_end src ∧ rx_end dst' = rx_end dst
  | Closed _ src' dst' => rx dst' = rx dst ∧ rx_end src' = rx_end src ∧ rx_end dst' = rx_end dst
  | PumpErr _ _ _ _ | PumpStuck _ _ => True
  | NotReady => False
  end.
Proof.
  unfold ends, pump, read_some. intros He.
  destruct (rx src) as [|p l] eqn:Hrx; [destruct (rx_end src) eqn:E; by split_and?|].
  pose proof (read_chunk k (p :: l) ltac:(done)) as Hlen. simpl in Hlen.
  set (m := min (max k 1) RELAY_BUF_SIZE) in *.
  destruct ((firstn m (p :: l)).*2) as [|x xs] eqn:Hc; [simpl in Hlen; lia|].
  destruct (write_all None _ _ dst) as [[o now'] dst'] eqn:Hw.
  apply write_all_frame in Hw as (n & -> & _).
  destruct o; try done. split_and!; try done. cbn [rx set_rx].
  apply (f_equal length) in Hc. rewrite length_fmap, length_firstn in Hc.
  rewrite length_skipn. simpl in *. lia.
Qed.

Lemma relay_step_progress stats counters ev st :
  ends (r_a st) → ends (r_b st) →
  match relay_step stats counters ev st with
  | Running st' =>
      ends (r_a st') ∧ ends (r_b st') ∧
      reads_left (a_open st') (r_a st') ≤ reads_left (a_open st) (r_a st) - (if is_read_a ev then 1 else 0) ∧
      reads_left (b_open st') (r_b st') ≤ reads_left (b_open st) (r_b st) - (if is_read_b ev then 1 else 0)
  | _ => True
  end.
Proof.
  unfold reads_left, ends. intros Ha Hb. destruct ev as [k|k|]; simpl.
  - destruct (a_open st) eqn:Ho; [|rewrite Ho; by split_and!; try lia].
    pose proof (pump_progress k (r_now st) (r_a st) (r_b st) Ha) as H.
    destruct (pump _ _ _ _) as [n now a b|now a b|e now a b|a b|]; try done; simpl.
    + destruct H as (H1 & -> & -> & ->). split_and!; try done; lia.
    + destruct H as (-> & -> & ->). split_and!; try done; lia.
  - destruct (b_open st) eqn:Ho; [|rewrite Ho; by split_and!; try lia].
    pose proof (pump_progress k (r_now st) (r_b st) (r_a st) Hb) as H.
    destruct (pump _ _ _ _) as [n now b a|now b a|e now b a|b a|]; try done; simpl.
    + destruct H as (H1 & -> & -> & ->). split_and!; try done; lia.
    + destruct H as (-> & -> & ->). split_and!; try done; lia.
  - destruct counters, stats; simpl; split_and!; try done; lia.
Qed.

Lemma relay_loop_terminates stats counters evs st st' :
  ends (r_a st) → ends (r_b st) →
  reads_left (a_open st) (r_a st) ≤ count_ev is_read_a evs →
  reads_left (b_open st) (r_b st) ≤ count_ev is_read_b evs →
  relay_loop stats counters evs st ≠ Running st'.
Proof.
  revert st. induction evs as [|ev evs IH]; intros st Ha Hb Hla Hlb; simpl.
  - unfold reads_left, count_ev in *. simpl in *.
    destruct (a_open st), (b_open st); simpl; try done; lia.
  - destruct (_ || _); [|done].
    pose proof (relay_step_progress stats counters ev st Ha Hb) as H.
    pose proof (relay_step_not_finished stats counters ev st) as Hnf.
    destruct (relay_step _ _ ev st) as [s|s|e s|s]; [|by destruct (Hnf s)|done|done].
    destruct H as (Ha' & Hb' & H1 & H2). apply IH; try done;
      unfold count_ev in *; simpl in Hla, Hlb; destruct ev; simpl in *; lia.
Qed.

(** A relay whose two sides come to an end ends: however reads interleave
    and however small the chunks are, one read per byte and one more per side is
    enough for the loop to return, unless a write to a peer that stopped
    reading never completes. *)
Theorem relay_terminates stats counters evs a b h now st :
  ends a → ends b →
  (length (rx a) < count_ev is_read_a evs)%nat → (length (rx b) < count_ev is_read_b evs)%nat →
  copy_bidirectional_counted stats counters evs a b h now ≠ Running st.
Proof. intros Ha Hb Hla Hlb. apply relay_loop_terminates; simpl; try done; lia. Qed.

(** ** Witnesses *)

Definition demo_stream (bytes : list u8) : Stream :=
  {| rx := (λ b, (0%N, b)) <$> bytes; rx_end := EndEof 0; writes := []; shutdowns := []; out := [] |}.

Definition demo_a : Stream := demo_stream [x68; x69].
Definition demo_b : Stream := demo_stream [x79; x6f; x21].
Definition demo_events : list relay_event := [ReadA 9; Tick; ReadB 2; ReadB 9; ReadA 1; ReadA 1; ReadB 1; ReadB 1].
Definition demo_end : relay_state :=
  relay_final (copy_bidirectional_counted true (Some (0, 1)) demo_events demo_a demo_b heap_empty 0).

Lemma relay_complete_witness :
  heap_load 1 (r_cells demo_end) = progress_down demo_end ∧ progress_down demo_end = 3%N.
Proof.
  pose proof (relay_complete true 0 1 demo_events demo_a demo_b heap_empty 0 demo_end eq_refl
                ltac:(discriminate)) as (_ & _ & _ & Hd & _ & Hc).
  split; [exact Hc|]. rewrite Hd. reflexivity.
Defined.

Lemma relay_live_counters_witness :
  (heap_load 0 (r_cells demo_end) + N.of_nat (length (tx demo_b)) ≤ N.of_nat (length (tx (r_b demo_end))))%N.
Proof.
  apply (relay_live_counters true 0 1 demo_events demo_a demo_b heap_empty 0);
    [discriminate|reflexivity..].
Defined.

Lemma relay_terminates_witness :
  copy_bidirectional_counted true None demo_events demo_a demo_b heap_empty 0 ≠
  Running (relay_start demo_a demo_b heap_empty 0).
Proof. apply relay_terminates; [discriminate..|vm_compute; lia|vm_compute; lia]. Defined.

(** ** Peers that neither fail nor stop reading *)

Definition at_eof (s : Stream) : Prop := ∃ t, rx_end s = EndEof t.

Lemma pump_writable k now src dst :
  at_eof src → writable dst →
  match pump k now src dst with
  | Moved _ _ src' dst' | Closed _ src' dst' =>
      writable dst' ∧ writes src' = writes src ∧ rx_end src' = rx_end src ∧ rx_end dst' = rx_end dst
  | _ => False
  end.
Proof.
  intros [t He] Hw. unfold pump, read_some.
  destruct (rx src) as [|p l] eqn:Hrx; [rewrite He; by split_and!|].
  pose proof (read_chunk k (p :: l) ltac:(done)) as Hlen. simpl in Hlen.
  set (m := min (max k 1) RELAY_BUF_SIZE) in *.
  destruct ((firstn m (p :: l)).*2) as [|x xs] eqn:Hc; [simpl in Hlen; lia|].
  destruct (write_all_writable None (x :: xs) (read_clock now (firstn m (p :: l))) dst Hw eq_refl)
    as [-> Hw']. by split_and!.
Qed.

Lemma relay_loop_ok stats counters evs st :
  at_eof (r_a st) → at_eof (r_b st) → writable (r_a st) → writable (r_b st) →
  match relay_loop stats counters evs st with
  | Running st' | Finished st' => writable (r_a st') ∧ writable (r_b st')
  | _ => False
  end.
Proof.
  revert st. induction evs as [|ev evs IH]; intros st Ha Hb Hwa Hwb; simpl;
    destruct (_ || _); try (by split); try (by destruct counters).
  assert (match relay_step stats counters ev st with
          | Running st' => at_eof (r_a st') ∧ at_eof (r_b st') ∧ writable (r_a st') ∧ writable (r_b st')
          | _ => False end) as Hs.
  { destruct ev as [k|k|]; simpl.
    - destruct (a_open st); [|by split_and!].
      pose proof (pump_writable k (r_now st) (r_a st) (r_b st) Ha Hwb) as H.
      destruct (pump _ _ _ _); try done; destruct H as (H1 & H2 & H3 & H4);
        unfold at_eof, writable in *; simpl; by rewrite H2, H3, H4.
    - destruct (b_open st); [|by split_and!].
      pose proof (pump_writable k (r_now st) (r_b st) (r_a st) Hb Hwa) as H.
      destruct (pump _ _ _ _); try done; destruct H as (H1 & H2 & H3 & H4);
        unfold at_eof, writable in *; simpl; by rewrite H2, H3, H4.
    - by destruct counters, stats. }
  destruct (relay_step _ _ ev st); try done. apply IH; tauto.
Qed.

Lemma relay_finishes stats counters evs a b h now :
  at_eof a → at_eof b → writable a → writable b →
  (length (rx a) < count_ev is_read_a evs)%nat → (length (rx b) < count_ev is_read_b evs)%nat →
  ∃ st, copy_bidirectional_counted stats counters evs a b h now = Finished st ∧
        tx (r_a st) = tx a ++ rx_bytes b ∧ tx (r_b st) = tx b ++ rx_bytes a ∧
        progress_up st = (N.of_nat (length (rx a)) mod u64_modulus)%N ∧
        progress_down st = (N.of_nat (length (rx b)) mod u64_modulus)%N.
Proof.
  intros Ha Hb Hwa Hwb Hla Hlb. unfold copy_bidirectional_counted.
  pose proof (relay_loop_ok stats counters evs (relay_start a b h now) Ha Hb Hwa Hwb) as Hok.
  pose proof (relay_loop_inv a b stats counters evs _ (relay_start_inv a b h now)) as Hinv.
  assert (∀ st, relay_loop stats counters evs (relay_start a b h now) ≠ Running st) as Hnr.
  { intros st. apply relay_loop_terminates; simpl; try lia;
      [destruct Ha as [t Ha]|destruct Hb as [t Hb]]; unfold ends; simpl; congruence. }
  destruct (relay_loop _ _ _ _) as [st|st|e st|st]; try done; [by destruct (Hnr st)|].
  exists st. split; [done|]. destruct Hinv as ((up & down & H1 & H2) & Hao & Hbo).
  rewrite Hao in H1. rewrite Hbo in H2.
  rewrite (direction_tx _ _ _ _ _ _ _ H1), (direction_tx _ _ _ _ _ _ _ H2).
  destruct H1 as [R1 _ _ N1 _ C1], H2 as [R2 _ _ N2 _ C2].
  destruct (C1 eq_refl) as [E1 _], (C2 eq_refl) as [E2 _].
  unfold rx_bytes in *. rewrite E1, app_nil_r in R1. rewrite E2, app_nil_r in R2.
  rewrite <- R1, <- R2, N1, N2, <- R1, <- R2, !length_fmap. done.
Qed.

(** The relay allocates no counter. *)
Lemma relay_loop_next_cell stats counters evs st :
  next_cell (r_cells (relay_final (relay_loop stats counters evs st))) = next_cell (r_cells st).
Proof.
  assert (∀ s st, next_cell (r_cells (publish_opt s counters st)) = next_cell (r_cells st)) as Hp
    by (intros []; by destruct counters).
  revert st. induction evs as [|ev evs IH]; intros st; simpl; destruct (_ || _); try done;
    try apply (Hp true).
  assert (next_cell (r_cells (relay_final (relay_step stats counters ev st))) = next_cell (r_cells st)) as Hs.
  { destruct (decide (ev = Tick)) as [->|Hev]; [apply Hp|].
    by destruct (relay_step_grows stats counters ev st) as (_ & _ & ->). }
  destruct (relay_step _ _ ev st); simpl in *; [by rewrite IH|done..].
Qed.
