(* ===== verification/Connect.v ===== *)
(** * Reaching the network ([src/src/lib.rs]: [connect_any], [bind_all],
      [bind_listeners], [bind_listener])

    The network is a parameter ([Net]): what a name resolves to, which
    connection attempts succeed and when, which addresses can be bound.  The
    race over the resolved addresses is a function of these answers and of the
    order in which simultaneous outcomes are received. *)
From S2P Require Import Prelude Fmt Types Stream Relay.

(** ** The network *)

(** An established connection, with the schedule of the relay over it. *)
Record Remote := { remote_stream : Stream; remote_schedule : list relay_event }.

(** A bound TCP listener: its address, and when it accepts whom. *)
Record Listener := {
  l_local_addr : result io_error SocketAddr;
  l_accept : N → option (N * result io_error (Remote * SocketAddr)) }.

(** What wakes a UDP association: its control connection is readable, or its
    socket is. *)
Inductive udp_event : Type :=
  | Control
  | Datagram (r : result io_error (list u8 * SocketAddr)).

Record UdpSocket := { u_local_addr : result io_error SocketAddr; u_events : list udp_event }.

(** Answers take some time, [None] is one that never comes. *)
Class Net := {
  lookup_host : string → N → option (N * result io_error (list SocketAddr));
  lookup_host_port : string → u16 → result io_error (list SocketAddr);
  tcp_connect : SocketAddr → N → option (N * result io_error Remote);
  tcp_bind : SocketAddr → result io_error Listener;
  udp_bind : SocketAddr → result io_error UdpSocket;
  set_nonblocking : Listener → result io_error unit;
  from_std : Listener → result io_error Listener
}.

(** The order in which the outcomes of the attempts are received: by time, ties
    broken in some way. *)
Abbreviation arrival := (N * result io_error Remote)%type.

Class ArrivalOrder := {
  arrival_order : list arrival → list arrival;
  arrival_order_perm l : arrival_order l ≡ₚ l;
  arrival_order_sorted l : StronglySorted (λ x y, (x.1 ≤ y.1)%N) (arrival_order l)
}.

(** ** [connect_any] *)

(** [CONNECT_ATTEMPT_DELAY * index as u32]; the first attempt does not sleep. *)
Definition attempt_start (t0 : N) (index : usize) : N :=
  if 0 <? index then (t0 + CONNECT_ATTEMPT_DELAY * (N.of_nat index mod 4294967296))%N else t0.

Lemma attempt_start_ge t0 i : (t0 ≤ attempt_start t0 i)%N.
Proof. unfold attempt_start. destruct (0 <? i); [apply N.le_add_r|lia]. Qed.

Section connect.
Context `{!Net, !ArrivalOrder}.

Definition attempt (t0 : N) (index : usize) (addr : SocketAddr) : option arrival :=
  match tcp_connect addr (attempt_start t0 index) with
  | Some (d, r) => Some (attempt_start t0 index + d, r)%N
  | None => None
  end.

Definition attempts (t0 : N) (addrs : list SocketAddr) : list (option arrival) :=
  imap (attempt t0) addrs.

Definition no_address_error : io_error :=
  io_Error_new ErrorKind.AddrNotAvailable "no address could be connected to".

(** The receive loop: [closed] is when the last sender is gone, if ever. *)
Fixpoint recv_loop (received : list arrival) (closed : option N) (last_error : option io_error)
    : option arrival :=
  match received with
  | (t, Ok stream) :: _ => Some (t, Ok stream)
  | (_, Err error) :: received => recv_loop received closed (Some error)
  | [] =>
      match closed with
      | Some t => Some (t, Err (default no_address_error last_error))
      | None => None
      end
  end.

Definition is_some {A} (o : option A) : bool := match o with Some _ => true | None => false end.

Definition channel_closed (t0 : N) (l : list (option arrival)) : option N :=
  if forallb is_some l then Some (foldl N.max t0 (omap id l).*1) else None.

(** When [connect_any], called at [t0], returns, and what; [None] if it never
    does. *)
Definition connect_any (addrs : list SocketAddr) (t0 : N) : option arrival :=
  let l := attempts t0 addrs in
  recv_loop (arrival_order (omap id l)) (channel_closed t0 l) None.
End connect.

(** ** Binding *)

Section bind.
Context `{!Net}.

Definition bind_listener (addr : SocketAddr) : result io_error Listener :=
  listener ← tcp_bind addr;
  _ ← set_nonblocking listener;
  from_std listener.

(** The [for] loop over the addresses. *)
Definition bind_step (acc : list Listener * option io_error) (addr : SocketAddr)
    : list Listener * option io_error :=
  match bind_listener addr with
  | Ok listener => (acc.1 ++ [listener], acc.2)
  | Err e => (acc.1, Some e)
  end.

Definition bind_listeners (addrs : list SocketAddr) : result io_error (list Listener) :=
  match foldl bind_step ([], None) addrs with
  | ((_ :: _) as listeners, _) => Ok listeners
  | ([], last_err) =>
      Err (default (io_Error_new ErrorKind.AddrNotAvailable "no addresses supplied to bind") last_err)
  end.

(** [filter(|addr| seen.insert(addr))]. *)
Fixpoint dedup (seen : list SocketAddr) (l : list SocketAddr) : list SocketAddr :=
  match l with
  | [] => []
  | a :: l => if decide (a ∈ seen) then dedup seen l else a :: dedup (a :: seen) l
  end.

Definition bind_all (ip : string) (port : u16) : result io_error (list Listener) :=
  addrs ← dedup [] <$> lookup_host_port ip port;
  map_err (λ e, match addrs with
                | [] => io_Error_new ErrorKind.AddrNotAvailable ("no addresses resolved for " +:+ ip)
                | _ => e
                end) (bind_listeners addrs).
End bind.

(** ** The race *)

Section race.
Context `{!Net, !ArrivalOrder}.

Lemma elem_of_attempts t0 addrs o :
  o ∈ attempts t0 addrs ↔ ∃ i a, addrs !! i = Some a ∧ o = attempt t0 i a.
Proof.
  unfold attempts. rewrite list_elem_of_lookup. split.
  - intros [i Hi]. rewrite list_lookup_imap in Hi. apply fmap_Some in Hi as (a & Ha & ->).
    eauto.
  - intros (i & a & Ha & ->). exists i. by rewrite list_lookup_imap, Ha.
Qed.

Lemma elem_of_arrivals t0 addrs x :
  x ∈ arrival_order (omap id (attempts t0 addrs)) ↔
  ∃ i a, addrs !! i = Some a ∧ attempt t0 i a = Some x.
Proof.
  rewrite arrival_order_perm, list_elem_of_omap. setoid_rewrite elem_of_attempts. split.
  - intros (o & (i & a & Ha & ->) & Ho). eauto.
  - intros (i & a & Ha & Ho). exists (Some x). split; [|done]. eauto.
Qed.

(** Without a success the loop waits for the channel to close, and reports the
    last error received. *)
Lemma recv_loop_no_success l closed prev :
  Forall (λ x, is_ok x.2 = false) l →
  recv_loop l closed prev =
    (λ t, (t, Err (default no_address_error
                     (match last l with Some (_, Err e) => Some e | _ => prev end))))
    <$> closed.
Proof.
  revert prev. induction l as [|[t1 [s1|e1]] l IH]; intros prev Hf; simpl.
  - by destruct closed.
  - by apply Forall_cons in Hf as [? _].
  - apply Forall_cons in Hf as [_ Hf]. rewrite (IH (Some e1) Hf).
    destruct closed; [|done]. simpl. destruct l as [|y l]; [done|].
    change (last ((t1, Err e1) :: y :: l)) with (last (y :: l)).
    destruct (last (y :: l)) as [[ty [sy|ey]]|] eqn:E; [|done|by apply last_None in E].
    exfalso. apply last_Some_elem_of in E. rewrite Forall_forall in Hf. by apply Hf in E.
Qed.

Lemma forallb_is_some_false {A} (l : list (option A)) : forallb is_some l = false → None ∈ l.
Proof. induction l as [|[x|] l IH]; simpl; [done|right; auto|by left]. Qed.

Lemma success_dec (l : list arrival) :
  (∃ t s, (t, Ok s) ∈ l) ∨ Forall (λ x, is_ok x.2 = false) l.
Proof.
  induction l as [|[t [s|e]] l IH]; [by right|left; exists t, s; by left|].
  destruct IH as [(t' & s' & Hin)|Hall]; [left; exists t', s'; by right|right; by constructor].
Qed.

(** A success in the list is found, at the latest when it arrives. *)
Lemma recv_loop_success l closed prev t s :
  StronglySorted (λ x y, (x.1 ≤ y.1)%N) l → (t, Ok s) ∈ l →
  ∃ t' s', recv_loop l closed prev = Some (t', Ok s') ∧ (t', Ok s') ∈ l ∧
           ∀ t1 s1, (t1, Ok s1) ∈ l → (t' ≤ t1)%N.
Proof.
  revert prev. induction l as [|[t1 [s1|e1]] l IH]; intros prev Hs Hin; simpl.
  - by apply not_elem_of_nil in Hin.
  - apply StronglySorted_inv in Hs as [_ Hall]. rewrite Forall_forall in Hall.
    exists t1, s1. split_and!; [done|by left|].
    intros t2 s2 [[= -> ->]|Hin2]%elem_of_cons; [lia|]. by apply Hall in Hin2.
  - apply StronglySorted_inv in Hs as [Hs _]. apply elem_of_cons in Hin as [?|Hin]; [done|].
    destruct (IH (Some e1) Hs Hin) as (t' & s' & H1 & H2 & H3). exists t', s'.
    split_and!; [done|by right|]. intros t2 s2 [?|Hin2]%elem_of_cons; [done|eauto].
Qed.

Lemma connect_any_success addrs t0 i a d r :
  addrs !! i = Some a →
  tcp_connect a (attempt_start t0 i) = Some (d, Ok r) →
  ∃ t s, connect_any addrs t0 = Some (t, Ok s) ∧ (t ≤ attempt_start t0 i + d)%N ∧
         (∃ j b, addrs !! j = Some b ∧ attempt t0 j b = Some (t, Ok s)) ∧
         (∀ j b t' s', addrs !! j = Some b → attempt t0 j b = Some (t', Ok s') → (t ≤ t')%N).
Proof.
  intros Ha Hc. unfold connect_any.
  assert (attempt t0 i a = Some (attempt_start t0 i + d, Ok r)%N) as Hatt by (unfold attempt; by rewrite Hc).
  destruct (recv_loop_success (arrival_order (omap id (attempts t0 addrs)))
              (channel_closed t0 (attempts t0 addrs)) None (attempt_start t0 i + d) r)
    as (t & s & Hl & Hin & Hmin).
  { apply arrival_order_sorted. }
  { apply elem_of_arrivals. eauto. }
  exists t, s. split_and!; [done| | |].
  - apply (Hmin _ r), elem_of_arrivals. eauto.
  - by apply elem_of_arrivals.
  - intros j b t' s' Hb Hb'. apply (Hmin _ s'), elem_of_arrivals. eauto.
Qed.

(** The race is won whatever the other addresses do: if the address at
    position [i] accepts after [d], the call returns a connection by
    250 ms times [i] plus [d], even when every other attempt hangs for ever; the
    connection returned is one that an address of the list accepted, and no
    other was accepted before it. *)
Theorem connect_any_wins addrs t0 i a d r :
  addrs !! i = Some a →
  tcp_connect a (attempt_start t0 i) = Some (d, Ok r) →
  ∃ t s, connect_any addrs t0 = Some (t, Ok s) ∧ (t ≤ attempt_start t0 i + d)%N ∧
         (∃ j b, addrs !! j = Some b ∧ attempt t0 j b = Some (t, Ok s)) ∧
         (∀ j b t' s', addrs !! j = Some b → attempt t0 j b = Some (t', Ok s') → (t ≤ t')%N).
Proof. apply connect_any_success. Qed.

Lemma connect_any_failure addrs t0 t e :
  connect_any addrs t0 = Some (t, Err e) ↔
  (∀ i a, addrs !! i = Some a → ∃ t' e', attempt t0 i a = Some (t', Err e') ∧ (t' ≤ t)%N) ∧
  t = foldl N.max t0 (omap id (attempts t0 addrs)).*1 ∧
  match last (arrival_order (omap id (attempts t0 addrs))) with
  | Some (_, Err e') => e = e'
  | Some (_, Ok _) => False
  | None => e = no_address_error ∧ addrs = []
  end.
Proof.
  unfold connect_any. set (l := attempts t0 addrs). split.
  - intros Hr. destruct (success_dec (arrival_order (omap id l))) as [(t1 & s1 & Hin)|Hall].
    { destruct (recv_loop_success _ (channel_closed t0 l) None t1 s1 (arrival_order_sorted _) Hin)
        as (t' & s' & Hr' & _). congruence. }
    rewrite recv_loop_no_success in Hr by done. unfold channel_closed in Hr.
    destruct (forallb is_some l) eqn:Hsome; [|done]. injection Hr as Ht He.
    rewrite forallb_forall in Hsome. split_and!.
    + intros i a Ha. assert (attempt t0 i a ∈ l) as Hin by (apply elem_of_attempts; eauto).
      destruct (attempt t0 i a) as [[t' r]|] eqn:Hatt; [|by apply list_elem_of_In, Hsome in Hin].
      assert ((t', r) ∈ omap id l) as Hin' by (apply list_elem_of_omap; eauto).
      pose proof Hin' as Hin2. rewrite <- (arrival_order_perm (omap id l)) in Hin2.
      rewrite Forall_forall in Hall.
      pose proof (Hall _ Hin2) as Hr. destruct r as [s'|e']; [done|].
      exists t', e'. split; [done|]. rewrite <- Ht. apply foldl_max_elem.
      apply list_elem_of_fmap. by exists (t', Err e').
    + done.
    + destruct (last (arrival_order (omap id l))) as [[t' [s'|e']]|] eqn:Hlast; simpl in He.
      * apply last_Some_elem_of in Hlast. rewrite Forall_forall in Hall. by apply Hall in Hlast.
      * done.
      * split; [done|]. apply last_None in Hlast. destruct addrs as [|a addrs]; [done|].
        pose proof (arrival_order_perm (omap id l)) as Hp. rewrite Hlast in Hp.
        apply Permutation_nil_l in Hp. specialize (Hsome (attempt t0 0 a) ltac:(by left)).
        unfold l, attempts in Hp. simpl in Hp. destruct (attempt t0 0 a); done.
  - intros (Hatt & -> & Hlast).
    assert (forallb is_some l = true) as Hsome.
    { apply forallb_forall. intros o Ho%list_elem_of_In%elem_of_attempts.
      destruct Ho as (i & a & Ha & ->). destruct (Hatt _ _ Ha) as (t' & e' & -> & _). done. }
    rewrite recv_loop_no_success.
    + unfold channel_closed. rewrite Hsome. simpl. do 3 f_equal.
      destruct (last _) as [[t' [s'|e']]|]; simpl; [done..|by destruct Hlast].
    + apply Forall_forall. intros x (i & a & Ha & Hx)%elem_of_arrivals.
      destruct (Hatt _ _ Ha) as (t' & e' & Hx' & _). rewrite Hx in Hx'. by injection Hx' as ->.
Qed.

(** The race is lost only when every address failed: it returns an error
    exactly when no address of the list accepts and every attempt has answered;
    the error is that of an attempt that answered last, or "address not
    available" for an empty list. *)
Theorem connect_any_fails addrs t0 t e :
  connect_any addrs t0 = Some (t, Err e) ↔
  (∀ i a, addrs !! i = Some a → ∃ t' e', attempt t0 i a = Some (t', Err e') ∧ (t' ≤ t)%N) ∧
  t = foldl N.max t0 (omap id (attempts t0 addrs)).*1 ∧
  match last (arrival_order (omap id (attempts t0 addrs))) with
  | Some (_, Err e') => e = e'
  | Some (_, Ok _) => False
  | None => e = no_address_error ∧ addrs = []
  end.
Proof. apply connect_any_failure. Qed.

(** A call over a list with an unresponsive address still fails or
    succeeds on time or not at all: without a success, one attempt that never
    answers keeps the call pending for ever; only the surrounding timeout ends
    it. *)
Theorem connect_any_pending addrs t0 :
  connect_any addrs t0 = None ↔
  (∃ i a, addrs !! i = Some a ∧ attempt t0 i a = None) ∧
  (∀ i a t s, addrs !! i = Some a → attempt t0 i a ≠ Some (t, Ok s)).
Proof.
  unfold connect_any. set (l := attempts t0 addrs). split.
  - intros Hr. destruct (success_dec (arrival_order (omap id l))) as [(t1 & s1 & Hin)|Hall].
    { destruct (recv_loop_success _ (channel_closed t0 l) None t1 s1 (arrival_order_sorted _) Hin)
        as (t' & s' & Hr' & _). congruence. }
    rewrite recv_loop_no_success in Hr by done. unfold channel_closed in Hr.
    destruct (forallb is_some l) eqn:Hsome; [done|]. split.
    + apply forallb_is_some_false, elem_of_attempts in Hsome as (i & a & Ha & Hn). eauto.
    + intros i a t s Ha Hatt. rewrite Forall_forall in Hall.
      by specialize (Hall (t, Ok s) ltac:(apply elem_of_arrivals; eauto)).
  - intros [(i & a & Ha & Hn) Hno]. rewrite recv_loop_no_success.
    + unfold channel_closed. destruct (forallb is_some l) eqn:Hsome; [|done].
      rewrite forallb_forall in Hsome. exfalso.
      assert (In None l) as Hin%Hsome; [|done]. apply list_elem_of_In, elem_of_attempts. eauto.
    + apply Forall_forall. intros [t [s|e]] (j & b & Hb & Hx)%elem_of_arrivals; [|done].
      by destruct (Hno _ _ _ _ Hb Hx).
Qed.
End race.

(** ** Binding *)

Section bind_facts.
Context `{!Net}.

Lemma bind_fold addrs ls e :
  foldl bind_step (ls, e) addrs =
  (ls ++ omap (λ a, match bind_listener a with Ok l => Some l | Err _ => None end) addrs,
   foldl (λ e a, match bind_listener a with Ok _ => e | Err e' => Some e' end) e addrs).
Proof.
  revert ls e. induction addrs as [|a addrs IH]; intros ls e; simpl; [by rewrite app_nil_r|].
  unfold bind_step at 2. destruct (bind_listener a); rewrite IH; simpl; [|done].
  by rewrite <- app_assoc.
Qed.

(** Binding skips the addresses that fail and keeps all the others: the
    call succeeds exactly when some address can be bound, with one listener per
    address that can, in order; otherwise it reports the failure of the last
    address. *)
Theorem bind_listeners_spec addrs :
  let bound := omap (λ a, match bind_listener a with Ok l => Some l | Err _ => None end) addrs in
  match bind_listeners addrs with
  | Ok ls => ls = bound ∧ bound ≠ []
  | Err e =>
      bound = [] ∧
      match last addrs with
      | Some a => bind_listener a = Err e
      | None => io_kind e = ErrorKind.AddrNotAvailable
      end
  end.
Proof.
  intros bound. unfold bind_listeners. rewrite bind_fold. simpl. fold bound.
  destruct bound as [|l ls] eqn:Hb; [|done]. split; [done|].
  destruct addrs as [|a addrs _] using rev_ind; [done|].
  rewrite last_snoc, foldl_app. simpl.
  unfold bound in Hb. rewrite omap_app in Hb. apply app_nil in Hb as [_ Hb]. simpl in Hb.
  by destruct (bind_listener a).
Qed.

Lemma elem_of_dedup seen l a : a ∈ dedup seen l ↔ a ∈ l ∧ a ∉ seen.
Proof.
  revert seen. induction l as [|b l IH]; intros seen; simpl.
  - split; [by intros ?%not_elem_of_nil|]. by intros [?%not_elem_of_nil _].
  - rewrite elem_of_cons. case_decide.
    + rewrite IH. naive_solver.
    + rewrite elem_of_cons, IH, elem_of_cons. destruct (decide (a = b)); naive_solver.
Qed.

Lemma NoDup_dedup seen l : NoDup (dedup seen l).
Proof.
  revert seen. induction l as [|b l IH]; intros seen; simpl; [constructor|].
  case_decide; [done|]. constructor; [|done]. rewrite elem_of_dedup, elem_of_cons. naive_solver.
Qed.

(** The server listens on every address its name resolves to, once: the
    listeners are those of the distinct resolved addresses that can be bound;
    a name with no address, or with no address that can be bound, is an error,
    never an empty server. *)
Theorem bind_all_spec ip port ls :
  bind_all ip port = Ok ls ↔
  ∃ resolved addrs, lookup_host_port ip port = Ok resolved ∧
    NoDup addrs ∧ (∀ a, a ∈ addrs ↔ a ∈ resolved) ∧ addrs = dedup [] resolved ∧
    ls = omap (λ a, match bind_listener a with Ok l => Some l | Err _ => None end) addrs ∧ ls ≠ [].
Proof.
  unfold bind_all. destruct (lookup_host_port ip port) as [resolved|e]; simpl; [|naive_solver].
  pose proof (bind_listeners_spec (dedup [] resolved)) as Hs. split.
  - destruct (bind_listeners _) as [ls'|e]; [|done]. intros [= ->]. destruct Hs as [-> Hne].
    exists resolved, (dedup [] resolved). split_and!; try done.
    + apply NoDup_dedup.
    + intros a. rewrite elem_of_dedup. split; [by intros []|]. intros ?. split; [done|].
      by intros ?%not_elem_of_nil.
  - intros (? & ? & [= <-] & _ & _ & -> & -> & Hne).
    destruct (bind_listeners _) as [ls'|e]; simpl in *; [by destruct Hs as [-> _]|].
    destruct Hs as [Hb _]. done.
Qed.
End bind_facts.

(** ** A concrete network *)

(** Outcomes in order of time, ties in the order of the addresses. *)
#[export] Instance stable_arrival_order : ArrivalOrder.
Proof.
  refine {| arrival_order := sort_by (λ x y : arrival, (x.1 <=? y.1)%N) |}.
  - intros l. apply sort_by_perm.
  - intros l. eapply StronglySorted_impl; [|apply sort_by_sorted; lia].
    intros x y. apply N.leb_le.
Defined.

Definition demo_v4 (d : u8) : SocketAddr := SockV4 [# x0a; x00; x00; d] 80.

(** 10.0.0.1 never answers, 10.0.0.2 accepts after 20 ms, anything else is
    refused; only 10.0.0.2 can be bound. *)
Definition demo_net (remote : Remote) (listener : Listener) : Net := {|
  lookup_host _ _ := Some (0%N, Ok [demo_v4 x01; demo_v4 x02]);
  lookup_host_port _ _ := Ok [demo_v4 x01; demo_v4 x02; demo_v4 x02];
  tcp_connect a _ :=
    if decide (a = demo_v4 x01) then None
    else if decide (a = demo_v4 x02) then Some (from_millis 20, Ok remote)
    else Some (from_millis 1, Err (io_Error_new ErrorKind.ConnectionRefused "refused"));
  tcp_bind a :=
    if decide (a = demo_v4 x02) then Ok listener
    else Err (io_Error_new ErrorKind.AddrNotAvailable "cannot assign");
  udp_bind a := Ok {| u_local_addr := Ok a; u_events := [] |};
  set_nonblocking _ := Ok ();
  from_std l := Ok l
|}.

Definition demo_remote : Remote := {| remote_stream := demo_b; remote_schedule := demo_events |}.
Definition demo_listener : Listener := {| l_local_addr := Ok (demo_v4 x02); l_accept _ := None |}.

Lemma connect_any_wins_witness :
  ∃ t s, @connect_any (demo_net demo_remote demo_listener) _ [demo_v4 x01; demo_v4 x02] 0
         = Some (t, Ok s) ∧ (t ≤ 270000000)%N.
Proof.
  destruct (@connect_any_wins (demo_net demo_remote demo_listener) _ [demo_v4 x01; demo_v4 x02] 0 1
              (demo_v4 x02) (from_millis 20) demo_remote eq_refl eq_refl) as (t & s & H1 & H2 & _).
  exists t, s. split; [exact H1|exact H2].
Defined.
