(* ===== verification/Client.v ===== *)
(** * A connection's state and effects ([src/src/lib.rs]: [SOCKClient])

    The fields of [SOCKClient], the world its handlers run in (the clock, the
    statistics, the shared byte counters and the DNS cache), and the monad of
    the handlers: asynchronous, fallible, cancelled by the deadline of the
    surrounding [timeout]. *)
From S2P Require Import Prelude Fmt Types Wire Credentials DnsCache Stats Stream Relay Connect.

(** ** State *)

(** [has_stats] stands for [stats: Some(_)]: the server shares one [Stats] with
    every client, kept in the world. *)
Record SOCKClient := {
  stream : Stream;
  auth_nmethods : u8;
  auth_methods : list u8;
  authed_users : list User;
  socks_version : u8;
  timeout_ : option Duration;
  handshake_timeout : Duration;
  local_addr : option SocketAddr;
  replied : bool;
  width : usize;
  has_stats : bool;
  client_id : option u64;
  relay_counters : option (loc * loc)
}.

Definition SOCKClient_with_credential_width (s : Stream) (users : list User) (methods : list u8)
    (timeout : option Duration) (w : usize) : SOCKClient :=
  {| stream := s; auth_nmethods := x00; socks_version := x00; authed_users := users;
     auth_methods := methods; timeout_ := timeout; handshake_timeout := DEFAULT_HANDSHAKE_TIMEOUT;
     local_addr := None; replied := false; width := w; has_stats := false; client_id := None;
     relay_counters := None |}.

Definition SOCKClient_new (s : Stream) (users : list User) (methods : list u8)
    (timeout : option Duration) : SOCKClient :=
  SOCKClient_with_credential_width s users methods timeout (credential_width users).

Definition SOCKClient_new_no_auth (s : Stream) (timeout : option Duration) : SOCKClient :=
  {| stream := s; auth_nmethods := x00; socks_version := x00; authed_users := [];
     auth_methods := [AuthMethods_as_u8 NoAuth]; timeout_ := timeout;
     handshake_timeout := DEFAULT_HANDSHAKE_TIMEOUT; local_addr := None; replied := false;
     width := 0; has_stats := false; client_id := None; relay_counters := None |}.

(** [w_cache] holds the contents of the client's cache, [None] when it has
    none; [w_datagrams] logs what its UDP association has sent, to whom, and
    [w_remote] is the connection it is relayed to, once there is one. *)
Record World := {
  clock : N;
  client : SOCKClient;
  w_stats : Stats;
  w_heap : Heap;
  w_cache : option DnsCache;
  w_datagrams : list (SocketAddr * list u8);
  w_remote : option Stream
}.

Definition set_clock (t : N) (w : World) : World :=
  {| clock := t; client := client w; w_stats := w_stats w; w_heap := w_heap w; w_cache := w_cache w;
     w_datagrams := w_datagrams w; w_remote := w_remote w |}.
Definition set_client (c : SOCKClient) (w : World) : World :=
  {| clock := clock w; client := c; w_stats := w_stats w; w_heap := w_heap w; w_cache := w_cache w;
     w_datagrams := w_datagrams w; w_remote := w_remote w |}.
Definition set_w_stats (s : Stats) (w : World) : World :=
  {| clock := clock w; client := client w; w_stats := s; w_heap := w_heap w; w_cache := w_cache w;
     w_datagrams := w_datagrams w; w_remote := w_remote w |}.
Definition set_w_heap (h : Heap) (w : World) : World :=
  {| clock := clock w; client := client w; w_stats := w_stats w; w_heap := h; w_cache := w_cache w;
     w_datagrams := w_datagrams w; w_remote := w_remote w |}.
Definition set_w_cache (c : option DnsCache) (w : World) : World :=
  {| clock := clock w; client := client w; w_stats := w_stats w; w_heap := w_heap w; w_cache := c;
     w_datagrams := w_datagrams w; w_remote := w_remote w |}.
Definition set_datagrams (l : list (SocketAddr * list u8)) (w : World) : World :=
  {| clock := clock w; client := client w; w_stats := w_stats w; w_heap := w_heap w; w_cache := w_cache w;
     w_datagrams := l; w_remote := w_remote w |}.
Definition set_remote (r : option Stream) (w : World) : World :=
  {| clock := clock w; client := client w; w_stats := w_stats w; w_heap := w_heap w; w_cache := w_cache w;
     w_datagrams := w_datagrams w; w_remote := r |}.

Definition set_stream (s : Stream) (c : SOCKClient) : SOCKClient :=
  {| stream := s; auth_nmethods := auth_nmethods c; auth_methods := auth_methods c;
     authed_users := authed_users c; socks_version := socks_version c; timeout_ := timeout_ c;
     handshake_timeout := handshake_timeout c; local_addr := local_addr c; replied := replied c;
     width := width c; has_stats := has_stats c; client_id := client_id c;
     relay_counters := relay_counters c |}.
Definition set_header (version nmethods : u8) (c : SOCKClient) : SOCKClient :=
  {| stream := stream c; auth_nmethods := nmethods; auth_methods := auth_methods c;
     authed_users := authed_users c; socks_version := version; timeout_ := timeout_ c;
     handshake_timeout := handshake_timeout c; local_addr := local_addr c; replied := replied c;
     width := width c; has_stats := has_stats c; client_id := client_id c;
     relay_counters := relay_counters c |}.
Definition set_replied (r : bool) (c : SOCKClient) : SOCKClient :=
  {| stream := stream c; auth_nmethods := auth_nmethods c; auth_methods := auth_methods c;
     authed_users := authed_users c; socks_version := socks_version c; timeout_ := timeout_ c;
     handshake_timeout := handshake_timeout c; local_addr := local_addr c; replied := r;
     width := width c; has_stats := has_stats c; client_id := client_id c;
     relay_counters := relay_counters c |}.
(** What [run_client] adds from the guard. *)
Definition set_guard (id : option u64) (counters : option (loc * loc)) (c : SOCKClient)
    : SOCKClient :=
  {| stream := stream c; auth_nmethods := auth_nmethods c; auth_methods := auth_methods c;
     authed_users := authed_users c; socks_version := socks_version c; timeout_ := timeout_ c;
     handshake_timeout := handshake_timeout c; local_addr := local_addr c; replied := replied c;
     width := width c; has_stats := has_stats c; client_id := id; relay_counters := counters |}.
(** [set_local_addr], [set_stats] and [set_handshake_timeout]. *)
Definition set_local_addr (a : option SocketAddr) (c : SOCKClient) : SOCKClient :=
  {| stream := stream c; auth_nmethods := auth_nmethods c; auth_methods := auth_methods c;
     authed_users := authed_users c; socks_version := socks_version c; timeout_ := timeout_ c;
     handshake_timeout := handshake_timeout c; local_addr := a; replied := replied c;
     width := width c; has_stats := has_stats c; client_id := client_id c;
     relay_counters := relay_counters c |}.
Definition set_stats (c : SOCKClient) : SOCKClient :=
  {| stream := stream c; auth_nmethods := auth_nmethods c; auth_methods := auth_methods c;
     authed_users := authed_users c; socks_version := socks_version c; timeout_ := timeout_ c;
     handshake_timeout := handshake_timeout c; local_addr := local_addr c; replied := replied c;
     width := width c; has_stats := true; client_id := client_id c;
     relay_counters := relay_counters c |}.
Definition set_handshake_timeout (d : Duration) (c : SOCKClient) : SOCKClient :=
  {| stream := stream c; auth_nmethods := auth_nmethods c; auth_methods := auth_methods c;
     authed_users := authed_users c; socks_version := socks_version c; timeout_ := timeout_ c;
     handshake_timeout := d; local_addr := local_addr c; replied := replied c;
     width := width c; has_stats := has_stats c; client_id := client_id c;
     relay_counters := relay_counters c |}.

(** ** The monad *)

Definition M (E A : Type) : Type := option N → World → outcome E A * World.

#[global] Instance M_ret {E} : MRet (M E) := λ A a dl w, (Done a, w).
#[global] Instance M_bind {E} : MBind (M E) := λ A B f m dl w,
  match m dl w with
  | (Done a, w) => f a dl w
  | (Throw e, w) => (Throw e, w)
  | (Elapsed, w) => (Elapsed, w)
  | (Pending, w) => (Pending, w)
  | (Crash, w) => (Crash, w)
  end.

Definition throw {E A} (e : E) : M E A := λ dl w, (Throw e, w).
Definition get {E} : M E World := λ dl w, (Done w, w).
Definition modify {E} (f : World → World) : M E unit := λ dl w, (Done (), f w).

(** [map_err]. *)
Definition m_map_err {E F A} (f : E → F) (m : M E A) : M F A := λ dl w,
  match m dl w with
  | (Done a, w) => (Done a, w)
  | (Throw e, w) => (Throw (f e), w)
  | (Elapsed, w) => (Elapsed, w)
  | (Pending, w) => (Pending, w)
  | (Crash, w) => (Crash, w)
  end.

(** [?] on an I/O result inside a handler. *)
Definition question {A} (m : M io_error A) : M MerinoError A := m_map_err Io m.

Definition from_result {E A} (r : result E A) : M E A := λ dl w,
  match r with Ok a => (Done a, w) | Err e => (Throw e, w) end.

(** [tokio::time::timeout(d, m).await]: the inner result, or [None] when the
    time is up first. *)
Definition with_timeout {E F A} (d : Duration) (m : M E A) : M F (option (result E A)) :=
  λ dl w,
    let own := (clock w + d)%N in
    match m (Some (match dl with Some outer => N.min own outer | None => own end)) w with
    | (Done a, w) => (Done (Some (Ok a)), w)
    | (Throw e, w) => (Done (Some (Err e)), w)
    | (Elapsed, w) =>
        match dl with
        | Some outer => if (outer <? own)%N then (Elapsed, w) else (Done None, w)
        | None => (Done None, w)
        end
    | (Pending, w) => (Pending, w)
    | (Crash, w) => (Crash, w)
    end.

(** Await an answer that comes after some time, or never. *)
Definition await_answer {E A} (answer : option (N * A)) : M E A := λ dl w,
  match answer with
  | Some (d, a) =>
      if deadline_ok dl (clock w + d) then (Done a, set_clock (clock w + d) w)
      else (cut_at dl, set_clock (cut_clock dl (clock w)) w)
  | None => (cut_at dl, set_clock (cut_clock dl (clock w)) w)
  end.

(** The same at an absolute time. *)
Definition await_until {E A} (answer : option (N * A)) : M E A := λ dl w,
  match answer with
  | Some (t, a) =>
      if deadline_ok dl t then (Done a, set_clock (N.max (clock w) t) w)
      else (cut_at dl, set_clock (cut_clock dl (clock w)) w)
  | None => (cut_at dl, set_clock (cut_clock dl (clock w)) w)
  end.

(** The result of a fallible operation, without propagating its error. *)
Definition m_try {E F A} (m : M E A) : M F (result E A) := λ dl w,
  match m dl w with
  | (Done a, w) => (Done (Ok a), w)
  | (Throw e, w) => (Done (Err e), w)
  | (Elapsed, w) => (Elapsed, w)
  | (Pending, w) => (Pending, w)
  | (Crash, w) => (Crash, w)
  end.

(** ** Operations on the client's stream *)

Definition stream_read_exact (n : usize) : M io_error (list u8) := λ dl w,
  let '(o, t, s) := read_exact dl n (clock w) (stream (client w)) in
  (o, set_clock t (set_client (set_stream s (client w)) w)).

Definition stream_write_all (data : list u8) : M io_error unit := λ dl w,
  let '(o, t, s) := write_all dl data (clock w) (stream (client w)) in
  (o, set_clock t (set_client (set_stream s (client w)) w)).

(** [SOCKClient::shutdown]. *)
Definition stream_shutdown : M io_error unit := λ dl w,
  let '(r, s) := shutdown (stream (client w)) in
  from_result r dl (set_client (set_stream s (client w)) w).

(** [SocksReply::send]. *)
Definition SocksReply_send (r : SocksReply) : M io_error unit := stream_write_all (buf r).

(** [if let Some(stats) = self.stats.as_ref() { stats.note_..(); }]. *)
Definition note {E} (f : Stats → Stats) : M E unit :=
  modify (λ w, if has_stats (client w) then set_w_stats (f (w_stats w)) w else w).

(** ** Running the monad *)

Lemma bind_run {E A B} (m : M E A) (f : A → M E B) dl w :
  (m ≫= f) dl w =
  match m dl w with
  | (Done a, w) => f a dl w
  | (Throw e, w) => (Throw e, w)
  | (Elapsed, w) => (Elapsed, w)
  | (Pending, w) => (Pending, w)
  | (Crash, w) => (Crash, w)
  end.
Proof. done. Qed.

Lemma mret_run {E A} (a : A) dl w : (mret a : M E A) dl w = (Done a, w).
Proof. done. Qed.

Lemma bind_Done {E A B} (m : M E A) (f : A → M E B) dl w b w' :
  (m ≫= f) dl w = (Done b, w') ↔ ∃ a w1, m dl w = (Done a, w1) ∧ f a dl w1 = (Done b, w').
Proof. rewrite bind_run. destruct (m dl w) as [[a|e| | |] w1]; naive_solver. Qed.

Lemma question_Done {A} (m : M io_error A) dl w a w' :
  question m dl w = (Done a, w') ↔ m dl w = (Done a, w').
Proof. unfold question, m_map_err. destruct (m dl w) as [[b|e| | |] w1]; naive_solver. Qed.

(** What reads and writes leave: the bytes that are still to come, or one more
    entry in the log, and a later clock. *)
Definition after_read (rest : list (N * u8)) (t : N) (w : World) : World :=
  set_clock t (set_client (set_stream (set_rx rest (stream (client w))) (client w)) w).

Definition after_write (data : list u8) (t : N) (w : World) : World :=
  set_clock t (set_client
    (set_stream (log_write data (length data) (stream (client w))) (client w)) w).

Lemma stream_read_exact_Done n dl w bs w' :
  stream_read_exact n dl w = (Done bs, w') →
  length bs = n ∧ rx_bytes (stream (client w)) = bs ++ rx_bytes (stream (client w')) ∧
  ∃ rest t, w' = after_read rest t w.
Proof.
  unfold stream_read_exact.
  destruct (read_exact dl n (clock w) (stream (client w))) as [[o t] s] eqn:E.
  intros [= -> <-]. apply read_exact_Done in E as (l & Hrx & Hs & -> & Hlen & _ & _).
  split_and!; [by rewrite length_fmap| |].
  - unfold rx_bytes. simpl. by rewrite Hrx, fmap_app.
  - exists (rx s), t. unfold after_read. by rewrite <- Hs.
Qed.

Lemma stream_write_all_Done data dl w u w' :
  stream_write_all data dl w = (Done u, w') → ∃ t, w' = after_write data t w.
Proof.
  unfold stream_write_all.
  destruct (write_all dl data (clock w) (stream (client w))) as [[o t] s] eqn:E.
  intros [= -> <-]. apply write_all_Done in E as (-> & _). by exists t.
Qed.

Lemma throw_Done {E A} (e : E) dl w (a : A) w' : throw e dl w = (Done a, w') ↔ False.
Proof. done. Qed.

Lemma from_result_Done {E A} (r : result E A) dl w a w' :
  from_result r dl w = (Done a, w') ↔ r = Ok a ∧ w' = w.
Proof. destruct r; simpl; naive_solver. Qed.

Lemma mret_Done {E A} (a b : A) dl w w' :
  (mret a : M E A) dl w = (Done b, w') ↔ a = b ∧ w' = w.
Proof. unfold mret, M_ret. naive_solver. Qed.

Lemma modify_Done {E} f dl w u w' : (modify f : M E unit) dl w = (Done u, w') ↔ w' = f w.
Proof. unfold modify. destruct u. naive_solver. Qed.

Lemma get_Done {E} dl w v w' : (get : M E World) dl w = (Done v, w') ↔ v = w ∧ w' = w.
Proof. unfold get. naive_solver. Qed.

(** Inverts a completed run of a handler, call by call. *)
Ltac m_inv :=
  repeat match goal with
  | H : (_ ≫= _) _ _ = (Done _, _) |- _ => apply bind_Done in H as (? & ? & ? & ?)
  | H : question _ _ _ = (Done _, _) |- _ => apply question_Done in H
  | H : throw _ _ _ = (Done _, _) |- _ => discriminate H
  | H : from_result _ _ _ = (Done _, _) |- _ => apply from_result_Done in H as [? ->]
  | H : mret _ _ _ = (Done _, _) |- _ => apply mret_Done in H as [? ->]
  | H : modify _ _ _ = (Done _, _) |- _ => apply modify_Done in H as ->
  | H : get _ _ = (Done _, _) |- _ => apply get_Done in H as [-> ->]
  | H : stream_read_exact _ _ _ = (Done _, _) |- _ =>
      apply stream_read_exact_Done in H as (? & ? & ? & ? & ->)
  | H : stream_write_all _ _ _ = (Done _, _) |- _ => apply stream_write_all_Done in H as (? & ->)
  | H : (if ?b then _ else _) _ _ = (Done _, _) |- _ => destruct b eqn:?
  | H : match ?x with Some _ => _ | None => _ end _ _ = (Done _, _) |- _ => destruct x eqn:?
  end.

(** ** Invariants of handlers

    [preserves I m]: running [m] keeps [I], however it ends.  [timely m]: under
    a deadline, [m] ends by the deadline.  Both are established call by call. *)

Definition preserves {E A} (I : World → Prop) (m : M E A) : Prop :=
  ∀ dl w o w', m dl w = (o, w') → I w → I w'.

Definition timely {E A} (m : M E A) : Prop :=
  ∀ d w o w', m (Some d) w = (o, w') → (clock w ≤ d)%N →
    (clock w ≤ clock w' ≤ d)%N ∧ o ≠ Pending ∧ o ≠ Crash.

Section preserves.
Context (I : World → Prop).

Lemma preserves_ret {E A} (a : A) : preserves I (mret a : M E A).
Proof. intros dl w o w'. unfold mret, M_ret. by intros [= <- <-]. Qed.

Lemma preserves_throw {E A} (e : E) : preserves I (throw e : M E A).
Proof. intros dl w o w'. by intros [= <- <-]. Qed.

Lemma preserves_get {E} : preserves I (get : M E World).
Proof. intros dl w o w'. by intros [= <- <-]. Qed.

Lemma preserves_modify {E} f : (∀ w, I w → I (f w)) → preserves I (modify f : M E unit).
Proof. intros Hf dl w o w'. intros [= <- <-]. auto. Qed.

Lemma preserves_bind {E A B} (m : M E A) (f : A → M E B) :
  preserves I m → (∀ a, preserves I (f a)) → preserves I (m ≫= f).
Proof.
  intros Hm Hf dl w o w'. rewrite bind_run. destruct (m dl w) as [o1 w1] eqn:E1.
  intros H Hw. pose proof (Hm _ _ _ _ E1 Hw). destruct o1; simplify_eq; [|done..].
  by eapply Hf.
Qed.

Lemma preserves_map_err {E F A} (f : E → F) (m : M E A) :
  preserves I m → preserves I (m_map_err f m).
Proof.
  intros Hm dl w o w'. unfold m_map_err. destruct (m dl w) as [o1 w1] eqn:E1.
  intros H Hw. pose proof (Hm _ _ _ _ E1 Hw). by destruct o1; simplify_eq.
Qed.

Lemma preserves_try {E F A} (m : M E A) : preserves I m → preserves I (m_try m : M F _).
Proof.
  intros Hm dl w o w'. unfold m_try. destruct (m dl w) as [o1 w1] eqn:E1.
  intros H Hw. pose proof (Hm _ _ _ _ E1 Hw). by destruct o1; simplify_eq.
Qed.

Lemma preserves_from_result {E A} (r : result E A) : preserves I (from_result r).
Proof. intros dl w o w'. unfold from_result. by destruct r; intros [= <- <-]. Qed.

Lemma preserves_timeout {E F A} d (m : M E A) :
  preserves I m → preserves I (with_timeout d m : M F _).
Proof.
  intros Hm dl w o w'. unfold with_timeout. destruct (m _ w) as [o1 w1] eqn:E1.
  intros H Hw. pose proof (Hm _ _ _ _ E1 Hw). destruct o1, dl; repeat case_match; by simplify_eq.
Qed.

Lemma preserves_await {E A} (a : option (N * A)) :
  (∀ w t, I w → I (set_clock t w)) → preserves I (await_answer a : M E A).
Proof.
  intros Hc dl w o w'. unfold await_answer. destruct a as [[d a]|]; [case_match|];
    intros [= <- <-]; auto.
Qed.

Lemma preserves_await_until {E A} (a : option (N * A)) :
  (∀ w t, I w → I (set_clock t w)) → preserves I (await_until a : M E A).
Proof.
  intros Hc dl w o w'. unfold await_until. destruct a as [[d a]|]; [case_match|];
    intros [= <- <-]; auto.
Qed.

(** An invariant that neither the client's stream nor the clock can break. *)
Context (Hclock : ∀ w t, I w → I (set_clock t w))
        (Hstream : ∀ w s, I w → I (set_client (set_stream s (client w)) w)).

Lemma preserves_read n : preserves I (stream_read_exact n).
Proof using Hclock Hstream.
  intros dl w o w'. unfold stream_read_exact. repeat case_match. intros [= <- <-]. auto.
Qed.

Lemma preserves_write data : preserves I (stream_write_all data).
Proof using Hclock Hstream.
  intros dl w o w'. unfold stream_write_all. repeat case_match. intros [= <- <-]. auto.
Qed.

Lemma preserves_shutdown : preserves I stream_shutdown.
Proof using Hstream.
  intros dl w o w'. unfold stream_shutdown. destruct (shutdown _) as [r s].
  intros H HI. eapply preserves_from_result; [exact H|]. auto.
Qed.
End preserves.

Section timely.
Lemma timely_ret {E A} (a : A) : timely (mret a : M E A).
Proof. intros d w o w'. unfold mret, M_ret. intros [= <- <-] Hw. split_and!; [lia|lia|done..]. Qed.

Lemma timely_throw {E A} (e : E) : timely (throw e : M E A).
Proof. intros d w o w' [= <- <-] Hw. split_and!; [lia|lia|done..]. Qed.

Lemma timely_get {E} : timely (get : M E World).
Proof. intros d w o w' [= <- <-] Hw. split_and!; [lia|lia|done..]. Qed.

Lemma timely_modify {E} f : (∀ w, clock (f w) = clock w) → timely (modify f : M E unit).
Proof. intros Hf d w o w' [= <- <-] Hw. rewrite Hf. split_and!; [lia|lia|done..]. Qed.

Lemma timely_bind {E A B} (m : M E A) (f : A → M E B) :
  timely m → (∀ a, timely (f a)) → timely (m ≫= f).
Proof.
  intros Hm Hf d w o w'. rewrite bind_run. destruct (m (Some d) w) as [o1 w1] eqn:E1.
  intros H Hw. destruct (Hm _ _ _ _ E1 Hw) as (? & ? & ?). destruct o1; simplify_eq; try done.
  destruct (Hf _ _ _ _ _ H) as (? & ? & ?); [lia|]. split_and!; [lia|lia|done..].
Qed.

Lemma timely_map_err {E F A} (f : E → F) (m : M E A) : timely m → timely (m_map_err f m).
Proof.
  intros Hm d w o w'. unfold m_map_err. destruct (m (Some d) w) as [o1 w1] eqn:E1.
  intros H Hw. destruct (Hm _ _ _ _ E1 Hw) as (? & ? & ?).
  destruct o1; simplify_eq; split_and!; (done || lia).
Qed.

Lemma timely_from_result {E A} (r : result E A) : timely (from_result r).
Proof. intros d w o w'. destruct r; intros [= <- <-] Hw; split_and!; (lia || done). Qed.

Lemma timely_read n : timely (stream_read_exact n).
Proof.
  intros d w o w'. unfold stream_read_exact.
  destruct (read_exact _ n _ _) as [[o1 t] s] eqn:E. intros [= <- <-] Hw.
  pose proof (read_exact_frame _ _ _ _ _ _ _ E) as (_ & _ & ?).
  apply read_exact_clock in E as (? & ? & ?); [|done]. simpl. by split_and!.
Qed.

Lemma timely_write data : timely (stream_write_all data).
Proof.
  intros d w o w'. unfold stream_write_all.
  destruct (write_all _ data _ _) as [[o1 t] s] eqn:E. intros [= <- <-] Hw.
  pose proof (write_all_frame _ _ _ _ _ _ _ E) as (_ & _ & _ & ? & _).
  apply write_all_clock in E as (? & ? & ?); [|done]. simpl. by split_and!.
Qed.

Lemma timely_shutdown : timely stream_shutdown.
Proof.
  intros d w o w'. unfold stream_shutdown. destruct (shutdown _) as [r s].
  intros H Hw. exact (timely_from_result r _ _ _ _ H Hw).
Qed.
End timely.

Create HintDb handlers.
#[export] Hint Resolve preserves_ret preserves_throw preserves_get preserves_map_err preserves_try
  preserves_from_result preserves_timeout preserves_await preserves_await_until preserves_read
  preserves_write preserves_shutdown timely_ret timely_throw timely_get timely_map_err
  timely_from_result timely_read timely_write timely_shutdown : handlers.

(** Goes through a handler call by call. *)
Ltac walk :=
  repeat first
    [ solve [auto with handlers]
    | apply preserves_bind; [|intros ?]
    | apply timely_bind; [|intros ?]
    | progress (unfold question, note, SocksReply_send)
    | apply preserves_map_err | apply preserves_try | apply preserves_timeout
    | apply timely_map_err
    | match goal with
      | |- preserves _ (if ?b then _ else _) => destruct b
      | |- preserves _ (match ?x with _ => _ end) => destruct x
      | |- timely (if ?b then _ else _) => destruct b
      | |- timely (match ?x with _ => _ end) => destruct x
      end ].

#[global] Arguments M : simpl never.
