(* ===== verification/Hoare.v ===== *)
(** * Triples for the handlers

    [preserves] and [timely] (Client.v) are about what does not change.  A
    triple says how a handler moves a connection from one condition to another:
    the condition before, the one after a normal return, which may depend on the
    value returned, and the one after anything else, with the error if there
    is one. *)
From S2P Require Import Prelude Fmt Types DnsCache Stats Stream Connect Client.

Definition hoare {E A} (P : World → Prop) (m : M E A) (Q : A → World → Prop)
    (R : option E → World → Prop) : Prop :=
  ∀ dl w o w', m dl w = (o, w') → P w →
    match o with
    | Done a => Q a w'
    | Throw e => R (Some e) w'
    | Elapsed | Pending | Crash => R None w'
    end.

(** ** The rules *)

Section rules.
Context {E : Type}.

Lemma hoare_conseq {A} (P P' : World → Prop) (m : M E A) Q Q' (R R' : option E → World → Prop) :
  hoare P' m Q' R' → (∀ w, P w → P' w) → (∀ a w, Q' a w → Q a w) → (∀ e w, R' e w → R e w) →
  hoare P m Q R.
Proof.
  intros Hm HP HQ HR dl w o w' Hrun Hw. specialize (Hm _ _ _ _ Hrun (HP _ Hw)).
  destruct o; auto.
Qed.

Lemma hoare_ret {A} (a : A) Q (R : option E → World → Prop) : hoare (Q a) (mret a : M E A) Q R.
Proof. intros dl w o w'. unfold mret, M_ret. by intros [= <- <-]. Qed.

Lemma hoare_throw {A} (e : E) (P : World → Prop) (Q : A → World → Prop) R :
  (∀ w, P w → R (Some e) w) → hoare P (throw e : M E A) Q R.
Proof. intros HR dl w o w' [= <- <-]. apply HR. Qed.

Lemma hoare_bind {A B} P (m : M E A) (f : A → M E B) Q1 Q (R : option E → World → Prop) :
  hoare P m Q1 R → (∀ a, hoare (Q1 a) (f a) Q R) → hoare P (m ≫= f) Q R.
Proof.
  intros Hm Hf dl w o w'. rewrite bind_run. destruct (m dl w) as [o1 w1] eqn:E1. intros Hrun Hw.
  specialize (Hm _ _ _ _ E1 Hw). destruct o1; simplify_eq; try done. by eapply Hf.
Qed.

(** [get]: the rest may depend on the world it sees. *)
Lemma hoare_get {A} (P : World → Prop) (f : World → M E A) Q (R : option E → World → Prop) :
  (∀ w0, P w0 → hoare (λ w, w = w0) (f w0) Q R) → hoare P (w ← get; f w) Q R.
Proof.
  intros Hf dl w o w'. rewrite bind_run. cbn [get]. intros Hrun Hw. by eapply (Hf w Hw).
Qed.

Lemma hoare_modify f (P : World → Prop) Q (R : option E → World → Prop) :
  (∀ w, P w → Q () (f w)) → hoare P (modify f : M E unit) Q R.
Proof. intros Hf dl w o w'. intros [= <- <-]. apply Hf. Qed.

Lemma hoare_from_result {A} (r : result E A) (P : World → Prop) Q (R : option E → World → Prop) :
  (∀ a, r = Ok a → ∀ w, P w → Q a w) → (∀ e, r = Err e → ∀ w, P w → R (Some e) w) →
  hoare P (from_result r) Q R.
Proof. intros HQ HR dl w o w'. destruct r as [a|e]; intros [= <- <-]; [by apply HQ|by apply HR]. Qed.

Lemma hoare_map_err {F A} (g : E → F) P (m : M E A) Q R (R' : option F → World → Prop) :
  hoare P m Q R → (∀ e w, R e w → R' (g <$> e) w) → hoare P (m_map_err g m) Q R'.
Proof.
  intros Hm HR dl w o w'. unfold m_map_err. destruct (m dl w) as [o1 w1] eqn:E1.
  intros Hrun Hw. specialize (Hm _ _ _ _ E1 Hw). destruct o1; simplify_eq; try done;
    by apply HR in Hm.
Qed.

(** A [timeout] turns every end of [m] but a hang or a panic into a value. *)
Lemma hoare_timeout {F A} d P (m : M E A) Q R Q' (R' : option F → World → Prop) :
  hoare P m Q R → (∀ a w, Q a w → Q' (Some (Ok a)) w) →
  (∀ e w, R (Some e) w → Q' (Some (Err e)) w) → (∀ w, R None w → Q' None w) →
  (∀ w, R None w → R' None w) →
  hoare P (with_timeout d m : M F _) Q' R'.
Proof.
  intros Hm HQ HE HN HR dl w o w'. unfold with_timeout. destruct (m _ w) as [o1 w1] eqn:E1.
  intros Hrun Hw. specialize (Hm _ _ _ _ E1 Hw).
  destruct o1; simplify_eq; try by auto. destruct dl; [case_match|]; simplify_eq; auto.
Qed.

Lemma hoare_try {F A} P (m : M E A) Q R Q' (R' : option F → World → Prop) :
  hoare P m Q R → (∀ a w, Q a w → Q' (Ok a) w) → (∀ e w, R (Some e) w → Q' (Err e) w) →
  (∀ w, R None w → R' None w) →
  hoare P (m_try m : M F _) Q' R'.
Proof.
  intros Hm HQ HE HN dl w o w'. unfold m_try. destruct (m dl w) as [o1 w1] eqn:E1.
  intros Hrun Hw. specialize (Hm _ _ _ _ E1 Hw). destruct o1; simplify_eq; auto.
Qed.

(** An answer that is awaited leaves nothing but a later clock, and cannot fail. *)
Lemma hoare_await_answer {A} (answer : option (N * A)) (P : World → Prop) (Q : A → World → Prop)
    (R : option E → World → Prop) :
  (∀ w t, P w → (∀ a, Q a (set_clock t w)) ∧ R None (set_clock t w)) →
  hoare P (await_answer answer : M E A) Q R.
Proof.
  intros H dl w o w'. unfold await_answer, cut_at. intros Hrun Hw.
  destruct answer as [[d a]|], dl; simpl in Hrun; repeat case_match; simplify_eq; by apply H.
Qed.

Lemma hoare_await_until {A} (answer : option (N * A)) (P : World → Prop) (Q : A → World → Prop)
    (R : option E → World → Prop) :
  (∀ w t, P w → (∀ a, Q a (set_clock t w)) ∧ R None (set_clock t w)) →
  hoare P (await_until answer : M E A) Q R.
Proof.
  intros H dl w o w'. unfold await_until, cut_at. intros Hrun Hw.
  destruct answer as [[d a]|], dl; simpl in Hrun; repeat case_match; simplify_eq; by apply H.
Qed.

(** What keeps [I] and may end anyhow. *)
Lemma hoare_preserves {A} (I : World → Prop) (m : M E A) (R : option E → World → Prop) :
  preserves I m → (∀ e w, I w → R e w) → hoare I m (λ _, I) R.
Proof. intros Hm HR dl w o w' Hrun Hw. specialize (Hm _ _ _ _ Hrun Hw). destruct o; auto. Qed.

(** Conditions on the world before. *)
Lemma hoare_ex {A X} (P : X → World → Prop) (m : M E A) Q R :
  (∀ x, hoare (P x) m Q R) → hoare (λ w, ∃ x, P x w) m Q R.
Proof. intros Hm dl w o w' Hrun [x Hw]. by eapply Hm. Qed.

(** A read leaves the log of the stream as it was, a write adds one entry, which
    is whole if the write returns. *)
Lemma hoare_read n (P : World → Prop) Q R :
  (∀ w s t, P w → out s = out (stream (client w)) →
     let w' := set_clock t (set_client (set_stream s (client w)) w) in
     (∀ bs, length bs = n → Q bs w') ∧ ∀ e, R e w') →
  hoare P (stream_read_exact n) Q R.
Proof.
  intros H dl w o w'. unfold stream_read_exact.
  destruct (read_exact dl n (clock w) (stream (client w))) as [[o1 t] s] eqn:E1.
  intros [= <- <-] Hw. pose proof (read_exact_frame _ _ _ _ _ _ _ E1) as (_ & Hs & _).
  destruct (H w s t Hw) as [HQ HR]; [by rewrite Hs|].
  destruct o1; try apply HR. apply HQ. apply read_exact_Done in E1 as (l & _ & _ & -> & Hl & _).
  by rewrite length_fmap.
Qed.

Lemma hoare_write data (P : World → Prop) Q R :
  (∀ w s t n, P w → out s = out (stream (client w)) ++ [OutWrite data n] →
     let w' := set_clock t (set_client (set_stream s (client w)) w) in
     (n = length data → Q () w') ∧ ∀ e, R e w') →
  hoare P (stream_write_all data) Q R.
Proof.
  intros H dl w o w'. unfold stream_write_all.
  destruct (write_all dl data (clock w) (stream (client w))) as [[o1 t] s] eqn:E1.
  intros [= <- <-] Hw. pose proof (write_all_frame _ _ _ _ _ _ _ E1) as (n & Hs & Hn & _).
  destruct (H w s t n Hw) as [HQ HR]; [by rewrite Hs|].
  destruct o1 as [[]|e| | |]; auto.
Qed.

Lemma hoare_shutdown (P : World → Prop) Q R :
  (∀ w s, P w → out s = out (stream (client w)) ++ [OutShutdown] →
     let w' := set_client (set_stream s (client w)) w in Q () w' ∧ ∀ e, R (Some e) w') →
  hoare P stream_shutdown Q R.
Proof.
  intros H dl w o w'. unfold stream_shutdown. destruct (shutdown (stream (client w))) as [r s] eqn:Es.
  intros Hrun Hw. destruct (H w s Hw) as [HQ HR].
  { unfold shutdown in Es. by injection Es as _ <-. }
  destruct r as [[]|e]; injection Hrun as <- <-; auto.
Qed.
End rules.
