(* ===== verification/Handshake.v ===== *)
(** * The SOCKS5 handshake ([src/src/lib.rs]: [SOCKSReq::from_stream],
      [SOCKClient::get_avalible_methods], [auth], [negotiate])

    Greeting, method selection, USERPASS sub-negotiation and request, as the
    asynchronous handlers of the client.  They are related to the pure parsers:
    a negotiation that succeeds has read exactly one greeting, the credentials
    of a configured user if the method asks for them, and one request; and a
    client that sends these in time is let in. *)
From S2P Require Import Prelude Fmt Types Wire Credentials DnsCache Stats Stream Relay Connect Client.

(** ** The code *)

(** The variable-length part of the request, appended to the frame. *)
Definition read_addr (frame : list u8) (addr_type : AddrType) : M MerinoError (list u8) :=
  match addr_type with
  | Domain =>
      dlen ← question (stream_read_exact 1);
      let frame := frame ++ [byte_at dlen 0] in
      domain ← question (stream_read_exact (usize_of_u8 (byte_at dlen 0)));
      mret (frame ++ domain)
  | V4 => addr ← question (stream_read_exact 4); mret (frame ++ addr)
  | V6 => addr ← question (stream_read_exact 16); mret (frame ++ addr)
  end.

Definition SOCKSReq_from_stream : M MerinoError SOCKSReq :=
  header ← question (stream_read_exact 4);
  if negb (bool_decide (byte_at header 0 = SOCKS_VERSION)) then throw (Socks Failure)
  else
    match SockCommand_from (usize_of_u8 (byte_at header 1)) with
    | None => throw (Socks CommandNotSupported)
    | Some _ =>
        match AddrType_from (usize_of_u8 (byte_at header 3)) with
        | None => throw (Socks AddrTypeNotSupported)
        | Some addr_type =>
            frame ← read_addr header addr_type;
            port ← question (stream_read_exact 2);
            parsed ← from_result (parse_request (frame ++ port));
            mret parsed.1
        end
    end.

(** The [for] loop of [get_avalible_methods]. *)
Fixpoint avalible_loop (configured : list u8) (n : nat) (methods : list u8) : M io_error (list u8) :=
  match n with
  | 0 => mret methods
  | S n =>
      method ← stream_read_exact 1;
      avalible_loop configured n
        (if bool_decide (byte_at method 0 ∈ configured) then methods ++ [byte_at method 0] else methods)
  end.

Definition get_avalible_methods : M io_error (list u8) :=
  w ← get;
  avalible_loop (auth_methods (client w)) (usize_of_u8 (auth_nmethods (client w))) [].

Definition USERPASS_FAILURE : list u8 := [x01; ResponseCode_as_u8 Failure].

(** The reads of the sub-negotiation, up to [parse_userpass]. *)
Definition read_userpass : M MerinoError UserPassRequest :=
  header ← question (stream_read_exact 2);
  username ← question (stream_read_exact (usize_of_u8 (byte_at header 1)));
  plen ← question (stream_read_exact 1);
  password ← question (stream_read_exact (usize_of_u8 (byte_at plen 0)));
  let frame := header ++ username ++ [byte_at plen 0] ++ password in
  parsed ← from_result (parse_userpass frame);
  mret parsed.1.

(** The failure branch of the sub-negotiation: counted, answered with two bytes,
    shut down. *)
Definition deny : M MerinoError unit :=
  note note_auth_failure;;
  modify (λ w, set_client (set_replied true (client w)) w);;
  question (stream_write_all USERPASS_FAILURE);;
  question stream_shutdown;;
  throw (Socks Failure).

(** The choice among the methods both sides accept. *)
Definition auth_with (methods : list u8) : M MerinoError unit :=
  if bool_decide (AuthMethods_as_u8 UserPass ∈ methods) then
    question (stream_write_all [SOCKS_VERSION; AuthMethods_as_u8 UserPass]);;
    parsed ← read_userpass;
    if negb (bool_decide (up_version parsed = x01)) then
      deny
    else
      w ← get;
      if authed (authed_users (client w)) (width (client w)) (up_username parsed) (up_password parsed)
      then question (stream_write_all [x01; ResponseCode_as_u8 Success])
      else deny
  else if bool_decide (AuthMethods_as_u8 NoAuth ∈ methods) then
    question (stream_write_all [SOCKS_VERSION; AuthMethods_as_u8 NoAuth])
  else
    note note_auth_failure;;
    question (stream_write_all [SOCKS_VERSION; AuthMethods_as_u8 NoMethods]);;
    question stream_shutdown;;
    throw (Socks Failure).

Definition auth : M MerinoError unit :=
  methods ← question get_avalible_methods;
  auth_with methods.

Definition negotiate : M MerinoError SOCKSReq :=
  header ← question (stream_read_exact 2);
  modify (λ w, set_client (set_header (byte_at header 0) (byte_at header 1) (client w)) w);;
  if bool_decide (byte_at header 0 = SOCKS_VERSION) then
    auth;;
    SOCKSReq_from_stream
  else
    question stream_shutdown;;
    throw (Socks Failure).

(** ** A negotiation that succeeds *)


Lemma length_1 {A} (l : list A) : length l = 1 → ∃ x, l = [x].
Proof. destruct l as [|x [|]]; try done. by exists x. Qed.

Lemma length_2 {A} (l : list A) : length l = 2 → ∃ x y, l = [x; y].
Proof. destruct l as [|x [|y [|]]]; try done. by exists x, y. Qed.

Lemma length_4 {A} (l : list A) : length l = 4 → ∃ x y z t, l = [x; y; z; t].
Proof. destruct l as [|x [|y [|z [|t [|]]]]]; try done. by exists x, y, z, t. Qed.

(** The body of a request of each address type, without the port. *)
Definition body_shape (ty : AddrType) (body : list u8) : Prop :=
  match ty with
  | V4 => length body = 4
  | V6 => length body = 16
  | Domain => ∃ d l, body = d :: l ∧ length l = usize_of_u8 d
  end.

Lemma read_addr_Done frame ty dl w frame' w' :
  read_addr frame ty dl w = (Done frame', w') →
  ∃ body rest t, body_shape ty body ∧ frame' = frame ++ body ∧
    rx_bytes (stream (client w)) = body ++ rx_bytes (stream (client w')) ∧ w' = after_read rest t w.
Proof.
  unfold read_addr. destruct ty; intros H; m_inv; subst.
  - by eexists _, _, _.
  - match goal with H : length ?l = 1 |- _ => apply length_1 in H as (d & ->) end.
    eexists (d :: _), _, _. split_and!; [by eexists _, _|by rewrite <- app_assoc| |done].
    match goal with H : rx_bytes (stream (client w)) = _ |- _ => rewrite H end.
    simpl. f_equal. done.
  - by eexists _, _, _.
Qed.

(** A frame assembled from the wire is an encoding, with nothing left over. *)
Lemma frame_exact v c rsv t body port req n ty :
  AddrType_from (usize_of_u8 t) = Some ty → length port = 2 → body_shape ty body →
  parse_request (([v; c; rsv; t] ++ body) ++ port) = Ok (req, n) →
  req_version req = v ∧ request_wf req = true ∧
  ([v; c; rsv; t] ++ body) ++ port = encode_request rsv req.
Proof.
  intros Ht Hport Hbody (rsv' & rest & Hwf & Heq & ->)%parse_request_Ok.
  pose proof Hwf as [Ha _]%andb_prop. unfold encode_request in *. simpl in Heq.
  injection Heq as Hv Hc Hrsv Hty Heq. subst v c rsv' t.
  rewrite AddrType_from_as_u8 in Ht. injection Ht as <-.
  split_and!; [done..|]. unfold encode_request. simpl. do 4 f_equal.
  assert (rest = []) as ->; [|by rewrite app_nil_r in Heq].
  rewrite <- app_assoc in Heq. apply (f_equal length) in Heq as Hlen.
  rewrite !length_app in Hlen. apply nil_length_inv. simpl in Hlen.
  destruct (req_addr_type req); simpl in *.
  - apply Nat.eqb_eq in Ha. lia.
  - destruct Hbody as (d & l & -> & Hl). simpl in Heq. injection Heq as Hd _.
    apply Nat.ltb_lt in Ha. rewrite Hd, usize_of_u8_of_usize in Hl by done. simpl in *. lia.
  - apply Nat.eqb_eq in Ha. lia.
Qed.

Lemma from_stream_sound dl w req w' :
  SOCKSReq_from_stream dl w = (Done req, w') →
  ∃ rsv rest t, req_version req = SOCKS_VERSION ∧ request_wf req = true ∧
    rx_bytes (stream (client w)) = encode_request rsv req ++ rx_bytes (stream (client w')) ∧
    w' = after_read rest t w.
Proof.
  unfold SOCKSReq_from_stream. intros H. m_inv.
  match goal with H : read_addr _ _ _ _ = _ |- _ =>
    apply read_addr_Done in H as (body & ? & ? & Hshape & -> & Hrx & ->) end.
  match goal with H : length ?l = 4 |- _ => apply length_4 in H as (v & c & rsv & ty & ->) end.
  destruct_and?. match goal with p : SOCKSReq * usize |- _ => destruct p as [r n] end.
  match goal with H : parse_request _ = _ |- _ => eapply frame_exact in H as (<- & Hwf & Heq) end;
    [|done..].
  cbn [fst client stream after_read set_clock set_client set_stream] in *. subst.
  exists rsv. eexists _, _. split_and!; [|done| |done].
  - match goal with H : negb _ = false |- _ => by apply negb_false_iff, bool_decide_eq_true in H end.
  - rewrite <- Heq, <- !app_assoc.
    repeat match goal with H : rx_bytes _ = _ |- _ => rewrite H; clear H end. done.
Qed.

(** The bytes the method list keeps. *)
Definition accepted (configured offered : list u8) : list u8 := filter (.∈ configured) offered.

Lemma after_read_nothing w : after_read (rx (stream (client w))) (clock w) w = w.
Proof. by destruct w as [? [[]]]. Qed.

Lemma avalible_loop_Done configured n methods dl w found w' :
  avalible_loop configured n methods dl w = (Done found, w') →
  ∃ offered rest t, length offered = n ∧ found = methods ++ accepted configured offered ∧
    rx_bytes (stream (client w)) = offered ++ rx_bytes (stream (client w')) ∧
    w' = after_read rest t w.
Proof.
  revert methods w. induction n as [|n IH]; intros methods w H; simpl in H; m_inv; subst.
  - exists [], (rx (stream (client w))), (clock w).
    rewrite after_read_nothing, app_nil_r. done.
  - match goal with H : avalible_loop _ _ _ _ _ = _ |- _ => apply IH in H as (offered & rest & t & Hlen & -> & Hrx & ->) end.
    match goal with H : length ?l = 1 |- _ => apply length_1 in H as (m & ->) end.
    exists (m :: offered), rest, t. split_and!; [simpl; by f_equal| | |done].
    + unfold accepted. rewrite filter_cons. change (byte_at [m] 0) with m.
      destruct (decide (m ∈ configured)).
      * rewrite bool_decide_true by done. by rewrite <- app_assoc.
      * by rewrite bool_decide_false.
    + match goal with H : rx_bytes (stream (client w)) = _ |- _ => rewrite H end.
      simpl in *. by f_equal.
Qed.

(** The credentials frame assembled from the wire is an encoding too. *)
Lemma userpass_exact v ul uname pl pass r n :
  length uname = usize_of_u8 ul → length pass = usize_of_u8 pl →
  parse_userpass ([v; ul] ++ uname ++ [pl] ++ pass) = Ok (r, n) →
  r = {| up_version := v; up_username := uname; up_password := pass |} ∧ userpass_wf r = true ∧
  [v; ul] ++ uname ++ [pl] ++ pass = encode_userpass r.
Proof.
  intros Hu Hp. set (r' := {| up_version := v; up_username := uname; up_password := pass |}).
  pose proof (usize_of_u8_lt ul). pose proof (usize_of_u8_lt pl).
  assert ([v; ul] ++ uname ++ [pl] ++ pass = encode_userpass r') as ->.
  { unfold encode_userpass. simpl. by rewrite Hu, Hp, !u8_of_usize_of_u8. }
  intros Hr. assert (parse_userpass (encode_userpass r') = Ok (r', length (encode_userpass r'))) as Hr'.
  { apply parse_userpass_Ok. exists []. rewrite app_nil_r. split_and!; [|done..].
    apply andb_true_intro. simpl. rewrite Hu, Hp. split; lia. }
  rewrite Hr in Hr'. injection Hr' as -> _. split_and!; [done| |done].
  apply andb_true_intro. simpl. rewrite Hu, Hp. split; lia.
Qed.

Lemma read_userpass_Done dl w r w' :
  read_userpass dl w = (Done r, w') →
  ∃ rest t, userpass_wf r = true ∧
    rx_bytes (stream (client w)) = encode_userpass r ++ rx_bytes (stream (client w')) ∧
    w' = after_read rest t w.
Proof.
  unfold read_userpass. intros H. m_inv.
  match goal with H : length ?l = 2 |- _ => apply length_2 in H as (v & ul & ->) end.
  match goal with H : length ?l = 1 |- _ => apply length_1 in H as (pl & ->) end.
  match goal with p : UserPassRequest * usize |- _ => destruct p as [r' n] end.
  match goal with H : parse_userpass _ = _ |- _ => apply userpass_exact in H as (Hr & Hwf & Heq) end;
    [|done..].
  cbn [fst client stream after_read set_clock set_client set_stream] in *. subst r'. subst r.
  eexists _, _. split_and!; [done| |done]. rewrite <- Heq.
  repeat match goal with H : rx_bytes _ = _ |- _ => rewrite H; clear H end.
  by rewrite <- !app_assoc.
Qed.

(** How a client was authenticated, from what it sent and what it was sent. *)
Inductive authenticated (c : SOCKClient) (offered sent_bytes : list u8) (replies : list out_event)
    : Prop :=
  | by_password creds u :
      AuthMethods_as_u8 UserPass ∈ accepted (auth_methods c) offered →
      up_version creds = x01 → userpass_wf creds = true →
      u ∈ authed_users c → as_bytes (username u) = up_username creds →
      as_bytes (password u) = up_password creds →
      sent_bytes = encode_userpass creds →
      replies = [OutWrite [SOCKS_VERSION; x02] 2; OutWrite [x01; x00] 2] →
      authenticated c offered sent_bytes replies
  | without_password :
      AuthMethods_as_u8 UserPass ∉ accepted (auth_methods c) offered →
      AuthMethods_as_u8 NoAuth ∈ accepted (auth_methods c) offered →
      sent_bytes = [] →
      replies = [OutWrite [SOCKS_VERSION; x00] 2] →
      authenticated c offered sent_bytes replies.

Lemma auth_sound dl w u w' :
  auth dl w = (Done u, w') →
  width (client w) = credential_width (authed_users (client w)) →
  ∃ offered sent_bytes replies,
    length offered = usize_of_u8 (auth_nmethods (client w)) ∧
    authenticated (client w) offered sent_bytes replies ∧
    rx_bytes (stream (client w)) = offered ++ sent_bytes ++ rx_bytes (stream (client w')) ∧
    out (stream (client w')) = out (stream (client w)) ++ replies ∧
    ∃ s t, w' = set_clock t (set_client (set_stream s (client w)) w).
Proof.
  unfold auth, auth_with, deny, get_avalible_methods. intros H Hwidth. m_inv;
    match goal with H : avalible_loop _ _ _ _ _ = _ |- _ =>
      apply avalible_loop_Done in H as (offered & ? & ? & Hlen & -> & Hrx & ->) end;
    cbn [app] in *.
  - match goal with H : read_userpass _ _ = _ |- _ =>
      apply read_userpass_Done in H as (? & ? & Hwf & Hrx' & ->) end.
    cbn [client stream after_read after_write set_clock set_client set_stream
         authed_users width log_write set_rx out] in *.
    rewrite Hwidth in *.
    match goal with H : authed _ _ _ _ = true |- _ => apply authed_iff in H as (usr & Hu & Hn & Hp) end.
    eexists offered, _, _. split_and!; [done|eapply by_password; try done| | |by eexists _, _].
    + by eapply bool_decide_eq_true.
    + by eapply bool_decide_eq_true, negb_false_iff.
    + rewrite Hrx. f_equal. exact Hrx'.
    + by rewrite <- app_assoc.
  - exists offered, [], [OutWrite [SOCKS_VERSION; x00] 2].
    split_and!; [done|apply without_password; try done|done|done|by eexists _, _].
    + by eapply bool_decide_eq_false.
    + by eapply bool_decide_eq_true.
Qed.

Lemma negotiate_inv dl w req w' :
  negotiate dl w = (Done req, w') →
  width (client w) = credential_width (authed_users (client w)) →
  ∃ offered sent_bytes replies rsv,
    length offered < 256 ∧ authenticated (client w) offered sent_bytes replies ∧
    req_version req = SOCKS_VERSION ∧ request_wf req = true ∧
    rx_bytes (stream (client w)) =
      encode_greeting SOCKS_VERSION offered ++ sent_bytes ++ encode_request rsv req ++
      rx_bytes (stream (client w')) ∧
    out (stream (client w')) = out (stream (client w)) ++ replies ∧
    replied (client w') = replied (client w) ∧ w_stats w' = w_stats w ∧ w_heap w' = w_heap w ∧
    w_cache w' = w_cache w.
Proof.
  unfold negotiate. intros H Hwidth. m_inv.
  match goal with H : length ?l = 2 |- _ => apply length_2 in H as (v & nm & ->) end.
  match goal with H : bool_decide _ = true |- _ => apply bool_decide_eq_true in H; change (v = SOCKS_VERSION) in H; subst v end.
  match goal with H : auth _ _ = _ |- _ =>
    apply auth_sound in H as (offered & sb & replies & Hlen & Hauth & Hrx & Hout & s & t & ->);
      [|done] end.
  match goal with H : SOCKSReq_from_stream _ _ = _ |- _ =>
    apply from_stream_sound in H as (rsv & rest & t' & Hv & Hwf & Hrx' & ->) end.
  cbn [client stream after_read set_clock set_client set_stream set_header set_rx out w_stats
       w_heap w_cache auth_nmethods replied] in *. change (byte_at [_; nm] 1) with nm in Hlen.
  exists offered, sb, replies, rsv. split_and!; try done.
  - rewrite Hlen. apply usize_of_u8_lt.
  - by destruct Hauth; econstructor.
  - match goal with H : rx_bytes (stream (client w)) = _ |- _ => rewrite H end.
    unfold encode_greeting. rewrite Hlen, u8_of_usize_of_u8. cbn [app].
    do 2 f_equal. rewrite <- Hrx'. exact Hrx.
Qed.

Lemma negotiate_authenticated dl w req w' :
  negotiate dl w = (Done req, w') →
  width (client w) = credential_width (authed_users (client w)) →
  ∃ offered sent_bytes replies rsv,
    length offered < 256 ∧ authenticated (client w) offered sent_bytes replies ∧
    req_version req = SOCKS_VERSION ∧ request_wf req = true ∧
    rx_bytes (stream (client w)) =
      encode_greeting SOCKS_VERSION offered ++ sent_bytes ++ encode_request rsv req ++
      rx_bytes (stream (client w')) ∧
    out (stream (client w')) = out (stream (client w)) ++ replies.
Proof.
  intros H Hw. destruct (negotiate_inv _ _ _ _ H Hw) as (o & sb & r & rsv & H1).
  exists o, sb, r, rsv. naive_solver.
Qed.

(** C4: nobody reaches a destination unauthenticated.  When the negotiation
    yields a request, what the client sent is, byte for byte, a SOCKS5 greeting,
    then what the chosen method requires, then one well-formed SOCKS5 request;
    if the username/password method was configured and offered, that is one
    frame with the name and password of a configured user, answered with
    success; otherwise the no-authentication method was itself configured and
    offered. *)
Theorem negotiate_sound dl w req w' :
  negotiate dl w = (Done req, w') →
  width (client w) = credential_width (authed_users (client w)) →
  ∃ offered sent_bytes replies rsv,
    length offered < 256 ∧ authenticated (client w) offered sent_bytes replies ∧
    req_version req = SOCKS_VERSION ∧ request_wf req = true ∧
    rx_bytes (stream (client w)) =
      encode_greeting SOCKS_VERSION offered ++ sent_bytes ++ encode_request rsv req ++
      rx_bytes (stream (client w')) ∧
    out (stream (client w')) = out (stream (client w)) ++ replies.
Proof. apply negotiate_authenticated. Qed.

(** ** A well-behaved client is served *)

(** The next bytes the client sends are [bytes], all before the deadline, then
    [rest]; and nothing goes wrong with what is written to it. *)
Definition ready (dl : option N) (w : World) (bytes : list u8) (rest : list (N * u8)) : Prop :=
  deadline_ok dl (clock w) = true ∧ writable (stream (client w)) ∧
  ∃ l, rx (stream (client w)) = l ++ rest ∧ l.*2 = bytes ∧
       Forall (λ tb, deadline_ok dl tb.1 = true) l.

(** From [w] to [w'] only the stream and the clock changed, and [replies] were
    written. *)
Definition moved (w w' : World) (replies : list out_event) : Prop :=
  ∃ s t, w' = set_clock t (set_client (set_stream s (client w)) w) ∧
         out s = out (stream (client w)) ++ replies.

Lemma moved_refl w : moved w w [].
Proof. exists (stream (client w)), (clock w). rewrite app_nil_r. by destruct w as [? [[]]]. Qed.

Lemma moved_trans w1 w2 w3 r1 r2 : moved w1 w2 r1 → moved w2 w3 r2 → moved w1 w3 (r1 ++ r2).
Proof.
  intros (s1 & t1 & -> & H1) (s2 & t2 & -> & H2). exists s2, t2. split; [done|].
  rewrite H2. simpl. by rewrite H1, <- app_assoc.
Qed.

Lemma read_ready n dl w b1 b2 rest :
  ready dl w (b1 ++ b2) rest → length b1 = n →
  ∃ w', stream_read_exact n dl w = (Done b1, w') ∧ ready dl w' b2 rest ∧ moved w w' [].
Proof.
  intros (Hdl & Hw & l & Hrx & Hl & Hall) Hn.
  apply fmap_app_inv in Hl as (l1 & l2 & H1 & H2 & ->). rewrite <- app_assoc in Hrx.
  apply Forall_app in Hall as [Hall1 Hall2].
  assert (read_exact dl n (clock w) (stream (client w)) =
          (Done b1, read_clock (clock w) l1, set_rx (l2 ++ rest) (stream (client w)))) as E.
  { rewrite H1. apply read_exact_prompt; try done.
    by rewrite <- Hn, H1, length_fmap. }
  unfold stream_read_exact. rewrite E. eexists. split; [done|]. split.
  - split_and!; [|done|by exists l2].
    destruct dl as [d|]; [|done]. simpl in *. apply N.leb_le, read_clock_le; [lia|].
    eapply Forall_impl; [|exact Hall1]. simpl. lia.
  - eexists _, _. split; [done|]. simpl. by rewrite app_nil_r.
Qed.

Lemma write_ready data dl w bytes rest :
  ready dl w bytes rest →
  ∃ w', stream_write_all data dl w = (Done (), w') ∧ ready dl w' bytes rest ∧
        moved w w' [OutWrite data (length data)].
Proof.
  intros (Hdl & Hw & Hrx).
  destruct (write_all_writable dl data (clock w) _ Hw Hdl) as [E Hw'].
  unfold stream_write_all. rewrite E. eexists. split; [done|]. split.
  - by split_and!.
  - by eexists _, _.
Qed.

Lemma question_run {A} (m : M io_error A) dl w a w' :
  m dl w = (Done a, w') → question m dl w = (Done a, w').
Proof. apply question_Done. Qed.

Lemma read_addr_ready frame ty addr p dl w rest :
  addr_wf ty addr = true →
  ready dl w (encode_addr ty addr ++ p) rest →
  ∃ w', read_addr frame ty dl w = (Done (frame ++ encode_addr ty addr), w') ∧ ready dl w' p rest ∧
        moved w w' [].
Proof.
  intros Hwf Hr. destruct ty; simpl in *.
  - apply Nat.eqb_eq in Hwf.
    destruct (read_ready 4 _ _ _ _ _ Hr Hwf) as (w1 & E & Hr' & Hm). apply question_run in E.
    rewrite bind_run, E. by exists w1.
  - apply Nat.ltb_lt in Hwf.
    destruct (read_ready 1 _ _ [_] _ _ Hr eq_refl) as (w1 & E & Hr1 & Hm1). apply question_run in E.
    rewrite bind_run, E. change (byte_at [?x] 0) with x. cbn [byte_at default].
    destruct (read_ready (usize_of_u8 (u8_of_usize (length addr))) _ _ _ _ _ Hr1) as (w2 & E2 & Hr2 & Hm2).
    { by rewrite usize_of_u8_of_usize. }
    apply question_run in E2. rewrite bind_run. unfold byte_at. simpl. rewrite E2.
    exists w2. split_and!; [|done|by apply (moved_trans _ _ _ _ _ Hm1 Hm2)].
    unfold mret, M_ret. by rewrite <- app_assoc.
  - apply Nat.eqb_eq in Hwf.
    destruct (read_ready 16 _ _ _ _ _ Hr Hwf) as (w1 & E & Hr' & Hm). apply question_run in E.
    rewrite bind_run, E. by exists w1.
Qed.

Lemma from_stream_ready rsv req dl w rest :
  req_version req = SOCKS_VERSION → request_wf req = true →
  ready dl w (encode_request rsv req) rest →
  ∃ w', SOCKSReq_from_stream dl w = (Done req, w') ∧ ready dl w' [] rest ∧ moved w w' [].
Proof.
  intros Hv Hwf Hr. pose proof Hwf as [Ha Hp]%andb_prop. unfold encode_request in Hr.
  destruct (read_ready 4 _ _ _ _ _ Hr eq_refl) as (w1 & E1 & Hr1 & Hm1). apply question_run in E1.
  unfold SOCKSReq_from_stream. rewrite bind_run, E1. unfold byte_at. simpl.
  rewrite Hv, SockCommand_from_as_u8, AddrType_from_as_u8. simpl.
  destruct (read_addr_ready [SOCKS_VERSION; SockCommand_as_u8 (req_command req); rsv;
              AddrType_as_u8 (req_addr_type req)] _ _ _ _ _ _ Ha Hr1) as (w2 & E2 & Hr2 & Hm2).
  rewrite bind_run, E2.
  rewrite <- (app_nil_r (u16_to_be_bytes _)) in Hr2.
  destruct (read_ready 2 _ _ _ _ _ Hr2 eq_refl) as (w3 & E3 & Hr3 & Hm3). apply question_run in E3.
  rewrite bind_run, E3, bind_run.
  assert (parse_request (([SOCKS_VERSION; SockCommand_as_u8 (req_command req); rsv;
            AddrType_as_u8 (req_addr_type req)] ++ encode_addr (req_addr_type req) (req_addr req)) ++
            u16_to_be_bytes (req_port req)) = Ok (req, length (encode_request rsv req))) as ->.
  { apply parse_request_Ok. exists rsv, []. rewrite app_nil_r. split_and!; [done| |done].
    unfold encode_request. by rewrite Hv, <- app_assoc. }
  exists w3. split_and!; [done|done|].
  apply (moved_trans _ _ _ [] [] (moved_trans _ _ _ [] [] Hm1 Hm2) Hm3).
Qed.

Lemma avalible_loop_ready configured offered methods p dl w rest :
  ready dl w (offered ++ p) rest →
  ∃ w', avalible_loop configured (length offered) methods dl w =
          (Done (methods ++ accepted configured offered), w') ∧
        ready dl w' p rest ∧ moved w w' [].
Proof.
  revert methods w. induction offered as [|m offered IH]; intros methods w Hr; simpl.
  - exists w. rewrite app_nil_r. split_and!; [done|done|apply moved_refl].
  - destruct (read_ready 1 _ _ [m] _ _ Hr eq_refl) as (w1 & E & Hr1 & Hm1).
    rewrite bind_run, E. change (byte_at [m] 0) with m.
    destruct (IH (if bool_decide (m ∈ configured) then methods ++ [m] else methods) w1 Hr1)
      as (w2 & E2 & Hr2 & Hm2).
    exists w2. split_and!; [|done|by apply (moved_trans _ _ _ [] [] Hm1 Hm2)].
    rewrite E2. unfold accepted. rewrite filter_cons.
    destruct (decide (m ∈ configured)).
    + rewrite bool_decide_true by done. by rewrite <- app_assoc.
    + by rewrite bool_decide_false.
Qed.

Lemma read_userpass_ready r p dl w rest :
  userpass_wf r = true → ready dl w (encode_userpass r ++ p) rest →
  ∃ w', read_userpass dl w = (Done r, w') ∧ ready dl w' p rest ∧ moved w w' [].
Proof.
  intros Hwf Hr. pose proof Hwf as [Hu Hp]%andb_prop. unfold encode_userpass in Hr.
  cbn [app] in Hr. rewrite <- app_assoc in Hr. cbn [app] in Hr.
  change (?a :: ?b :: ?l) with ([a; b] ++ l) in Hr.
  destruct (read_ready 2 _ _ [_; _] _ _ Hr eq_refl) as (w1 & E1 & Hr1 & Hm1). apply question_run in E1.
  unfold read_userpass. rewrite bind_run, E1. unfold byte_at. simpl.
  destruct (read_ready (usize_of_u8 (u8_of_usize (length (up_username r)))) _ _ _ _ _ Hr1)
    as (w2 & E2 & Hr2 & Hm2); [rewrite usize_of_u8_of_usize by lia; done|]. apply question_run in E2.
  rewrite bind_run, E2.
  destruct (read_ready 1 _ _ [_] _ _ Hr2 eq_refl) as (w3 & E3 & Hr3 & Hm3). apply question_run in E3.
  rewrite bind_run, E3. simpl.
  destruct (read_ready (usize_of_u8 (u8_of_usize (length (up_password r)))) _ _ _ _ _ Hr3)
    as (w4 & E4 & Hr4 & Hm4); [rewrite usize_of_u8_of_usize by lia; done|]. apply question_run in E4.
  rewrite bind_run, E4, bind_run.
  match goal with |- context [from_result (parse_userpass ?f)] =>
    assert (parse_userpass f = Ok (r, length (encode_userpass r))) as -> end.
  { apply parse_userpass_Ok. exists []. by rewrite app_nil_r. }
  exists w4. split_and!; [done|done|].
  pose proof (moved_trans _ _ _ [] [] Hm1 Hm2) as Hm12.
  pose proof (moved_trans _ _ _ [] [] Hm3 Hm4) as Hm34.
  apply (moved_trans _ _ _ [] [] Hm12 Hm34).
Qed.

Lemma auth_ready offered sent_bytes replies p dl w rest :
  length offered = usize_of_u8 (auth_nmethods (client w)) →
  width (client w) = credential_width (authed_users (client w)) →
  authenticated (client w) offered sent_bytes replies →
  ready dl w (offered ++ sent_bytes ++ p) rest →
  ∃ w', auth dl w = (Done (), w') ∧ ready dl w' p rest ∧ moved w w' replies.
Proof.
  intros Hlen Hwidth Hauth Hr.
  destruct (avalible_loop_ready (auth_methods (client w)) offered [] _ _ _ _ Hr)
    as (w1 & E1 & Hr1 & Hm1).
  assert (question get_avalible_methods dl w =
          (Done (accepted (auth_methods (client w)) offered), w1)) as E.
  { apply question_run. unfold get_avalible_methods. rewrite bind_run. simpl. by rewrite <- Hlen, E1. }
  unfold auth, auth_with. rewrite bind_run, E.
  destruct Hauth as [creds u Hin Hv Hwf Hu Hn Hp -> ->|Hnot Hin -> ->].
  - rewrite bool_decide_true by done.
    destruct (write_ready [SOCKS_VERSION; AuthMethods_as_u8 UserPass] _ _ _ _ Hr1)
      as (w2 & E2 & Hr2 & Hm2). apply question_run in E2. rewrite bind_run, E2.
    destruct (read_userpass_ready _ _ _ _ _ Hwf Hr2) as (w3 & E3 & Hr3 & Hm3).
    rewrite bind_run, E3, Hv. rewrite bool_decide_true by done. cbn [negb].
    rewrite bind_run. cbn [get].
    assert (moved w w3 [OutWrite [SOCKS_VERSION; x02] 2]) as Hm.
    { apply (moved_trans _ _ _ [] _ Hm1). apply (moved_trans _ _ _ _ [] Hm2 Hm3). }
    assert (authed (authed_users (client w3)) (width (client w3)) (up_username creds)
              (up_password creds) = true) as ->.
    { destruct Hm as (s & t & -> & _). simpl. rewrite Hwidth. apply authed_iff. by exists u. }
    destruct (write_ready [x01; ResponseCode_as_u8 Success] _ _ _ _ Hr3) as (w4 & E4 & Hr4 & Hm4).
    apply question_run in E4. exists w4. split_and!; [done|done|].
    apply (moved_trans _ _ _ _ _ Hm Hm4).
  - rewrite bool_decide_false, bool_decide_true by done.
    destruct (write_ready [SOCKS_VERSION; AuthMethods_as_u8 NoAuth] _ _ _ _ Hr1)
      as (w2 & E2 & Hr2 & Hm2). apply question_run in E2.
    exists w2. split_and!; [done|done|]. apply (moved_trans _ _ _ [] _ Hm1 Hm2).
Qed.

Lemma negotiate_ready offered sent_bytes replies rsv req dl w rest :
  length offered < 256 →
  width (client w) = credential_width (authed_users (client w)) →
  authenticated (client w) offered sent_bytes replies →
  req_version req = SOCKS_VERSION → request_wf req = true →
  ready dl w (encode_greeting SOCKS_VERSION offered ++ sent_bytes ++ encode_request rsv req) rest →
  ∃ w', negotiate dl w = (Done req, w') ∧ ready dl w' [] rest ∧
        out (stream (client w')) = out (stream (client w)) ++ replies.
Proof.
  intros Hlen Hwidth Hauth Hv Hwf Hr. unfold encode_greeting in Hr.
  destruct (read_ready 2 _ _ [SOCKS_VERSION; u8_of_usize (length offered)] _ _ Hr eq_refl)
    as (w1 & E1 & Hr1 & Hm1). apply question_run in E1.
  unfold negotiate. rewrite bind_run, E1, bind_run. cbn [modify].
  change (byte_at [SOCKS_VERSION; ?x] 0) with SOCKS_VERSION.
  change (byte_at [SOCKS_VERSION; ?x] 1) with x. rewrite bool_decide_true by done.
  destruct Hm1 as (s1 & t1 & -> & Hs1).
  set (w2 := set_client _ _).
  destruct (auth_ready offered sent_bytes replies (encode_request rsv req) dl w2 rest)
    as (w3 & E3 & Hr3 & s3 & t3 & -> & Hs3).
  { simpl. by rewrite usize_of_u8_of_usize. }
  { done. }
  { destruct Hauth; [eapply by_password|eapply without_password]; done. }
  { done. }
  rewrite bind_run, E3.
  destruct (from_stream_ready rsv req _ _ _ Hv Hwf Hr3) as (w4 & E4 & Hr4 & s4 & t4 & -> & Hs4).
  eexists. split_and!; [done|done|]. simpl in *. by rewrite Hs4, app_nil_r, Hs3, Hs1, app_nil_r.
Qed.

(** C27: a well-behaved client gets through: one that offers at most 255
    methods, authenticates as the chosen method demands and sends a well-formed
    request, all before the deadline, is negotiated with success whatever the
    chunking and the timing; the request returned is the one it sent, the
    replies are the method choice and the authentication result, and not one
    byte after the request is consumed. *)
Theorem negotiate_complete offered sent_bytes replies rsv req dl w rest :
  length offered < 256 →
  width (client w) = credential_width (authed_users (client w)) →
  authenticated (client w) offered sent_bytes replies →
  req_version req = SOCKS_VERSION → request_wf req = true →
  ready dl w (encode_greeting SOCKS_VERSION offered ++ sent_bytes ++ encode_request rsv req) rest →
  ∃ w', negotiate dl w = (Done req, w') ∧ rx (stream (client w')) = rest ∧
        out (stream (client w')) = out (stream (client w)) ++ replies.
Proof.
  intros Hlen Hwidth Hauth Hv Hwf Hr.
  destruct (negotiate_ready _ _ _ _ _ _ _ _ Hlen Hwidth Hauth Hv Hwf Hr)
    as (w' & E & (_ & _ & l & Hrx & Hnil & _) & Hout).
  exists w'. split_and!; [done| |done]. by apply fmap_nil_inv in Hnil as ->.
Qed.

(** ** A client that is turned away *)

(** What a failed negotiation throws once it has shut the stream down: the
    failure of the shutdown itself, if it fails. *)
Definition after_shutdown (s : Stream) : MerinoError :=
  match head (shutdowns s) with Some (Some e) => Io e | _ => Socks Failure end.

Lemma shutdown_throw_run {A} dl w :
  (question stream_shutdown;; throw (Socks Failure) : M MerinoError A) dl w =
  (Throw (after_shutdown (stream (client w))),
   set_client (set_stream (shutdown (stream (client w))).2 (client w)) w).
Proof.
  unfold after_shutdown. rewrite bind_run. unfold question, m_map_err, stream_shutdown, shutdown.
  simpl. by destruct (head (shutdowns (stream (client w)))) as [[e|]|].
Qed.

Lemma after_shutdown_code s : ResponseCode_from (after_shutdown s) = Failure.
Proof. unfold after_shutdown. by destruct (head (shutdowns s)) as [[]|]. Qed.

(** The outcome of a refusal that answers [reply] on a ready client: the stream
    ends with the reply and the shutdown. *)
Lemma refuse_run {A} reply dl w bytes rest :
  ready dl w bytes rest →
  ∃ w', (question (stream_write_all reply);;
         question stream_shutdown;;
         throw (Socks Failure) : M MerinoError A) dl w =
        (Throw (after_shutdown (stream (client w))), w') ∧
        rx (stream (client w')) = rx (stream (client w)) ∧
        out (stream (client w')) =
          out (stream (client w)) ++ [OutWrite reply (length reply); OutShutdown] ∧
        replied (client w') = replied (client w) ∧ w_stats w' = w_stats w.
Proof.
  intros Hr. unfold ready in Hr. destruct Hr as (Hdl & Hw & _).
  destruct (write_all_writable dl reply (clock w) _ Hw Hdl) as [E _].
  rewrite bind_run. unfold question at 1, m_map_err, stream_write_all. rewrite E.
  rewrite shutdown_throw_run. eexists. split_and!; [done|done| |done|done].
  simpl. by rewrite <- app_assoc.
Qed.

(** Up to the choice of a method. *)
Lemma greeting_ready offered p dl w rest :
  length offered < 256 →
  ready dl w (encode_greeting SOCKS_VERSION offered ++ p) rest →
  ∃ w1, negotiate dl w =
          ((methods ← (λ dl _, (Done (accepted (auth_methods (client w)) offered), w1));
            auth_with methods;; SOCKSReq_from_stream) dl w) ∧
        ready dl w1 p rest ∧ moved (set_client (set_header SOCKS_VERSION
          (u8_of_usize (length offered)) (client w)) w) w1 [].
Proof.
  intros Hlen Hr. unfold encode_greeting in Hr.
  destruct (read_ready 2 _ _ [SOCKS_VERSION; u8_of_usize (length offered)] _ _ Hr eq_refl)
    as (w1 & E1 & Hr1 & Hm1). apply question_run in E1.
  destruct Hm1 as (s1 & t1 & -> & Hs1).
  set (w2 := set_clock t1 (set_client (set_header SOCKS_VERSION (u8_of_usize (length offered))
               (set_stream s1 (client w))) w)).
  destruct (avalible_loop_ready (auth_methods (client w)) offered [] p dl w2 rest)
    as (w3 & E3 & Hr3 & s3 & t3 & -> & Hs3); [done|].
  eexists. split_and!; [|exact Hr3|].
  - unfold negotiate. rewrite bind_run, E1, bind_run. cbn [modify].
    change (byte_at [SOCKS_VERSION; ?x] 0) with SOCKS_VERSION.
    change (byte_at [SOCKS_VERSION; ?x] 1) with x. rewrite bool_decide_true by done.
    unfold auth. rewrite !bind_run.
    assert (question get_avalible_methods dl w2 = (Done (accepted (auth_methods (client w)) offered),
              set_clock t3 (set_client (set_stream s3 (client w2)) w2))) as E.
    { apply question_run. unfold get_avalible_methods. rewrite bind_run. cbn [get]. simpl.
      rewrite usize_of_u8_of_usize by done. exact E3. }
    change (set_client _ _) with w2 at 1. rewrite E. done.
  - exists s3, t3. split; [done|]. rewrite Hs3. simpl. by rewrite Hs1, app_nil_r.
Qed.

Lemma deny_run dl w bytes rest :
  ready dl w bytes rest →
  ∃ e w', deny dl w = (Throw e, w') ∧ ResponseCode_from e = Failure ∧
    rx (stream (client w')) = rx (stream (client w)) ∧
    out (stream (client w')) =
      out (stream (client w)) ++ [OutWrite USERPASS_FAILURE 2; OutShutdown] ∧
    replied (client w') = true ∧
    w_stats w' = (if has_stats (client w) then note_auth_failure (w_stats w) else w_stats w).
Proof.
  intros Hr.
  set (w1 := if has_stats (client w) then set_w_stats (note_auth_failure (w_stats w)) w else w).
  set (w2 := set_client (set_replied true (client w1)) w1).
  assert (ready dl w2 bytes rest) as Hr2.
  { unfold w2, w1, ready in *. by destruct (has_stats (client w)). }
  destruct (refuse_run (A:=unit) USERPASS_FAILURE dl w2 _ _ Hr2) as (w3 & E & Hrx & Hout & Hrep & Hst).
  exists (after_shutdown (stream (client w2))), w3. split_and!.
  - rewrite <- E. done.
  - apply after_shutdown_code.
  - rewrite Hrx. unfold w2, w1. by destruct (has_stats (client w)).
  - rewrite Hout. unfold w2, w1. by destruct (has_stats (client w)).
  - by rewrite Hrep.
  - rewrite Hst. unfold w2, w1. by destruct (has_stats (client w)).
Qed.

Lemma negotiate_rejected offered creds dl w rest :
  length offered < 256 →
  width (client w) = credential_width (authed_users (client w)) →
  AuthMethods_as_u8 UserPass ∈ accepted (auth_methods (client w)) offered →
  userpass_wf creds = true →
  (up_version creds ≠ x01 ∨ ¬ ∃ u, u ∈ authed_users (client w) ∧
     as_bytes (username u) = up_username creds ∧ as_bytes (password u) = up_password creds) →
  ready dl w (encode_greeting SOCKS_VERSION offered ++ encode_userpass creds) rest →
  ∃ e w', negotiate dl w = (Throw e, w') ∧ ResponseCode_from e = Failure ∧
    rx (stream (client w')) = rest ∧
    out (stream (client w')) = out (stream (client w)) ++
      [OutWrite [SOCKS_VERSION; x02] 2; OutWrite [x01; x01] 2; OutShutdown] ∧
    replied (client w') = true ∧
    w_stats w' = (if has_stats (client w) then note_auth_failure (w_stats w) else w_stats w).
Proof.
  intros Hlen Hwidth Hin Hwf Hbad Hr.
  destruct (greeting_ready _ _ _ _ _ Hlen Hr) as (w1 & -> & Hr1 & Hm1).
  rewrite bind_run. cbv beta iota. rewrite bind_run. unfold auth_with.
  rewrite bool_decide_true by done.
  destruct (write_ready [SOCKS_VERSION; AuthMethods_as_u8 UserPass] _ _ _ _ Hr1)
    as (w2 & E2 & Hr2 & Hm2). apply question_run in E2. rewrite bind_run, E2.
  rewrite <- (app_nil_r (encode_userpass creds)) in Hr2.
  destruct (read_userpass_ready _ _ _ _ _ Hwf Hr2) as (w3 & E3 & Hr3 & Hm3).
  rewrite bind_run, E3.
  pose proof (moved_trans _ _ _ _ _ Hm1 (moved_trans _ _ _ _ [] Hm2 Hm3)) as (s & t & -> & Hs).
  destruct (deny_run _ _ _ _ Hr3) as (e & w4 & E4 & Hcode & Hrx & Hout & Hrep & Hst).
  exists e, w4. split_and!; [|done| | |done|exact Hst].
  - destruct (bool_decide_reflect (up_version creds = x01)) as [Hv|Hv]; cbn [negb].
    + rewrite bind_run. cbn [get].
      assert (authed (authed_users (client w)) (width (client w)) (up_username creds)
                (up_password creds) = false) as Hno.
      { apply not_true_is_false. rewrite Hwidth, authed_iff. by destruct Hbad. }
      match goal with |- context [authed ?a ?b ?c ?d] =>
        change (authed a b c d) with (authed (authed_users (client w)) (width (client w)) c d) end.
      by rewrite Hno, E4.
    + by rewrite E4.
  - rewrite Hrx. destruct Hr3 as (_ & _ & l & Hl & Hnil & _). by apply fmap_nil_inv in Hnil as ->.
  - rewrite Hout. simpl in *. by rewrite Hs, <- app_assoc.
Qed.

(** A client that does not authenticate is turned away.  If the
    username/password method is chosen and the frame has the wrong version or
    does not carry the name and password of one configured user, the client is
    answered with a failure and shut down, nothing it sent after the frame is
    read, no request is produced, and exactly one authentication failure is
    counted; the flag that prevents a second reply is set. *)
Theorem negotiate_denied offered creds dl w rest :
  length offered < 256 →
  width (client w) = credential_width (authed_users (client w)) →
  AuthMethods_as_u8 UserPass ∈ accepted (auth_methods (client w)) offered →
  userpass_wf creds = true →
  (up_version creds ≠ x01 ∨ ¬ ∃ u, u ∈ authed_users (client w) ∧
     as_bytes (username u) = up_username creds ∧ as_bytes (password u) = up_password creds) →
  ready dl w (encode_greeting SOCKS_VERSION offered ++ encode_userpass creds) rest →
  ∃ e w', negotiate dl w = (Throw e, w') ∧ ResponseCode_from e = Failure ∧
    rx (stream (client w')) = rest ∧
    out (stream (client w')) = out (stream (client w)) ++
      [OutWrite [SOCKS_VERSION; x02] 2; OutWrite [x01; x01] 2; OutShutdown] ∧
    replied (client w') = true ∧
    w_stats w' = (if has_stats (client w) then note_auth_failure (w_stats w) else w_stats w).
Proof. apply negotiate_rejected. Qed.

Lemma negotiate_refused offered dl w rest :
  length offered < 256 →
  AuthMethods_as_u8 UserPass ∉ accepted (auth_methods (client w)) offered →
  AuthMethods_as_u8 NoAuth ∉ accepted (auth_methods (client w)) offered →
  ready dl w (encode_greeting SOCKS_VERSION offered) rest →
  ∃ e w', negotiate dl w = (Throw e, w') ∧ ResponseCode_from e = Failure ∧
    rx (stream (client w')) = rest ∧
    out (stream (client w')) = out (stream (client w)) ++
      [OutWrite [SOCKS_VERSION; xff] 2; OutShutdown] ∧
    replied (client w') = replied (client w) ∧
    w_stats w' = (if has_stats (client w) then note_auth_failure (w_stats w) else w_stats w).
Proof.
  intros Hlen Hu Hn Hr. rewrite <- (app_nil_r (encode_greeting _ _)) in Hr.
  destruct (greeting_ready _ _ _ _ _ Hlen Hr) as (w1 & -> & Hr1 & s & t & Hw1 & Hs).
  set (w2 := if has_stats (client w1) then set_w_stats (note_auth_failure (w_stats w1)) w1 else w1).
  assert (ready dl w2 [] rest) as Hr2.
  { unfold w2, ready in *. by destruct (has_stats (client w1)). }
  destruct (refuse_run (A:=unit) [SOCKS_VERSION; AuthMethods_as_u8 NoMethods] dl w2 _ _ Hr2)
    as (w3 & E & Hrx & Hout & Hrep & Hst).
  exists (after_shutdown (stream (client w2))), w3. split_and!.
  - rewrite bind_run. cbv beta iota. rewrite bind_run. unfold auth_with.
    rewrite !bool_decide_false by done. rewrite bind_run. unfold note, modify. fold w2.
    by rewrite E.
  - apply after_shutdown_code.
  - rewrite Hrx. destruct Hr1 as (_ & _ & l & Hl & Hnil & _). apply fmap_nil_inv in Hnil as ->.
    unfold w2. by destruct (has_stats (client w1)).
  - rewrite Hout. simpl in Hs. rewrite app_nil_r in Hs. rewrite <- Hs. unfold w2.
    rewrite Hw1. simpl. by destruct (has_stats (client w)).
  - rewrite Hrep. unfold w2. rewrite Hw1. simpl. by destruct (has_stats (client w)).
  - rewrite Hst. unfold w2. rewrite Hw1. simpl. by destruct (has_stats (client w)).
Qed.

(** No common method: the client is told so, shut down and counted as an
    authentication failure, and nothing more is read; the flag that prevents a
    second reply stays as it was. *)
Theorem negotiate_no_method offered dl w rest :
  length offered < 256 →
  AuthMethods_as_u8 UserPass ∉ accepted (auth_methods (client w)) offered →
  AuthMethods_as_u8 NoAuth ∉ accepted (auth_methods (client w)) offered →
  ready dl w (encode_greeting SOCKS_VERSION offered) rest →
  ∃ e w', negotiate dl w = (Throw e, w') ∧ ResponseCode_from e = Failure ∧
    rx (stream (client w')) = rest ∧
    out (stream (client w')) = out (stream (client w)) ++
      [OutWrite [SOCKS_VERSION; xff] 2; OutShutdown] ∧
    replied (client w') = replied (client w) ∧
    w_stats w' = (if has_stats (client w) then note_auth_failure (w_stats w) else w_stats w).
Proof. apply negotiate_refused. Qed.

(** ** Witnesses *)

(** A client that sends [bytes] at once, to a server with the given methods and
    the user "bob" with password "pw". *)
Definition demo_users : list User := [User_new "bob" "pw"].

Definition demo_client (methods : list u8) (bytes : list u8) : SOCKClient :=
  set_stats (SOCKClient_new (demo_stream bytes) demo_users methods None).

Definition demo_world (methods : list u8) (bytes : list u8) : World :=
  {| clock := 0; client := demo_client methods bytes; w_stats := Stats_new 0 0;
     w_heap := heap_empty; w_cache := None; w_datagrams := []; w_remote := None |}.

Lemma demo_ready dl methods bytes extra :
  deadline_ok dl 0 = true →
  ready dl (demo_world methods (bytes ++ extra)) bytes ((λ b, (0%N, b)) <$> extra).
Proof.
  intros Hdl. split_and!; [exact Hdl|constructor|]. exists ((λ b, (0%N, b)) <$> bytes).
  split_and!; [by rewrite <- fmap_app| |].
  - rewrite <- list_fmap_compose. apply list_fmap_id.
  - apply Forall_fmap, Forall_true. intros b. exact Hdl.
Qed.

Definition demo_offer : list u8 := [x00; x02].
Definition demo_creds : UserPassRequest :=
  {| up_version := x01; up_username := as_bytes "bob"; up_password := as_bytes "pw" |}.
Definition demo_wrong : UserPassRequest :=
  {| up_version := x01; up_username := as_bytes "bob"; up_password := as_bytes "p" |}.
Definition demo_request : SOCKSReq :=
  {| req_version := x05; req_command := Types.Connect; req_addr_type := V4;
     req_addr := [x0a; x00; x00; x02]; req_port := 80 |}.
Definition demo_replies : list out_event :=
  [OutWrite [SOCKS_VERSION; x02] 2; OutWrite [x01; x00] 2].
Definition demo_bytes : list u8 :=
  encode_greeting SOCKS_VERSION demo_offer ++ encode_userpass demo_creds ++ encode_request x00 demo_request.

Lemma demo_authenticated bytes :
  authenticated (demo_client [x02] bytes) demo_offer (encode_userpass demo_creds) demo_replies.
Proof.
  apply (by_password _ _ _ _ demo_creds (User_new "bob" "pw")); try reflexivity.
  - vm_compute. by left.
  - by left.
Qed.

Lemma negotiate_complete_witness :
  ∃ w', negotiate None (demo_world [x02] (demo_bytes ++ [x68; x69])) = (Done demo_request, w') ∧
        rx (stream (client w')) = [(0%N, x68); (0%N, x69)].
Proof.
  destruct (negotiate_complete demo_offer (encode_userpass demo_creds) demo_replies x00 demo_request
    None (demo_world [x02] (demo_bytes ++ [x68; x69])) [(0%N, x68); (0%N, x69)]) as (w' & E & Hrx & _).
  - vm_compute. lia.
  - reflexivity.
  - apply demo_authenticated.
  - reflexivity.
  - reflexivity.
  - apply (demo_ready None [x02] demo_bytes [x68; x69]). reflexivity.
  - exists w'. split; [exact E|exact Hrx].
Defined.

Lemma negotiate_sound_witness :
  ∃ w', negotiate None (demo_world [x02] demo_bytes) = (Done demo_request, w') ∧
    ∃ offered sent_bytes replies, authenticated (demo_client [x02] demo_bytes) offered sent_bytes replies ∧
      out (stream (client w')) = replies.
Proof.
  destruct (negotiate_ready demo_offer (encode_userpass demo_creds) demo_replies x00 demo_request
    None (demo_world [x02] (demo_bytes ++ [])) []) as (w' & E & _ & _).
  - vm_compute. lia.
  - reflexivity.
  - apply demo_authenticated.
  - reflexivity.
  - reflexivity.
  - apply (demo_ready None [x02] demo_bytes []). reflexivity.
  - exists w'. rewrite app_nil_r in E. split; [exact E|].
    destruct (negotiate_sound _ _ _ _ E eq_refl) as (o & sb & r & rsv & _ & Ha & _ & _ & _ & Hout).
    exists o, sb, r. split; [exact Ha|exact Hout].
Defined.

Lemma demo_wrong_denied :
  ¬ ∃ u, u ∈ demo_users ∧ as_bytes (username u) = up_username demo_wrong ∧
         as_bytes (password u) = up_password demo_wrong.
Proof. intros (u & Hu & _ & Hp). apply list_elem_of_singleton in Hu as ->. discriminate Hp. Qed.

Lemma negotiate_denied_witness :
  ∃ e w', negotiate None (demo_world [x02] (encode_greeting SOCKS_VERSION demo_offer ++
            encode_userpass demo_wrong ++ [x05; x01])) = (Throw e, w') ∧
          rx (stream (client w')) = [(0%N, x05); (0%N, x01)].
Proof.
  destruct (negotiate_denied demo_offer demo_wrong None (demo_world [x02]
    ((encode_greeting SOCKS_VERSION demo_offer ++ encode_userpass demo_wrong) ++ [x05; x01]))
    [(0%N, x05); (0%N, x01)]) as (e & w' & E & _ & Hrx & _).
  - vm_compute. lia.
  - reflexivity.
  - vm_compute. by left.
  - reflexivity.
  - right. exact demo_wrong_denied.
  - apply (demo_ready None [x02] (encode_greeting SOCKS_VERSION demo_offer ++ encode_userpass demo_wrong)
             [x05; x01]). reflexivity.
  - exists e, w'. split; [exact E|exact Hrx].
Defined.

Lemma negotiate_no_method_witness :
  ∃ e w', negotiate None (demo_world [x02] (encode_greeting SOCKS_VERSION [x00] ++ [])) = (Throw e, w') ∧
          out (stream (client w')) = [OutWrite [SOCKS_VERSION; xff] 2; OutShutdown].
Proof.
  destruct (negotiate_no_method [x00] None
    (demo_world [x02] (encode_greeting SOCKS_VERSION [x00] ++ [])) []) as (e & w' & E & _ & _ & Hout & _).
  - vm_compute. lia.
  - vm_compute. by intros ?%not_elem_of_nil.
  - vm_compute. by intros ?%not_elem_of_nil.
  - apply (demo_ready None [x02] (encode_greeting SOCKS_VERSION [x00]) []). reflexivity.
  - exists e, w'. split; [exact E|exact Hout].
Defined.
