(* ===== verification/Parsing.v ===== *)
(** * The handshake as a function of the bytes it is sent

    [parse_greeting], [parse_userpass] and [parse_request] parse whole buffers;
    they are what is exported, tested and fuzzed.  [negotiate] reads the same
    messages field by field from a stream.  Here the two are related: for a
    client that sends everything it has to say in time and then closes its side,
    [negotiate] computes what the parsers compute, on every input. *)
From S2P Require Import Prelude Fmt Types Wire Credentials DnsCache Stats Stream Relay Connect Client.
From S2P Require Import Handshake.

(** ** The reference *)

(** The configuration that decides. *)
Record Config := { cfg_methods : list u8; cfg_users : list User }.

(** What is returned, what was written, what is left to read. *)
Definition verdict (A : Type) : Type := (result MerinoError A * list out_event * list u8).

Definition request_ref (bytes : list u8) : result MerinoError (SOCKSReq * list u8) :=
  match bytes with
  | v :: _ :: _ :: _ :: _ =>
      if bool_decide (v = SOCKS_VERSION) then
        '(req, n) ← parse_request bytes;
        Ok (req, skipn n bytes)
      else Err (Socks Failure)
  | _ => Err truncated
  end.

Definition finish_ref (written : list out_event) (bytes : list u8) : verdict SOCKSReq :=
  match request_ref bytes with
  | Ok (req, rest) => (Ok req, written, rest)
  | Err e => (Err e, written, [])
  end.

Definition whole (message : list u8) : out_event := OutWrite message (length message).

Definition userpass_ref (cfg : Config) (bytes : list u8) : verdict SOCKSReq :=
  let chosen := whole [SOCKS_VERSION; AuthMethods_as_u8 UserPass] in
  match parse_userpass bytes with
  | Err e => (Err e, [chosen], [])
  | Ok (r, n) =>
      if bool_decide (up_version r = x01) &&
         authed (cfg_users cfg) (credential_width (cfg_users cfg)) (up_username r) (up_password r)
      then finish_ref [chosen; whole [x01; ResponseCode_as_u8 Success]] (skipn n bytes)
      else (Err (Socks Failure), [chosen; whole USERPASS_FAILURE; OutShutdown], skipn n bytes)
  end.

Definition negotiate_ref (cfg : Config) (bytes : list u8) : verdict SOCKSReq :=
  match bytes with
  | v :: _ :: _ =>
      if bool_decide (v = SOCKS_VERSION) then
        match parse_greeting bytes with
        | Err e => (Err e, [], [])
        | Ok (_, _, methods, n) =>
            let offered := accepted (cfg_methods cfg) methods in
            let bytes := skipn n bytes in
            if bool_decide (AuthMethods_as_u8 UserPass ∈ offered) then userpass_ref cfg bytes
            else if bool_decide (AuthMethods_as_u8 NoAuth ∈ offered) then
              finish_ref [whole [SOCKS_VERSION; AuthMethods_as_u8 NoAuth]] bytes
            else (Err (Socks Failure),
                  [whole [SOCKS_VERSION; AuthMethods_as_u8 NoMethods]; OutShutdown], bytes)
        end
      else (Err (Socks Failure), [OutShutdown], skipn 2 bytes)
  | _ => (Err truncated, [], [])
  end.

(** ** Clients that say what they have to say *)

(** The client is about to send [bytes], in time, and then to close; and nothing
    goes wrong with what is sent to it. *)
Record supplied (cfg : Config) (dl : option N) (w : World) (bytes : list u8) : Prop := {
  su_now : deadline_ok dl (clock w) = true;
  su_bytes : rx_bytes (stream (client w)) = bytes;
  su_time : Forall (λ tb, deadline_ok dl tb.1 = true) (rx (stream (client w)));
  su_end : ∃ t, rx_end (stream (client w)) = EndEof t ∧ deadline_ok dl t = true;
  su_writes : writable (stream (client w));
  su_shutdowns : Forall (λ o, o = None) (shutdowns (stream (client w)));
  su_methods : auth_methods (client w) = cfg_methods cfg;
  su_users : authed_users (client w) = cfg_users cfg;
  su_width : width (client w) = credential_width (cfg_users cfg)
}.

(** The end of the stream inside a message: tokio's error for the stream, the
    parsers' for a buffer. *)
Definition same_error (e e' : MerinoError) : Prop :=
  e = e' ∨ e = Io eof_error ∧ e' = truncated.

(** They cannot be told apart by what is done with them. *)
Lemma same_error_indistinct e e' :
  same_error e e' →
  ResponseCode_from e = ResponseCode_from e' ∧ is_client_disconnect e = is_client_disconnect e' ∧
  is_connection_failure e = is_connection_failure e'.
Proof. by intros [->|[-> ->]]. Qed.

(** [m] computes [r] from [bytes], writes [outs] and leaves [rest]. *)
Definition computes {A} (cfg : Config) (m : M MerinoError A) (bytes : list u8)
    (v : verdict A) : Prop :=
  ∀ dl w, supplied cfg dl w bytes →
  ∃ w', out (stream (client w')) = out (stream (client w)) ++ v.1.2 ∧
    match v.1.1 with
    | Ok a => m dl w = (Done a, w') ∧ supplied cfg dl w' v.2
    | Err e => ∃ e', same_error e' e ∧ m dl w = (Throw e', w')
    end.

Section rules.
Context (cfg : Config).

Lemma computes_ret {A} (a : A) bytes : computes cfg (mret a) bytes (Ok a, [], bytes).
Proof. intros dl w Hw. exists w. by rewrite app_nil_r. Qed.

Lemma computes_throw {A} e bytes rest : computes cfg (throw e : M _ A) bytes (Err e, [], rest).
Proof. intros dl w Hw. exists w. rewrite app_nil_r. split; [done|]. exists e. split; [by left|done]. Qed.

Lemma computes_bind {A B} (m : M MerinoError A) (f : A → M MerinoError B) bytes a o1 rest v :
  computes cfg m bytes (Ok a, o1, rest) → computes cfg (f a) rest v →
  computes cfg (m ≫= f) bytes (v.1.1, o1 ++ v.1.2, v.2).
Proof.
  intros Hm Hf dl w Hw. destruct (Hm dl w Hw) as (w1 & Ho1 & Hrun & Hw1). simpl in *.
  destruct (Hf dl w1 Hw1) as (w2 & Ho2 & Hres). exists w2. rewrite Ho2, Ho1, <- app_assoc.
  split; [done|]. rewrite bind_run, Hrun. done.
Qed.

Lemma computes_bind_err {A B} (m : M MerinoError A) (f : A → M MerinoError B) bytes e o rest rest' :
  computes cfg m bytes (Err e, o, rest) → computes cfg (m ≫= f) bytes (Err e, o, rest').
Proof.
  intros Hm dl w Hw. destruct (Hm dl w Hw) as (w1 & Ho1 & e' & He & Hrun). exists w1.
  split; [done|]. exists e'. by rewrite bind_run, Hrun.
Qed.

(** [get] and [modify] of what the messages do not depend on. *)
Lemma computes_get {A} (f : World → M MerinoError A) bytes v :
  (∀ w0, (∃ dl, supplied cfg dl w0 bytes) → computes cfg (f w0) bytes v) →
  computes cfg (w ← get; f w) bytes v.
Proof.
  intros Hf dl w Hw. destruct (Hf w (ex_intro _ dl Hw) dl w Hw) as (w' & Ho & Hres).
  by exists w'.
Qed.

Lemma computes_modify_ext {A} f (m m' : M MerinoError A) bytes v :
  (∀ dl w, supplied cfg dl w bytes → supplied cfg dl (f w) bytes ∧
           out (stream (client (f w))) = out (stream (client w)) ∧ m dl (f w) = m' dl (f w)) →
  computes cfg m' bytes v → computes cfg (modify f;; m) bytes v.
Proof.
  intros Hf Hm dl w Hw. destruct (Hf dl w Hw) as (Hw1 & Ho1 & Heq).
  destruct (Hm dl (f w) Hw1) as (w' & Ho & Hres). exists w'. rewrite Ho, Ho1.
  split; [done|]. rewrite bind_run. cbn [modify]. by rewrite Heq.
Qed.

Lemma computes_modify {A} f (m : M MerinoError A) bytes v :
  (∀ dl w, supplied cfg dl w bytes → supplied cfg dl (f w) bytes ∧
           out (stream (client (f w))) = out (stream (client w))) →
  computes cfg m bytes v → computes cfg (modify f;; m) bytes v.
Proof.
  intros Hf. apply computes_modify_ext. intros dl w Hw. by destruct (Hf dl w Hw).
Qed.

Lemma computes_ext {A} (m m' : M MerinoError A) bytes v :
  (∀ dl w, m dl w = m' dl w) → computes cfg m' bytes v → computes cfg m bytes v.
Proof. intros Heq Hm dl w Hw. rewrite Heq. by apply Hm. Qed.

Lemma computes_note {A} f (m : M MerinoError A) bytes v :
  computes cfg m bytes v → computes cfg (note f;; m) bytes v.
Proof.
  apply computes_modify. intros dl w Hw. destruct (has_stats (client w)); [|done].
  split; [|done]. by destruct Hw.
Qed.

(** The stream ends inside a read. *)
Lemma read_exact_eof dl n now s t :
  length (rx s) < n → deadline_ok dl now = true → rx_end s = EndEof t → deadline_ok dl t = true →
  Forall (λ tb, deadline_ok dl tb.1 = true) (rx s) →
  ∃ now' s', read_exact dl n now s = (Throw eof_error, now', s').
Proof.
  assert (∀ a b, deadline_ok dl a = true → deadline_ok dl b = true →
                 deadline_ok dl (N.max a b) = true) as Hmax
    by (intros a b; destruct dl; simpl; [lia|done]).
  revert n now s. intros n. induction n as [|n IH]; intros now s Hlen Hnow He Ht Hall; [lia|].
  unfold read_exact. fold read_exact. destruct (rx s) as [|[tb b] l] eqn:Hrx.
  - rewrite He, Hmax by done. eauto.
  - apply list.Forall_cons in Hall as [Htb Hall]. simpl in Htb, Hlen. rewrite Hmax by done.
    destruct (IH (N.max now tb) (set_rx l s)) as (now' & s' & ->); simpl; auto; [lia|]. eauto.
Qed.

Lemma computes_read n bytes :
  n ≤ length bytes →
  computes cfg (question (stream_read_exact n)) bytes (Ok (firstn n bytes), [], skipn n bytes).
Proof.
  intros Hn dl w [Hnow Hb Ht He Hw Hs Hm Hu Hwd].
  assert (firstn n bytes ++ skipn n bytes = bytes) as Hsplit by apply firstn_skipn.
  unfold rx_bytes in Hb. assert (rx (stream (client w)) =
    firstn n (rx (stream (client w))) ++ skipn n (rx (stream (client w)))) as Hrx
    by (by rewrite firstn_skipn).
  rewrite Hrx in Ht. apply Forall_app in Ht as [Ht1 Ht2].
  pose proof (read_exact_prompt dl n (clock w) (stream (client w)) _ _ Hrx) as Hrun.
  rewrite length_firstn in Hrun. rewrite <- Hb, length_fmap in Hn.
  specialize (Hrun ltac:(lia) Hnow Ht1).
  eexists. split; [|split; [apply question_run; unfold stream_read_exact; rewrite Hrun, <- Hb, <- fmap_take; reflexivity|]].
  - by rewrite app_nil_r.
  - split; try done; simpl.
    + destruct dl as [d|]; [|done]. simpl in *. apply N.leb_le, read_clock_le; [by apply N.leb_le|].
      eapply Forall_impl; [|exact Ht1]. by intros x ?%N.leb_le.
    + unfold rx_bytes. simpl. by rewrite fmap_drop, Hb.
Qed.

Lemma computes_read_eof n bytes rest :
  length bytes < n →
  computes cfg (question (stream_read_exact n)) bytes (Err truncated, [], rest).
Proof.
  intros Hn dl w [Hnow Hb Ht (te & He & Hte) Hw Hs Hm Hu Hwd].
  destruct (read_exact_eof dl n (clock w) (stream (client w)) te) as (t & s & Hrun); try done.
  { rewrite <- Hb in Hn. unfold rx_bytes in Hn. by rewrite length_fmap in Hn. }
  exists (set_clock t (set_client (set_stream s (client w)) w)). split.
  - apply read_exact_frame in Hrun as (_ & Hs' & _). simpl. rewrite Hs'. by rewrite app_nil_r.
  - exists (Io eof_error). split; [by right|]. unfold question, m_map_err, stream_read_exact.
    by rewrite Hrun.
Qed.

Lemma computes_write data bytes :
  computes cfg (question (stream_write_all data)) bytes (Ok (), [whole data], bytes).
Proof.
  intros dl w [Hnow Hb Ht He Hw Hs Hm Hu Hwd].
  destruct (write_all_writable dl data (clock w) _ Hw Hnow) as [Hrun Hw'].
  eexists. split; [|split; [apply question_run; unfold stream_write_all; by rewrite Hrun|]]; [done|].
  by split.
Qed.

Lemma computes_shutdown bytes :
  computes cfg (question stream_shutdown) bytes (Ok (), [OutShutdown], bytes).
Proof.
  intros dl w [Hnow Hb Ht He Hw Hs Hm Hu Hwd].
  assert (head (shutdowns (stream (client w))) = None ∨
          head (shutdowns (stream (client w))) = Some None) as Hhd.
  { destruct (shutdowns (stream (client w))) as [|o l]; [by left|].
    apply list.Forall_cons in Hs as [-> _]. by right. }
  eexists. split; [|split; [apply question_run; unfold stream_shutdown, shutdown;
    destruct Hhd as [-> | ->]; reflexivity|]]; [done|].
  split; try done. simpl. destruct (shutdowns _) as [|o l]; [done|].
  by apply list.Forall_cons in Hs as [_ Hs].
Qed.

(** Steps that write nothing, and steps that write. *)
Lemma computes_silent {A B} (m : M MerinoError A) (f : A → M MerinoError B) bytes a rest v :
  computes cfg m bytes (Ok a, [], rest) → computes cfg (f a) rest v → computes cfg (m ≫= f) bytes v.
Proof.
  intros Hm Hf. destruct v as [[r o] rest']. exact (computes_bind _ _ _ _ _ _ _ Hm Hf).
Qed.

Lemma computes_read_bind {B} n (f : list u8 → M MerinoError B) bytes v :
  n ≤ length bytes → computes cfg (f (firstn n bytes)) (skipn n bytes) v →
  computes cfg (question (stream_read_exact n) ≫= f) bytes v.
Proof. intros Hn. by apply computes_silent, computes_read. Qed.

Lemma computes_read_app {B} n (f : list u8 → M MerinoError B) bs rest v :
  length bs = n → computes cfg (f bs) rest v →
  computes cfg (question (stream_read_exact n) ≫= f) (bs ++ rest) v.
Proof.
  intros <- Hf. apply computes_read_bind; [rewrite length_app; lia|].
  by rewrite firstn_app, skipn_app, Nat.sub_diag, firstn_all, skipn_all, app_nil_r.
Qed.

Lemma computes_eof_bind {B} n (f : list u8 → M MerinoError B) bytes rest :
  length bytes < n →
  computes cfg (question (stream_read_exact n) ≫= f) bytes (Err truncated, [], rest).
Proof. intros Hn. by eapply computes_bind_err, (computes_read_eof _ _ []). Qed.

Lemma computes_write_bind {B} data (k : M MerinoError B) bytes r o rest :
  computes cfg k bytes (r, o, rest) →
  computes cfg (question (stream_write_all data);; k) bytes (r, whole data :: o, rest).
Proof.
  intros Hk. exact (computes_bind _ (λ _, k) _ _ _ _ (r, o, rest) (computes_write data bytes) Hk).
Qed.

Lemma computes_shutdown_throw {B} e bytes rest :
  computes cfg (question stream_shutdown;; throw e : M _ B) bytes (Err e, [OutShutdown], rest).
Proof.
  exact (computes_bind _ (λ _, throw e) _ _ _ _ (Err e, [], rest) (computes_shutdown bytes)
           (computes_throw e bytes rest)).
Qed.

Lemma computes_from_ok {A B} (a : A) (f : A → M MerinoError B) bytes v :
  computes cfg (f a) bytes v → computes cfg (from_result (Ok a) ≫= f) bytes v.
Proof. done. Qed.

Lemma computes_from_err {A B} e (f : A → M MerinoError B) bytes rest :
  computes cfg (from_result (Err e) ≫= f) bytes (Err e, [], rest).
Proof. apply (computes_throw e bytes rest). Qed.

(** ** The request *)

Lemma read_addr_computes frame ty bytes :
  computes cfg (read_addr frame ty) bytes
    (match take_addr bytes ty with
     | Ok (addr, rest) => (Ok (frame ++ encode_addr ty addr), [], rest)
     | Err e => (Err e, [], [])
     end).
Proof.
  assert (∀ n (f : list u8 → list u8) bytes, computes cfg (x ← question (stream_read_exact n); mret (f x)) bytes
    (match take_ bytes n with
     | Ok (x, rest) => (Ok (f x), [], rest)
     | Err e => (Err e, [], [])
     end)) as Hread.
  { intros n f bs. unfold take_. destruct (Nat.ltb_spec (length bs) n).
    - by apply computes_eof_bind.
    - apply computes_read_bind; [done|]. apply computes_ret. }
  destruct ty; simpl; [apply Hread| |apply Hread].
  destruct bytes as [|d bytes]; [apply computes_eof_bind; simpl; lia|].
  apply computes_read_bind; [simpl; lia|]. change (firstn 1 (d :: bytes)) with [d].
  change (skipn 1 (d :: bytes)) with bytes. change (byte_at [d] 0) with d.
  specialize (Hread (usize_of_u8 d) (λ domain, (frame ++ [d]) ++ domain) bytes).
  destruct (take_ bytes (usize_of_u8 d)) as [[a rest]|e] eqn:E; [|exact Hread].
  apply take_Ok in E as [Hlen _]. rewrite <- app_assoc in Hread.
  rewrite Hlen, u8_of_usize_of_u8. exact Hread.
Qed.

Lemma from_stream_computes bytes :
  computes cfg SOCKSReq_from_stream bytes (finish_ref [] bytes).
Proof.
  unfold SOCKSReq_from_stream, finish_ref, request_ref.
  destruct bytes as [|v [|c [|rsv [|ty bytes]]]]; try (apply computes_eof_bind; simpl; lia).
  apply computes_read_bind; [simpl; lia|].
  change (firstn 4 (v :: c :: rsv :: ty :: bytes)) with [v; c; rsv; ty].
  change (skipn 4 (v :: c :: rsv :: ty :: bytes)) with bytes.
  change (byte_at [v; c; rsv; ty] 0) with v. change (byte_at [v; c; rsv; ty] 1) with c.
  change (byte_at [v; c; rsv; ty] 3) with ty.
  destruct (bool_decide_reflect (v = SOCKS_VERSION)) as [Hv|Hv]; cbn [negb];
    [|apply computes_throw].
  unfold parse_request. destruct (SockCommand_from (usize_of_u8 c)) as [cmd|] eqn:Hc;
    cbn [ok_or mbind result_bind]; [|apply computes_throw].
  destruct (AddrType_from (usize_of_u8 ty)) as [aty|] eqn:Hty;
    cbn [ok_or mbind result_bind]; [|apply computes_throw].
  pose proof (read_addr_computes [v; c; rsv; ty] aty bytes) as Haddr.
  destruct (take_addr bytes aty) as [[addr rest]|e] eqn:Ea; cbn [mbind result_bind];
    [|by eapply computes_bind_err].
  eapply computes_silent; [exact Haddr|]. clear Haddr.
  destruct rest as [|hi [|lo rest]]; cbn [take_port mbind result_bind];
    try (apply computes_eof_bind; simpl; lia).
  apply computes_read_bind; [simpl; lia|].
  apply take_addr_Ok in Ea as [Hwf ->]. change (firstn 2 (hi :: lo :: rest)) with [hi; lo].
  change (skipn 2 (hi :: lo :: rest)) with rest. cbn [app]. rewrite Hc, Hty. cbn [ok_or mbind result_bind].
  rewrite (proj2 (take_addr_Ok (encode_addr aty addr ++ [hi; lo]) aty addr [hi; lo])) by done.
  cbn [mbind result_bind take_port].
  apply computes_from_ok. replace (skipn _ _) with rest; [apply computes_ret|].
  change (v :: c :: rsv :: ty :: encode_addr aty addr ++ hi :: lo :: rest) with
    ((v :: c :: rsv :: ty :: encode_addr aty addr) ++ [hi; lo] ++ rest).
  rewrite app_assoc, length_app, Nat.add_sub. by rewrite skipn_app, skipn_all, Nat.sub_diag.
Qed.

(** ** Credentials *)

Lemma read_userpass_computes bytes :
  computes cfg read_userpass bytes
    (match parse_userpass bytes with
     | Ok (r, n) => (Ok r, [], skipn n bytes)
     | Err e => (Err e, [], [])
     end).
Proof.
  unfold read_userpass. destruct bytes as [|v [|ul bytes]]; try (apply computes_eof_bind; simpl; lia).
  apply (computes_read_app 2 _ [v; ul]); [done|]. change (byte_at [v; ul] 1) with ul.
  unfold parse_userpass at 2.
  destruct (take_ bytes (usize_of_u8 ul)) as [[uname rest]|e] eqn:Eu; cbn [mbind result_bind];
    [|apply take_Err in Eu as [-> ?]; by apply computes_eof_bind].
  apply take_Ok in Eu as [Hul ->]. apply computes_read_app; [done|].
  destruct rest as [|pl rest]; [apply computes_eof_bind; simpl; lia|].
  apply (computes_read_app 1 _ [pl]); [done|]. change (byte_at [pl] 0) with pl.
  destruct (take_ rest (usize_of_u8 pl)) as [[pass left]|e] eqn:Ep; cbn [mbind result_bind];
    [|apply take_Err in Ep as [-> ?]; by apply computes_eof_bind].
  apply take_Ok in Ep as [Hpl ->]. apply computes_read_app; [done|].
  set (r := {| up_version := v; up_username := uname; up_password := pass |}).
  assert (parse_userpass ([v; ul] ++ uname ++ [pl] ++ pass) =
          Ok (r, length ([v; ul] ++ uname ++ [pl] ++ pass))) as ->.
  { pose proof (usize_of_u8_lt ul). pose proof (usize_of_u8_lt pl).
    apply parse_userpass_Ok. exists []. unfold encode_userpass, userpass_wf, r. simpl.
    rewrite Hul, Hpl, !u8_of_usize_of_u8, app_nil_r. split_and!; [|done..].
    apply andb_true_intro. split; by apply Nat.ltb_lt. }
  apply computes_from_ok. replace (skipn _ _) with left; [apply computes_ret|].
  change (v :: ul :: uname ++ pl :: pass ++ left) with ([v; ul] ++ uname ++ [pl] ++ pass ++ left).
  rewrite !app_assoc, length_app, Nat.add_sub. by rewrite skipn_app, skipn_all, Nat.sub_diag.
Qed.

Lemma deny_computes bytes :
  computes cfg deny bytes (Err (Socks Failure), [whole USERPASS_FAILURE; OutShutdown], bytes).
Proof.
  unfold deny. apply computes_note, computes_modify.
  { intros dl w []. by split. }
  apply computes_write_bind, computes_shutdown_throw.
Qed.

(** ** The greeting *)

Lemma bind_assoc {A B C} (m : M MerinoError A) (f : A → M MerinoError B) (g : B → M MerinoError C)
    dl w : ((m ≫= f) ≫= g) dl w = (m ≫= λ a, f a ≫= g) dl w.
Proof. rewrite !bind_run. by destruct (m dl w) as [[]]. Qed.

Lemma computes_assoc {A B C} (m : M MerinoError A) (f : A → M MerinoError B)
    (g : B → M MerinoError C) bytes v :
  computes cfg (m ≫= λ a, f a ≫= g) bytes v → computes cfg ((m ≫= f) ≫= g) bytes v.
Proof. apply computes_ext. intros dl w. apply bind_assoc. Qed.

Lemma question_bind {A B} (m : M io_error A) (f : A → M io_error B) dl w :
  question (m ≫= f) dl w = (a ← question m; question (f a)) dl w.
Proof. rewrite bind_run. unfold question, m_map_err. rewrite bind_run. by destruct (m dl w) as [[]]. Qed.

Lemma avalible_loop_computes methods offered rest :
  computes cfg (question (avalible_loop (cfg_methods cfg) (length offered) methods)) (offered ++ rest)
    (Ok (methods ++ accepted (cfg_methods cfg) offered), [], rest).
Proof.
  revert methods. induction offered as [|m offered IH]; intros methods.
  - simpl. rewrite app_nil_r. apply computes_ret.
  - eapply computes_ext; [intros dl w; apply question_bind|].
    apply (computes_read_app 1 _ [m]); [done|]. change (byte_at [m] 0) with m.
    unfold accepted. rewrite filter_cons. destruct (decide (m ∈ cfg_methods cfg)).
    + rewrite bool_decide_true by done.
      specialize (IH (methods ++ [m])). by rewrite <- app_assoc in IH.
    + by rewrite bool_decide_false.
Qed.

Lemma avalible_loop_eof methods n bytes rest :
  length bytes < n →
  computes cfg (question (avalible_loop (cfg_methods cfg) n methods)) bytes (Err truncated, [], rest).
Proof.
  revert methods bytes. induction n as [|n IH]; intros methods bytes Hlen; [lia|].
  eapply computes_ext; [intros dl w; apply question_bind|].
  destruct bytes as [|m bytes]; [apply computes_eof_bind; simpl; lia|].
  apply (computes_read_app 1 _ [m]); [done|]. apply IH. simpl in Hlen. lia.
Qed.

Lemma auth_run dl w :
  auth_methods (client w) = cfg_methods cfg →
  auth dl w = (methods ← question (avalible_loop (cfg_methods cfg)
                 (usize_of_u8 (auth_nmethods (client w))) []); auth_with methods) dl w.
Proof. by intros <-. Qed.

(** The last message before the request. *)
Lemma computes_finish message bytes :
  computes cfg (question (stream_write_all message);; SOCKSReq_from_stream) bytes
    (finish_ref [whole message] bytes).
Proof.
  pose proof (from_stream_computes bytes) as H. unfold finish_ref in *.
  by destruct (request_ref bytes) as [[req rest]|e]; apply computes_write_bind.
Qed.

Lemma userpass_computes bytes :
  computes cfg
    (question (stream_write_all [SOCKS_VERSION; AuthMethods_as_u8 UserPass]);;
     (parsed ← read_userpass;
      if negb (bool_decide (up_version parsed = x01)) then deny
      else
        w ← get;
        if authed (authed_users (client w)) (width (client w)) (up_username parsed) (up_password parsed)
        then question (stream_write_all [x01; ResponseCode_as_u8 Success])
        else deny);;
     SOCKSReq_from_stream)
    bytes (userpass_ref cfg bytes).
Proof.
  pose proof (read_userpass_computes bytes) as Hread. unfold userpass_ref.
  destruct (parse_userpass bytes) as [[r n]|e].
  2: { apply computes_write_bind. eapply computes_assoc, computes_bind_err, Hread. }
  assert (computes cfg (deny;; SOCKSReq_from_stream) (skipn n bytes)
    (Err (Socks Failure), [whole USERPASS_FAILURE; OutShutdown], skipn n bytes)) as Hdeny
    by (eapply computes_bind_err, deny_computes).
  pose proof (computes_finish [x01; ResponseCode_as_u8 Success] (skipn n bytes)) as Hfin.
  set (granted := bool_decide (up_version r = x01) && _).
  replace (if granted then _ else _) with
    (let '(res, o, rest) :=
       if granted then finish_ref [whole [x01; ResponseCode_as_u8 Success]] (skipn n bytes)
       else (Err (Socks Failure), [whole USERPASS_FAILURE; OutShutdown], skipn n bytes) in
     (res, whole [SOCKS_VERSION; AuthMethods_as_u8 UserPass] :: o, rest))
    by (unfold finish_ref; destruct granted, (request_ref (skipn n bytes)) as [[]|]; done).
  destruct (if granted then _ else _) as [[res o] rest] eqn:Ev.
  apply computes_write_bind, computes_assoc. eapply computes_silent; [exact Hread|]. rewrite <- Ev.
  subst granted. destruct (bool_decide (up_version r = x01)); cbn [negb andb]; [|exact Hdeny].
  apply computes_assoc, computes_get. intros w0 [dl Hw0].
  rewrite (su_users _ _ _ _ Hw0), (su_width _ _ _ _ Hw0). by destruct (authed _ _ _ _).
Qed.

(** The choice, and what follows it. *)
Lemma auth_with_computes offered bytes :
  computes cfg (auth_with offered;; SOCKSReq_from_stream) bytes
    (if bool_decide (AuthMethods_as_u8 UserPass ∈ offered) then userpass_ref cfg bytes
     else if bool_decide (AuthMethods_as_u8 NoAuth ∈ offered) then
       finish_ref [whole [SOCKS_VERSION; AuthMethods_as_u8 NoAuth]] bytes
     else (Err (Socks Failure),
           [whole [SOCKS_VERSION; AuthMethods_as_u8 NoMethods]; OutShutdown], bytes)).
Proof.
  unfold auth_with. destruct (bool_decide (AuthMethods_as_u8 UserPass ∈ offered)).
  - apply computes_assoc. apply userpass_computes.
  - destruct (bool_decide (AuthMethods_as_u8 NoAuth ∈ offered)).
    + apply computes_finish.
    + apply computes_assoc, computes_note, computes_assoc, computes_write_bind.
      by eapply computes_bind_err, (computes_shutdown_throw _ _ []).
Qed.

Lemma negotiate_computes bytes :
  computes cfg negotiate bytes (negotiate_ref cfg bytes).
Proof.
  unfold negotiate, negotiate_ref.
  destruct bytes as [|v [|nm bytes]]; try (apply computes_eof_bind; simpl; lia).
  apply (computes_read_app 2 _ [v; nm]); [done|].
  change (byte_at [v; nm] 0) with v. change (byte_at [v; nm] 1) with nm.
  destruct (bool_decide (v = SOCKS_VERSION)).
  2: { apply computes_modify; [|apply computes_shutdown_throw]. intros dl w []. by split. }
  apply (computes_modify_ext _ _ ((methods ← question (avalible_loop (cfg_methods cfg) (usize_of_u8 nm) []);
    auth_with methods);; SOCKSReq_from_stream)).
  { intros dl w Hw. split_and!; [by destruct Hw|done|]. rewrite !(bind_run _ (λ _, SOCKSReq_from_stream)).
    by rewrite auth_run by apply Hw. }
  unfold parse_greeting. destruct (take_ bytes (usize_of_u8 nm)) as [[offered rest]|e] eqn:E;
    cbn [mbind result_bind].
  - apply take_Ok in E as [Hlen ->]. apply computes_assoc.
    eapply computes_silent; [rewrite <- Hlen; apply avalible_loop_computes|]. cbn [app].
    replace (skipn _ _) with rest by (simpl; by rewrite skipn_app, skipn_all, Nat.sub_diag).
    apply auth_with_computes.
  - apply take_Err in E as [-> Hlen]. apply computes_assoc. by eapply computes_bind_err, (avalible_loop_eof _ _ _ []).
Qed.
End rules.

(** C12: what a client is told is a function of the bytes it sends.  For a client
    that sends [bytes], however they are spread over time and packets, and then
    closes, the negotiation over the stream returns the request or the error,
    writes the replies and leaves the bytes that [negotiate_ref] computes from
    the buffer with [parse_greeting], [parse_userpass] and [parse_request];
    the errors agree but for the text of the one for a truncated message. *)
Theorem negotiate_equiv cfg dl w bytes :
  supplied cfg dl w bytes →
  let '(r, written, rest) := negotiate_ref cfg bytes in
  ∃ w', out (stream (client w')) = out (stream (client w)) ++ written ∧
    match r with
    | Ok req => negotiate dl w = (Done req, w') ∧ rx_bytes (stream (client w')) = rest
    | Err e => ∃ e', same_error e' e ∧ negotiate dl w = (Throw e', w')
    end.
Proof.
  intros Hw. pose proof (negotiate_computes cfg bytes dl w Hw) as H.
  destruct (negotiate_ref cfg bytes) as [[r written] rest]. simpl in H.
  destruct H as (w' & Ho & Hr). exists w'. split; [done|]. destruct r as [req|e]; [|done].
  destruct Hr as [Hrun Hw']. split; [done|apply Hw'].
Qed.

(** ** Witness *)

(** Wrong credentials, followed by a request that is not looked at. *)
Definition demo_cfg : Config := {| cfg_methods := [x02]; cfg_users := demo_users |}.
Definition demo_sent : list u8 :=
  encode_greeting SOCKS_VERSION demo_offer ++ encode_userpass demo_wrong ++ encode_request x00 demo_request.

Lemma negotiate_equiv_witness :
  ∃ w', out (stream (client w')) =
          [OutWrite [x05; x02] 2; OutWrite [x01; x01] 2; OutShutdown] ∧
        negotiate None (demo_world [x02] demo_sent) = (Throw (Socks Failure), w').
Proof.
  assert (supplied demo_cfg None (demo_world [x02] demo_sent) demo_sent) as Hs.
  { split; try reflexivity; [|by exists 0%N|constructor|constructor].
    apply list.Forall_forall. intros. reflexivity. }
  destruct (negotiate_equiv demo_cfg None (demo_world [x02] demo_sent) demo_sent Hs)
    as (w' & Ho & e' & [->|[_ He]] & Hrun).
  - exists w'. split; [exact Ho|exact Hrun].
  - discriminate He.
Defined.
