(* ===== verification/Resolve.v ===== *)
(** * Resolving a destination ([src/src/lib.rs]: [addr_to_socket])

    Address literals are converted, names go through the DNS cache, if there is
    one, and then to the resolver. *)
From S2P Require Import Prelude Fmt Utf8 Types Wire Display DnsCache Stats Stream Relay Connect Client.

(** ** The code *)

Section resolve.
Context `{!Net, !HashOrder}.

Definition cache_get {E} (name : string) : M E (option (list SocketAddr)) := λ dl w,
  match w_cache w with
  | None => (Done None, w)
  | Some c => let '(r, c) := DnsCache_get c name (clock w) in (Done r, set_w_cache (Some c) w)
  end.

Definition cache_insert {E} (name : string) (addrs : list SocketAddr) : M E unit := λ dl w,
  match w_cache w with
  | None => (Done (), w)
  | Some c =>
      match DnsCache_insert c name addrs (clock w) with
      | Returned c => (Done (), set_w_cache (Some c) w)
      | Panicked c => (Crash, set_w_cache (Some c) w)
      end
  end.

(** The name as the resolver takes it, which is also the cache key. *)
Definition domain_key (addr : list u8) (port : u16) : string :=
  of_bytes (from_utf8_lossy addr) +:+ ":" +:+ dec port.

Definition addr_to_socket (addr_type : AddrType) (addr : list u8) (port : u16)
    : M io_error (list SocketAddr) :=
  match addr_type with
  | V6 =>
      match try_from_slice 16 addr with
      | Some octets => mret [SockV6 octets port 0 0]
      | None => throw (io_Error_new ErrorKind.InvalidInput "IPv6 address must be 16 bytes")
      end
  | V4 =>
      match try_from_slice 4 addr with
      | Some octets => mret [SockV4 octets port]
      | None => throw (io_Error_new ErrorKind.InvalidInput "IPv4 address must be 4 bytes")
      end
  | Domain =>
      let domain := domain_key addr port in
      cached ← cache_get domain;
      match cached with
      | Some addrs => mret addrs
      | None =>
          w ← get;
          answer ← await_answer (lookup_host domain (clock w));
          addrs ← from_result answer;
          cache_insert domain addrs;;
          mret addrs
      end
  end.
End resolve.

(** ** Cache keys *)

Lemma last_separator (sep : u8) (a a' d d' : list u8) :
  sep ∉ d → sep ∉ d' → a ++ sep :: d = a' ++ sep :: d' → a = a' ∧ d = d'.
Proof.
  revert a'. induction a as [|x a IH]; intros [|y a'] Hd Hd'; simpl.
  - by intros [= ->].
  - intros [= -> ->]. destruct Hd. apply elem_of_app. right. by left.
  - intros [= -> <-]. destruct Hd'. apply elem_of_app. right. by left.
  - intros [= -> Heq]. by destruct (IH a' Hd Hd' Heq) as [-> ->].
Qed.

Lemma dec_no_colon n : x3a ∉ as_bytes (dec n).
Proof.
  intros Hin. pose proof (dec_chars n) as Hc. unfold all_chars in Hc.
  rewrite forallb_forall in Hc. by specialize (Hc x3a ltac:(by apply list_elem_of_In)).
Qed.

Lemma domain_key_inj_aux s s' p p' :
  s +:+ ":" +:+ dec p = s' +:+ ":" +:+ dec p' → s = s' ∧ p = p'.
Proof.
  intros H. apply (f_equal as_bytes) in H. rewrite !as_bytes_app in H.
  change (as_bytes ":") with [x3a] in H. cbn [app] in H.
  apply last_separator in H as [Ha Hd]; [|apply dec_no_colon..].
  split; [by apply as_bytes_inj|]. by apply dec_inj, as_bytes_inj.
Qed.

(** The cache never mixes up destinations: two requests for well-formed
    (UTF-8) names share a cache key exactly when they ask for the same name and
    the same port. *)
Theorem domain_key_inj a a' p p' :
  is_Some (from_utf8 a) → is_Some (from_utf8 a') →
  domain_key a p = domain_key a' p' → a = a' ∧ p = p'.
Proof.
  intros Ha Ha' (Heq & ->)%domain_key_inj_aux. split; [|done].
  apply (f_equal as_bytes) in Heq. rewrite !as_bytes_of_bytes in Heq.
  by rewrite !from_utf8_lossy_valid in Heq.
Qed.

(** ** Resolution *)

Section facts.
Context `{!Net, !HashOrder}.

Lemma addr_to_socket_v4 addr port dl w :
  addr_to_socket V4 addr port dl w =
  match try_from_slice 4 addr with
  | Some ip => (Done [SockV4 ip port], w)
  | None => (Throw (io_Error_new ErrorKind.InvalidInput "IPv4 address must be 4 bytes"), w)
  end.
Proof. unfold addr_to_socket. by destruct (try_from_slice 4 addr). Qed.

Lemma addr_to_socket_v6 addr port dl w :
  addr_to_socket V6 addr port dl w =
  match try_from_slice 16 addr with
  | Some ip => (Done [SockV6 ip port 0 0], w)
  | None => (Throw (io_Error_new ErrorKind.InvalidInput "IPv6 address must be 16 bytes"), w)
  end.
Proof. unfold addr_to_socket. by destruct (try_from_slice 16 addr). Qed.

(** An answer that was just stored is found until it expires. *)
Lemma insert_then_get c name l now c' t :
  DnsCache_insert c name l now = Returned c' → l ≠ [] → (now ≤ t < now + ttl c)%N →
  fst (DnsCache_get c' name t) = Some l.
Proof.
  intros Hins Hl Ht.
  destruct (insert_cases c name l now) as [[? _]|[(_ & _ & Hp)|(_ & _ & c'' & Hr & _ & _ & He & _)]];
    [done|congruence|]. rewrite Hins in Hr. injection Hr as <-.
  unfold DnsCache_get. rewrite He, lookup_insert_eq. simpl.
  destruct (N.leb_spec (now + ttl c) t); [lia|done].
Qed.

(** Without a cache every request asks the resolver. *)
Lemma addr_to_socket_uncached addr port w :
  w_cache w = None →
  addr_to_socket Domain addr port None w =
  match lookup_host (domain_key addr port) (clock w) with
  | Some (d, Ok l) => (Done l, set_clock (clock w + d) w)
  | Some (d, Err e) => (Throw e, set_clock (clock w + d) w)
  | None => (Pending, set_clock (clock w) w)
  end.
Proof.
  intros Hc. unfold addr_to_socket. rewrite bind_run. unfold cache_get. rewrite Hc.
  rewrite bind_run. cbn [get]. rewrite bind_run. unfold await_answer.
  destruct (lookup_host _ _) as [[d [l|e]]|]; simpl; [|done..].
  rewrite bind_run. cbn [from_result]. rewrite bind_run. unfold cache_insert. simpl. by rewrite Hc.
Qed.

(** Resolution depends on the clock and the cache, and changes nothing else. *)
Lemma addr_to_socket_local ty addr port w1 w2 :
  clock w2 = clock w1 → w_cache w2 = w_cache w1 →
  addr_to_socket ty addr port None w2 =
  (fst (addr_to_socket ty addr port None w1),
   set_clock (clock (snd (addr_to_socket ty addr port None w1)))
     (set_w_cache (w_cache (snd (addr_to_socket ty addr port None w1))) w2)).
Proof.
  intros Hc Hw. destruct w1 as [t1 c1 s1 h1 k1 l1 r1], w2 as [t2 c2 s2 h2 k2 l2 r2].
  simpl in Hc, Hw. subst t2 k2. destruct ty; simpl.
  - by destruct (try_from_slice 4 addr).
  - rewrite !bind_run. unfold cache_get. simpl.
    destruct k1 as [cache|]; simpl.
    + destruct (DnsCache_get cache _ t1) as [[addrs|] cache']; simpl; [done|].
      rewrite !bind_run. unfold await_answer. simpl.
      destruct (lookup_host _ t1) as [[d [addrs|e]]|]; simpl; try done.
      unfold mbind, M_bind, from_result, cache_insert. simpl.
      by destruct (DnsCache_insert _ _ _ _).
    + rewrite !bind_run. unfold await_answer. simpl.
      by destruct (lookup_host _ t1) as [[d [addrs|e]]|].
  - by destruct (try_from_slice 16 addr).
Qed.

(** A name that is not cached is asked for and stored. *)
Lemma addr_to_socket_miss addr port w c d l :
  w_cache w = Some c → entries c !! domain_key addr port = None →
  lookup_host (domain_key addr port) (clock w) = Some (d, Ok l) → l ≠ [] →
  (clock w + d + ttl c ≤ instant_max)%N →
  ∃ c', addr_to_socket Domain addr port None w =
        (Done l, set_clock (clock w + d) (set_w_cache (Some c') w)).
Proof.
  intros Hc Hmiss Hl Hne Ht. unfold addr_to_socket. rewrite bind_run. unfold cache_get.
  rewrite Hc. unfold DnsCache_get. rewrite Hmiss.
  set (c1 := {| ttl := ttl c |}). rewrite bind_run. cbn [get]. rewrite bind_run. unfold await_answer.
  cbn [clock set_w_cache]. rewrite Hl. cbn [deadline_ok]. rewrite bind_run. cbn [from_result].
  rewrite bind_run. unfold cache_insert. cbn [w_cache set_clock set_w_cache clock].
  destruct (insert_cases c1 (domain_key addr port) l (clock w + d))
    as [[? _]|[(_ & Hlt & _)|(_ & _ & c' & -> & _)]]; [done|simpl in Hlt; lia|].
  by exists c'.
Qed.

(** An address literal names exactly itself: a request whose address has
    the length of its type resolves at once to that one address and port,
    without consulting the resolver or the cache; any other length is refused
    as invalid input. *)
Theorem addr_to_socket_literal ty addr port dl w :
  ty ≠ Domain →
  addr_to_socket ty addr port dl w =
    if addr_wf ty addr then
      (match ty with
       | V4 => match try_from_slice 4 addr with
               | Some ip => Done [SocketAddr_new (IpV4 ip) port] | None => Crash end
       | _ => match try_from_slice 16 addr with
              | Some ip => Done [SocketAddr_new (IpV6 ip) port] | None => Crash end
       end, w)
    else (Throw (io_Error_new ErrorKind.InvalidInput
                   (if ty is V4 then "IPv4 address must be 4 bytes"
                    else "IPv6 address must be 16 bytes")), w).
Proof.
  intros Hty. destruct ty; [|done|].
  - rewrite addr_to_socket_v4. simpl. destruct (Nat.eqb_spec (length addr) 4) as [Hl|Hl].
    + apply try_from_slice_is_Some in Hl as [ip ->]. done.
    + by rewrite try_from_slice_None.
  - rewrite addr_to_socket_v6. simpl. destruct (Nat.eqb_spec (length addr) 16) as [Hl|Hl].
    + apply try_from_slice_is_Some in Hl as [ip ->]. done.
    + by rewrite try_from_slice_None.
Qed.

(** A cached answer is reused: after a name was resolved to some addresses
    through the resolver, the same name and port resolve again to exactly these
    addresses, at once and without asking the resolver, at any time before the
    entry's lifetime is over. *)
Theorem addr_to_socket_cached addr port w c l w1 t dl :
  w_cache w = Some c →
  fst (DnsCache_get c (domain_key addr port) (clock w)) = None →
  addr_to_socket Domain addr port None w = (Done l, w1) → l ≠ [] →
  (clock w1 ≤ t < clock w1 + ttl c)%N →
  ∃ w2, addr_to_socket Domain addr port dl (set_clock t w1) = (Done l, w2) ∧ clock w2 = t.
Proof.
  intros Hc Hmiss Hrun Hl Ht. unfold addr_to_socket in Hrun. rewrite bind_run in Hrun.
  unfold cache_get in Hrun. rewrite Hc in Hrun.
  destruct (get_static c (domain_key addr port) (clock w)) as (Httl & _).
  destruct (DnsCache_get c _ _) as [r c1]. simpl in Hmiss, Httl. subst r.
  rewrite bind_run in Hrun. cbn [get] in Hrun. rewrite bind_run in Hrun. unfold await_answer in Hrun.
  destruct (lookup_host _ _) as [[d [l'|e]]|]; simpl in Hrun; [|done..].
  rewrite bind_run in Hrun. cbn [from_result] in Hrun. rewrite bind_run in Hrun.
  unfold cache_insert in Hrun. cbn [w_cache set_clock set_w_cache clock] in Hrun.
  destruct (DnsCache_insert c1 _ l' _) as [c2|c2] eqn:Hins; [|done].
  injection Hrun as -> <-. cbn [clock set_w_cache set_clock] in Ht.
  unfold addr_to_socket. rewrite bind_run. unfold cache_get. cbn [w_cache set_clock set_w_cache clock].
  pose proof (insert_then_get _ _ _ _ _ t Hins Hl) as Hget. rewrite Httl in Hget.
  specialize (Hget ltac:(lia)).
  destruct (DnsCache_get c2 _ t) as [r c3]. simpl in Hget. subst r.
  by eexists.
Qed.
End facts.

(** ** Witnesses *)

Lemma domain_key_inj_witness :
  domain_key (as_bytes "a") 80 = domain_key (as_bytes "a") 80 ∧ as_bytes "a" = as_bytes "a".
Proof.
  split; [reflexivity|].
  apply (domain_key_inj (as_bytes "a") (as_bytes "a") 80 80); [by eexists|by eexists|reflexivity].
Defined.

Definition demo_resolve_client : SOCKClient := SOCKClient_new (demo_stream []) [] [x00] None.
Definition demo_resolve_world : World :=
  {| clock := 5; client := demo_resolve_client; w_stats := Stats_new 0 0; w_heap := heap_empty;
     w_cache := Some (DnsCache_new (from_secs 60) 8); w_datagrams := []; w_remote := None |}.

Lemma addr_to_socket_literal_witness :
  @addr_to_socket (demo_net demo_remote demo_listener) map_order V4 [x7f; x00; x00; x01] 80 None
    demo_resolve_world = (Done [SockV4 [# x7f; x00; x00; x01] 80], demo_resolve_world).
Proof.
  rewrite (@addr_to_socket_literal (demo_net demo_remote demo_listener) map_order V4
             [x7f; x00; x00; x01] 80 None demo_resolve_world); [reflexivity|discriminate].
Defined.

Definition demo_resolved : outcome io_error (list SocketAddr) * World :=
  @addr_to_socket (demo_net demo_remote demo_listener) map_order Domain (as_bytes "x") 80 None
    demo_resolve_world.

Lemma addr_to_socket_cached_witness :
  ∃ w2, @addr_to_socket (demo_net demo_remote demo_listener) map_order Domain (as_bytes "x") 80 None
    (set_clock 7 (snd demo_resolved)) = (Done [demo_v4 x01; demo_v4 x02], w2) ∧ clock w2 = 7%N.
Proof.
  apply (@addr_to_socket_cached (demo_net demo_remote demo_listener) map_order (as_bytes "x") 80
    demo_resolve_world (DnsCache_new (from_secs 60) 8) [demo_v4 x01; demo_v4 x02] (snd demo_resolved)).
  - reflexivity.
  - reflexivity.
  - reflexivity.
  - discriminate.
  - vm_compute. split; [discriminate|reflexivity].
Defined.
