(* ===== verification/Udp.v ===== *)
(** * UDP ASSOCIATE ([src/src/lib.rs]: [SOCKClient::handle_udp_associate])

    The relay of datagrams between the client and its destinations, as a loop
    over the events that wake it, in the order in which they do. *)
From S2P Require Import Prelude Fmt Utf8 Types Wire Display DnsCache Stats Stream Relay Connect Client Resolve.

(** ** The code *)

Section udp.
Context `{!Net, !HashOrder}.

(** [socket.send_to(bytes, dest)]; a failure is only logged. *)
Definition send_to {E} (bytes : list u8) (dest : SocketAddr) : M E unit :=
  modify (λ w, set_datagrams (w_datagrams w ++ [(dest, bytes)]) w).

(** A datagram from the client: forward the payload on. *)
Definition udp_forward (data : list u8) : M MerinoError unit :=
  match parse_udp_header data with
  | Err _ => mret ()
  | Ok (header, consumed) =>
      if negb (bool_decide (udp_frag header = x00)) then mret ()
      else
        target ← m_try (addr_to_socket (udp_addr_type header) (udp_addr header) (udp_port header));
        match target with
        | Ok (dest :: _) =>
            let payload := skipn consumed data in
            note (note_udp_datagram (N.of_nat (length payload)));;
            send_to payload dest
        | Ok [] | Err _ => mret ()
        end
  end.

(** One turn of the loop: [None] breaks out of it, otherwise the client it is
    bound to. *)
Definition udp_step (expected_client : option IpAddr) (ev : udp_event)
    (client_addr : option SocketAddr) : M MerinoError (option (option SocketAddr)) :=
  match ev with
  | Control => λ dl w,
      match read_some 1 (clock w) (stream (client w)) with
      | ReadBytes [] t s => (Done None, set_clock t (set_client (set_stream s (client w)) w))
      | ReadBytes _ t s =>
          (Done (Some client_addr), set_clock t (set_client (set_stream s (client w)) w))
      | ReadErr _ t => (Done None, set_clock t w)
      | ReadWaits => (Done (Some client_addr), w)
      end
  | Datagram (Err e) => mret None
  | Datagram (Ok (data, src)) =>
      match client_addr with
      | None =>
          match expected_client with
          | Some expected =>
              if bool_decide (expected = sock_ip src)
              then udp_forward data;; mret (Some (Some src))
              else mret (Some None)
          | None => udp_forward data;; mret (Some (Some src))
          end
      | Some c =>
          if bool_decide (c = src) then udp_forward data;; mret (Some (Some c))
          else
            let out := encode_udp_header src ++ data in
            note (note_udp_reply (N.of_nat (length out)));;
            send_to out c;;
            mret (Some (Some c))
      end
  end.

Fixpoint udp_loop (expected_client : option IpAddr) (evs : list udp_event)
    (client_addr : option SocketAddr) : M MerinoError unit :=
  match evs with
  | [] => λ dl w, (cut_at dl, w)
  | ev :: evs =>
      next ← udp_step expected_client ev client_addr;
      match next with
      | None => mret ()
      | Some client_addr => udp_loop expected_client evs client_addr
      end
  end.

(** [local_interface]. *)
Definition local_interface (c : SOCKClient) : IpAddr :=
  match local_addr c with
  | Some addr => sock_ip addr
  | None => IpV4 UNSPECIFIED_V4
  end.

Definition handle_udp_associate (req : SOCKSReq) : M MerinoError usize :=
  w ← get;
  socket ← question (from_result (udp_bind (SocketAddr_new (local_interface (client w)) 0)));
  bound ← question (from_result (u_local_addr socket));
  question (SocksReply_send (SocksReply_with_addr Success bound));;
  let expected_client := expected_ip (req_addr_type req) (req_addr req) in
  udp_loop expected_client (u_events socket) None;;
  mret 0.
End udp.

(** ** What an association sends *)

(** A datagram sent on behalf of [client] is justified by what arrived. *)
Inductive justified (client : SocketAddr) (arrived : list udp_event) : SocketAddr * list u8 → Prop :=
  | from_client data header n dest :
      Datagram (Ok (data, client)) ∈ arrived →
      parse_udp_header data = Ok (header, n) → udp_frag header = x00 →
      (udp_addr_type header ≠ Domain →
       ip_octets (sock_ip dest) = udp_addr header ∧ sock_port dest = udp_port header) →
      justified client arrived (dest, skipn n data)
  | to_client data src :
      src ≠ client → Datagram (Ok (data, src)) ∈ arrived →
      justified client arrived (client, encode_udp_header src ++ data).

Lemma justified_mono client l l' d :
  (∀ ev, ev ∈ l → ev ∈ l') → justified client l d → justified client l' d.
Proof. intros Hl []; econstructor; eauto. Qed.

Section facts.
Context `{!Net, !HashOrder}.

Lemma addr_to_socket_datagrams ty addr port dl w o w' :
  addr_to_socket ty addr port dl w = (o, w') → w_datagrams w' = w_datagrams w.
Proof.
  destruct ty.
  - rewrite addr_to_socket_v4. by destruct (try_from_slice 4 addr); intros [= <- <-].
  - unfold addr_to_socket. rewrite bind_run. unfold cache_get.
    destruct (w_cache w) as [c|] eqn:Hc.
    + destruct (DnsCache_get c _ _) as [[l|] c1]; [by intros [= <- <-]|].
      rewrite bind_run. cbn [get]. rewrite bind_run. unfold await_answer.
      destruct (lookup_host _ _) as [[d [l|e]]|]; simpl.
      * destruct (deadline_ok dl _); [|by destruct dl; intros [= <- <-]].
        rewrite bind_run. cbn [from_result]. rewrite bind_run. unfold cache_insert.
        cbn [w_cache set_clock set_w_cache clock].
        by destruct (DnsCache_insert c1 _ l _); intros [= <- <-].
      * destruct (deadline_ok dl _); [by intros [= <- <-]|by destruct dl; intros [= <- <-]].
      * by destruct dl; intros [= <- <-].
    + rewrite bind_run. cbn [get]. rewrite bind_run. unfold await_answer.
      destruct (lookup_host _ _) as [[d [l|e]]|]; simpl.
      * destruct (deadline_ok dl _); [|by destruct dl; intros [= <- <-]].
        rewrite bind_run. cbn [from_result]. rewrite bind_run. unfold cache_insert.
        cbn [w_cache set_clock set_w_cache clock]. rewrite Hc. by intros [= <- <-].
      * destruct (deadline_ok dl _); [by intros [= <- <-]|by destruct dl; intros [= <- <-]].
      * by destruct dl; intros [= <- <-].
  - rewrite addr_to_socket_v6. by destruct (try_from_slice 16 addr); intros [= <- <-].
Qed.

(** A literal resolves to itself. *)
Lemma addr_to_socket_literal_dest ty addr port dl w l w' :
  ty ≠ Domain → addr_to_socket ty addr port dl w = (Done l, w') →
  ∀ dest, dest ∈ l → ip_octets (sock_ip dest) = addr ∧ sock_port dest = port.
Proof.
  intros Hty. destruct ty; [|done|].
  - rewrite addr_to_socket_v4. destruct (try_from_slice 4 addr) as [v|] eqn:E; [|done].
    intros [= <- <-] dest ->%list_elem_of_singleton. apply try_from_slice_Some in E. done.
  - rewrite addr_to_socket_v6. destruct (try_from_slice 16 addr) as [v|] eqn:E; [|done].
    intros [= <- <-] dest ->%list_elem_of_singleton. apply try_from_slice_Some in E. done.
Qed.

Lemma note_datagrams {E} f dl w o w' :
  (note f : M E unit) dl w = (o, w') → o = Done () ∧ w_datagrams w' = w_datagrams w.
Proof. unfold note, modify. intros [= <- <-]. split; [done|]. by destruct (has_stats (client w)). Qed.

Lemma udp_forward_sends client data arrived dl w o w' :
  Datagram (Ok (data, client)) ∈ arrived →
  udp_forward data dl w = (o, w') →
  ∃ new, w_datagrams w' = w_datagrams w ++ new ∧ Forall (justified client arrived) new.
Proof.
  intros Hin. unfold udp_forward.
  destruct (parse_udp_header data) as [[header n]|e] eqn:Hp;
    [|intros [= <- <-]; exists []; by rewrite app_nil_r].
  destruct (bool_decide_reflect (udp_frag header = x00)) as [Hf|Hf]; cbn [negb];
    [|intros [= <- <-]; exists []; by rewrite app_nil_r].
  rewrite bind_run. unfold m_try.
  destruct (addr_to_socket _ _ _ dl w) as [r w1] eqn:Ha.
  pose proof (addr_to_socket_datagrams _ _ _ _ _ _ _ Ha) as Hw1.
  assert (∀ A (x : outcome MerinoError A), (x, w1) = (x, w') →
    ∃ new, w_datagrams w' = w_datagrams w ++ new ∧ Forall (justified client arrived) new) as Hnone.
  { intros A x [= <-]. exists []. by rewrite Hw1, app_nil_r. }
  destruct r as [[|dest l]|e| | |]; try (intros [= <- <-]; by apply (Hnone unit Pending)).
  rewrite bind_run. destruct (note _ dl w1) as [o2 w2] eqn:Hn.
  apply note_datagrams in Hn as [-> Hw2]. intros [= <- <-].
  exists [(dest, skipn n data)]. simpl. rewrite Hw2, Hw1. split; [done|].
  constructor; [|done]. eapply from_client; [done..|]. intros Hty.
  eapply addr_to_socket_literal_dest; [done|exact Ha|]. by left.
Qed.

(** One turn of an association that has its client. *)
Lemma udp_step_bound expected ev c arrived dl w o w' :
  ev ∈ arrived →
  udp_step expected ev (Some c) dl w = (o, w') →
  (∃ new, w_datagrams w' = w_datagrams w ++ new ∧ Forall (justified c arrived) new) ∧
  (∀ next, o = Done (Some next) → next = Some c).
Proof.
  intros Hin. assert (∀ w1 o1, w_datagrams w1 = w_datagrams w →
    (o1, w1) = (o, w') → (∀ next, o1 = Done (Some next) → next = Some c) →
    (∃ new, w_datagrams w' = w_datagrams w ++ new ∧ Forall (justified c arrived) new) ∧
    (∀ next, o = Done (Some next) → next = Some c)) as Hnone.
  { intros w1 o1 Hw1 [= <- <-] Ho. split; [|done]. exists []. by rewrite app_nil_r. }
  destruct ev as [|[[data src]|e]]; simpl.
  - destruct (read_some _ _ _) as [[|b l] t s|e t|]; intros Heq;
      (eapply Hnone; [|exact Heq|naive_solver]); done.
  - destruct (bool_decide_reflect (c = src)) as [->|Hne].
    + rewrite bind_run. destruct (udp_forward data dl w) as [o1 w1] eqn:Hf.
      apply (udp_forward_sends src _ arrived) in Hf as Hnew; [|done].
      destruct o1; intros [= <- <-]; (split; [done|naive_solver]).
    + rewrite bind_run. destruct (note _ dl w) as [o1 w1] eqn:Hn.
      apply note_datagrams in Hn as [-> Hw1]. intros [= <- <-]. split; [|naive_solver].
      eexists [_]. simpl. rewrite Hw1. split; [done|]. constructor; [|done].
      by apply to_client.
  - intros Heq. eapply Hnone; [|exact Heq|done]. done.
Qed.

Lemma udp_loop_bound expected evs c arrived dl w o w' :
  (∀ ev, ev ∈ evs → ev ∈ arrived) →
  udp_loop expected evs (Some c) dl w = (o, w') →
  ∃ new, w_datagrams w' = w_datagrams w ++ new ∧ Forall (justified c arrived) new.
Proof.
  revert w. induction evs as [|ev evs IH]; intros w Hin; simpl.
  - intros [= <- <-]. exists []. by rewrite app_nil_r.
  - rewrite bind_run. destruct (udp_step expected ev (Some c) dl w) as [o1 w1] eqn:Hs.
    apply (udp_step_bound _ _ _ arrived) in Hs as [(new & Hw1 & Hnew) Hnext]; [|apply Hin; by left].
    destruct o1 as [[next|]|e| | |]; try (intros [= <- <-]; by exists new).
    specialize (Hnext next eq_refl) as ->. intros Hl.
    apply IH in Hl as (new' & Hw' & Hnew'); [|intros ev' Hev'; apply Hin; by right].
    exists (new ++ new'). rewrite Hw', Hw1, app_assoc. split; [done|]. by apply Forall_app.
Qed.

Lemma udp_loop_sends expected evs arrived dl w o w' :
  (∀ ev, ev ∈ evs → ev ∈ arrived) →
  udp_loop expected evs None dl w = (o, w') →
  ∃ new, w_datagrams w' = w_datagrams w ++ new ∧
    (new = [] ∨ ∃ c, (∀ ip, expected = Some ip → sock_ip c = ip) ∧ Forall (justified c arrived) new).
Proof.
  revert w. induction evs as [|ev evs IH]; intros w Hin; simpl.
  - intros [= <- <-]. exists []. rewrite app_nil_r. auto.
  - rewrite bind_run. destruct (udp_step expected ev None dl w) as [o1 w1] eqn:Hs.
    assert (∀ ev', ev' ∈ evs → ev' ∈ arrived) as Hin' by (intros ev' Hev'; apply Hin; by right).
    destruct ev as [|[[data src]|e]]; simpl in Hs.
    + assert (w_datagrams w1 = w_datagrams w ∧ (o1 = Done None ∨ o1 = Done (Some None))) as [Hw1 Ho1].
      { destruct (read_some _ _ _) as [[|b l] t s|e t|]; injection Hs as <- <-; auto. }
      rewrite <- Hw1. destruct Ho1 as [->| ->]; [intros [= <- <-]|apply IH; done].
      exists []. rewrite app_nil_r. auto.
    + assert ((expected ≠ None ∧ expected ≠ Some (sock_ip src) ∧ o1 = Done (Some None) ∧ w1 = w) ∨
              (∀ ip, expected = Some ip → sock_ip src = ip) ∧
              (udp_forward data;; mret (Some (Some src))) dl w = (o1, w1)) as [(_ & _ & -> & ->)|[Hexp Hf]].
      { destruct expected as [ip|]; [|right; split; [done|exact Hs]].
        destruct (bool_decide_reflect (ip = sock_ip src)) as [->|Hne];
          [right; split; [congruence|exact Hs]|left].
        injection Hs as <- <-. split_and!; try done. congruence. }
      { by apply IH. }
      rewrite bind_run in Hf. destruct (udp_forward data dl w) as [o2 w2] eqn:E.
      apply (udp_forward_sends src _ arrived) in E as (new & Hw2 & Hnew); [|apply Hin; by left].
      destruct o2; injection Hf as <- <-;
        try (intros [= <- <-]; exists new; split; [done|right; by exists src]).
      intros Hl. apply (udp_loop_bound _ _ _ arrived) in Hl as (new' & Hw' & Hnew'); [|done].
      exists (new ++ new'). rewrite Hw', Hw2, app_assoc. split; [done|]. right. exists src.
      split; [done|]. by apply Forall_app.
    + injection Hs as <- <-. intros [= <- <-]. exists []. rewrite app_nil_r. auto.
Qed.

(** C21: an association serves one client and is no open relay.  Whatever
    arrives, everything it sends is on behalf of one client, whose address is
    the one the request declared if it declared one: either the payload of an
    unfragmented datagram that this client sent, to the destination its header
    names, or a datagram that somebody else sent, framed with its sender's
    address and delivered to this client and nobody else. *)
Theorem udp_associate_confined expected evs dl w o w' :
  udp_loop expected evs None dl w = (o, w') →
  ∃ new, w_datagrams w' = w_datagrams w ++ new ∧
    (new = [] ∨ ∃ c, (∀ ip, expected = Some ip → sock_ip c = ip) ∧ Forall (justified c evs) new).
Proof. by apply udp_loop_sends. Qed.
End facts.

(** ** Witness *)

(** A datagram from the client to 10.0.0.9:53, and one from there. *)
Definition demo_peer : SocketAddr := SockV4 [# x0a; x00; x00; x09] 53.
Definition demo_home : SocketAddr := SockV4 [# x7f; x00; x00; x01] 5000.
Definition demo_udp : list udp_event :=
  [Datagram (Ok (encode_udp_header demo_peer ++ [x68], demo_home)); Datagram (Ok ([x79], demo_peer))].

Lemma udp_associate_confined_witness :
  ∃ c, Forall (justified c demo_udp) [(demo_peer, [x68]); (demo_home, encode_udp_header demo_peer ++ [x79])].
Proof.
  destruct (@udp_associate_confined (demo_net demo_remote demo_listener) map_order None demo_udp None
              demo_resolve_world Pending
              (set_datagrams [(demo_peer, [x68]); (demo_home, encode_udp_header demo_peer ++ [x79])]
                 demo_resolve_world) eq_refl) as (new & Hnew & [->|(c & _ & Hc)]).
  - discriminate Hnew.
  - exists c. cbn [set_datagrams w_datagrams demo_resolve_world app] in Hnew. rewrite Hnew. exact Hc.
Defined.
