(* ===== verification/Session.v ===== *)
(** * A session ([src/src/lib.rs]: [SOCKClient::init], [handle_client],
      [handle_request], [handle_bind], [run_client])

    What happens to a connection from the first byte to the last: the bounded
    negotiation, the command, the relay, the reply to a failure, and the
    statistics. *)
From S2P Require Import Prelude Fmt Utf8 Types Wire Credentials Display DnsCache Stats Stream Relay.
From S2P Require Import Connect Client Handshake Resolve Udp.

(** ** The code *)

Section session.
Context `{!Net, !ArrivalOrder, !HashOrder}.

(** [copy_bidirectional_counted(&mut self.stream, &mut target, ..).await] and the
    treatment of its result, the same for CONNECT and BIND. *)
Definition relay_to (remote : Remote) : M MerinoError usize := λ dl w,
  let r := copy_bidirectional_counted (has_stats (client w)) (relay_counters (client w))
             (remote_schedule remote) (stream (client w)) (remote_stream remote)
             (w_heap w) (clock w) in
  let st := relay_final r in
  let w := set_remote (Some (r_b st)) (set_clock (r_now st) (set_w_heap (r_cells st)
             (set_client (set_stream (r_a st) (client w)) w))) in
  match r with
  | Running _ | Stuck _ => (Pending, w)
  | Failed e _ =>
      if bool_decide (io_kind e = ErrorKind.NotConnected) then (Done 0, w) else (Throw (Io e), w)
  | Finished st =>
      (note (note_relay (progress_up st) (progress_down st));;
       mret (N.to_nat (progress_down st))) dl w
  end.

Definition connect_budget (c : SOCKClient) : Duration := default DEFAULT_CONNECT_TIMEOUT (timeout_ c).

(** Resolution and the bounded connection of a CONNECT. *)
Definition connect_target (req : SOCKSReq) : M MerinoError Remote :=
  sock_addr ← m_map_err (λ e, if bool_decide (io_kind e = ErrorKind.InvalidInput) then Io e
                              else dns_failure_error)
                (addr_to_socket (req_addr_type req) (req_addr req) (req_port req));
  w ← get;
  r ← with_timeout (connect_budget (client w)) (await_until (connect_any sock_addr (clock w)));
  match r with
  | None => throw connect_timeout_error
  | Some (Err never) => throw never
  | Some (Ok (Err e)) => throw (connect_error e)
  | Some (Ok (Ok target)) => mret target
  end.

Definition handle_bind (req : SOCKSReq) : M MerinoError usize :=
  w ← get;
  listener ← question (from_result (tcp_bind (SocketAddr_new (local_interface (client w)) 0)));
  bound ← question (from_result (l_local_addr listener));
  question (SocksReply_send (SocksReply_with_addr Success bound));;
  w ← get;
  r ← with_timeout (connect_budget (client w)) (await_answer (l_accept listener (clock w)));
  match r with
  | None => throw connect_timeout_error
  | Some (Err never) => throw never
  | Some (Ok (Err e)) => throw (Io e)
  | Some (Ok (Ok (inbound, peer))) =>
      if match expected_ip (req_addr_type req) (req_addr req) with
         | Some expected => negb (bool_decide (expected = sock_ip peer))
         | None => false
         end
      then throw (Socks RuleFailure)
      else
        question (SocksReply_send (SocksReply_with_addr Success peer));;
        relay_to inbound
  end.

Definition handle_request (req : SOCKSReq) : M MerinoError usize :=
  w ← get;
  note (note_request (client_id (client w)) (req_command req));;
  match req_command req with
  | Types.Connect =>
      target ← connect_target req;
      question (SocksReply_send (SocksReply_new Success));;
      relay_to target
  | Bind => handle_bind req
  | UdpAssosiate => handle_udp_associate req
  end.

(** A read of the client under the handshake budget. *)
Definition bounded {A} (m : M MerinoError A) : M MerinoError A :=
  w ← get;
  r ← with_timeout (handshake_timeout (client w)) m;
  match r with
  | Some r => from_result r
  | None => note note_handshake_timeout;; throw (Socks TtlExpired)
  end.

Definition init : M MerinoError unit :=
  req ← bounded negotiate;
  handle_request req;;
  mret ().

Definition handle_client : M MerinoError usize :=
  req ← bounded SOCKSReq_from_stream;
  handle_request req.

(** The [Err(error)] arm of [run_client]. *)
Definition report_failure (error : MerinoError) : M MerinoError unit :=
  let disconnected := is_client_disconnect error in
  let code := ResponseCode_from error in
  modify (λ w, set_w_stats ((if disconnected then note_disconnect
                             else note_error (ResponseCode_as_u8 code)) (w_stats w)) w);;
  w ← get;
  (if replied (client w) then mret () else m_try (SocksReply_send (SocksReply_new code));; mret ());;
  m_try stream_shutdown;;
  mret ().

(** The registration at the start of [run_client]. *)
Definition start_client (client_addr : SocketAddr) (w : World) : ActiveGuard * World :=
  let '(guard, s, h) :=
    begin_client client_addr (local_addr (client w)) (clock w) (w_stats w) (w_heap w) in
  (guard,
   set_w_stats s (set_w_heap h
     (set_client (set_guard (Some (g_id guard))
                    (Some (ActiveGuard_relay_counters guard)) (client w)) w))).

(** The guard is dropped when the task ends, normally or by a panic. *)
Definition run_client (client_addr : SocketAddr) (w : World) : outcome MerinoError unit * World :=
  let '(guard, w) := start_client client_addr w in
  let '(o, w) := match init None w with
                 | (Throw error, w) => report_failure error None w
                 | r => r
                 end in
  match o with
  | Pending => (Pending, w)
  | _ => (o, set_w_stats (ActiveGuard_drop guard (w_stats w)) w)
  end.
End session.

(** ** The handshake budget *)

Section timing.
Context `{!Net, !ArrivalOrder, !HashOrder}.

Lemma avalible_loop_timely configured n methods : timely (avalible_loop configured n methods).
Proof. revert methods. induction n as [|n IH]; intros methods; simpl; walk; auto. Qed.

Lemma note_timely {E} f : timely (note f : M E unit).
Proof. apply timely_modify. intros w. by destruct (has_stats (client w)). Qed.

Lemma from_stream_timely : timely SOCKSReq_from_stream.
Proof. unfold SOCKSReq_from_stream, read_addr. walk. Qed.

Lemma auth_with_timely methods : timely (auth_with methods).
Proof.
  unfold auth_with, read_userpass, deny. walk; try apply note_timely; try (by apply timely_modify).
Qed.

Lemma negotiate_timely : timely negotiate.
Proof.
  unfold negotiate, auth, get_avalible_methods, SOCKSReq_from_stream, read_addr.
  walk; try (by apply timely_modify); auto using avalible_loop_timely, auth_with_timely.
Qed.

Lemma bounded_timely {A} (m : M MerinoError A) w o w' :
  timely m → bounded m None w = (o, w') →
  (clock w ≤ clock w' ≤ clock w + handshake_timeout (client w))%N ∧
  ((∃ a, o = Done a) ∨ (∃ e, o = Throw e)).
Proof.
  intros Hm. unfold bounded. rewrite bind_run. cbn [get]. rewrite bind_run. unfold with_timeout.
  set (d := (clock w + handshake_timeout (client w))%N).
  destruct (m (Some d) w) as [o1 w1] eqn:E.
  destruct (Hm _ _ _ _ E) as (? & ? & ?); [lia|].
  destruct o1 as [a|e| | |]; try done.
  - intros [= <- <-]. eauto.
  - intros [= <- <-]. eauto.
  - rewrite bind_run. unfold note, modify, throw. intros [= <- <-].
    split; [by destruct (has_stats (client w1))|eauto].
Qed.

(** C28: no client can hold a task open during the handshake.  Whatever it sends
    or does not send, however slowly, the negotiation comes to a request or to
    an error within the handshake budget, and takes no longer. *)
Theorem handshake_bounded w o w' :
  bounded negotiate None w = (o, w') →
  (clock w ≤ clock w' ≤ clock w + handshake_timeout (client w))%N ∧
  ((∃ req, o = Done req) ∨ (∃ e, o = Throw e)).
Proof. apply bounded_timely, negotiate_timely. Qed.
End timing.

(** ** The registration of a connection *)

Section registration.
Context `{!Net, !ArrivalOrder, !HashOrder} (gs : list ActiveGuard).

Definition registered (w : World) : Prop := registry_inv (w_stats w) (w_heap w) gs.

Lemma registered_note {E} f :
  (∀ s h, registry_inv s h gs → registry_inv (f s) h gs) → preserves registered (note f : M E unit).
Proof.
  intros Hf. apply preserves_modify. unfold registered. intros w Hw.
  destruct (has_stats (client w)); [|done]. by apply Hf.
Qed.

Lemma registered_clock w t : registered w → registered (set_clock t w).
Proof. done. Qed.
Lemma registered_stream w s : registered w → registered (set_client (set_stream s (client w)) w).
Proof. done. Qed.

Hint Resolve registered_clock registered_stream counter_add_inv note_request_inv note_error_inv : handlers.

Lemma avalible_loop_registered configured n methods :
  preserves registered (avalible_loop configured n methods).
Proof. revert methods. induction n as [|n IH]; intros methods; simpl; walk; auto. Qed.

Lemma addr_to_socket_registered ty addr port : preserves registered (addr_to_socket ty addr port).
Proof.
  unfold addr_to_socket. walk.
  - intros dl w o w'. unfold cache_get. repeat case_match; by intros [= <- <-].
  - intros dl w o w'. unfold cache_insert. repeat case_match; by intros [= <- <-].
Qed.

Lemma negotiate_registered : preserves registered negotiate.
Proof.
  unfold negotiate, auth, get_avalible_methods, auth_with, deny, read_userpass,
    SOCKSReq_from_stream, read_addr.
  walk; try (by apply preserves_modify); try apply avalible_loop_registered;
    apply registered_note; intros; by apply counter_add_inv.
Qed.

Lemma relay_to_registered remote : preserves registered (relay_to remote).
Proof.
  intros dl w o w'. unfold relay_to.
  set (r := copy_bidirectional_counted _ _ _ _ _ _ _).
  assert (next_cell (r_cells (relay_final r)) = next_cell (w_heap w)) as Hn
    by apply relay_loop_next_cell.
  set (w1 := set_remote _ _). intros Hrun Hw.
  assert (registered w1) as Hw1 by (by eapply heap_change_inv).
  destruct r as [st|st|e st|st]; [|refine (_ dl w1 o w' Hrun Hw1)|case_bool_decide|]; try (by simplify_eq).
  walk. apply registered_note. intros. by apply counter_add_inv, counter_add_inv.
Qed.
Lemma udp_step_registered expected ev c : preserves registered (udp_step expected ev c).
Proof.
  assert (∀ data, preserves registered (udp_forward data)) as Hf.
  { intros data. unfold udp_forward, send_to. walk; try (by apply preserves_modify).
    - apply addr_to_socket_registered.
    - apply registered_note. intros. by apply counter_add_inv, counter_add_inv. }
  unfold udp_step, send_to. walk; auto; try (by apply preserves_modify).
  - intros dl w o w'. repeat case_match; by intros [= <- <-].
  - apply registered_note. intros. by apply counter_add_inv.
Qed.

Lemma udp_loop_registered expected evs c : preserves registered (udp_loop expected evs c).
Proof.
  revert c. induction evs as [|ev evs IH]; intros c; simpl.
  - intros dl w o w'. by intros [= <- <-].
  - walk; auto using udp_step_registered.
Qed.

Lemma handle_request_registered req : preserves registered (handle_request req).
Proof.
  unfold handle_request, handle_bind, connect_target, handle_udp_associate.
  walk; auto using relay_to_registered, addr_to_socket_registered, udp_loop_registered.
  apply registered_note. intros. by apply note_request_inv.
Qed.

Hint Resolve avalible_loop_registered addr_to_socket_registered negotiate_registered
  relay_to_registered udp_loop_registered handle_request_registered : handlers.

Lemma init_registered : preserves registered init.
Proof.
  unfold init, bounded. walk.
  apply registered_note. intros. by apply counter_add_inv.
Qed.

Lemma report_failure_registered e : preserves registered (report_failure e).
Proof.
  unfold report_failure. walk. apply preserves_modify. unfold registered. intros w Hw.
  destruct (is_client_disconnect e); [by apply counter_add_inv|by apply note_error_inv].
Qed.
End registration.

Section run_client.
Context `{!Net, !ArrivalOrder, !HashOrder}.

Lemma start_client_registered gs addr w guard w1 :
  start_client addr w = (guard, w1) →
  (next_client_id (w_stats w) + 1 < u64_modulus)%N → registered gs w →
  registered (guard :: gs) w1 ∧ g_ip guard = sock_ip addr.
Proof.
  unfold start_client. destruct (begin_client _ _ _ _ _) as [[g s] h] eqn:E.
  intros [= <- <-] Hid Hr. split; [|by injection E as <- _ _].
  unfold registered. cbn [w_stats w_heap set_w_stats set_w_heap set_client].
  by eapply begin_client_inv.
Qed.

(** C14: every connection is released, exactly once, on every path.  From any
    consistent registry, and whatever the client, the destination and the
    network do, when the task of a connection ends - success, error or panic -
    the registry is consistent for exactly the connections there were before;
    while it has not ended it is consistent for these and this one. *)
Theorem run_client_releases gs addr w o w' :
  registry_inv (w_stats w) (w_heap w) gs →
  (next_client_id (w_stats w) + 1 < u64_modulus)%N →
  run_client addr w = (o, w') →
  match o with
  | Pending => ∃ g, g_ip g = sock_ip addr ∧ registry_inv (w_stats w') (w_heap w') (g :: gs)
  | _ => registry_inv (w_stats w') (w_heap w') gs
  end.
Proof.
  intros Hr Hid. unfold run_client. destruct (start_client addr w) as [guard w1] eqn:Hs.
  destruct (start_client_registered gs _ _ _ _ Hs Hid Hr) as [Hr1 Hip].
  destruct (init None w1) as [o1 w2] eqn:Hi.
  pose proof (init_registered (guard :: gs) _ _ _ _ Hi Hr1) as Hr2.
  assert (∀ (o3 : outcome MerinoError unit) w3, registered (guard :: gs) w3 →
    match o3 with Pending => (Pending, w3)
    | _ => (o3, set_w_stats (ActiveGuard_drop guard (w_stats w3)) w3) end = (o, w') →
    match o with
    | Pending => ∃ g, g_ip g = sock_ip addr ∧ registry_inv (w_stats w') (w_heap w') (g :: gs)
    | _ => registry_inv (w_stats w') (w_heap w') gs
    end) as Hfin.
  { intros o3 w3 Hr3. assert (registry_inv (ActiveGuard_drop guard (w_stats w3)) (w_heap w3) gs)
      by (by apply ActiveGuard_drop_inv).
    destruct o3; intros [= <- <-]; simpl; eauto. }
  destruct o1 as [a|e| | |].
  - apply (Hfin (Done a) w2 Hr2).
  - destruct (report_failure e None w2) as [o3 w3] eqn:E. specialize (Hfin o3 w3).
    destruct o3; apply Hfin; by eapply report_failure_registered.
  - apply (Hfin Elapsed w2 Hr2).
  - apply (Hfin Pending w2 Hr2).
  - apply (Hfin Crash w2 Hr2).
Qed.
End run_client.

(** ** The reply to a failure *)

Section replies.
Context `{!Net, !ArrivalOrder, !HashOrder}.

Lemma write_none_outcome data w :
  ∃ n t o, stream_write_all data None w =
    (o, set_clock t (set_client (set_stream (log_write data n (stream (client w))) (client w)) w)) ∧
    (o = Done () ∨ (∃ e, o = Throw e) ∨ o = Pending).
Proof.
  unfold stream_write_all.
  destruct (write_all None data (clock w) (stream (client w))) as [[o t] s] eqn:E.
  pose proof (write_all_frame _ _ _ _ _ _ _ E) as (n & -> & _ & _ & Hc).
  exists n, t, o. split; [done|]. unfold write_all in E. simpl in E.
  repeat case_match; simplify_eq; eauto.
Qed.

Lemma m_try_shutdown {E F} (k : M F E) w :
  (m_try stream_shutdown;; k) None w =
  k None (set_client (set_stream (shutdown (stream (client w))).2 (client w)) w).
Proof.
  rewrite bind_run. unfold m_try, stream_shutdown. destruct (shutdown _) as [[[]|e] s]; done.
Qed.

(** The statistic of a failure. *)
Definition count_failure (e : MerinoError) (s : Stats) : Stats :=
  if is_client_disconnect e then note_disconnect s
  else note_error (ResponseCode_as_u8 (ResponseCode_from e)) s.

(** What [report_failure] does to the stream and the statistics. *)
Lemma report_failure_run e w :
  ∃ n w' o, report_failure e None w = (o, w') ∧
    w_stats w' = count_failure e (w_stats w) ∧
    (rx (stream (client w')) = rx (stream (client w)) ∧ w_remote w' = w_remote w ∧
     w_datagrams w' = w_datagrams w) ∧
    ((o = Done () ∧ out (stream (client w')) = out (stream (client w)) ++
        (if replied (client w) then [] else [OutWrite (buf (SocksReply_new (ResponseCode_from e))) n]) ++
        [OutShutdown]) ∨
     (o = Pending ∧ replied (client w) = false ∧ out (stream (client w')) = out (stream (client w)) ++
        [OutWrite (buf (SocksReply_new (ResponseCode_from e))) n])).
Proof.
  unfold report_failure. rewrite bind_run. cbn [modify]. rewrite bind_run. cbn [get].
  set (w1 := set_w_stats _ w).
  assert (w_stats w1 = count_failure e (w_stats w)) as Hst
    by (unfold w1, count_failure; simpl; by destruct (is_client_disconnect e)).
  rewrite bind_run. change (replied (client w1)) with (replied (client w)).
  destruct (replied (client w)).
  - exists 0. rewrite mret_run, m_try_shutdown. eexists _, _. split; [done|]. split; [done|]. split; [done|]. by left.
  - rewrite bind_run. unfold m_try at 1, SocksReply_send.
    destruct (write_none_outcome (buf (SocksReply_new (ResponseCode_from e))) w1)
      as (n & t & o & -> & Ho). exists n.
    destruct Ho as [->|[[e' ->]| ->]].
    + simpl. rewrite m_try_shutdown. eexists _, _. split; [done|]. split; [done|]. split; [done|]. left.
      split; [done|]. unfold shutdown. simpl. by rewrite <- app_assoc.
    + simpl. rewrite m_try_shutdown. eexists _, _. split; [done|]. split; [done|]. split; [done|]. left.
      split; [done|]. unfold shutdown. simpl. by rewrite <- app_assoc.
    + eexists _, _. split; [done|]. split; [done|]. split; [done|]. right. by split_and!.
Qed.

(** Over a stream that takes writes the reply is written whole. *)
Lemma report_failure_writable e w :
  writable (stream (client w)) → replied (client w) = false →
  ∃ w', report_failure e None w = (Done (), w') ∧
    out (stream (client w')) = out (stream (client w)) ++
      [OutWrite (buf (SocksReply_new (ResponseCode_from e)))
                (length (buf (SocksReply_new (ResponseCode_from e)))); OutShutdown].
Proof.
  intros Hw Hr. unfold report_failure. rewrite bind_run. cbn [modify]. rewrite bind_run. cbn [get].
  set (w1 := set_w_stats _ w). rewrite bind_run. change (replied (client w1)) with (replied (client w)).
  rewrite Hr, bind_run. unfold m_try at 1, SocksReply_send, stream_write_all.
  destruct (write_all_writable None (buf (SocksReply_new (ResponseCode_from e))) (clock w1)
              (stream (client w1)) Hw eq_refl) as [-> _].
  cbn beta iota. rewrite mret_run, m_try_shutdown. eexists. split; [done|].
  unfold shutdown. simpl. by rewrite <- app_assoc.
Qed.

(** C26: a failed session is answered once and then closed.  When the session
    fails with [e], one reply with the code of [e] is written, unless the
    handshake has already answered, in which case none is; then the stream is
    shut down and nothing more is written; exactly one failure is counted, a
    disconnection or an error under that code, never both. *)
Theorem run_client_failure addr w guard w1 e w2 :
  start_client addr w = (guard, w1) → init None w1 = (Throw e, w2) →
  ∃ n w' o, run_client addr w = (o, w') ∧
    ((o = Done () ∧
      w_stats w' = ActiveGuard_drop guard (count_failure e (w_stats w2)) ∧
      out (stream (client w')) = out (stream (client w2)) ++
        (if replied (client w2) then [] else [OutWrite (buf (SocksReply_new (ResponseCode_from e))) n]) ++
        [OutShutdown]) ∨
     (o = Pending ∧ replied (client w2) = false ∧
      w_stats w' = count_failure e (w_stats w2) ∧
      out (stream (client w')) = out (stream (client w2)) ++
        [OutWrite (buf (SocksReply_new (ResponseCode_from e))) n])).
Proof.
  intros Hs Hi. unfold run_client. rewrite Hs, Hi.
  destruct (report_failure_run e w2) as (n & w3 & o & -> & Hst & _ & [[-> Hout]|(-> & Hrep & Hout)]).
  - exists n. eexists _, _. split; [done|]. left. split_and!; [done| |done]. by rewrite <- Hst.
  - exists n, w3, Pending. split; [done|]. right. by split_and!.
Qed.

(** A negotiation under its budget. *)
Lemma bounded_Throw {A} (m : M MerinoError A) w e w1 :
  m (Some (clock w + handshake_timeout (client w))%N) w = (Throw e, w1) →
  bounded m None w = (Throw e, w1).
Proof.
  intros Hm. unfold bounded. rewrite bind_run. cbn [get]. rewrite bind_run. unfold with_timeout.
  by rewrite Hm.
Qed.

Lemma bounded_Done {A} (m : M MerinoError A) w a w1 :
  m (Some (clock w + handshake_timeout (client w))%N) w = (Done a, w1) →
  bounded m None w = (Done a, w1).
Proof.
  intros Hm. unfold bounded. rewrite bind_run. cbn [get]. rewrite bind_run. unfold with_timeout.
  by rewrite Hm.
Qed.

(** When a session can first be ready: at its start. *)
Definition ready_at_start (addr : SocketAddr) (w : World) (bytes : list u8) (rest : list (N * u8))
    : Prop :=
  ready (Some (clock w + handshake_timeout (client w))%N) w bytes rest.

Lemma ready_start addr w bytes rest :
  ready_at_start addr w bytes rest →
  ready (Some (clock w + handshake_timeout (client w))%N) (start_client addr w).2 bytes rest.
Proof.
  unfold ready_at_start, start_client. by destruct (begin_client _ _ _ _ _) as [[g s] h].
Qed.

(** A client with no acceptable method is answered twice.  After the
    method reply [05 FF] and the shutdown of the stream the session still
    writes a ten-byte failure reply and shuts the stream down again: the flag
    that suppresses the second answer is not set on this path. *)
Theorem run_client_no_method addr w offered rest :
  length offered < 256 →
  AuthMethods_as_u8 UserPass ∉ accepted (auth_methods (client w)) offered →
  AuthMethods_as_u8 NoAuth ∉ accepted (auth_methods (client w)) offered →
  replied (client w) = false →
  ready_at_start addr w (encode_greeting SOCKS_VERSION offered) rest →
  ∃ n w' o, run_client addr w = (o, w') ∧
    ∃ tail, out (stream (client w')) = out (stream (client w)) ++
      [OutWrite [SOCKS_VERSION; xff] 2; OutShutdown;
       OutWrite [SOCKS_VERSION; x01; x00; x01; x00; x00; x00; x00; x00; x00] n] ++ tail ∧
      tail = (if o is Pending then [] else [OutShutdown]).
Proof.
  intros Hlen Hu Hn Hrep Hr. apply ready_start in Hr.
  destruct (start_client addr w) as [guard w1] eqn:Hs. cbn [snd] in Hr.
  assert (client w1 = set_guard (client_id (client w1)) (relay_counters (client w1)) (client w) ∧
          clock w1 = clock w) as [Hc Hclk].
  { unfold start_client in Hs. destruct (begin_client _ _ _ _ _) as [[g s] h]. by injection Hs as <- <-. }
  destruct (negotiate_refused offered (Some (clock w + handshake_timeout (client w))%N) w1 rest Hlen)
    as (e & w2 & E & Hcode & _ & Hout & Hrep2 & _); [by rewrite Hc..|done|].
  assert (init None w1 = (Throw e, w2)) as Hi.
  { unfold init. rewrite bind_run, (bounded_Throw _ _ e w2); [done|].
    rewrite <- E, Hclk. f_equal. by rewrite Hc. }
  unfold run_client. rewrite Hs, Hi.
  destruct (report_failure_run e w2) as (n & w3 & o & -> & _ & _ & Hcases).
  rewrite Hrep2, Hc, Hcode in Hcases. cbn [replied set_guard] in Hcases. rewrite Hrep in Hcases.
  rewrite Hc in Hout. cbn [stream set_guard] in Hout. rewrite Hout in Hcases.
  exists n. destruct Hcases as [[-> Ho]|(-> & _ & Ho)].
  - eexists _, _. split; [done|]. exists [OutShutdown]. split; [|done]. simpl.
    simpl in Ho. by rewrite Ho, <- !app_assoc.
  - eexists _, _. split; [done|]. exists []. split; [|done].
    simpl in Ho. by rewrite Ho, <- !app_assoc.
Qed.
End replies.

(** ** CONNECT *)

Section connect_facts.
Context `{!Net, !ArrivalOrder, !HashOrder}.

(** The outcome of the bounded race, from the moment the addresses are known. *)
Definition race_outcome (l : list SocketAddr) (now budget : N) : outcome MerinoError Remote * N :=
  match connect_any l now with
  | Some (t, r) =>
      if (t <=? now + budget)%N then
        (match r with Ok remote => Done remote | Err e => Throw (connect_error e) end, N.max now t)
      else (Throw connect_timeout_error, now + budget)%N
  | None => (Throw connect_timeout_error, now + budget)%N
  end.

Lemma connect_target_run req w :
  connect_target req None w =
  match addr_to_socket (req_addr_type req) (req_addr req) (req_port req) None w with
  | (Done l, w1) =>
      (fst (race_outcome l (clock w1) (connect_budget (client w1))),
       set_clock (snd (race_outcome l (clock w1) (connect_budget (client w1)))) w1)
  | (Throw e, w1) =>
      (Throw (if bool_decide (io_kind e = ErrorKind.InvalidInput) then Io e else dns_failure_error), w1)
  | (Elapsed, w1) => (Elapsed, w1)
  | (Pending, w1) => (Pending, w1)
  | (Crash, w1) => (Crash, w1)
  end.
Proof.
  unfold connect_target. rewrite bind_run. unfold m_map_err.
  destruct (addr_to_socket _ _ _ None w) as [[l|e| | |] w1]; try done.
  rewrite bind_run. cbn [get]. rewrite bind_run. unfold with_timeout, await_until, race_outcome.
  destruct (connect_any l (clock w1)) as [[t r]|].
  - cbn [deadline_ok]. destruct (N.leb_spec t (clock w1 + connect_budget (client w1))).
    + by destruct r.
    + unfold cut_at, cut_clock. cbn [fst snd]. unfold throw. do 2 f_equal. lia.
  - unfold cut_at, cut_clock. cbn [fst snd]. unfold throw. do 2 f_equal. lia.
Qed.

(** C24: a destination that can be reached in time is reached.  If the address
    at position [i] of the resolved list accepts [d] after its attempt starts,
    250 ms times [i] into the race, and that is within the connect budget, then
    the CONNECT gets a connection no later, whatever the other addresses do. *)
Theorem connect_target_reaches req w l w1 i a d r :
  addr_to_socket (req_addr_type req) (req_addr req) (req_port req) None w = (Done l, w1) →
  l !! i = Some a →
  tcp_connect a (attempt_start (clock w1) i) = Some (d, Ok r) →
  (attempt_start (clock w1) i + d ≤ clock w1 + connect_budget (client w1))%N →
  ∃ remote w2, connect_target req None w = (Done remote, w2) ∧
    (clock w2 ≤ attempt_start (clock w1) i + d)%N ∧
    ∃ j b t, l !! j = Some b ∧ attempt (clock w1) j b = Some (t, Ok remote).
Proof.
  intros Hl Hi Hc Hle.
  destruct (connect_any_success l (clock w1) i a d r Hi Hc) as (t & s & Hr & Ht & (j & b & Hj & Hb) & _).
  rewrite connect_target_run, Hl. unfold race_outcome. rewrite Hr.
  destruct (N.leb_spec t (clock w1 + connect_budget (client w1))); [|lia].
  exists s. eexists. split; [done|]. split; [|by exists j, b, t]. cbn [clock set_clock snd].
  pose proof (attempt_start_ge (clock w1) i). lia.
Qed.

(** What a failed CONNECT tells the client.  A name that does not resolve is
    host unreachable; TTL expired means that the budget ran out with no address
    accepting within it; any other code is that of an attempt that failed, after
    all had failed; and nothing has been written to the client. *)
Theorem connect_target_failure req w e w2 :
  connect_target req None w = (Throw e, w2) →
  (∃ io, addr_to_socket (req_addr_type req) (req_addr req) (req_port req) None w = (Throw io, w2) ∧
     e = if bool_decide (io_kind io = ErrorKind.InvalidInput) then Io io else Socks HostUnreachable) ∨
  ∃ l w1, addr_to_socket (req_addr_type req) (req_addr req) (req_port req) None w = (Done l, w1) ∧
    ((e = Socks TtlExpired ∧ clock w2 = (clock w1 + connect_budget (client w1))%N ∧
      ∀ i a t r, l !! i = Some a → attempt (clock w1) i a = Some (t, Ok r) →
                 (clock w1 + connect_budget (client w1) < t)%N) ∨
     (∃ io, e = connect_error io ∧
      ∀ i a, l !! i = Some a → ∃ t io', attempt (clock w1) i a = Some (t, Err io'))).
Proof.
  rewrite connect_target_run.
  destruct (addr_to_socket _ _ _ None w) as [[l|io| | |] w1]; try done.
  2: { intros [= <- <-]. left. by exists io. }
  intros Hr. right. exists l, w1. split; [done|]. unfold race_outcome in Hr.
  assert (∀ i a t r, l !! i = Some a → attempt (clock w1) i a = Some (t, Ok r) →
    ∃ t' s, connect_any l (clock w1) = Some (t', Ok s) ∧ (t' ≤ t)%N) as Hsucc.
  { intros i a t r Hi Ha. unfold attempt in Ha.
    destruct (tcp_connect a _) as [[d r']|] eqn:Hc; [|done]. injection Ha as <- ->.
    destruct (connect_any_success l (clock w1) i a d r Hi Hc) as (t' & s & ? & ? & _). eauto. }
  destruct (connect_any l (clock w1)) as [[t r]|] eqn:Hany.
  - destruct (N.leb_spec t (clock w1 + connect_budget (client w1))).
    + destruct r as [s|io]; [done|]. injection Hr as <- <-. right. exists io. split; [done|].
      intros i a Hi. apply connect_any_failure in Hany as [Hall _].
      destruct (Hall i a Hi) as (t' & e' & ? & _). eauto.
    + injection Hr as <- <-. left. split_and!; [done|done|].
      intros i a t' r' Hi Ha. destruct (Hsucc i a t' r' Hi Ha) as (t1 & s & Heq & ?).
      simplify_eq. lia.
  - injection Hr as <- <-. left. split_and!; [done|done|].
    intros i a t' r' Hi Ha. by destruct (Hsucc i a t' r' Hi Ha) as (t1 & s & ? & _).
Qed.
End connect_facts.

(** ** A whole session *)

Section whole.
Context `{!Net, !ArrivalOrder, !HashOrder}.

(** A negotiation neither connects nor sends datagrams. *)
Lemma negotiate_local r l : preserves (λ w, w_remote w = r ∧ w_datagrams w = l) negotiate.
Proof.
  assert (∀ configured n methods, preserves (λ w, w_remote w = r ∧ w_datagrams w = l)
            (avalible_loop configured n methods)) as Hloop.
  { intros configured n. induction n as [|n IH]; intros methods; simpl; walk; auto. }
  unfold negotiate, auth, get_avalible_methods, auth_with, deny, read_userpass,
    SOCKSReq_from_stream, read_addr.
  walk; auto; apply preserves_modify; intros w Hw; try done; by destruct (has_stats (client w)).
Qed.

Lemma negotiate_cache k : preserves (λ w, w_cache w = k) negotiate.
Proof.
  assert (∀ configured n methods, preserves (λ w, w_cache w = k)
            (avalible_loop configured n methods)) as Hloop.
  { intros configured n. induction n as [|n IH]; intros methods; simpl; walk; auto. }
  unfold negotiate, auth, get_avalible_methods, auth_with, deny, read_userpass,
    SOCKSReq_from_stream, read_addr.
  walk; auto; apply preserves_modify; intros w Hw; try done; by destruct (has_stats (client w)).
Qed.

Lemma start_client_eq addr w guard w1 :
  start_client addr w = (guard, w1) →
  client w1 = set_guard (client_id (client w1)) (relay_counters (client w1)) (client w) ∧
  clock w1 = clock w ∧ w_remote w1 = w_remote w ∧ w_datagrams w1 = w_datagrams w ∧
  w_cache w1 = w_cache w ∧ counters (w_stats w1) = counters (w_stats w).
Proof.
  unfold start_client, begin_client. destruct (heap_alloc 0 (w_heap w)) as [u h1].
  destruct (heap_alloc 0 h1) as [d h2]. by intros [= <- <-].
Qed.

Lemma count_failure_auth e s :
  counters (count_failure e s) auth_failures = counters s auth_failures.
Proof.
  unfold count_failure. destruct (is_client_disconnect e); [|done].
  unfold note_disconnect, counter_add. simpl. by rewrite fn_lookup_insert_ne.
Qed.

(** C25: a client that fails to authenticate gets nowhere.  For a client that
    sends wrong credentials, the whole session consists of the method choice and
    the two-byte failure, followed by nothing but shutdowns; its bytes after the
    credentials are never read, no connection is made for it and no datagram is
    sent; one authentication failure is counted. *)
Theorem run_client_denied addr w offered creds rest :
  length offered < 256 →
  width (client w) = credential_width (authed_users (client w)) →
  AuthMethods_as_u8 UserPass ∈ accepted (auth_methods (client w)) offered →
  userpass_wf creds = true →
  (up_version creds ≠ x01 ∨ ¬ ∃ u, u ∈ authed_users (client w) ∧
     as_bytes (username u) = up_username creds ∧ as_bytes (password u) = up_password creds) →
  has_stats (client w) = true →
  ready_at_start addr w (encode_greeting SOCKS_VERSION offered ++ encode_userpass creds) rest →
  ∃ w', run_client addr w = (Done (), w') ∧
    out (stream (client w')) = out (stream (client w)) ++
      [OutWrite [SOCKS_VERSION; x02] 2; OutWrite [x01; x01] 2; OutShutdown; OutShutdown] ∧
    rx (stream (client w')) = rest ∧ w_remote w' = w_remote w ∧ w_datagrams w' = w_datagrams w ∧
    counters (w_stats w') auth_failures = u64_add (counters (w_stats w) auth_failures) 1.
Proof.
  intros Hlen Hwidth Hin Hwf Hbad Hstats Hr. apply ready_start in Hr.
  destruct (start_client addr w) as [guard w1] eqn:Hs. cbn [snd] in Hr.
  destruct (start_client_eq _ _ _ _ Hs) as (Hc & Hclk & Hrem & Hdg & _ & Hcnt).
  destruct (negotiate_rejected offered creds (Some (clock w + handshake_timeout (client w))%N) w1 rest Hlen)
    as (e & w2 & E & Hcode & Hrx & Hout & Hrep & Hst); [by rewrite Hc..|done|by rewrite Hc|done|].
  assert (init None w1 = (Throw e, w2)) as Hi.
  { unfold init. rewrite bind_run, (bounded_Throw _ _ e w2); [done|].
    rewrite <- E, Hclk. f_equal. by rewrite Hc. }
  destruct (negotiate_local (w_remote w) (w_datagrams w) _ _ _ _ E (conj Hrem Hdg))
    as [Hrem2 Hdg2].
  unfold run_client. rewrite Hs, Hi.
  destruct (report_failure_run e w2) as (n & w3 & o & E3 & Hst3 & (Hrx3 & Hrem3 & Hdg3) & Hcases).
  rewrite E3.
  rewrite Hrep in Hcases. destruct Hcases as [[-> Ho]|(_ & ? & _)]; [|done].
  eexists. split; [done|]. split_and!; try done.
  - cbn [client set_w_stats]. rewrite Ho, Hout, Hc. by rewrite <- app_assoc.
  - simpl. congruence.
  - simpl. congruence.
  - simpl. congruence.
  - cbn [w_stats set_w_stats]. change (counters (ActiveGuard_drop guard ?s)) with (counters s).
    rewrite Hst3, count_failure_auth, Hst, Hc. cbn [has_stats set_guard]. rewrite Hstats.
    unfold note_auth_failure, counter_add. simpl. by rewrite fn_lookup_insert, Hcnt.
Qed.
Lemma negotiate_config b t :
  preserves (λ w, has_stats (client w) = b ∧ timeout_ (client w) = t) negotiate.
Proof.
  assert (∀ configured n methods, preserves (λ w, has_stats (client w) = b ∧ timeout_ (client w) = t)
            (avalible_loop configured n methods)) as Hloop.
  { intros configured n. induction n as [|n IH]; intros methods; simpl; walk; auto. }
  unfold negotiate, auth, get_avalible_methods, auth_with, deny, read_userpass,
    SOCKSReq_from_stream, read_addr.
  walk; auto; apply preserves_modify; intros w Hw; try done;
    by match goal with |- context [if ?b then _ else _] => generalize b; intros [] end.
Qed.

(** How the client's stream ends is not the handlers' doing. *)
Section stream_end.
Context (e : stream_end).
Let ends_in (w : World) : Prop := rx_end (stream (client w)) = e.

Lemma read_rx_end n : preserves ends_in (stream_read_exact n).
Proof.
  intros dl w o w'. unfold stream_read_exact.
  destruct (read_exact dl n _ _) as [[o1 t] s] eqn:E. intros [= <- <-] Hw.
  apply read_exact_frame in E as (_ & -> & _). exact Hw.
Qed.

Lemma write_rx_end data : preserves ends_in (stream_write_all data).
Proof.
  intros dl w o w'. unfold stream_write_all.
  destruct (write_all dl data _ _) as [[o1 t] s] eqn:E. intros [= <- <-] Hw.
  apply write_all_frame in E as (n & -> & _). exact Hw.
Qed.

Lemma shutdown_rx_end : preserves ends_in stream_shutdown.
Proof.
  intros dl w o w'. unfold stream_shutdown, shutdown. intros Hrun Hw.
  eapply preserves_from_result; [exact Hrun|exact Hw].
Qed.

Hint Resolve read_rx_end write_rx_end shutdown_rx_end : handlers.

Lemma negotiate_rx_end : preserves ends_in negotiate.
Proof.
  assert (∀ configured n methods, preserves ends_in (avalible_loop configured n methods)) as Hloop.
  { intros configured n. induction n as [|n IH]; intros methods; simpl; walk; auto. }
  unfold negotiate, auth, get_avalible_methods, auth_with, deny, read_userpass,
    SOCKSReq_from_stream, read_addr.
  walk; auto; apply preserves_modify; intros w Hw; try done;
    unfold ends_in in *; by destruct (has_stats (client w)).
Qed.
End stream_end.

Lemma tx_out_app (s s' : Stream) l : out s' = out s ++ l → tx s' = tx s ++ flat_map sent l.
Proof. intros Hout. unfold tx. by rewrite Hout, flat_map_app. Qed.

(** Whenever a request is complete within the handshake budget, its destination
    resolves, from the cache or by the resolver, to addresses one of which accepts
    within the connect budget with [remote]; the others may refuse, hang or accept
    with the same. *)
Definition leads_to (w : World) (req : SOCKSReq) (remote : Remote) : Prop :=
  ∀ t, (clock w ≤ t ≤ clock w + handshake_timeout (client w))%N →
  ∃ addrs w2 i a d,
    addr_to_socket (req_addr_type req) (req_addr req) (req_port req) None (set_clock t w) =
      (Done addrs, w2) ∧
    addrs !! i = Some a ∧ tcp_connect a (attempt_start (clock w2) i) = Some (d, Ok remote) ∧
    (attempt_start (clock w2) i + d ≤ clock w2 + connect_budget (client w))%N ∧
    ∀ j b d' r, addrs !! j = Some b →
      tcp_connect b (attempt_start (clock w2) j) = Some (d', Ok r) → r = remote.

(** The race over such addresses. *)
Lemma race_won addrs now budget i a d remote :
  addrs !! i = Some a → tcp_connect a (attempt_start now i) = Some (d, Ok remote) →
  (attempt_start now i + d ≤ now + budget)%N →
  (∀ j b d' r, addrs !! j = Some b → tcp_connect b (attempt_start now j) = Some (d', Ok r) →
     r = remote) →
  fst (race_outcome addrs now budget) = Done remote.
Proof.
  intros Hi Hc Hd Huniq.
  destruct (connect_any_success addrs now i a d remote Hi Hc)
    as (t & s & Hr & Ht & (j & b & Hj & Hb) & _).
  unfold race_outcome. rewrite Hr. destruct (N.leb_spec t (now + budget)); [|lia].
  unfold attempt in Hb. destruct (tcp_connect b _) as [[d' r]|] eqn:E; [|done].
  injection Hb as _ ->. by rewrite (Huniq _ _ _ _ Hj E).
Qed.

(** A relay over a connection both of whose ends deliver and take everything. *)
Lemma relay_to_finishes remote w :
  at_eof (stream (client w)) → at_eof (remote_stream remote) →
  writable (stream (client w)) → writable (remote_stream remote) →
  (length (rx (stream (client w))) < count_ev is_read_a (remote_schedule remote))%nat →
  (length (rx (remote_stream remote)) < count_ev is_read_b (remote_schedule remote))%nat →
  has_stats (client w) = true →
  ∃ n w' target, relay_to remote None w = (Done n, w') ∧ w_remote w' = Some target ∧
    tx target = tx (remote_stream remote) ++ rx_bytes (stream (client w)) ∧
    tx (stream (client w')) = tx (stream (client w)) ++ rx_bytes (remote_stream remote) ∧
    counters (w_stats w') bytes_client_to_target =
      u64_add (counters (w_stats w) bytes_client_to_target)
        (N.of_nat (length (rx (stream (client w)))) mod u64_modulus) ∧
    counters (w_stats w') bytes_target_to_client =
      u64_add (counters (w_stats w) bytes_target_to_client)
        (N.of_nat (length (rx (remote_stream remote))) mod u64_modulus).
Proof.
  intros Ha Hb Hwa Hwb Hla Hlb Hst.
  destruct (relay_finishes (has_stats (client w)) (relay_counters (client w)) (remote_schedule remote)
              (stream (client w)) (remote_stream remote) (w_heap w) (clock w) Ha Hb Hwa Hwb Hla Hlb)
    as (st & E & Htxa & Htxb & Hup & Hdown).
  unfold relay_to. rewrite E. cbn [relay_final]. rewrite bind_run. unfold note, modify.
  cbn [client set_client set_clock set_remote set_w_heap set_stream has_stats]. rewrite Hst.
  rewrite mret_run. eexists _, _, _. split; [done|]. cbn [w_remote set_w_stats set_remote].
  split; [done|]. split_and!; [done|done| |].
  - unfold note_relay, counter_add. simpl.
    rewrite fn_lookup_insert_ne by done. by rewrite fn_lookup_insert, Hup.
  - unfold note_relay, counter_add. simpl. rewrite fn_lookup_insert.
    rewrite fn_lookup_insert_ne by done. by rewrite Hdown.
Qed.

(** A CONNECT request once it was read: reply, relay and totals. *)
Lemma handle_request_connect req remote w w0 :
  req_command req = Types.Connect →
  leads_to w0 req remote → timeout_ (client w0) = timeout_ (client w) → w_cache w = w_cache w0 →
  (clock w0 ≤ clock w ≤ clock w0 + handshake_timeout (client w0))%N →
  at_eof (stream (client w)) → at_eof (remote_stream remote) →
  writable (stream (client w)) → writable (remote_stream remote) →
  (length (rx (stream (client w))) < count_ev is_read_a (remote_schedule remote))%nat →
  (length (rx (remote_stream remote)) < count_ev is_read_b (remote_schedule remote))%nat →
  has_stats (client w) = true →
  ∃ n w' target, handle_request req None w = (Done n, w') ∧ w_remote w' = Some target ∧
    tx target = tx (remote_stream remote) ++ rx_bytes (stream (client w)) ∧
    tx (stream (client w')) =
      tx (stream (client w)) ++ buf (SocksReply_new Success) ++ rx_bytes (remote_stream remote) ∧
    counters (w_stats w') bytes_client_to_target =
      u64_add (counters (w_stats w) bytes_client_to_target)
        (N.of_nat (length (rx (stream (client w)))) mod u64_modulus) ∧
    counters (w_stats w') bytes_target_to_client =
      u64_add (counters (w_stats w) bytes_target_to_client)
        (N.of_nat (length (rx (remote_stream remote))) mod u64_modulus).
Proof.
  intros Hcmd Hlead Hto Hcache Hclk He Hrem Hw Hwrem Hla Hlb Hst.
  set (w3 := set_w_stats (note_request (client_id (client w)) (req_command req) (w_stats w)) w).
  assert (∀ c, c = bytes_client_to_target ∨ c = bytes_target_to_client →
    counters (w_stats w3) c = counters (w_stats w) c) as Hcnt.
  { intros c Hcc. unfold w3, note_request. destruct (client_id (client w)); simpl;
      (rewrite fn_lookup_insert_ne; [done|]); by destruct Hcc as [-> | ->], (req_command req). }
  destruct (Hlead (clock w) Hclk) as (addrs & wr & i & a & d & Hres & Hi & Hconn & Hd & Huniq).
  pose proof (connect_target_run req w3) as Hct.
  rewrite (addr_to_socket_local _ _ _ (set_clock (clock w) w0) w3), Hres in Hct by done.
  cbn [fst snd clock set_clock client] in Hct.
  change (client (set_w_cache _ w3)) with (client w) in Hct.
  assert (connect_budget (client w0) = connect_budget (client w)) as Hb
    by (unfold connect_budget; by rewrite Hto). rewrite Hb in Hd.
  rewrite (race_won addrs _ _ i a d remote Hi Hconn Hd Huniq) in Hct.
  set (w4 := set_clock _ (set_clock _ _)) in Hct.
  destruct (write_all_writable None (buf (SocksReply_new Success)) (clock w4) (stream (client w4)) Hw eq_refl)
    as [Hwr Hw5].
  set (s5 := log_write _ _ _) in *.
  set (w5 := set_clock (clock w4) (set_client (set_stream s5 (client w4)) w4)).
  assert (question (SocksReply_send (SocksReply_new Success)) None w4 = (Done (), w5)) as Hsend.
  { apply question_run. unfold SocksReply_send, stream_write_all. by rewrite Hwr. }
  destruct (relay_to_finishes remote w5 He Hrem Hw5 Hwrem Hla Hlb Hst)
    as (n & w6 & target & Hrelay & Hrt & Ht1 & Ht2 & Hc1 & Hc2).
  exists n, w6, target. split_and!; [|done|done| | |].
  - unfold handle_request. rewrite bind_run. cbn [get]. rewrite bind_run.
    unfold note, modify. rewrite Hst. fold w3. rewrite Hcmd. rewrite bind_run, Hct, bind_run, Hsend.
    by rewrite Hrelay.
  - rewrite Ht2. change (stream (client w5)) with s5. unfold s5.
    rewrite tx_log_write, firstn_all, <- app_assoc. done.
  - rewrite Hc1. change (counters (w_stats w5)) with (counters (w_stats w3)). rewrite Hcnt by auto. done.
  - rewrite Hc2. change (counters (w_stats w5)) with (counters (w_stats w3)). rewrite Hcnt by auto. done.
Qed.

(** C1: the proxy proxies.  A well-behaved client that authenticates and asks
    to CONNECT to a destination, by address or by name, that resolves (whether or
    not there is a cache, and whatever is in it) and accepts within the budget has
    its session run to completion: it is sent the method choice, the
    authentication result, the success reply and then every byte the
    destination sends; the destination is sent every byte the client sends after
    its request, and nothing else; and both totals are counted exactly. *)
Theorem run_client_connect addr w offered sent_bytes replies rsv req rest remote :
  length offered < 256 →
  width (client w) = credential_width (authed_users (client w)) →
  authenticated (client w) offered sent_bytes replies →
  req_version req = SOCKS_VERSION → request_wf req = true → req_command req = Types.Connect →
  ready_at_start addr w (encode_greeting SOCKS_VERSION offered ++ sent_bytes ++ encode_request rsv req) rest →
  leads_to w req remote →
  at_eof (stream (client w)) → at_eof (remote_stream remote) → writable (remote_stream remote) →
  (length rest < count_ev is_read_a (remote_schedule remote))%nat →
  (length (rx (remote_stream remote)) < count_ev is_read_b (remote_schedule remote))%nat →
  has_stats (client w) = true →
  ∃ w' target, run_client addr w = (Done (), w') ∧ w_remote w' = Some target ∧
    tx target = tx (remote_stream remote) ++ rest.*2 ∧
    tx (stream (client w')) = tx (stream (client w)) ++ flat_map sent replies ++
      buf (SocksReply_new Success) ++ rx_bytes (remote_stream remote) ∧
    counters (w_stats w') bytes_client_to_target =
      u64_add (counters (w_stats w) bytes_client_to_target)
        (N.of_nat (length rest) mod u64_modulus) ∧
    counters (w_stats w') bytes_target_to_client =
      u64_add (counters (w_stats w) bytes_target_to_client)
        (N.of_nat (length (rx (remote_stream remote))) mod u64_modulus).
Proof.
  intros Hlen Hwidth Hauth Hv Hwf Hcmd Hr Hlead [te He] Hrem Hwrem Hla Hlb Hst.
  apply ready_start in Hr. destruct (start_client addr w) as [guard w1] eqn:Hs. cbn [snd] in Hr.
  destruct (start_client_eq _ _ _ _ Hs) as (Hc & Hclk & _ & _ & Hcache & Hcnt).
  destruct (negotiate_ready offered sent_bytes replies rsv req
              (Some (clock w + handshake_timeout (client w))%N) w1 rest Hlen)
    as (w2 & E & Hr2 & Hout); [by rewrite Hc|by rewrite Hc; destruct Hauth; econstructor|done..|].
  assert (rx_end (stream (client w1)) = EndEof te) as He1 by (by rewrite Hc).
  pose proof (negotiate_rx_end (EndEof te) _ _ _ _ E He1) as He2.
  destruct (negotiate_config true (timeout_ (client w)) _ _ _ _ E) as [Hst2 Hto2];
    [rewrite Hc; by split|].
  destruct (negotiate_inv _ _ _ _ E) as (_ & _ & _ & _ & _ & _ & _ & _ & _ & _ & _ & Hstats2 & _);
    [by rewrite Hc|].
  assert (rx (stream (client w2)) = rest ∧ writable (stream (client w2))) as [Hrx2 Hw2].
  { destruct Hr2 as (_ & Hw & l & Hl & Hnil & _). by apply fmap_nil_inv in Hnil as ->. }
  clear Hr2. rewrite <- Hrx2 in Hla.
  pose proof (negotiate_cache (w_cache w) _ _ _ _ E Hcache) as Hcache2.
  destruct (negotiate_timely _ _ _ _ E) as (Hclk2 & _); [lia|]. rewrite Hclk in Hclk2.
  destruct (handle_request_connect req remote w2 w Hcmd Hlead)
    as (n & w6 & target & Hrun & Hrt & Ht1 & Ht2 & Hc1 & Hc2);
    [done|done|lia|by exists te|done..|].
  assert (init None w1 = (Done (), w6)) as Hi.
  { unfold init. rewrite bind_run, (bounded_Done _ _ req w2), bind_run, Hrun; [done|].
    rewrite <- E, Hclk. f_equal. by rewrite Hc. }
  unfold run_client. rewrite Hs, Hi. eexists _, target.
  cbn [client w_stats set_w_stats].
  split_and!; [done|exact Hrt|by rewrite Ht1, <- Hrx2| | |]; cbn [client w_stats set_w_stats].
  - rewrite Ht2, (tx_out_app _ _ _ Hout), Hc. cbn [stream set_guard]. by rewrite <- !app_assoc.
  - change (counters (ActiveGuard_drop guard ?s)) with (counters s).
    by rewrite Hc1, Hrx2, Hstats2, Hcnt.
  - change (counters (ActiveGuard_drop guard ?s)) with (counters s). by rewrite Hc2, Hstats2, Hcnt.
Qed.
End whole.

(** ** Witnesses *)

(** A network in which 10.0.0.2:80 accepts and sends [demo_b]. *)
Definition demo_session_net : Net := demo_net demo_remote demo_listener.
#[local] Existing Instance demo_session_net.
#[local] Existing Instance map_order.

Definition demo_addr : SocketAddr := SockV4 [# x7f; x00; x00; x01] 4000.

(** A client that says nothing. *)
Definition silent_world : World :=
  set_client (set_stream {| rx := [(1%N, x05)]; rx_end := EndSilent; writes := []; shutdowns := [];
                            out := [] |} (demo_client [x02] [])) (demo_world [x02] []).

Lemma handshake_bounded_witness :
  ∃ o w', bounded negotiate None silent_world = (o, w') ∧ (clock w' ≤ from_secs 30)%N ∧
    ((∃ req, o = Done req) ∨ (∃ e, o = Throw e)).
Proof.
  destruct (bounded negotiate None silent_world) as [o w'] eqn:E. exists o, w'.
  destruct (handshake_bounded silent_world o w' E) as [[_ Ht] Ho].
  split; [reflexivity|]. split; [exact Ht|exact Ho].
Defined.

Lemma run_client_releases_witness :
  ∃ o w', run_client demo_addr silent_world = (o, w') ∧
    match o with Pending => True | _ => registry_inv (w_stats w') (w_heap w') [] end.
Proof.
  destruct (run_client demo_addr silent_world) as [o w'] eqn:E. exists o, w'. split; [reflexivity|].
  pose proof (run_client_releases [] demo_addr silent_world o w'
                (registry_inv_init 0 0) eq_refl E) as H.
  destruct o; try exact H. exact I.
Defined.

Definition silent_start : ActiveGuard * World := start_client demo_addr silent_world.

Lemma run_client_failure_witness :
  ∃ n w' o, run_client demo_addr silent_world = (o, w') ∧
    (o = Done () → out (stream (client w')) = [OutWrite (buf (SocksReply_new TtlExpired)) n; OutShutdown]).
Proof.
  assert (fst (init None (snd silent_start)) = Throw (Socks TtlExpired)) as Ho1 by reflexivity.
  assert (out (stream (client (snd (init None (snd silent_start))))) = []) as Hout by reflexivity.
  assert (replied (client (snd (init None (snd silent_start)))) = false) as Hrep by reflexivity.
  destruct (init None (snd silent_start)) as [o1 w2] eqn:Hi. cbn [fst snd] in Ho1, Hout, Hrep. subst o1.
  destruct (run_client_failure demo_addr silent_world (fst silent_start) (snd silent_start)
              (Socks TtlExpired) w2 eq_refl Hi) as (n & w' & o & Hrun & Hcases).
  exists n, w', o. split; [exact Hrun|]. intros ->.
  destruct Hcases as [(_ & _ & Ho)|(Habs & _)]; [|discriminate Habs].
  rewrite Ho, Hout, Hrep. reflexivity.
Defined.

Lemma run_client_no_method_witness :
  ∃ n w' o tail, run_client demo_addr (demo_world [x02] (encode_greeting SOCKS_VERSION [x00] ++ [])) = (o, w') ∧
    out (stream (client w')) =
      [OutWrite [SOCKS_VERSION; xff] 2; OutShutdown;
       OutWrite [SOCKS_VERSION; x01; x00; x01; x00; x00; x00; x00; x00; x00] n] ++ tail.
Proof.
  destruct (run_client_no_method demo_addr
    (demo_world [x02] (encode_greeting SOCKS_VERSION [x00] ++ [])) [x00] [])
    as (n & w' & o & E & tail & Hout & _).
  - vm_compute. lia.
  - vm_compute. by intros ?%not_elem_of_nil.
  - vm_compute. by intros ?%not_elem_of_nil.
  - reflexivity.
  - apply (demo_ready _ [x02] (encode_greeting SOCKS_VERSION [x00]) []). reflexivity.
  - exists n, w', o, tail. split; [exact E|exact Hout].
Defined.

Lemma connect_target_reaches_witness :
  ∃ remote w2, connect_target demo_request None (demo_world [x02] []) = (Done remote, w2) ∧
    (clock w2 ≤ from_millis 20)%N.
Proof.
  destruct (connect_target_reaches demo_request (demo_world [x02] []) [demo_v4 x02] (demo_world [x02] [])
              0 (demo_v4 x02) (from_millis 20) demo_remote) as (remote & w2 & E & Hc & _).
  - reflexivity.
  - reflexivity.
  - reflexivity.
  - vm_compute. discriminate.
  - exists remote, w2. split; [exact E|exact Hc].
Defined.

Definition demo_refused : SOCKSReq :=
  {| req_version := x05; req_command := Types.Connect; req_addr_type := V4;
     req_addr := [x0a; x00; x00; x03]; req_port := 80 |}.

Lemma connect_target_failure_witness :
  ∃ w2, connect_target demo_refused None (demo_world [x02] []) = (Throw (Socks ConnectionRefused), w2) ∧
    (∃ io, Socks ConnectionRefused = connect_error io).
Proof.
  assert (connect_target demo_refused None (demo_world [x02] []) =
          (Throw (Socks ConnectionRefused), snd (connect_target demo_refused None (demo_world [x02] []))))
    as E by reflexivity.
  eexists. split; [exact E|].
  destruct (connect_target_failure _ _ _ _ E) as [(io & _ & Hio)|(l & w1 & _ & [(? & _)|(io & Hio & _)])].
  - case_bool_decide; discriminate Hio.
  - discriminate.
  - by exists io.
Defined.

Lemma run_client_denied_witness :
  ∃ w', run_client demo_addr (demo_world [x02] ((encode_greeting SOCKS_VERSION demo_offer ++
          encode_userpass demo_wrong) ++ [x05; x01])) = (Done (), w') ∧
    rx (stream (client w')) = [(0%N, x05); (0%N, x01)] ∧ w_remote w' = None.
Proof.
  destruct (run_client_denied demo_addr (demo_world [x02]
    ((encode_greeting SOCKS_VERSION demo_offer ++ encode_userpass demo_wrong) ++ [x05; x01]))
    demo_offer demo_wrong [(0%N, x05); (0%N, x01)]) as (w' & E & _ & Hrx & Hrem & _).
  - vm_compute. lia.
  - reflexivity.
  - vm_compute. by left.
  - reflexivity.
  - right. exact demo_wrong_denied.
  - reflexivity.
  - apply (demo_ready _ [x02] (encode_greeting SOCKS_VERSION demo_offer ++ encode_userpass demo_wrong)
             [x05; x01]). reflexivity.
  - exists w'. split; [exact E|]. split; [exact Hrx|exact Hrem].
Defined.

(** A server with a DNS cache, and a client that asks for a name: the first of its
    two addresses never answers. *)
Definition demo_named_request : SOCKSReq :=
  {| req_version := x05; req_command := Types.Connect; req_addr_type := Domain;
     req_addr := as_bytes "example.org"; req_port := 80 |}.

Definition demo_named_bytes : list u8 :=
  encode_greeting SOCKS_VERSION demo_offer ++ encode_userpass demo_creds ++
  encode_request x00 demo_named_request.

Definition demo_cached_world : World :=
  set_w_cache (Some (DnsCache_new (from_secs 60) 16)) (demo_world [x02] (demo_named_bytes ++ [x68; x69])).

Lemma demo_leads_to : leads_to demo_cached_world demo_named_request demo_remote.
Proof.
  intros t [_ Ht].
  destruct (addr_to_socket_miss (as_bytes "example.org") 80 (set_clock t demo_cached_world)
    (DnsCache_new (from_secs 60) 16) 0 [demo_v4 x01; demo_v4 x02]) as (c' & E); [done..| |].
  { cbn [clock set_clock]. rewrite N.add_0_r. etrans; [apply N.add_le_mono_r, Ht|].
    vm_compute. discriminate. }
  eexists _, _, 1, (demo_v4 x02), (from_millis 20). split; [exact E|].
  cbn [clock set_clock]. rewrite N.add_0_r. split; [reflexivity|]. split; [reflexivity|]. split.
  { unfold attempt_start. simpl. change (connect_budget _) with DEFAULT_CONNECT_TIMEOUT.
    change DEFAULT_CONNECT_TIMEOUT with 30000000000%N. change (from_millis 20) with 20000000%N.
    change CONNECT_ATTEMPT_DELAY with 250000000%N. change (N.of_nat 1 mod 4294967296)%N with 1%N. lia. }
  intros [|[|j]] b d' r Hj Hc; [injection Hj as <-|injection Hj as <-|discriminate Hj].
  - discriminate Hc.
  - by injection Hc as _ <-.
Qed.

Lemma run_client_connect_witness :
  ∃ w' target, run_client demo_addr demo_cached_world = (Done (), w') ∧
    w_remote w' = Some target ∧ tx target = [x68; x69].
Proof.
  destruct (run_client_connect demo_addr demo_cached_world
    demo_offer (encode_userpass demo_creds) demo_replies x00 demo_named_request
    [(0%N, x68); (0%N, x69)] demo_remote) as (w' & target & E & Hr & Ht & _).
  - vm_compute. lia.
  - reflexivity.
  - apply demo_authenticated.
  - reflexivity.
  - reflexivity.
  - reflexivity.
  - apply (demo_ready _ [x02] demo_named_bytes [x68; x69]). reflexivity.
  - exact demo_leads_to.
  - eexists. reflexivity.
  - eexists. reflexivity.
  - constructor.
  - vm_compute. lia.
  - vm_compute. lia.
  - reflexivity.
  - exists w', target. split; [exact E|]. split; [exact Hr|]. exact Ht.
Defined.
