(* ===== verification/Bind.v ===== *)
(** * BIND ([src/src/lib.rs]: [SOCKClient::handle_bind])

    Listening for one inbound connection on the client's behalf: what each
    branch does, whose connection is let in, and that it is then relayed. *)
From S2P Require Import Prelude Fmt Utf8 Types Wire Display DnsCache Stats Stream Relay Connect Client.
From S2P Require Import Handshake Resolve Udp Session.

Section bind.
Context `{!Net, !ArrivalOrder, !HashOrder}.

(** The peer is not the one the request asked for. *)
Definition forbidden (req : SOCKSReq) (peer : SocketAddr) : bool :=
  match expected_ip (req_addr_type req) (req_addr req) with
  | Some expected => negb (bool_decide (expected = sock_ip peer))
  | None => false
  end.

Lemma forbidden_false req peer :
  forbidden req peer = false ↔
  ∀ ip, expected_ip (req_addr_type req) (req_addr req) = Some ip → sock_ip peer = ip.
Proof.
  unfold forbidden. destruct (expected_ip _ _) as [ip|]; [|naive_solver].
  rewrite negb_false_iff, bool_decide_eq_true. naive_solver.
Qed.

(** What [accept] returns within the budget. *)
Definition within {A} (answer : option (N * A)) (budget : N) : option (N * A) :=
  match answer with
  | Some (d, a) => if (d <=? budget)%N then Some (d, a) else None
  | None => None
  end.

(** From the moment the first reply is out. *)
Definition bind_accept (req : SOCKSReq) (listener : Listener) (w : World)
    : outcome MerinoError usize * World :=
  match within (l_accept listener (clock w)) (connect_budget (client w)) with
  | None => (Throw connect_timeout_error, set_clock (clock w + connect_budget (client w)) w)
  | Some (d, Err e) => (Throw (Io e), set_clock (clock w + d) w)
  | Some (d, Ok (inbound, peer)) =>
      if forbidden req peer then (Throw (Socks RuleFailure), set_clock (clock w + d) w)
      else (question (SocksReply_send (SocksReply_with_addr Success peer));; relay_to inbound) None
             (set_clock (clock w + d) w)
  end.

(** The body of [handle_bind], its [timeout] resolved. *)
Lemma handle_bind_run req w :
  handle_bind req None w =
  match tcp_bind (SocketAddr_new (local_interface (client w)) 0) with
  | Err e => (Throw (Io e), w)
  | Ok listener =>
      match l_local_addr listener with
      | Err e => (Throw (Io e), w)
      | Ok bound =>
          match question (SocksReply_send (SocksReply_with_addr Success bound)) None w with
          | (Done _, w1) => bind_accept req listener w1
          | (Throw e, w1) => (Throw e, w1)
          | (Elapsed, w1) => (Elapsed, w1)
          | (Pending, w1) => (Pending, w1)
          | (Crash, w1) => (Crash, w1)
          end
      end
  end.
Proof.
  unfold handle_bind. rewrite bind_run. cbn [get]. rewrite bind_run.
  destruct (tcp_bind _) as [listener|e]; [|done].
  change (question (from_result (Ok listener)) None w) with (Done listener : outcome MerinoError _, w).
  cbv beta iota. rewrite bind_run. destruct (l_local_addr listener) as [bound|e]; [|done].
  change (question (from_result (Ok bound)) None w) with (Done bound : outcome MerinoError _, w).
  cbv beta iota. rewrite bind_run.
  destruct (question _ None w) as [[[]|e| | |] w1]; try done.
  rewrite bind_run. cbn [get]. rewrite bind_run. unfold bind_accept, within, with_timeout, await_answer.
  destruct (l_accept listener (clock w1)) as [[d r]|].
  - cbn [deadline_ok]. replace (clock w1 + d <=? _)%N with (d <=? connect_budget (client w1))%N.
    2: { destruct (N.leb_spec d (connect_budget (client w1))),
           (N.leb_spec (clock w1 + d) (clock w1 + connect_budget (client w1))); lia || done. }
    destruct (d <=? _)%N; [by destruct r as [[inbound peer]|e]; [fold (forbidden req peer); destruct (forbidden req peer)|]|].
    unfold cut_at, cut_clock, throw. do 2 f_equal. lia.
  - unfold cut_at, cut_clock, throw. do 2 f_equal. lia.
Qed.

(** From [w] to [w'] nobody was connected, and the client was sent at most two
    replies that name an address. *)
Definition address_reply (ev : out_event) : Prop :=
  ∃ a n, ev = OutWrite (buf (SocksReply_with_addr Success a)) n.

Definition only_replies (w w' : World) : Prop :=
  w_remote w' = w_remote w ∧
  ∃ l, out (stream (client w')) = out (stream (client w)) ++ l ∧ length l ≤ 2 ∧ Forall address_reply l.

Lemma only_replies_refl w : only_replies w w.
Proof. split; [done|]. exists []. rewrite app_nil_r. split_and!; [done|simpl; lia|constructor]. Qed.

Lemma send_address_run a w :
  ∃ o n t, question (SocksReply_send (SocksReply_with_addr Success a)) None w =
    (o, set_clock t (set_client (set_stream
          (log_write (buf (SocksReply_with_addr Success a)) n (stream (client w))) (client w)) w)) ∧
    (o = Done () → n = length (buf (SocksReply_with_addr Success a))) ∧
    (o = Done () ∨ (∃ e, o = Throw e) ∨ o = Pending).
Proof.
  unfold SocksReply_send, question, m_map_err, stream_write_all.
  destruct (write_all None _ _ _) as [[o t] s] eqn:E.
  pose proof (write_all_frame _ _ _ _ _ _ _ E) as (n & -> & Hn & _ & Hc).
  unfold write_all in E. simpl in E.
  exists (match o with Done a => Done a | Throw e => Throw (Io e) | Elapsed => Elapsed
          | Pending => Pending | Crash => Crash end), n, t.
  split; [by destruct o|]. split; [destruct o; naive_solver|].
  repeat case_match; simplify_eq; eauto.
Qed.

(** C22: BIND lets in one peer, and only the one that was asked for.  Whatever
    arrives, the connection a BIND relays, if any, was accepted by the listener
    it opened on the proxy's own interface, within the connect budget, and comes
    from the address the request named, if it named one; before that, the client
    was told where to connect, and then who did.  Otherwise nobody is connected
    to the client, and nothing of anybody's is sent to it. *)
Theorem handle_bind_confined req w o w' :
  handle_bind req None w = (o, w') →
  only_replies w w' ∨
  ∃ listener bound inbound peer d w1,
    tcp_bind (SocketAddr_new (local_interface (client w)) 0) = Ok listener ∧
    l_local_addr listener = Ok bound ∧
    (∃ t, l_accept listener t = Some (d, Ok (inbound, peer))) ∧ (d ≤ connect_budget (client w))%N ∧
    (∀ ip, expected_ip (req_addr_type req) (req_addr req) = Some ip → sock_ip peer = ip) ∧
    out (stream (client w1)) = out (stream (client w)) ++
      [OutWrite (buf (SocksReply_with_addr Success bound)) (length (buf (SocksReply_with_addr Success bound)));
       OutWrite (buf (SocksReply_with_addr Success peer)) (length (buf (SocksReply_with_addr Success peer)))] ∧
    relay_to inbound None w1 = (o, w').
Proof.
  rewrite handle_bind_run. destruct (tcp_bind _) as [listener|e] eqn:Hb.
  2: { intros [= <- <-]. left. apply only_replies_refl. }
  destruct (l_local_addr listener) as [bound|e] eqn:Hl.
  2: { intros [= <- <-]. left. apply only_replies_refl. }
  destruct (send_address_run bound w) as (o1 & n1 & t1 & -> & Hn1 & Ho1).
  set (w1 := set_clock t1 _).
  assert (∀ t, only_replies w (set_clock t w1)) as Hw1.
  { intros t. split; [done|]. eexists. split; [done|]. split; [simpl; lia|].
    constructor; [by eexists _, _|constructor]. }
  destruct Ho1 as [->|[[e ->]| ->]]; [|intros [= <- <-]; left; by apply (Hw1 t1)..].
  unfold bind_accept, within.
  destruct (l_accept listener (clock w1)) as [[d r]|] eqn:Ha; [|intros [= <- <-]; by left].
  destruct (N.leb_spec d (connect_budget (client w1))) as [Hd|]; [|intros [= <- <-]; by left].
  destruct r as [[inbound peer]|e]; [|intros [= <- <-]; by left].
  destruct (forbidden req peer) eqn:Hf; [intros [= <- <-]; by left|].
  rewrite bind_run.
  destruct (send_address_run peer (set_clock (clock w1 + d) w1)) as (o2 & n2 & t2 & -> & Hn2 & Ho2).
  set (w2 := set_clock t2 _).
  destruct Ho2 as [->|Ho2].
  - intros Hrun. right. exists listener, bound, inbound, peer, d, w2.
    split_and!; [done|done|by eexists|done|by apply forbidden_false| |done].
    rewrite <- Hn1, <- Hn2 by done. simpl. by rewrite <- app_assoc.
  - intros Hrun. left. assert (w' = w2) as ->.
    { destruct Ho2 as [[e ->]| ->]; by injection Hrun. }
    split; [done|]. eexists. simpl. rewrite <- app_assoc. split; [done|]. split; [simpl; lia|].
    repeat constructor; by eexists _, _.
Qed.

(** To a client that takes what it is sent the replies go out. *)
Lemma send_address_writable a w :
  writable (stream (client w)) →
  question (SocksReply_send (SocksReply_with_addr Success a)) None w =
    (Done (), after_write (buf (SocksReply_with_addr Success a)) (clock w) w) ∧
  writable (stream (client (after_write (buf (SocksReply_with_addr Success a)) (clock w) w))).
Proof.
  intros Hw. destruct (write_all_writable None (buf (SocksReply_with_addr Success a)) (clock w) _ Hw eq_refl)
    as [Hrun Hw']. split; [|done].
  unfold SocksReply_send. apply question_run. unfold stream_write_all. by rewrite Hrun.
Qed.

Lemma handle_bind_writable req w listener bound :
  writable (stream (client w)) →
  tcp_bind (SocketAddr_new (local_interface (client w)) 0) = Ok listener →
  l_local_addr listener = Ok bound →
  handle_bind req None w =
    bind_accept req listener (after_write (buf (SocksReply_with_addr Success bound)) (clock w) w).
Proof.
  intros Hw Hb Hl. rewrite handle_bind_run, Hb, Hl.
  by destruct (send_address_writable bound w Hw) as [-> _].
Qed.

(** How a BIND that lets nobody in ends.  After the first reply it waits
    exactly for the connect budget: with nobody there by then the error is TTL
    expired, at that time; an error of the listener is passed on; and a peer
    other than the requested one is turned away with a rule failure, and nothing
    of it is read. *)
Theorem handle_bind_refused req w listener bound :
  writable (stream (client w)) →
  tcp_bind (SocketAddr_new (local_interface (client w)) 0) = Ok listener →
  l_local_addr listener = Ok bound →
  let w1 := after_write (buf (SocksReply_with_addr Success bound)) (clock w) w in
  match within (l_accept listener (clock w)) (connect_budget (client w)) with
  | None => handle_bind req None w =
      (Throw (Socks TtlExpired), set_clock (clock w + connect_budget (client w)) w1)
  | Some (d, Err e) => handle_bind req None w = (Throw (Io e), set_clock (clock w + d) w1)
  | Some (d, Ok (inbound, peer)) =>
      handle_bind req None w = (Throw (Socks RuleFailure), set_clock (clock w + d) w1) ↔
      forbidden req peer = true
  end.
Proof.
  intros Hw Hb Hl w1. rewrite (handle_bind_writable _ _ _ _ Hw Hb Hl). fold w1. unfold bind_accept.
  change (clock w1) with (clock w). change (connect_budget (client w1)) with (connect_budget (client w)).
  destruct (within _ _) as [[d [[inbound peer]|e]]|]; [|done..].
  destruct (forbidden req peer); [done|]. split; [|done]. rewrite bind_run.
  destruct (send_address_writable peer (set_clock (clock w + d) w1)) as [-> _].
  { by destruct (send_address_writable bound w Hw). }
  intros Hrun. exfalso. revert Hrun. unfold relay_to.
  destruct (copy_bidirectional_counted _ _ _ _ _ _ _); try done; case_bool_decide; done.
Qed.

(** C29: BIND proxies.  When the expected peer connects within the budget and both
    sides send what they have and close, the client is told where to connect and
    who did, then gets every byte of the peer; the peer gets every byte of the
    client; and the totals are counted. *)
Theorem handle_bind_proxies req w listener bound inbound peer d :
  writable (stream (client w)) →
  tcp_bind (SocketAddr_new (local_interface (client w)) 0) = Ok listener →
  l_local_addr listener = Ok bound →
  l_accept listener (clock w) = Some (d, Ok (inbound, peer)) → (d ≤ connect_budget (client w))%N →
  (∀ ip, expected_ip (req_addr_type req) (req_addr req) = Some ip → sock_ip peer = ip) →
  at_eof (stream (client w)) → at_eof (remote_stream inbound) → writable (remote_stream inbound) →
  (length (rx (stream (client w))) < count_ev is_read_a (remote_schedule inbound))%nat →
  (length (rx (remote_stream inbound)) < count_ev is_read_b (remote_schedule inbound))%nat →
  has_stats (client w) = true →
  ∃ n w' target, handle_bind req None w = (Done n, w') ∧ w_remote w' = Some target ∧
    tx target = tx (remote_stream inbound) ++ rx_bytes (stream (client w)) ∧
    tx (stream (client w')) = tx (stream (client w)) ++
      buf (SocksReply_with_addr Success bound) ++ buf (SocksReply_with_addr Success peer) ++
      rx_bytes (remote_stream inbound) ∧
    counters (w_stats w') bytes_client_to_target =
      u64_add (counters (w_stats w) bytes_client_to_target)
        (N.of_nat (length (rx (stream (client w)))) mod u64_modulus) ∧
    counters (w_stats w') bytes_target_to_client =
      u64_add (counters (w_stats w) bytes_target_to_client)
        (N.of_nat (length (rx (remote_stream inbound))) mod u64_modulus).
Proof.
  intros Hw Hb Hl Ha Hd He Heof Heof' Hw' Hca Hcb Hst.
  rewrite (handle_bind_writable _ _ _ _ Hw Hb Hl). unfold bind_accept, within.
  set (w1 := after_write _ _ _). change (clock w1) with (clock w).
  change (connect_budget (client w1)) with (connect_budget (client w)).
  rewrite Ha. destruct (N.leb_spec d (connect_budget (client w))); [|lia].
  apply forbidden_false in He as ->. rewrite bind_run.
  destruct (send_address_writable peer (set_clock (clock w + d) w1)) as [-> Hw2].
  { by destruct (send_address_writable bound w Hw). }
  set (w2 := after_write (buf (SocksReply_with_addr Success peer)) _ _) in *.
  destruct (relay_to_finishes inbound w2) as (n & w3 & target & Hrun & Hrem & Htx & Hout & Hup & Hdown);
    [done..|].
  exists n, w3, target. split_and!; [done|done|done| |done|done].
  rewrite Hout. subst w2 w1. cbn [client after_write set_clock set_client set_stream stream].
  by rewrite !tx_log_write, !firstn_all, <- !app_assoc.
Qed.
End bind.

(** ** Witnesses *)

#[local] Existing Instance map_order.

(** Somebody connects to the proxy's port 9000 a second after the request. *)
Definition bind_bound : SocketAddr := SockV4 [# x7f; x00; x00; x01] 9000.
Definition bind_peer : SocketAddr := SockV4 [# x0a; x00; x00; x02] 5555.
Definition demo_bind_listener : Listener :=
  {| l_local_addr := Ok bind_bound; l_accept _ := Some (from_secs 1, Ok (demo_remote, bind_peer)) |}.
#[local] Instance bind_net : Net := {|
  lookup_host _ _ := None; lookup_host_port _ _ := Ok []; tcp_connect _ _ := None;
  tcp_bind _ := Ok demo_bind_listener; udp_bind _ := Err eof_error;
  set_nonblocking _ := Ok (); from_std l := Ok l |}.

Definition bind_request (last : u8) : SOCKSReq :=
  {| req_version := x05; req_command := Bind; req_addr_type := V4;
     req_addr := [x0a; x00; x00; last]; req_port := 80 |}.
Definition bind_world : World := demo_world [x02] [x68; x69].

Lemma handle_bind_confined_witness :
  ∃ o w', handle_bind (bind_request x02) None bind_world = (o, w') ∧
    (only_replies bind_world w' ∨
     ∃ inbound peer w1, sock_ip peer = IpV4 [# x0a; x00; x00; x02] ∧
       relay_to inbound None w1 = (o, w')).
Proof.
  destruct (handle_bind (bind_request x02) None bind_world) as [o w'] eqn:E. exists o, w'.
  split; [reflexivity|].
  destruct (handle_bind_confined _ _ _ _ E) as [H|(l & b & inbound & peer & d & w1 & _ & _ & _ & _ & H & _ & Hr)];
    [by left|right].
  exists inbound, peer, w1. split; [|exact Hr]. apply H. reflexivity.
Defined.

Lemma handle_bind_refused_witness :
  handle_bind (bind_request x03) None bind_world =
    (Throw (Socks RuleFailure), set_clock (from_secs 1)
       (after_write (buf (SocksReply_with_addr Success bind_bound)) 0 bind_world)).
Proof.
  assert (writable (stream (client bind_world))) as Hw by constructor.
  pose proof (handle_bind_refused (bind_request x03) bind_world demo_bind_listener bind_bound Hw
    eq_refl eq_refl) as H. cbv zeta in H.
  assert (within (l_accept demo_bind_listener (clock bind_world)) (connect_budget (client bind_world)) =
    Some (from_secs 1, Ok (demo_remote, bind_peer))) as Ha by reflexivity.
  rewrite Ha in H. apply H. reflexivity.
Defined.

Lemma handle_bind_proxies_witness :
  ∃ n w' target, handle_bind (bind_request x02) None bind_world = (Done n, w') ∧
    w_remote w' = Some target ∧ tx target = [x68; x69].
Proof.
  destruct (handle_bind_proxies (bind_request x02) bind_world demo_bind_listener bind_bound demo_remote
    bind_peer (from_secs 1)) as (n & w' & target & E & Hr & Ht & _).
  - constructor.
  - reflexivity.
  - reflexivity.
  - reflexivity.
  - vm_compute. discriminate.
  - intros ip [= <-]. reflexivity.
  - by exists 0%N.
  - by exists 0%N.
  - constructor.
  - vm_compute. lia.
  - vm_compute. lia.
  - reflexivity.
  - exists n, w', target. split; [exact E|]. split; [exact Hr|exact Ht].
Defined.
