(* ===== verification/Config.v ===== *)
(** * Server configuration ([src/src/lib.rs]: [Merino]; [src/src/actors.rs]:
      [SocksServer])

    The two server types before they run: binding, the setters and what they
    share.  [Arc]s are indices into the process' tables of statistics, DNS
    caches and per-source limiters, so that sharing is visible. *)
From S2P Require Import Prelude Fmt Types PerIp DnsCache Stats Stream Connect.

(** ** Shared objects *)

Record Process := {
  p_stats : list Stats;
  p_heap : Heap;
  p_caches : list DnsCache;
  p_limiters : list PerIpLimiter
}.

Definition process_empty : Process :=
  {| p_stats := []; p_heap := heap_empty; p_caches := []; p_limiters := [] |}.

(** [Arc::new(..)]. *)
Definition alloc_stats (s : Stats) (p : Process) : loc * Process :=
  (length (p_stats p),
   {| p_stats := p_stats p ++ [s]; p_heap := p_heap p; p_caches := p_caches p;
      p_limiters := p_limiters p |}).

Definition alloc_cache (c : DnsCache) (p : Process) : loc * Process :=
  (length (p_caches p),
   {| p_stats := p_stats p; p_heap := p_heap p; p_caches := p_caches p ++ [c];
      p_limiters := p_limiters p |}).

Definition alloc_limiter (l : PerIpLimiter) (p : Process) : loc * Process :=
  (length (p_limiters p),
   {| p_stats := p_stats p; p_heap := p_heap p; p_caches := p_caches p;
      p_limiters := p_limiters p ++ [l] |}).

(** A method of the [Stats] behind an [Arc]. *)
Definition on_stats (l : loc) (f : Stats → Stats) (p : Process) : Process :=
  {| p_stats := alter f l (p_stats p); p_heap := p_heap p; p_caches := p_caches p;
     p_limiters := p_limiters p |}.

Definition set_heap (h : Heap) (p : Process) : Process :=
  {| p_stats := p_stats p; p_heap := h; p_caches := p_caches p; p_limiters := p_limiters p |}.

Definition set_caches (l : list DnsCache) (p : Process) : Process :=
  {| p_stats := p_stats p; p_heap := p_heap p; p_caches := l; p_limiters := p_limiters p |}.

Definition set_limiters (l : list PerIpLimiter) (p : Process) : Process :=
  {| p_stats := p_stats p; p_heap := p_heap p; p_caches := p_caches p; p_limiters := l |}.

(** ** [Merino] *)

Record Merino := {
  mo_listeners : list Listener;
  mo_users : list User;
  mo_auth_methods : list u8;
  mo_timeout : option Duration;
  mo_max_connections : usize;
  mo_dns_cache : option loc;
  mo_per_ip : option loc;
  mo_stats : loc
}.

(** [now] and [unix_now] are the clocks [Stats::new] reads. *)
Definition Merino_new `{!Net} (port : u16) (ip : string) (auth_methods : list u8)
    (users : list User) (timeout : option Duration) (now : N) (unix_now : u64) (p : Process)
    : result io_error (Merino * Process) :=
  listeners ← bind_all ip port;
  let '(stats, p) := alloc_stats (Stats_new now unix_now) p in
  Ok ({| mo_listeners := listeners; mo_auth_methods := auth_methods; mo_users := users;
         mo_timeout := timeout; mo_max_connections := DEFAULT_MAX_CONNECTIONS;
         mo_dns_cache := None; mo_per_ip := None; mo_stats := stats |}, p).

Definition Merino_set_stats (stats : loc) (self : Merino) : Merino :=
  {| mo_listeners := mo_listeners self; mo_users := mo_users self;
     mo_auth_methods := mo_auth_methods self; mo_timeout := mo_timeout self;
     mo_max_connections := mo_max_connections self; mo_dns_cache := mo_dns_cache self;
     mo_per_ip := mo_per_ip self; mo_stats := stats |}.

Definition Merino_set_max_connections (max_ : usize) (self : Merino) : Merino :=
  {| mo_listeners := mo_listeners self; mo_users := mo_users self;
     mo_auth_methods := mo_auth_methods self; mo_timeout := mo_timeout self;
     mo_max_connections := max max_ 1; mo_dns_cache := mo_dns_cache self;
     mo_per_ip := mo_per_ip self; mo_stats := mo_stats self |}.

Definition Merino_set_dns_cache (ttl : Duration) (max_entries : usize) (self : Merino)
    (p : Process) : Merino * Process :=
  let '(cache, p) := alloc_cache (DnsCache_new ttl max_entries) p in
  let p := on_stats (mo_stats self) (register_dns cache) p in
  ({| mo_listeners := mo_listeners self; mo_users := mo_users self;
      mo_auth_methods := mo_auth_methods self; mo_timeout := mo_timeout self;
      mo_max_connections := mo_max_connections self; mo_dns_cache := Some cache;
      mo_per_ip := mo_per_ip self; mo_stats := mo_stats self |}, p).

(** [(max > 0).then(|| ..)]. *)
Definition new_limiter (max_ : usize) (p : Process) : option loc * Process :=
  if 0 <? max_ then
    let '(limiter, p) := alloc_limiter (PerIpLimiter_new max_) p in (Some limiter, p)
  else (None, p).

Definition Merino_set_max_connections_per_ip (max_ : usize) (self : Merino) (p : Process)
    : Merino * Process :=
  let '(per_ip, p) := new_limiter max_ p in
  ({| mo_listeners := mo_listeners self; mo_users := mo_users self;
      mo_auth_methods := mo_auth_methods self; mo_timeout := mo_timeout self;
      mo_max_connections := mo_max_connections self; mo_dns_cache := mo_dns_cache self;
      mo_per_ip := per_ip; mo_stats := mo_stats self |}, p).

Definition Merino_local_addr (self : Merino) : result io_error SocketAddr :=
  match head (mo_listeners self) with
  | Some listener => l_local_addr listener
  | None => Err (io_Error_new ErrorKind.AddrNotAvailable "no listeners bound")
  end.

(** [collect] into a [Result]: the first error, if there is one. *)
Fixpoint collect {E A} (l : list (result E A)) : result E (list A) :=
  match l with
  | [] => Ok []
  | Ok a :: l => cons a <$> collect l
  | Err e :: _ => Err e
  end.

Definition Merino_local_addrs (self : Merino) : result io_error (list SocketAddr) :=
  collect (l_local_addr <$> mo_listeners self).

(** ** [SocksServer] *)

Record SocksServer := {
  ss_listeners_ : list Listener;
  ss_bound_addrs : list SocketAddr;
  ss_users : list User;
  ss_auth_methods : list u8;
  ss_timeout : option Duration;
  ss_max_connections : usize;
  ss_dns_cache : option loc;
  ss_per_ip : option loc;
  ss_stats : loc
}.

Definition SocksServer_bind `{!Net} (port : u16) (ip : string) (auth_methods : list u8)
    (users : list User) (timeout : option Duration) (now : N) (unix_now : u64) (p : Process)
    : result io_error (SocksServer * Process) :=
  listeners ← bind_all ip port;
  bound_addrs ← collect (l_local_addr <$> listeners);
  let '(stats, p) := alloc_stats (Stats_new now unix_now) p in
  Ok ({| ss_listeners_ := listeners; ss_bound_addrs := bound_addrs;
         ss_auth_methods := auth_methods; ss_users := users; ss_timeout := timeout;
         ss_max_connections := DEFAULT_MAX_CONNECTIONS; ss_dns_cache := None;
         ss_per_ip := None; ss_stats := stats |}, p).

Definition SocksServer_set_stats (stats : loc) (self : SocksServer) : SocksServer :=
  {| ss_listeners_ := ss_listeners_ self; ss_bound_addrs := ss_bound_addrs self;
     ss_users := ss_users self; ss_auth_methods := ss_auth_methods self;
     ss_timeout := ss_timeout self; ss_max_connections := ss_max_connections self;
     ss_dns_cache := ss_dns_cache self; ss_per_ip := ss_per_ip self; ss_stats := stats |}.

Definition SocksServer_set_max_connections (max_ : usize) (self : SocksServer) : SocksServer :=
  {| ss_listeners_ := ss_listeners_ self; ss_bound_addrs := ss_bound_addrs self;
     ss_users := ss_users self; ss_auth_methods := ss_auth_methods self;
     ss_timeout := ss_timeout self; ss_max_connections := max max_ 1;
     ss_dns_cache := ss_dns_cache self; ss_per_ip := ss_per_ip self; ss_stats := ss_stats self |}.

Definition SocksServer_set_dns_cache (ttl : Duration) (max_entries : usize) (self : SocksServer)
    (p : Process) : SocksServer * Process :=
  let '(cache, p) := alloc_cache (DnsCache_new ttl max_entries) p in
  let p := on_stats (ss_stats self) (register_dns cache) p in
  ({| ss_listeners_ := ss_listeners_ self; ss_bound_addrs := ss_bound_addrs self;
      ss_users := ss_users self; ss_auth_methods := ss_auth_methods self;
      ss_timeout := ss_timeout self; ss_max_connections := ss_max_connections self;
      ss_dns_cache := Some cache; ss_per_ip := ss_per_ip self; ss_stats := ss_stats self |}, p).

Definition SocksServer_set_max_connections_per_ip (max_ : usize) (self : SocksServer)
    (p : Process) : SocksServer * Process :=
  let '(per_ip, p) := new_limiter max_ p in
  ({| ss_listeners_ := ss_listeners_ self; ss_bound_addrs := ss_bound_addrs self;
      ss_users := ss_users self; ss_auth_methods := ss_auth_methods self;
      ss_timeout := ss_timeout self; ss_max_connections := ss_max_connections self;
      ss_dns_cache := ss_dns_cache self; ss_per_ip := per_ip; ss_stats := ss_stats self |}, p).

Definition SocksServer_local_addr (self : SocksServer) : option SocketAddr :=
  head (ss_bound_addrs self).

Definition SocksServer_local_addrs (self : SocksServer) : list SocketAddr := ss_bound_addrs self.

(** ** Facts *)

Lemma collect_Ok {E A} (l : list (result E A)) r : collect l = Ok r ↔ l = Ok <$> r.
Proof.
  revert r. induction l as [|[a|e] l IH]; intros r; simpl.
  - destruct r; split; intros; by simplify_eq.
  - destruct (collect l) as [k|e] eqn:E'; simpl.
    + split; [intros [= <-]; simpl; f_equal; by apply IH|].
      destruct r as [|b r]; [done|]. rewrite fmap_cons. intros [= -> Hr]. apply IH in Hr. by simplify_eq.
    + split; [done|]. destruct r as [|b r]; [done|]. rewrite fmap_cons. intros [= -> Hr].
      apply IH in Hr. done.
  - split; [done|]. by destruct r.
Qed.

Lemma on_stats_lookup l f p s :
  p_stats p !! l = Some s → p_stats (on_stats l f p) !! l = Some (f s).
Proof. intros H. simpl. by rewrite list_lookup_alter_eq, H. Qed.

Lemma on_stats_lookup_inv l f p s' :
  p_stats (on_stats l f p) !! l = Some s' → ∃ s, p_stats p !! l = Some s ∧ s' = f s.
Proof. simpl. rewrite list_lookup_alter_eq. intros (s & -> & ->)%fmap_Some. by exists s. Qed.

(** What the dashboard says of the DNS cache of a server: the cache itself when
    it was enabled after the statistics were shared, as [main] does; a cache
    enabled before is registered with the statistics it replaces. *)
Lemma dns_shown `{!HashOrder} (ttl : Duration) entries (m : SocksServer) p stats s now :
  p_stats p !! stats = Some s →
  let '(m', p') := SocksServer_set_dns_cache ttl entries (SocksServer_set_stats stats m) p in
  ss_stats m' = stats ∧
  ∃ s' c, p_stats p' !! stats = Some s' ∧ ss_dns_cache m' = Some c ∧
          dns_snapshot (p_caches p') now s' = DnsCache_snapshot (DnsCache_new ttl entries) now.
Proof.
  intros Hs. simpl. split; [done|]. eexists _, _. split_and!; [|done|].
  - rewrite list_lookup_alter_eq, Hs. done.
  - unfold dns_snapshot, register_dns. simpl. by rewrite lookup_app_r, Nat.sub_diag.
Qed.

Lemma dns_hidden `{!HashOrder} (ttl : Duration) entries (m : SocksServer) p stats s now :
  p_stats p !! stats = Some s → stats ≠ ss_stats m → dns s = None →
  let '(m', p') := SocksServer_set_dns_cache ttl entries m p in
  ∃ s', p_stats p' !! ss_stats (SocksServer_set_stats stats m') = Some s' ∧
        dns_snapshot (p_caches p') now s' = DnsSnapshot_disabled.
Proof.
  intros Hs Hne Hd. simpl. exists s. rewrite list_lookup_alter_ne by done.
  split; [done|]. unfold dns_snapshot. by rewrite Hd.
Qed.

#[global] Arguments on_stats : simpl never.
