(* ===== verification/Server.v ===== *)
(** * The running server ([src/src/lib.rs]: [accept_loop], [Merino::serve];
      [src/src/actors.rs]: [SocksConnection], [SocksServer::started])

    The accept loops, one per listener, sharing a semaphore of connection
    permits, the per-source limiter and the statistics with the connections they
    start; and what every interleaving of them preserves. *)
From S2P Require Import Prelude Fmt Types Credentials PerIp DnsCache Stats Stream Connect Client.
From S2P Require Import Relay Udp Config Session.

(** ** The semaphore *)

(** [tokio::sync::Semaphore] as the server uses it: [new] panics above its
    maximum ([None]), [acquire_owned] completes when a permit is available
    ([None] while it has to wait), dropping a permit returns it.  It is never
    closed. *)
Class Semaphore := {
  sem : Type;
  available : sem → nat;
  sem_max : N;
  sem_new : usize → option sem;
  sem_acquire : sem → option sem;
  sem_release : sem → sem;
  sem_new_spec n s : sem_new n = Some s → available s = n;
  sem_new_ok n : is_Some (sem_new n) ↔ (N.of_nat n ≤ sem_max)%N;
  sem_acquire_spec s s' : sem_acquire s = Some s' → available s = S (available s');
  sem_acquire_ok s : is_Some (sem_acquire s) ↔ 0 < available s;
  sem_release_spec s : available (sem_release s) = S (available s)
}.

(** ** State *)

Record ServerContext := {
  ctx_users : list User;
  ctx_auth_methods : list u8;
  ctx_timeout : option Duration;
  ctx_dns_cache : option loc;
  ctx_per_ip : option loc;
  ctx_stats : loc
}.

(** Where an accept loop is: about to acquire a permit, or holding one and
    waiting for a client. *)
Inductive loop_at : Type := Acquiring | Accepting.

#[global] Instance loop_at_eq_dec : EqDecision loop_at.
Proof. solve_decision. Defined.

(** A connection that was accepted: the task of [Merino::serve] or the actor of
    [SocksServer].  [sc_client] is taken by [run_client], [sc_guard] is its
    registration once it runs. *)
Record SocksConnection := {
  sc_client : option SOCKClient;
  sc_peer : SocketAddr;
  sc_permit : bool;
  sc_ip_slot : option IpSlot;
  sc_stats : loc;
  sc_cache : option loc;
  sc_guard : option ActiveGuard
}.

(** What [accept] hands out. *)
Record Incoming := { in_stream : Stream; in_local_addr : result io_error SocketAddr }.

Inductive backend : Type := Tokio | Actix.

Section server.
Context `{!Semaphore}.

Record Server := {
  sv_ctx : ServerContext;
  sv_backend : backend;
  sv_proc : Process;
  sv_sem : sem;
  sv_loops : list loop_at;
  sv_live : list SocksConnection
}.

Definition sv_set (p : Process) (s : sem) (loops : list loop_at) (live : list SocksConnection)
    (sv : Server) : Server :=
  {| sv_ctx := sv_ctx sv; sv_backend := sv_backend sv; sv_proc := p; sv_sem := s;
     sv_loops := loops; sv_live := live |}.

(** ** Handing a connection over *)

(** The closure of [Merino::serve]. *)
Definition spawn_task (run_stats : loc) (cache : option loc) (client : SOCKClient)
    (client_addr : SocketAddr) (ip_slot : option IpSlot) (p : Process) : SocksConnection * Process :=
  ({| sc_client := Some client; sc_peer := client_addr; sc_permit := true; sc_ip_slot := ip_slot;
      sc_stats := run_stats; sc_cache := cache; sc_guard := None |}, p).

Definition SocksConnection_new (client : SOCKClient) (cache : option loc) (peer : SocketAddr)
    (now : N) (unix_now : u64) (p : Process) : SocksConnection * Process :=
  let '(stats, p) := alloc_stats (Stats_new now unix_now) p in
  ({| sc_client := Some client; sc_peer := peer; sc_permit := false; sc_ip_slot := None;
      sc_stats := stats; sc_cache := cache; sc_guard := None |}, p).

Definition SocksConnection_set_permit (c : SocksConnection) : SocksConnection :=
  {| sc_client := sc_client c; sc_peer := sc_peer c; sc_permit := true;
     sc_ip_slot := sc_ip_slot c; sc_stats := sc_stats c; sc_cache := sc_cache c;
     sc_guard := sc_guard c |}.

Definition SocksConnection_set_ip_slot (slot : option IpSlot) (c : SocksConnection)
    : SocksConnection :=
  {| sc_client := sc_client c; sc_peer := sc_peer c; sc_permit := sc_permit c;
     sc_ip_slot := slot; sc_stats := sc_stats c; sc_cache := sc_cache c; sc_guard := sc_guard c |}.

Definition SocksConnection_set_stats (stats : loc) (c : SocksConnection) : SocksConnection :=
  {| sc_client := sc_client c; sc_peer := sc_peer c; sc_permit := sc_permit c;
     sc_ip_slot := sc_ip_slot c; sc_stats := stats; sc_cache := sc_cache c;
     sc_guard := sc_guard c |}.

(** The closure of [SocksServer::started]. *)
Definition spawn_actor (conn_stats : loc) (cache : option loc) (client : SOCKClient)
    (peer : SocketAddr) (ip_slot : option IpSlot) (now : N) (unix_now : u64) (p : Process)
    : SocksConnection * Process :=
  let '(connection, p) := SocksConnection_new client cache peer now unix_now p in
  (SocksConnection_set_stats conn_stats
     (SocksConnection_set_ip_slot ip_slot (SocksConnection_set_permit connection)), p).

Definition on_accept (sv : Server) (client : SOCKClient) (client_addr : SocketAddr)
    (ip_slot : option IpSlot) (now : N) (unix_now : u64) (p : Process)
    : SocksConnection * Process :=
  let ctx := sv_ctx sv in
  match sv_backend sv with
  | Tokio => spawn_task (ctx_stats ctx) (ctx_dns_cache ctx) client client_addr ip_slot p
  | Actix => spawn_actor (ctx_stats ctx) (ctx_dns_cache ctx) client client_addr ip_slot now unix_now p
  end.

(** ** The accept loop *)

(** [semaphore.acquire_owned().await] of loop [i]; [None] while it waits. *)
Definition take_permit (i : nat) (sv : Server) : option Server :=
  s ← sem_acquire (sv_sem sv);
  Some (sv_set (sv_proc sv) s (<[i := Accepting]> (sv_loops sv)) (sv_live sv) sv).

(** The per-source check: [None] is a refusal. *)
Definition claim_slot (ctx : ServerContext) (ip : IpAddr) (p : Process)
    : option (option IpSlot) * Process :=
  match ctx_per_ip ctx with
  | Some l =>
      match p_limiters p !! l with
      | Some limiter =>
          let '(slot, limiter) := try_acquire limiter ip in
          (Some <$> slot, set_limiters (<[l := limiter]> (p_limiters p)) p)
      | None => (None, p)
      end
  | None => (Some None, p)
  end.

(** The client of an accepted stream. *)
Definition new_client (ctx : ServerContext) (inc : Incoming) : SOCKClient :=
  let client := SOCKClient_with_credential_width (in_stream inc) (ctx_users ctx)
                  (ctx_auth_methods ctx) (ctx_timeout ctx) (credential_width (ctx_users ctx)) in
  let client := set_local_addr (match in_local_addr inc with Ok a => Some a | Err _ => None end) client in
  set_stats client.

(** The rest of an iteration, from the result of [accept]. *)
Definition accepted (i : nat) (r : result io_error (Incoming * SocketAddr)) (now : N)
    (unix_now : u64) (sv : Server) : Server :=
  let ctx := sv_ctx sv in
  let loops := <[i := Acquiring]> (sv_loops sv) in
  match r with
  | Ok (inc, client_addr) =>
      match claim_slot ctx (sock_ip client_addr) (sv_proc sv) with
      | (None, p) =>
          let p := on_stats (ctx_stats ctx) note_refused_per_ip p in
          sv_set p (sem_release (sv_sem sv)) loops (sv_live sv) sv
      | (Some ip_slot, p) =>
          let client := new_client ctx inc in
          let p := on_stats (ctx_stats ctx) note_accepted p in
          let '(connection, p) := on_accept sv client client_addr ip_slot now unix_now p in
          sv_set p (sv_sem sv) loops (sv_live sv ++ [connection]) sv
      end
  | Err _ => sv_set (sv_proc sv) (sem_release (sv_sem sv)) loops (sv_live sv) sv
  end.

(** ** The life of a connection *)

(** The world [run_client] starts in. *)
Definition world_of (client : SOCKClient) (stats : Stats) (cache : option DnsCache) (now : N)
    (p : Process) : World :=
  {| clock := now; client := client; w_stats := stats; w_heap := p_heap p; w_cache := cache;
     w_datagrams := []; w_remote := None |}.

(** How [run_client] is left; its registration is dropped either way. *)
Inductive exit : Type := Returned | Panicked.

(** [run_client(client, peer, stats)] up to its registration, which both
    backends call. *)
Definition run_client_begins (client : SOCKClient) (peer : SocketAddr) (stats : loc)
    (cache : option loc) (now : N) (p : Process) : option (ActiveGuard * Process) :=
  s ← p_stats p !! stats;
  let '(guard, w) := start_client peer
                       (world_of client s (l ← cache; p_caches p !! l) now p) in
  Some (guard, on_stats stats (λ _, w_stats w) (set_heap (w_heap w) p)).

Definition drop_guard (c : SocksConnection) (p : Process) : Process :=
  match sc_guard c with
  | Some guard => on_stats (sc_stats c) (ActiveGuard_drop guard) p
  | None => p
  end.

(** [None] if the limiter's counter would underflow. *)
Definition drop_slot (ctx : ServerContext) (c : SocksConnection) (p : Process) : option Process :=
  match ctx_per_ip ctx, sc_ip_slot c with
  | Some l, Some slot =>
      limiter ← p_limiters p !! l;
      limiter ← IpSlot_drop slot limiter;
      Some (set_limiters (<[l := limiter]> (p_limiters p)) p)
  | _, _ => Some p
  end.

Definition drop_permit (c : SocksConnection) (s : sem) : sem :=
  if sc_permit c then sem_release s else s.

(** *** As a task of [Merino::serve] *)

(** The first poll: permit and slot are bound, the client goes to [run_client]. *)
Definition task_started (now : N) (c : SocksConnection) (p : Process)
    : option (SocksConnection * Process) :=
  client ← sc_client c;
  '(guard, p) ← run_client_begins client (sc_peer c) (sc_stats c) (sc_cache c) now p;
  Some ({| sc_client := None; sc_peer := sc_peer c; sc_permit := sc_permit c;
           sc_ip_slot := sc_ip_slot c; sc_stats := sc_stats c; sc_cache := sc_cache c;
           sc_guard := Some guard |}, p).

(** The end of the body, or the unwinding of a panic, which [tokio] keeps to the
    task: the bindings are dropped in the reverse of their order. *)
Definition task_ended (ctx : ServerContext) (c : SocksConnection) (s : sem) (p : Process)
    : option (Process * sem) :=
  let p := drop_guard c p in
  p ← drop_slot ctx c p;
  Some (p, drop_permit c s).

(** *** As an actor *)

(** Whether a handler called [ctx.stop()]. *)
Inductive actor_fate : Type := Stops | Lives.

(** [self.client.take()]. *)
Definition take_client (c : SocksConnection) : option SOCKClient * SocksConnection :=
  (sc_client c,
   {| sc_client := None; sc_peer := sc_peer c; sc_permit := sc_permit c;
      sc_ip_slot := sc_ip_slot c; sc_stats := sc_stats c; sc_cache := sc_cache c;
      sc_guard := sc_guard c |}).

Definition with_guard (g : option ActiveGuard) (c : SocksConnection) : SocksConnection :=
  {| sc_client := sc_client c; sc_peer := sc_peer c; sc_permit := sc_permit c;
     sc_ip_slot := sc_ip_slot c; sc_stats := sc_stats c; sc_cache := sc_cache c; sc_guard := g |}.

(** [SocksConnection::started], with the first poll of the future it spawns. *)
Definition actor_started (now : N) (c : SocksConnection) (p : Process)
    : option (SocksConnection * Process * actor_fate) :=
  let '(client, c) := take_client c in
  match client with
  | None => Some (c, p, Stops)
  | Some client =>
      '(guard, p) ← run_client_begins client (sc_peer c) (sc_stats c) (sc_cache c) now p;
      Some (with_guard (Some guard) c, p, Lives)
  end.

(** The closure mapped over the future. *)
Definition actor_completed : actor_fate := Stops.

(** The fields of an actor, in the order of their declaration. *)
Definition actor_dropped (ctx : ServerContext) (c : SocksConnection) (s : sem) (p : Process)
    : option (Process * sem) :=
  let s := drop_permit c s in
  p ← drop_slot ctx c p;
  Some (p, s).

(** The end of the future: [run_client] has dropped the registration, and the
    actor lives on unless it was stopped, or went down with the panic.  An actor
    that lives on holds what it held. *)
Definition actor_ended (how : exit) (ctx : ServerContext) (c : SocksConnection) (s : sem)
    (p : Process) : option (option SocksConnection * Process * sem) :=
  let p := drop_guard c p in
  let c := with_guard None c in
  match (match how with Returned => actor_completed | Panicked => Stops end) with
  | Stops => '(p, s) ← actor_dropped ctx c s p; Some (None, p, s)
  | Lives => Some (Some c, p, s)
  end.

(** *** In a server *)

(** [None] for an actor that stops at once: it was created without a client,
    which [spawn_actor] never does. *)
Definition begin_connection (b : backend) (now : N) (c : SocksConnection) (p : Process)
    : option (SocksConnection * Process) :=
  match b with
  | Tokio => task_started now c p
  | Actix =>
      '(c, p, fate) ← actor_started now c p;
      match fate with Lives => Some (c, p) | Stops => None end
  end.

(** The session of connection [j] is over. *)
Definition end_connection (how : exit) (j : nat) (sv : Server) : option Server :=
  c ← sv_live sv !! j;
  match sv_backend sv with
  | Tokio =>
      '(p, s) ← task_ended (sv_ctx sv) c (sv_sem sv) (sv_proc sv);
      Some (sv_set p s (sv_loops sv) (delete j (sv_live sv)) sv)
  | Actix =>
      '(rest, p, s) ← actor_ended how (sv_ctx sv) c (sv_sem sv) (sv_proc sv);
      let live := match rest with
                  | Some c => <[j := c]> (sv_live sv)
                  | None => delete j (sv_live sv)
                  end in
      Some (sv_set p s (sv_loops sv) live sv)
  end.

(** ** Starting to serve *)

(** [None]: [Semaphore::new] panics. *)
Definition start_server (b : backend) (ctx : ServerContext) (max_connections : usize)
    (n_listeners : nat) (p : Process) : option Server :=
  semaphore ← sem_new max_connections;
  Some {| sv_ctx := ctx; sv_backend := b; sv_proc := p; sv_sem := semaphore;
          sv_loops := replicate n_listeners Acquiring; sv_live := [] |}.

Definition Merino_serve (self : Merino) (p : Process) : option Server :=
  let addrs := omap (λ l, match l_local_addr l with Ok a => Some a | Err _ => None end)
                 (mo_listeners self) in
  let p := on_stats (mo_stats self) (note_listeners addrs) p in
  let ctx := {| ctx_users := mo_users self; ctx_auth_methods := mo_auth_methods self;
                ctx_timeout := mo_timeout self; ctx_dns_cache := mo_dns_cache self;
                ctx_per_ip := mo_per_ip self; ctx_stats := mo_stats self |} in
  start_server Tokio ctx (mo_max_connections self) (length (mo_listeners self)) p.

(** The statistics of this backend learn the listeners from its caller. *)
Definition SocksServer_started (self : SocksServer) (p : Process) : option Server :=
  let ctx := {| ctx_users := ss_users self; ctx_auth_methods := ss_auth_methods self;
                ctx_timeout := ss_timeout self; ctx_dns_cache := ss_dns_cache self;
                ctx_per_ip := ss_per_ip self; ctx_stats := ss_stats self |} in
  start_server Actix ctx (ss_max_connections self) (length (ss_listeners_ self)) p.

(** ** Every interleaving *)

Inductive label : Type :=
  | LAcquire (i : nat) | LAccept (i : nat) | LStart (j : nat) | LWork | LCache | LFinish (j : nat).

(** The registrations of the live connections. *)
Definition guards (sv : Server) : list ActiveGuard := omap sc_guard (sv_live sv).

(** A running connection changes the statistics by the steps of the registry
    and the caches by lookups and insertions. *)
Inductive server_step : label → Server → Server → Prop :=
  | SAcquire i sv sv' :
      sv_loops sv !! i = Some Acquiring → take_permit i sv = Some sv' →
      server_step (LAcquire i) sv sv'
  | SAccept i r now unix_now sv :
      sv_loops sv !! i = Some Accepting →
      server_step (LAccept i) sv (accepted i r now unix_now sv)
  | SStart j now c c' p' sv :
      sv_live sv !! j = Some c → begin_connection (sv_backend sv) now c (sv_proc sv) = Some (c', p') →
      (∀ s, p_stats (sv_proc sv) !! sc_stats c = Some s → next_client_id s + 1 < u64_modulus)%N →
      server_step (LStart j) sv
        (sv_set p' (sv_sem sv) (sv_loops sv) (<[j := c']> (sv_live sv)) sv)
  | SWork s s' h' sv :
      sv_live sv ≠ [] →
      p_stats (sv_proc sv) !! ctx_stats (sv_ctx sv) = Some s →
      registry_step {| r_stats := s; r_heap := p_heap (sv_proc sv); r_guards := guards sv |}
                    {| r_stats := s'; r_heap := h'; r_guards := guards sv |} →
      server_step LWork sv
        (sv_set (on_stats (ctx_stats (sv_ctx sv)) (λ _, s') (set_heap h' (sv_proc sv)))
           (sv_sem sv) (sv_loops sv) (sv_live sv) sv)
  | SCache l c op sv :
      sv_live sv ≠ [] → p_caches (sv_proc sv) !! l = Some c →
      server_step LCache sv
        (sv_set (set_caches (<[l := run_op c op]> (p_caches (sv_proc sv))) (sv_proc sv))
           (sv_sem sv) (sv_loops sv) (sv_live sv) sv)
  | SFinish how j c sv sv' :
      sv_live sv !! j = Some c → is_Some (sc_guard c) → end_connection how j sv = Some sv' →
      server_step (LFinish j) sv sv'.

Definition server_reachable : Server → Server → Prop := rtc (λ sv sv', ∃ l, server_step l sv sv').

Definition is_accepting (a : loop_at) : bool := match a with Accepting => true | Acquiring => false end.

(** The loops that wait for a client with a permit in hand. *)
Definition holding (loops : list loop_at) : nat := length (filter is_accepting loops).

Definition peer_ip (c : SocksConnection) : IpAddr := sock_ip (sc_peer c).

(** The connections of a source. *)
Definition from_ip (ip : IpAddr) (live : list SocksConnection) : nat :=
  length (filter (λ c, peer_ip c = ip) live).

Definition slots_of (live : list SocksConnection) : gmultiset IpAddr :=
  list_to_set_disj (peer_ip <$> live).

(** The limiter of [ctx] and the slots of the connections. *)
Definition limited (ctx : ServerContext) (cap : option usize) (p : Process)
    (live : list SocksConnection) : Prop :=
  match ctx_per_ip ctx, cap with
  | Some l, Some k =>
      ∃ limiter, p_limiters p !! l = Some limiter ∧ limit limiter = k ∧
                 limiter_spec limiter (slots_of live) ∧
                 Forall (λ c, sc_ip_slot c = Some {| slot_ip := peer_ip c |}) live
  | None, None => True
  | _, _ => False
  end.

Definition well_held (ctx : ServerContext) (c : SocksConnection) : Prop :=
  sc_permit c = true ∧ sc_stats c = ctx_stats ctx ∧
  match sc_guard c with
  | None => is_Some (sc_client c)
  | Some g => sc_client c = None ∧ g_ip g = peer_ip c
  end.

Record server_inv (max_ : usize) (cap : option usize) (sv : Server) : Prop := {
  si_permits : available (sv_sem sv) + holding (sv_loops sv) + length (sv_live sv) = max_;
  si_held : Forall (well_held (sv_ctx sv)) (sv_live sv);
  si_limited : limited (sv_ctx sv) cap (sv_proc sv) (sv_live sv);
  si_registry : ∃ s, p_stats (sv_proc sv) !! ctx_stats (sv_ctx sv) = Some s ∧
                     registry_inv s (p_heap (sv_proc sv)) (guards sv)
}.
End server.

(** ** The backends agree on a connection *)

Section one_connection.
Context `{!Semaphore}.

(** The end of a connection as the end of a task. *)
Definition leave (j : nat) (sv : Server) : option Server :=
  c ← sv_live sv !! j;
  '(p, s) ← task_ended (sv_ctx sv) c (sv_sem sv) (sv_proc sv);
  Some (sv_set p s (sv_loops sv) (delete j (sv_live sv)) sv).

Lemma begin_connection_task b now c p : begin_connection b now c p = task_started now c p.
Proof.
  destruct b; [done|]. unfold begin_connection, actor_started, take_client, task_started.
  destruct (sc_client c); [|done]. cbn [mbind option_bind sc_peer sc_stats sc_cache].
  by destruct (run_client_begins _ _ _ _ _ _) as [[g p']|].
Qed.

Lemma drop_slot_unguarded ctx c p : drop_slot ctx (with_guard None c) p = drop_slot ctx c p.
Proof. done. Qed.

Lemma end_connection_leave how j sv : end_connection how j sv = leave j sv.
Proof.
  unfold end_connection, leave. destruct (sv_live sv !! j) as [c|]; [|done]. cbn [mbind option_bind].
  destruct (sv_backend sv); [done|]. unfold actor_ended, task_ended.
  replace (match how with Returned => _ | Panicked => _ end) with Stops by by destruct how.
  unfold actor_dropped. rewrite drop_slot_unguarded. by destruct (drop_slot _ _ _).
Qed.
End one_connection.

(** ** The invariant *)

Lemma holding_insert loops i a b :
  loops !! i = Some a →
  holding (<[i := b]> loops) + (if is_accepting a then 1 else 0) =
  holding loops + (if is_accepting b then 1 else 0).
Proof.
  unfold holding. revert i. induction loops as [|x loops IH]; intros [|i]; simpl; try done.
  - intros [= ->]. rewrite !filter_cons. destruct a, b; simpl; lia.
  - intros Hi. specialize (IH _ Hi). rewrite !filter_cons. destruct x; simpl in *; lia.
Qed.

Lemma holding_replicate n : holding (replicate n Acquiring) = 0.
Proof. unfold holding. induction n as [|n IH]; [done|]. simpl. by rewrite filter_cons. Qed.

Lemma holding_le loops i : loops !! i = Some Acquiring → holding loops < length loops.
Proof.
  intros Hi. pose proof (holding_insert _ _ _ Accepting Hi) as H. simpl in H.
  assert (holding (<[i := Accepting]> loops) ≤ length loops); [|lia].
  unfold holding. rewrite <- (length_insert loops i Accepting). apply length_filter.
Qed.

Lemma multiplicity_list_to_set_disj `{Countable A} (x : A) (l : list A) :
  multiplicity x (list_to_set_disj l : gmultiset A) = length (filter (λ y, y = x) l).
Proof.
  induction l as [|y l IH]; [by rewrite list_to_set_disj_nil, multiplicity_empty|].
  rewrite list_to_set_disj_cons, multiplicity_disj_union, multiplicity_singleton, IH, filter_cons.
  repeat case_decide; subst; done.
Qed.

Lemma multiplicity_slots_of ip live : multiplicity ip (slots_of live) = from_ip ip live.
Proof.
  unfold slots_of, from_ip. rewrite multiplicity_list_to_set_disj. symmetry.
  induction live as [|c live IH]; [done|].
  rewrite fmap_cons, !filter_cons. case_decide; simpl; by rewrite IH.
Qed.

Lemma slots_of_app live live' : slots_of (live ++ live') = slots_of live ⊎ slots_of live'.
Proof. unfold slots_of. by rewrite fmap_app, list_to_set_disj_app. Qed.

Lemma slots_of_cons c live : slots_of (c :: live) = {[+ peer_ip c +]} ⊎ slots_of live.
Proof. unfold slots_of. by rewrite fmap_cons, list_to_set_disj_cons. Qed.

Lemma omap_length_le {A B} (f : A → option B) l : length (omap f l) ≤ length l.
Proof. induction l as [|x l IH]; csimpl; [done|]. destruct (f x); csimpl; lia. Qed.

Lemma slots_of_nil : slots_of [] = ∅.
Proof. apply list_to_set_disj_nil. Qed.

Lemma lookup_split {A} (l : list A) j x :
  l !! j = Some x → ∃ l1 l2, l = l1 ++ x :: l2 ∧ length l1 = j.
Proof.
  intros H. exists (take j l), (drop (S j) l). split; [by rewrite take_drop_middle|].
  apply length_take_le, Nat.lt_le_incl, lookup_lt_is_Some. by exists x.
Qed.

Section slots.
Context (ctx : ServerContext) (cap : option usize).

Lemma limited_stats p p' live :
  p_limiters p' = p_limiters p → limited ctx cap p live → limited ctx cap p' live.
Proof. unfold limited. by intros ->. Qed.

(** The check of an accepted connection: a refusal changes nothing and means the
    source holds its limit; a slot is granted below it. *)
Lemma claim_slot_spec p live ip r p' :
  limited ctx cap p live → claim_slot ctx ip p = (r, p') →
  p_stats p' = p_stats p ∧ p_heap p' = p_heap p ∧ p_caches p' = p_caches p ∧
  match r with
  | None => ∃ k, cap = Some k ∧ from_ip ip live = k ∧ p' = p
  | Some slot =>
      (∀ k, cap = Some k → from_ip ip live < k) ∧
      ∀ c, peer_ip c = ip → sc_ip_slot c = slot → limited ctx cap p' (live ++ [c])
  end.
Proof.
  unfold limited, claim_slot. destruct (ctx_per_ip ctx) as [l|], cap as [k|]; try done.
  2: { intros _ [= <- <-]. split_and!; done. }
  intros (lim & Hl & <- & Hspec & Hall). rewrite Hl.
  pose proof (spec_bound _ _ Hspec ip) as Hb. rewrite multiplicity_slots_of in Hb.
  destruct (decide (from_ip ip live = limit lim)) as [E|E].
  - rewrite (try_acquire_refused _ _ Hspec) by (by rewrite multiplicity_slots_of).
    simpl. intros [= <- <-]. split_and!; try done. exists (limit lim). split_and!; try done.
    unfold set_limiters. rewrite list_insert_id by done. by destruct p.
  - destruct (try_acquire_granted _ _ Hspec ip) as (lim' & -> & Hlim & Hspec').
    { rewrite multiplicity_slots_of. lia. }
    simpl. intros [= <- <-]. split_and!; try done; [intros k [= <-]; lia|].
    intros c Hip Hslot. exists lim'. split_and!; [|done| |].
    + apply list_lookup_insert_eq, lookup_lt_is_Some. by exists lim.
    + rewrite slots_of_app, slots_of_cons, slots_of_nil, (right_id_L ∅ (⊎)), Hip. done.
    + apply Forall_app. split; [done|]. rewrite Forall_singleton. by rewrite Hip.
Qed.

(** A connection that ends gives its slot back. *)
Lemma drop_slot_spec p c l1 l2 :
  limited ctx cap p (l1 ++ c :: l2) →
  ∃ p', drop_slot ctx c p = Some p' ∧ limited ctx cap p' (l1 ++ l2) ∧
        p_stats p' = p_stats p ∧ p_heap p' = p_heap p.
Proof.
  unfold limited, drop_slot. destruct (ctx_per_ip ctx) as [l|], cap as [k|]; try done; [|by eauto].
  intros (lim & Hl & Hlim & Hspec & [H1 [Hc H2]%Forall_cons_1]%Forall_app). rewrite Hc, Hl. simpl.
  destruct (IpSlot_drop_held _ _ Hspec (peer_ip c)) as (lim' & -> & Hlim' & Hspec').
  { rewrite slots_of_app, slots_of_cons. multiset_solver. }
  simpl. eexists. split_and!; [done| |done|done]. simpl.
  exists lim'. split_and!; [|congruence| |by apply Forall_app].
  - apply list_lookup_insert_eq, lookup_lt_is_Some. by exists lim.
  - revert Hspec'. rewrite !slots_of_app, slots_of_cons. replace (_ ∖ _) with (slots_of l1 ⊎ slots_of l2); [done|multiset_solver].
Qed.
End slots.

#[local] Arguments ActiveGuard_drop : simpl never.

(** A connection that starts is registered by [run_client]. *)
Lemma started_spec now c p c' p' client s :
  sc_client c = Some client → p_stats p !! sc_stats c = Some s → task_started now c p = Some (c', p') →
  ∃ guard w cache, start_client (sc_peer c) (world_of client s cache now p) = (guard, w) ∧
    sc_client c' = None ∧ sc_guard c' = Some guard ∧ sc_peer c' = sc_peer c ∧
    sc_permit c' = sc_permit c ∧ sc_ip_slot c' = sc_ip_slot c ∧ sc_stats c' = sc_stats c ∧
    p' = on_stats (sc_stats c) (λ _, w_stats w) (set_heap (w_heap w) p).
Proof.
  intros Hc Hs. unfold task_started, run_client_begins. rewrite Hc. cbn [mbind option_bind].
  rewrite Hs. cbn [mbind option_bind]. destruct (start_client _ _) as [guard w] eqn:Es. intros [= <- <-].
  eexists guard, w, _. split_and!; [exact Es|done..].
Qed.

Section invariant.
Context `{!Semaphore} (max_ : usize) (cap : option usize).

Lemma take_permit_inv i sv sv' :
  sv_loops sv !! i = Some Acquiring → take_permit i sv = Some sv' →
  server_inv max_ cap sv → server_inv max_ cap sv'.
Proof.
  unfold take_permit. intros Hi Ht [Hp Hh Hl Hr].
  destruct (sem_acquire (sv_sem sv)) as [s|] eqn:E; simplify_eq/=.
  apply sem_acquire_spec in E. pose proof (holding_insert _ _ _ Accepting Hi) as Hi'. simpl in Hi'.
  split; simpl; try done. lia.
Qed.

(** A connection that was accepted is handed over with its permit and slot. *)
Lemma on_accept_spec sv client addr slot now unix_now p c p' :
  on_accept sv client addr slot now unix_now p = (c, p') →
  sc_client c = Some client ∧ sc_peer c = addr ∧ sc_permit c = true ∧ sc_ip_slot c = slot ∧
  sc_stats c = ctx_stats (sv_ctx sv) ∧ sc_cache c = ctx_dns_cache (sv_ctx sv) ∧
  sc_guard c = None ∧ (∃ l, p_stats p' = p_stats p ++ l) ∧ p_heap p' = p_heap p ∧
  p_limiters p' = p_limiters p.
Proof.
  unfold on_accept. destruct (sv_backend sv); intros [= <- <-]; simpl; split_and!; try done.
  - exists []. by rewrite app_nil_r.
  - eauto.
Qed.

Lemma registry_counted s h gs l c n p k :
  p_stats p !! l = Some s → registry_inv s h gs → k = counter_add c n →
  ∃ s', p_stats (on_stats l k p) !! l = Some s' ∧ registry_inv s' h gs.
Proof.
  intros Hs Hr ->. eexists. split; [by apply on_stats_lookup|]. by apply counter_add_inv.
Qed.

Lemma accepted_inv i r now unix_now sv :
  sv_loops sv !! i = Some Accepting →
  server_inv max_ cap sv → server_inv max_ cap (accepted i r now unix_now sv).
Proof.
  intros Hi [Hp Hh Hl (s & Hs & Hr)].
  pose proof (holding_insert _ _ _ Acquiring Hi) as Hi'. simpl in Hi'.
  unfold accepted. destruct r as [[inc addr]|e].
  2: { split; simpl; [rewrite sem_release_spec; lia|done|done|by eauto]. }
  destruct (claim_slot _ _ _) as [[slot|] p] eqn:Ec;
    apply (claim_slot_spec _ _ _ _ _ _ _ Hl) in Ec as (Eps & Eph & _ & Hslot).
  - destruct Hslot as [_ Hslot].
    destruct (on_accept _ _ _ _ _ _ _) as [c p'] eqn:Eo.
    apply on_accept_spec in Eo as (Ecl & Epeer & Eperm & Esl & Est & _ & Eg & (l & Esl') & Eh & Elim).
    rewrite <- Eps in Hs.
    destruct (registry_counted s (p_heap (sv_proc sv)) (guards sv) _ accepted_total 1 p note_accepted Hs Hr)
      as (s' & Hs' & Hr'); [done|].
    split; simpl.
    + rewrite length_app. simpl. lia.
    + apply Forall_app. split; [done|]. rewrite Forall_singleton.
      split_and!; [done|done|]. rewrite Eg, Ecl. eauto.
    + apply (limited_stats _ _ p); [by rewrite Elim|].
      apply Hslot; [by unfold peer_ip; rewrite Epeer|done].
    + exists s'. rewrite Esl'. split; [by apply lookup_app_l_Some|].
      unfold guards in *. simpl. rewrite omap_app. simpl. rewrite Eg, app_nil_r, Eh.
      change (registry_inv s' (p_heap p) (omap sc_guard (sv_live sv))). by rewrite Eph.
  - destruct Hslot as (k & -> & Hk & ->).
    destruct (registry_counted s (p_heap (sv_proc sv)) (guards sv) _ refused_per_ip_total 1 (sv_proc sv)
      note_refused_per_ip Hs Hr) as (s' & Hs' & Hr'); [done|].
    split; simpl; [rewrite sem_release_spec; lia|done|done|by eauto].
Qed.

Lemma started_inv j now c c' p' sv :
  sv_live sv !! j = Some c → task_started now c (sv_proc sv) = Some (c', p') →
  (∀ s, p_stats (sv_proc sv) !! sc_stats c = Some s → next_client_id s + 1 < u64_modulus)%N →
  server_inv max_ cap sv →
  server_inv max_ cap (sv_set p' (sv_sem sv) (sv_loops sv) (<[j := c']> (sv_live sv)) sv).
Proof.
  intros Hj Hst Hid [Hp Hh Hl (s & Hs & Hr)].
  destruct (lookup_split _ _ _ Hj) as (l1 & l2 & El & <-).
  assert (well_held (sv_ctx sv) c) as (Hperm & Hstats & Hg) by (by eapply Forall_lookup_1).
  destruct (sc_guard c) as [g|] eqn:Eg.
  { unfold task_started in Hst. destruct Hg as [Hg _]. by rewrite Hg in Hst. }
  destruct Hg as [client Ec]. rewrite <- Hstats in Hs.
  destruct (started_spec _ _ _ _ _ _ _ Ec Hs Hst)
    as (guard & w & cache & Es & Hc' & Hg' & Hpeer & Hperm' & Hslot & Hst' & ->).
  destruct (start_client_registered (guards sv) _ _ _ _ Es) as [Hr' Hip].
  { by apply Hid. }
  { exact Hr. }
  unfold peer_ip in *. split; simpl.
  - by rewrite length_insert.
  - apply Forall_insert; [done|]. unfold well_held, peer_ip.
    by rewrite Hperm', Hst', Hg', Hc', Hpeer.
  - revert Hl. unfold limited, on_stats. simpl. destruct (ctx_per_ip _), cap; try done.
    rewrite El, insert_app_r_alt, Nat.sub_diag by done. simpl.
    intros (lim & ? & ? & Hspec & Hall). exists lim. split_and!; [done..| |].
    + revert Hspec. rewrite !slots_of_app, !slots_of_cons. unfold peer_ip. by rewrite Hpeer.
    + apply Forall_app in Hall as [? [? ?]%Forall_cons_1]. apply Forall_app. split; [done|].
      constructor; [unfold peer_ip; by rewrite Hslot, Hpeer|done].
  - exists (w_stats w). split; [rewrite <- Hstats; exact (on_stats_lookup _ (λ _, w_stats w) _ _ Hs)|].
    unfold guards in *. simpl. rewrite El in *. rewrite insert_app_r_alt, Nat.sub_diag by done. simpl.
    rewrite omap_app in *. simpl in *. rewrite Eg in Hr'. rewrite Hg'.
    by rewrite <- Permutation_middle.
Qed.

(** A connection that runs is one whose client was taken. *)
Lemma held_client ctx c : well_held ctx c → is_Some (sc_guard c) ↔ sc_client c = None.
Proof.
  intros (_ & _ & Hg). destruct (sc_guard c) as [g|].
  - split; [by intros _; apply Hg|by eexists].
  - split; [by intros [? [=]]|]. intros Hc. rewrite Hc in Hg. by destruct Hg.
Qed.

Lemma live_client sv j c :
  server_inv max_ cap sv → sv_live sv !! j = Some c → is_Some (sc_guard c) ↔ sc_client c = None.
Proof. intros [_ Hh _ _] Hj. eapply held_client. by eapply Forall_lookup_1. Qed.

Lemma finish_inv j c sv :
  sv_live sv !! j = Some c → sc_client c = None → server_inv max_ cap sv →
  ∃ sv', leave j sv = Some sv' ∧ server_inv max_ cap sv' ∧
         available (sv_sem sv') = S (available (sv_sem sv)).
Proof.
  intros Hj Hc [Hp Hh Hl (s & Hs & Hr)]. unfold leave, task_ended. rewrite Hj.
  cbn [mbind option_bind]. destruct (lookup_split _ _ _ Hj) as (l1 & l2 & El & <-).
  assert (well_held (sv_ctx sv) c) as (Hperm & Hstats & Hg) by (by eapply Forall_lookup_1).
  destruct (sc_guard c) as [g|] eqn:Eg; [|by destruct Hg; simplify_eq].
  unfold drop_guard. rewrite Eg, Hstats.
  set (p1 := on_stats _ _ _).
  destruct (drop_slot_spec (sv_ctx sv) cap p1 c l1 l2) as (p' & -> & Hl' & Eps & Eph).
  { rewrite <- El. by apply (limited_stats _ _ (sv_proc sv)). }
  cbn [mbind option_bind]. unfold drop_permit. rewrite Hperm. eexists. split; [done|].
  split; [|simpl; apply sem_release_spec].
  rewrite El in *. rewrite length_app in Hp. simpl in Hp.
  split; simpl; rewrite ?delete_middle.
  - rewrite sem_release_spec, length_app. lia.
  - apply Forall_app in Hh as [? [? ?]%Forall_cons_1]. by apply Forall_app.
  - done.
  - exists (ActiveGuard_drop g s). rewrite Eps, Eph. split; [by apply on_stats_lookup|].
    unfold guards in *. simpl. rewrite El in Hr.
    rewrite omap_app in *. simpl in *. rewrite Eg in Hr.
    apply ActiveGuard_drop_inv. by rewrite Permutation_middle.
Qed.

Lemma server_step_inv l sv sv' :
  server_step l sv sv' → server_inv max_ cap sv → server_inv max_ cap sv'.
Proof.
  intros Hstep Hinv.
  destruct Hstep as [i sv sv' Hi Ht|i r now un sv Hi|j now c c' p' sv Hj Hst Hid
    |s s' h' sv _ Hs Hw|l c op sv _ Hl|how j c sv sv' Hj Hc Hf].
  - by eapply take_permit_inv.
  - by eapply accepted_inv.
  - rewrite begin_connection_task in Hst. by eapply started_inv.
  - destruct Hinv as [? ? ? (s0 & Hs0 & Hr)]. split; simpl; try done.
    apply registry_step_inv in Hw; simpl in *; [|by simplify_eq].
    exists s'. split; [|done]. exact (on_stats_lookup _ (λ _, s') _ _ Hs).
  - destruct Hinv as [? ? ? ?]. by split.
  - rewrite end_connection_leave in Hf. apply (live_client _ _ _ Hinv Hj) in Hc.
    destruct (finish_inv _ _ _ Hj Hc Hinv) as (sv2 & Hf' & ? & _). by simplify_eq.
Qed.

Lemma server_reachable_inv sv sv' :
  server_reachable sv sv' → server_inv max_ cap sv → server_inv max_ cap sv'.
Proof. apply rtc_invariant. intros ?? [l ?]. by eapply server_step_inv. Qed.

Lemma finish_Some j sv sv' :
  leave j sv = Some sv' → ∃ p s, sv' = sv_set p s (sv_loops sv) (delete j (sv_live sv)) sv.
Proof.
  unfold leave, task_ended. intros (c & _ & ([p s] & _ & [= <-])%bind_Some)%bind_Some. eauto.
Qed.

Lemma server_step_ctx l sv sv' : server_step l sv sv' → sv_ctx sv' = sv_ctx sv.
Proof.
  intros []; try done.
  - unfold take_permit in *. destruct (sem_acquire _); by simplify_eq/=.
  - unfold accepted. repeat case_match; done.
  - rewrite end_connection_leave in *. by destruct (finish_Some _ _ _ ltac:(eassumption)) as (p & s & ->).
Qed.

Lemma server_step_loops l sv sv' :
  server_step l sv sv' → length (sv_loops sv') = length (sv_loops sv).
Proof.
  intros []; try done.
  - unfold take_permit in *. destruct (sem_acquire _); simplify_eq/=. by rewrite length_insert.
  - unfold accepted. repeat case_match; simpl; by rewrite length_insert.
  - rewrite end_connection_leave in *. by destruct (finish_Some _ _ _ ltac:(eassumption)) as (p & s & ->).
Qed.
End invariant.

(** ** From the configuration *)

(** The shared objects of a server that is about to start: no connection yet. *)
Definition ready (stats : loc) (per_ip : option loc) (cap : option usize) (p : Process) : Prop :=
  (∃ s, p_stats p !! stats = Some s ∧ registry_inv s (p_heap p) []) ∧
  match per_ip, cap with
  | Some l, Some k =>
      ∃ limiter, p_limiters p !! l = Some limiter ∧ limit limiter = k ∧ limiter_spec limiter ∅
  | None, None => True
  | _, _ => False
  end.

Lemma ready_on_stats stats per_ip cap l f p :
  (∀ s h gs, registry_inv s h gs → registry_inv (f s) h gs) →
  ready stats per_ip cap p → ready stats per_ip cap (on_stats l f p).
Proof.
  intros Hf [(s & Hs & Hr) Hl]. split; [|done]. simpl. destruct (decide (l = stats)) as [->|Hne].
  - exists (f s). rewrite list_lookup_alter_eq, Hs. auto.
  - exists s. by rewrite list_lookup_alter_ne.
Qed.

Lemma note_listeners_inv l s h gs : registry_inv s h gs → registry_inv (note_listeners l s) h gs.
Proof. intros []. by split. Qed.

Lemma register_dns_inv l s h gs : registry_inv s h gs → registry_inv (register_dns l s) h gs.
Proof. intros []. by split. Qed.

(** The cap of a server: zero disables it. *)
Definition cap_of (max_ : usize) : option usize := if 0 <? max_ then Some max_ else None.

Lemma new_limiter_ready stats per_ip cap max_ p :
  ready stats per_ip cap p →
  ready stats (new_limiter max_ p).1 (cap_of max_) (new_limiter max_ p).2.
Proof.
  intros [Hs _]. unfold ready, new_limiter, cap_of. destruct (Nat.ltb_spec 0 max_); simpl; [|done].
  split; [done|]. eexists. rewrite lookup_app_r, Nat.sub_diag by done. split_and!; [done| |].
  - simpl. lia.
  - apply limiter_spec_new.
Qed.

(** A server that was built by [new] or [bind] and the setters, in any order,
    is ready. *)
Lemma Merino_new_ready `{!Net} port ip methods users timeout now un p m p' :
  p_heap p = heap_empty →
  Merino_new port ip methods users timeout now un p = Ok (m, p') →
  ready (mo_stats m) (mo_per_ip m) None p' ∧ mo_max_connections m = DEFAULT_MAX_CONNECTIONS.
Proof.
  unfold Merino_new. destruct (bind_all ip port) as [l|e]; simpl; [|done].
  intros Hh [= <- <-]. simpl. split; [|done]. split; [|done].
  eexists. simpl. rewrite lookup_app_r, Nat.sub_diag, Hh by done. split; [done|].
  apply registry_inv_init.
Qed.

Lemma SocksServer_bind_ready `{!Net} port ip methods users timeout now un p m p' :
  p_heap p = heap_empty →
  SocksServer_bind port ip methods users timeout now un p = Ok (m, p') →
  ready (ss_stats m) (ss_per_ip m) None p' ∧ ss_max_connections m = DEFAULT_MAX_CONNECTIONS.
Proof.
  unfold SocksServer_bind. destruct (bind_all ip port) as [l|e]; simpl; [|done].
  destruct (collect _) as [bound|e]; simpl; [|done].
  intros Hh [= <- <-]. simpl. split; [|done]. split; [|done].
  eexists. simpl. rewrite lookup_app_r, Nat.sub_diag, Hh by done. split; [done|].
  apply registry_inv_init.
Qed.

Section started.
Context `{!Semaphore} (b : backend) (ctx : ServerContext) (max_ n : usize) (cap : option usize).
Context (p : Process) (sv0 : Server).
Context (Hready : ready (ctx_stats ctx) (ctx_per_ip ctx) cap p).
Context (Hstart : start_server b ctx max_ n p = Some sv0).

Lemma start_server_inv : server_inv max_ cap sv0.
Proof using Hready Hstart.
  unfold start_server in Hstart. destruct (sem_new max_) as [s|] eqn:E; simplify_eq/=.
  apply sem_new_spec in E. destruct Hready as [Hs Hl].
  split; simpl; [rewrite holding_replicate; lia|done| |done].
  unfold limited. destruct (ctx_per_ip ctx), cap; try done.
  destruct Hl as (lim & ? & ? & ?). exists lim. by split_and!.
Qed.

Lemma reachable_inv sv : server_reachable sv0 sv → server_inv max_ cap sv.
Proof using Hready Hstart. intros Hr. eapply server_reachable_inv, start_server_inv. done. Qed.

End started.

Lemma reachable_ctx `{!Semaphore} b ctx max_ n p sv0 sv :
  start_server b ctx max_ n p = Some sv0 → server_reachable sv0 sv →
  sv_ctx sv = ctx ∧ length (sv_loops sv) = n.
Proof.
  intros Hstart Hr.
  eapply (rtc_invariant _ (λ sv, sv_ctx sv = ctx ∧ length (sv_loops sv) = n)) in Hr; [done| |].
  - intros ?? [l Hl] [<- <-]. split; [by eapply server_step_ctx|by eapply server_step_loops].
  - unfold start_server in Hstart. destruct (sem_new max_); simplify_eq/=.
    by rewrite length_replicate.
Qed.

(** ** The theorems *)

Section theorems.
Context `{!Semaphore} (b : backend) (ctx : ServerContext) (max_ n : usize) (cap : option usize).
Context (p : Process) (sv0 : Server).
Context (Hready : ready (ctx_stats ctx) (ctx_per_ip ctx) cap p).
Context (Hstart : start_server b ctx max_ n p = Some sv0).

(** C6: over every interleaving of connections that arrive, are refused, start,
    work and end, in both backends: permits, loops waiting for a client and
    open connections always add up to the configured maximum, so that no more
    connections than that are ever open; no source ever has more of them than
    its cap; and the statistics count the running ones, in total and per
    source. *)
Theorem server_capacity sv ip :
  server_reachable sv0 sv →
  available (sv_sem sv) + holding (sv_loops sv) + length (sv_live sv) = max_ ∧
  (∀ k, cap = Some k → from_ip ip (sv_live sv) ≤ k) ∧
  ∃ s, p_stats (sv_proc sv) !! ctx_stats ctx = Some s ∧
       active s = N.of_nat (length (guards sv)) ∧ length (guards sv) ≤ length (sv_live sv) ∧
       default 0%N (active_per_ip s !! ip) = count_ip ip (guards sv) ∧
       (count_ip ip (guards sv) ≤ N.of_nat (from_ip ip (sv_live sv)))%N.
Proof.
  intros Hr. destruct (reachable_ctx _ _ _ _ _ _ _ Hstart Hr) as [Hctx _].
  destruct (reachable_inv _ _ _ _ _ _ _ Hready Hstart _ Hr) as [Hp Hh Hl (s & Hs & Hreg)].
  rewrite Hctx in *. split_and!; [done| |].
  - intros k ->. unfold limited in Hl. destruct (ctx_per_ip ctx); [|done].
    destruct Hl as (lim & _ & <- & Hspec & _). rewrite <- multiplicity_slots_of. apply Hspec.
  - exists s. split_and!; [done|apply Hreg| | |].
    + apply omap_length_le.
    + rewrite (inv_per_ip _ _ _ Hreg). by case_decide.
    + unfold guards, count_ip, from_ip. clear -Hh. induction Hh as [|c live (_ & _ & Hc) _ IH]; [done|].
      csimpl. rewrite (filter_cons (λ c, peer_ip c = ip)).
      destruct (sc_guard c) as [g|]; [destruct Hc as [_ Hc]; rewrite filter_cons, Hc|];
        case_decide; csimpl; lia.
Qed.

(** A source is at its cap. *)
Definition at_cap (ip : IpAddr) (live : list SocksConnection) : bool :=
  match cap with Some k => bool_decide (from_ip ip live = k) | None => false end.

(** C33: what becomes of the outcome of an [accept], on every branch and in both
    backends: after a failed one and after a refusal - exactly when the source is
    at its cap - the permit is back and nothing is left behind but the count of
    the refusal; otherwise the connection is handed over with the permit and a
    slot, counted, and its client is set up as the server is configured.  The
    loop always goes on. *)
Theorem accept_loop_spec i r now unix_now sv :
  server_reachable sv0 sv → sv_loops sv !! i = Some Accepting →
  let sv' := accepted i r now unix_now sv in
  sv_loops sv' = <[i := Acquiring]> (sv_loops sv) ∧
  match r with
  | Err _ => sv_proc sv' = sv_proc sv ∧ sv_live sv' = sv_live sv ∧
             available (sv_sem sv') = S (available (sv_sem sv))
  | Ok (inc, addr) =>
      if at_cap (sock_ip addr) (sv_live sv) then
        sv_proc sv' = on_stats (ctx_stats ctx) note_refused_per_ip (sv_proc sv) ∧
        sv_live sv' = sv_live sv ∧ available (sv_sem sv') = S (available (sv_sem sv))
      else
        sv_sem sv' = sv_sem sv ∧
        (∃ s, p_stats (sv_proc sv) !! ctx_stats ctx = Some s ∧
              p_stats (sv_proc sv') !! ctx_stats ctx = Some (note_accepted s)) ∧
        ∃ c client, sv_live sv' = sv_live sv ++ [c] ∧ sc_client c = Some client ∧
          sc_permit c = true ∧ sc_peer c = addr ∧ sc_stats c = ctx_stats ctx ∧
          sc_cache c = ctx_dns_cache ctx ∧ stream client = in_stream inc ∧
          authed_users client = ctx_users ctx ∧ auth_methods client = ctx_auth_methods ctx ∧
          width client = credential_width (ctx_users ctx) ∧ timeout_ client = ctx_timeout ctx ∧
          handshake_timeout client = DEFAULT_HANDSHAKE_TIMEOUT ∧
          local_addr client = match in_local_addr inc with Ok a => Some a | Err _ => None end ∧
          has_stats client = true ∧ replied client = false
  end.
Proof.
  intros Hr Hi. destruct (reachable_ctx _ _ _ _ _ _ _ Hstart Hr) as [Hctx _].
  destruct (reachable_inv _ _ _ _ _ _ _ Hready Hstart _ Hr) as [_ _ Hl (s & Hs & _)].
  unfold accepted. rewrite Hctx in *. destruct r as [[inc addr]|e].
  2: { simpl. by rewrite sem_release_spec. }
  destruct (claim_slot _ _ _) as [[slot|] p1] eqn:Ec;
    apply (claim_slot_spec _ _ _ _ _ _ _ Hl) in Ec as (Eps & _ & _ & Hslot).
  - destruct Hslot as [Hlt _].
    destruct (on_accept _ _ _ _ _ _ _) as [c p2] eqn:Eo.
    apply on_accept_spec in Eo as (Ecl & Epeer & Eperm & _ & Est & Eca & _ & (l & Esl') & _).
    rewrite Hctx in *. split; [done|].
    replace (at_cap _ _) with false.
    2: { unfold at_cap. destruct cap as [k|]; [|done]. specialize (Hlt k eq_refl).
         rewrite bool_decide_eq_false_2; [done|lia]. }
    split; [done|]. split.
    + exists s. split; [done|]. simpl. rewrite Esl'. apply lookup_app_l_Some.
      apply on_stats_lookup. by rewrite Eps.
    + eexists c, _. split_and!; try done.
  - destruct Hslot as (k & Hk & Hn & ->). split; [done|].
    replace (at_cap _ _) with true.
    2: { unfold at_cap. rewrite Hk. by rewrite bool_decide_eq_true_2. }
    simpl. by rewrite sem_release_spec.
Qed.

(** Listeners are not starved and permits are not lost: while the open
    connections leave room for every listener, each accept loop that asks for a
    permit gets one; and a connection whose task has ended always gives its
    permit and slot back. *)
Theorem accept_loop_progress sv :
  server_reachable sv0 sv →
  (∀ i, sv_loops sv !! i = Some Acquiring → length (sv_live sv) + n ≤ max_ →
        is_Some (take_permit i sv)) ∧
  (∀ how j c, sv_live sv !! j = Some c → sc_client c = None →
        ∃ sv', end_connection how j sv = Some sv' ∧ available (sv_sem sv') = S (available (sv_sem sv)) ∧
               server_reachable sv0 sv').
Proof.
  intros Hr. destruct (reachable_ctx _ _ _ _ _ _ _ Hstart Hr) as [_ Hn].
  pose proof (reachable_inv _ _ _ _ _ _ _ Hready Hstart _ Hr) as Hinv. split.
  - intros i Hi Hle. pose proof (holding_le _ _ Hi) as Hh. pose proof (si_permits _ _ _ Hinv) as Hp.
    unfold take_permit. destruct (proj2 (sem_acquire_ok (sv_sem sv))) as [s ->]; [lia|]. by eexists.
  - intros how j c Hj Hc. destruct (finish_inv _ _ _ _ _ Hj Hc Hinv) as (sv' & Hf & _ & Ha).
    rewrite <- (end_connection_leave how) in Hf. exists sv'. split_and!; [done..|].
    apply (live_client _ _ _ _ _ Hinv Hj) in Hc. eapply rtc_r; [done|]. eexists. by eapply SFinish.
Qed.
End theorems.

(** ** Idle listeners hold permits *)

Section pinned.
Context `{!Semaphore} (b : backend) (ctx : ServerContext) (max_ n : usize) (p : Process).
Context (sv0 : Server) (Hstart : start_server b ctx max_ n p = Some sv0) (Hn : max_ < n).

Definition idle_loops (k : nat) : list loop_at := replicate k Accepting ++ replicate (n - k) Acquiring.

Lemma idle_reachable k :
  k ≤ max_ → ∃ sv, server_reachable sv0 sv ∧ sv_live sv = [] ∧ sv_loops sv = idle_loops k ∧
                   available (sv_sem sv) = max_ - k.
Proof using Hstart Hn.
  induction k as [|k IH]; intros Hk.
  - exists sv0. split; [apply rtc_refl|]. unfold idle_loops. rewrite Nat.sub_0_r. simpl.
    unfold start_server in Hstart. destruct (sem_new max_) as [s|] eqn:E; simplify_eq/=.
    apply sem_new_spec in E. split_and!; [done|done|lia].
  - destruct IH as (sv & Hr & Hlive & Hloops & Hav); [lia|].
    destruct (proj2 (sem_acquire_ok (sv_sem sv))) as [s Hs]; [lia|].
    assert (sv_loops sv !! k = Some Acquiring) as Hat.
    { rewrite Hloops. unfold idle_loops. rewrite lookup_app_r, length_replicate, Nat.sub_diag
        by (by rewrite length_replicate). apply lookup_replicate_2. lia. }
    eexists. split_and!.
    + eapply rtc_r; [done|]. exists (LAcquire k). apply SAcquire; [done|].
      unfold take_permit. rewrite Hs. reflexivity.
    + done.
    + simpl. rewrite Hloops. unfold idle_loops.
      replace (n - k) with (S (n - S k)) by lia. simpl.
      rewrite insert_app_r_alt, length_replicate, Nat.sub_diag by (by rewrite length_replicate).
      transitivity ((replicate k Accepting ++ [Accepting]) ++ replicate (n - S k) Acquiring);
        [by rewrite <- app_assoc|by rewrite <- replicate_S_end].
    + simpl. apply sem_acquire_spec in Hs. lia.
Qed.

(** A listener that nobody connects to keeps the permit it waits with, so
    that with more listeners than permits the server can come to a state
    without a single connection in which nothing happens but [accept]s on some
    of the listeners: the others accept nobody until somebody connects to one of
    these. *)
Theorem idle_listeners_pin :
  ∃ sv, server_reachable sv0 sv ∧ sv_live sv = [] ∧
        sv_loops sv = replicate max_ Accepting ++ replicate (n - max_) Acquiring ∧
        ∀ l sv', server_step l sv sv' → ∃ i, l = LAccept i ∧ i < max_.
Proof using Hstart Hn.
  destruct (idle_reachable max_) as (sv & Hr & Hlive & Hloops & Hav); [done|].
  exists sv. split_and!; [done..|]. intros l sv' Hstep.
  destruct Hstep as [i sv sv' Hi Ht|i r now un sv Hi|j now c c' p' sv Hj|s s' h' sv Hne
    |l c op sv Hne|how j c sv sv' Hj]; try done.
  - unfold take_permit in Ht. destruct (sem_acquire (sv_sem sv)) as [s|] eqn:E; [|done].
    apply sem_acquire_spec in E. lia.
  - exists i. split; [done|]. rewrite Hloops in Hi.
    destruct (decide (i < max_)) as [|Hge]; [done|].
    unfold idle_loops in Hi. rewrite lookup_app_r, length_replicate in Hi by (rewrite length_replicate; lia).
    by apply lookup_replicate_1 in Hi as [? _].
  - by rewrite Hlive in Hj.
  - by rewrite Hlive in Hj.
Qed.
End pinned.

(** ** Starting from a configuration *)

(** A server does not start, because of a panic, exactly when it is configured
    for more connections than the semaphore can count. *)
Lemma start_server_panics `{!Semaphore} b ctx max_ n p :
  start_server b ctx max_ n p = None ↔ (sem_max < N.of_nat max_)%N.
Proof.
  unfold start_server. pose proof (sem_new_ok max_) as Hok. destruct (sem_new max_) as [s|]; simpl.
  - assert (N.of_nat max_ ≤ sem_max)%N by (apply Hok; by exists s). split; [done|lia].
  - split; [|done]. intros _. destruct (N.le_gt_cases (N.of_nat max_) sem_max) as [Hle|]; [|done].
    apply Hok in Hle as [? [=]].
Qed.

(** The setters as [serve] sees them: zero connections are one, zero per source
    is no cap, and the statistics list the bound addresses. *)
Lemma Merino_serve_configured `{!Net, !Semaphore} port ip methods users timeout now un p m p1
    mx per_source m' p' sv0 :
  p_heap p = heap_empty →
  Merino_new port ip methods users timeout now un p = Ok (m, p1) →
  Merino_set_max_connections_per_ip per_source (Merino_set_max_connections mx m) p1 = (m', p') →
  Merino_serve m' p' = Some sv0 →
  ∃ p2, start_server Tokio (sv_ctx sv0) (max mx 1) (length (mo_listeners m)) p2 = Some sv0 ∧
        ready (ctx_stats (sv_ctx sv0)) (ctx_per_ip (sv_ctx sv0)) (cap_of per_source) p2 ∧
        ∃ s, p_stats p2 !! ctx_stats (sv_ctx sv0) = Some s ∧
             listeners s = SocketAddr_to_string <$>
               omap (λ l, match l_local_addr l with Ok a => Some a | Err _ => None end)
                 (mo_listeners m).
Proof.
  intros Hh Hnew Hset Hserve. destruct (Merino_new_ready _ _ _ _ _ _ _ _ _ _ Hh Hnew) as [Hready _].
  apply (new_limiter_ready _ _ _ per_source) in Hready.
  unfold Merino_set_max_connections_per_ip in Hset.
  assert (p_stats (new_limiter per_source p1).2 = p_stats p1) as Hps
    by (unfold new_limiter; by destruct (0 <? per_source)).
  destruct (new_limiter per_source p1) as [per_ip p2]. simpl in *. injection Hset as <- <-.
  unfold Merino_serve in Hserve. simpl in Hserve.
  assert (sv_ctx sv0 = {| ctx_users := mo_users m; ctx_auth_methods := mo_auth_methods m;
      ctx_timeout := mo_timeout m; ctx_dns_cache := mo_dns_cache m; ctx_per_ip := per_ip;
      ctx_stats := mo_stats m |}) as Hctx.
  { unfold start_server in Hserve. destruct (sem_new _); by simplify_eq/=. }
  eexists. rewrite Hctx. simpl. split_and!; [exact Hserve| |].
  - apply ready_on_stats; [|done]. intros; by apply note_listeners_inv.
  - unfold Merino_new in Hnew. destruct (bind_all ip port) as [l|e]; [|done].
    injection Hnew as <- <-. simpl in *. eexists. split.
    + rewrite list_lookup_alter_eq, Hps. simpl. by rewrite lookup_app_r, Nat.sub_diag.
    + done.
Qed.

(** ** Witnesses *)

#[local] Instance counting_semaphore : Semaphore.
Proof.
  refine {| sem := nat; available s := s; sem_max := 2305843009213693951;
            sem_new n := if (N.of_nat n <=? 2305843009213693951)%N then Some n else None;
            sem_acquire s := match s with 0 => None | S s => Some s end;
            sem_release := S |}.
  - intros n s. by destruct (_ <=? _)%N; intros; simplify_eq.
  - intros n. destruct (N.leb_spec (N.of_nat n) 2305843009213693951).
    + split; [done|by eexists].
    + split; [by intros [? [=]]|lia].
  - by intros [|s] s' [= <-].
  - intros [|s]; simpl; [split; [by intros [? [=]]|lia]|split; [lia|by eexists]].
  - done.
Defined.

Definition demo_ctx : ServerContext :=
  {| ctx_users := []; ctx_auth_methods := [AuthMethods_as_u8 NoAuth]; ctx_timeout := None;
     ctx_dns_cache := None; ctx_per_ip := Some 0; ctx_stats := 0 |}.

Definition demo_process : Process :=
  (new_limiter 1 (alloc_stats (Stats_new 0 0) process_empty).2).2.

Definition demo_server (b : backend) (n : usize) : Server :=
  {| sv_ctx := demo_ctx; sv_backend := b; sv_proc := demo_process; sv_sem := (2 : sem);
     sv_loops := replicate n Acquiring; sv_live := [] |}.

Definition demo_incoming : Incoming * SocketAddr :=
  ({| in_stream := demo_stream []; in_local_addr := Ok demo_home |}, demo_ip).

Lemma demo_started b n : start_server b demo_ctx 2 n demo_process = Some (demo_server b n).
Proof. reflexivity. Qed.

Lemma demo_process_ready : ready (ctx_stats demo_ctx) (ctx_per_ip demo_ctx) (Some 1) demo_process.
Proof.
  split.
  - eexists. split; [reflexivity|apply registry_inv_init].
  - eexists. split_and!; [reflexivity|done|apply (limiter_spec_new 1)].
Qed.

(** The first loop of [demo_server] holds a permit. *)
Definition demo_waiting (b : backend) (n : usize) : Server :=
  sv_set demo_process (1 : sem) (<[0 := Accepting]> (replicate n Acquiring)) [] (demo_server b n).

Lemma demo_waiting_reachable b n : server_reachable (demo_server b (S n)) (demo_waiting b (S n)).
Proof. apply rtc_once. exists (LAcquire 0). by apply SAcquire. Qed.

Lemma demo_accepted_reachable b n r now un :
  server_reachable (demo_server b (S n)) (accepted 0 r now un (demo_waiting b (S n))).
Proof. eapply rtc_r; [apply demo_waiting_reachable|]. exists (LAccept 0). by apply SAccept. Qed.

(** One connection of a source whose cap is one. *)
Lemma server_capacity_witness :
  length (sv_live (accepted 0 (Ok demo_incoming) 0 0 (demo_waiting Actix 1))) = 1 ∧
  from_ip (sock_ip demo_ip) (sv_live (accepted 0 (Ok demo_incoming) 0 0 (demo_waiting Actix 1))) ≤ 1.
Proof.
  split; [vm_compute; reflexivity|].
  exact (proj1 (proj2 (server_capacity Actix demo_ctx 2 1 (Some 1) demo_process _ demo_process_ready
    (demo_started Actix 1) _ (sock_ip demo_ip) (demo_accepted_reachable Actix 0 (Ok demo_incoming) 0 0)))
    1 eq_refl).
Defined.

Lemma accept_loop_spec_witness :
  sv_loops (accepted 0 (Ok demo_incoming) 0 0 (demo_waiting Tokio 1)) = [Acquiring].
Proof.
  exact (proj1 (accept_loop_spec Tokio demo_ctx 2 1 (Some 1) demo_process _ demo_process_ready
    (demo_started Tokio 1) 0 (Ok demo_incoming) 0 0 _ (demo_waiting_reachable Tokio 0) eq_refl)).
Defined.

Lemma accept_loop_progress_witness : is_Some (take_permit 1 (demo_waiting Tokio 2)).
Proof.
  refine (proj1 (accept_loop_progress Tokio demo_ctx 2 2 (Some 1) demo_process _ demo_process_ready
    (demo_started Tokio 2) _ (demo_waiting_reachable Tokio 1)) 1 eq_refl _).
  simpl. lia.
Defined.

(** One permit (the least a server can have) and the two listeners of a
    dual-stack name. *)
Definition pinned_server : Server :=
  {| sv_ctx := demo_ctx; sv_backend := Actix; sv_proc := demo_process; sv_sem := (1 : sem);
     sv_loops := [Acquiring; Acquiring]; sv_live := [] |}.

Lemma idle_listeners_pin_witness :
  ∃ sv, server_reachable pinned_server sv ∧ sv_live sv = [] ∧
        sv_loops sv = [Accepting; Acquiring] ∧
        ∀ l sv', server_step l sv sv' → ∃ i, l = LAccept i ∧ i < 1.
Proof.
  refine (idle_listeners_pin Actix demo_ctx 1 2 demo_process pinned_server _ _);
    [reflexivity|lia].
Defined.
