(* ===== verification/Trace.v ===== *)
(** * Sessions and the server that runs them

    [run_client] is a function of the whole world, the server interleaves its
    connections step by step.  Here the two meet: everything a session does to
    the state it shares with the others is a sequence of small steps, each of
    which only concerns its own registration; and these are steps of the server,
    so that a session is a run of the server from [SStart] to [SFinish]. *)
From S2P Require Import Prelude Fmt Types PerIp DnsCache Stats Stream Relay Connect Client.
From S2P Require Import Handshake Resolve Udp Config Session Server.

Lemma list_delete_insert {A} (l : list A) j x : delete j (<[j := x]> l) = delete j l.
Proof. revert j. induction l as [|y l IH]; intros [|j]; [done..|]. simpl. f_equal. apply IH. Qed.

(** ** What a session shares *)

(** The part of the world that is not the connection's own. *)
Record SharedState := { cm_stats : Stats; cm_heap : Heap; cm_cache : option DnsCache }.

Definition shared_of (w : World) : SharedState :=
  {| cm_stats := w_stats w; cm_heap := w_heap w; cm_cache := w_cache w |}.

(** What the connection registered as [g] may do to it: set the command of its
    own row, count, publish into its own two counters, use the cache. *)
Inductive session_step (g : ActiveGuard) : SharedState → SharedState → Prop :=
  | session_request cmd s h c :
      session_step g {| cm_stats := s; cm_heap := h; cm_cache := c |}
        {| cm_stats := note_request (Some (g_id g)) cmd s; cm_heap := h; cm_cache := c |}
  | session_count k n s h c :
      session_step g {| cm_stats := s; cm_heap := h; cm_cache := c |}
        {| cm_stats := counter_add k n s; cm_heap := h; cm_cache := c |}
  | session_error code s h c :
      session_step g {| cm_stats := s; cm_heap := h; cm_cache := c |}
        {| cm_stats := note_error code s; cm_heap := h; cm_cache := c |}
  | session_publish l v s h c :
      l = g_bytes_up g ∨ l = g_bytes_down g →
      session_step g {| cm_stats := s; cm_heap := h; cm_cache := c |}
        {| cm_stats := s; cm_heap := heap_store l v h; cm_cache := c |}
  | session_cache op s h c :
      session_step g {| cm_stats := s; cm_heap := h; cm_cache := Some c |}
        {| cm_stats := s; cm_heap := h; cm_cache := Some (run_op c op) |}.

Abbreviation session_steps g := (rtc (session_step g)) (only parsing).

(** ** The handlers take such steps and no others *)

Section traced.
Context `{!Net, !ArrivalOrder, !HashOrder} (g : ActiveGuard) (start : SharedState).

(** From [start], by steps of [g], in a world whose client carries the
    registration of [g]. *)
Definition traced (w : World) : Prop :=
  session_steps g start (shared_of w) ∧ client_id (client w) = Some (g_id g) ∧
  relay_counters (client w) = Some (g_bytes_up g, g_bytes_down g).

Lemma traced_clock w t : traced w → traced (set_clock t w).
Proof. done. Qed.
Lemma traced_stream w s : traced w → traced (set_client (set_stream s (client w)) w).
Proof. done. Qed.
Lemma traced_replied w b : traced w → traced (set_client (set_replied b (client w)) w).
Proof. done. Qed.
Lemma traced_header w v n : traced w → traced (set_client (set_header v n (client w)) w).
Proof. done. Qed.

(** Statistics that are session steps. *)
Definition countable (f : Stats → Stats) : Prop :=
  ∀ s h c, session_steps g {| cm_stats := s; cm_heap := h; cm_cache := c |}
                           {| cm_stats := f s; cm_heap := h; cm_cache := c |}.

Lemma countable_add k n : countable (counter_add k n).
Proof. intros s h c. apply rtc_once, session_count. Qed.

Lemma countable_add2 k n k' n' : countable (λ s, counter_add k n (counter_add k' n' s)).
Proof. intros s h c. eapply rtc_l; [apply session_count|]. apply rtc_once, session_count. Qed.

Lemma countable_error code : countable (note_error code).
Proof. intros s h c. apply rtc_once, session_error. Qed.

Lemma countable_request cmd : countable (note_request (Some (g_id g)) cmd).
Proof. intros s h c. apply rtc_once, session_request. Qed.

Lemma traced_stats f w : countable f → traced w → traced (set_w_stats (f (w_stats w)) w).
Proof. intros Hf (Ht & ? & ?). split_and!; [|done..]. etrans; [exact Ht|]. apply Hf. Qed.

Lemma traced_note {E} f : countable f → preserves traced (note f : M E unit).
Proof.
  intros Hf. apply preserves_modify. intros w Hw.
  destruct (has_stats (client w)); [by apply traced_stats|done].
Qed.

Lemma traced_cache_op w c op :
  w_cache w = Some c → traced w → traced (set_w_cache (Some (run_op c op)) w).
Proof.
  intros Hc (Ht & ? & ?). split_and!; [|done..]. etrans; [exact Ht|].
  unfold shared_of. rewrite Hc. apply rtc_once, session_cache.
Qed.

Lemma cache_get_traced {E} name : preserves traced (cache_get name : M E _).
Proof.
  intros dl w o w'. unfold cache_get. destruct (w_cache w) as [c|] eqn:Hc; [|by intros [= <- <-]].
  pose proof (traced_cache_op w c (OpGet name (clock w)) Hc) as Hop. simpl in Hop.
  destruct (DnsCache_get c name (clock w)) as [r c']. by intros [= <- <-].
Qed.

Lemma cache_insert_traced {E} name addrs : preserves traced (cache_insert name addrs : M E _).
Proof.
  intros dl w o w'. unfold cache_insert. destruct (w_cache w) as [c|] eqn:Hc; [|by intros [= <- <-]].
  pose proof (traced_cache_op w c (OpInsert _ name addrs (clock w)) Hc) as Hop. simpl in Hop.
  destruct (DnsCache_insert c name addrs (clock w)) as [c'|c']; by intros [= <- <-].
Qed.

Hint Resolve traced_clock traced_stream traced_replied traced_header countable_add countable_add2
  countable_error countable_request traced_note cache_get_traced cache_insert_traced : handlers.

Lemma avalible_loop_traced configured n methods :
  preserves traced (avalible_loop configured n methods).
Proof. revert methods. induction n as [|n IH]; intros methods; simpl; walk; auto. Qed.

Lemma addr_to_socket_traced ty addr port : preserves traced (addr_to_socket ty addr port).
Proof. unfold addr_to_socket. walk. Qed.

Hint Resolve avalible_loop_traced addr_to_socket_traced : handlers.

Lemma negotiate_traced : preserves traced negotiate.
Proof.
  unfold negotiate, auth, get_avalible_methods, auth_with, deny, read_userpass,
    SOCKSReq_from_stream, read_addr.
  walk; first [apply traced_note, countable_add | apply preserves_modify; auto with handlers].
Qed.

Lemma udp_step_traced expected ev c : preserves traced (udp_step expected ev c).
Proof.
  assert (∀ data, preserves traced (udp_forward data)) as Hf.
  { intros data. unfold udp_forward, send_to. walk; try (by apply preserves_modify).
    apply traced_note. exact (countable_add2 _ _ _ _). }
  unfold udp_step, send_to. walk; auto; try (by apply preserves_modify).
  - intros dl w o w'. repeat case_match; by intros [= <- <-].
  - apply traced_note, countable_add.
Qed.

Lemma udp_loop_traced expected evs c : preserves traced (udp_loop expected evs c).
Proof.
  revert c. induction evs as [|ev evs IH]; intros c; simpl.
  - intros dl w o w'. by intros [= <- <-].
  - walk; auto using udp_step_traced.
Qed.

(** The relay publishes into the two counters of the registration. *)
Lemma publish_traced stats (st : relay_state) s c :
  session_steps g {| cm_stats := s; cm_heap := r_cells st; cm_cache := c |}
    {| cm_stats := s; cm_cache := c;
       cm_heap := r_cells (publish_opt stats (Some (g_bytes_up g, g_bytes_down g)) st) |}.
Proof.
  destruct stats; simpl; [|apply rtc_refl].
  eapply rtc_l; [apply session_publish; by left|]. apply rtc_once, session_publish. by right.
Qed.

Lemma relay_step_traced stats ev st s c :
  session_steps g {| cm_stats := s; cm_heap := r_cells st; cm_cache := c |}
    {| cm_stats := s; cm_cache := c;
       cm_heap := r_cells (relay_final (relay_step stats (Some (g_bytes_up g, g_bytes_down g)) ev st)) |}.
Proof.
  destruct ev as [k|k|]; [| |apply publish_traced]; simpl.
  - destruct (a_open st), (pump k (r_now st) (r_a st) (r_b st)); apply rtc_refl.
  - destruct (b_open st), (pump k (r_now st) (r_b st) (r_a st)); apply rtc_refl.
Qed.

Lemma relay_loop_traced stats evs st s c :
  session_steps g {| cm_stats := s; cm_heap := r_cells st; cm_cache := c |}
    {| cm_stats := s; cm_cache := c;
       cm_heap := r_cells (relay_final (relay_loop stats (Some (g_bytes_up g, g_bytes_down g)) evs st)) |}.
Proof.
  revert st. induction evs as [|ev evs IH]; intros st; cbn [relay_loop];
    destruct (a_open st || b_open st); try apply (publish_traced true); [apply rtc_refl|].
  pose proof (relay_step_traced stats ev st s c) as Hs.
  destruct (relay_step _ _ ev st) as [st'|st'|e st'|st']; simpl in *; try done.
  etrans; [exact Hs|apply IH].
Qed.

Lemma relay_to_traced remote : preserves traced (relay_to remote).
Proof.
  intros dl w o w'. unfold relay_to. intros Hrun (Ht & Hid & Hc). rewrite Hc in Hrun.
  set (r := copy_bidirectional_counted _ _ _ _ _ _ _) in *.
  set (w1 := set_remote _ _) in Hrun.
  assert (traced w1) as Hw1.
  { split_and!; [|done..]. etrans; [exact Ht|]. unfold shared_of.
    exact (relay_loop_traced (has_stats (client w)) (remote_schedule remote)
             (relay_start (stream (client w)) (remote_stream remote) (w_heap w) (clock w))
             (w_stats w) (w_cache w)). }
  destruct r as [st|st|e st|st]; [| |case_bool_decide|]; try (by simplify_eq).
  refine (_ dl w1 o w' Hrun Hw1). walk. apply traced_note, countable_add2.
Qed.

Hint Resolve udp_loop_traced relay_to_traced negotiate_traced : handlers.

(** The command is counted in the row of the client that sent it. *)
Lemma note_request_traced {E A} cmd (k : M E A) :
  preserves traced k →
  preserves traced (w ← get; note (note_request (client_id (client w)) cmd);; k).
Proof.
  intros Hk dl w o w'. rewrite bind_run. cbn [get]. intros Hrun Hw.
  destruct Hw as (Ht & Hid & Hc). rewrite Hid in Hrun.
  refine (preserves_bind traced _ _ _ (λ _, Hk) dl w o w' Hrun (conj Ht (conj Hid Hc))).
  apply traced_note, countable_request.
Qed.

Lemma handle_request_traced req : preserves traced (handle_request req).
Proof.
  unfold handle_request. apply note_request_traced.
  unfold handle_bind, connect_target, handle_udp_associate. walk; auto.
Qed.

Hint Resolve handle_request_traced : handlers.

Lemma init_traced : preserves traced init.
Proof. unfold init, bounded. walk. apply traced_note, countable_add. Qed.

Lemma report_failure_traced e : preserves traced (report_failure e).
Proof.
  unfold report_failure. walk. apply preserves_modify. intros w Hw.
  destruct (is_client_disconnect e); apply traced_stats; try done;
    [apply countable_add|apply countable_error].
Qed.
End traced.

(** ** A session, from its registration to its release *)

Section refines.
Context `{!Net, !ArrivalOrder, !HashOrder}.

Lemma start_client_traced addr w g w1 :
  start_client addr w = (g, w1) → traced g (shared_of w1) w1.
Proof.
  unfold start_client. destruct (begin_client _ _ _ _ _) as [[g' s] h]. intros [= <- <-].
  by split_and!.
Qed.

Definition unregister (g : ActiveGuard) (sh : SharedState) : SharedState :=
  {| cm_stats := ActiveGuard_drop g (cm_stats sh); cm_heap := cm_heap sh; cm_cache := cm_cache sh |}.

Lemma run_client_steps addr w g w1 o w' :
  start_client addr w = (g, w1) → run_client addr w = (o, w') →
  ∃ sh, session_steps g (shared_of w1) sh ∧
        shared_of w' = match o with Pending => sh | _ => unregister g sh end.
Proof.
  intros Hs. unfold run_client. rewrite Hs. pose proof (start_client_traced _ _ _ _ Hs) as Ht.
  destruct (init None w1) as [o1 w2] eqn:Hi.
  pose proof (init_traced _ _ _ _ _ _ Hi Ht) as Ht2.
  assert (∀ (o3 : outcome MerinoError unit) w3, traced g (shared_of w1) w3 →
    match o3 with Pending => (Pending, w3)
    | _ => (o3, set_w_stats (ActiveGuard_drop g (w_stats w3)) w3) end = (o, w') →
    ∃ sh, session_steps g (shared_of w1) sh ∧
          shared_of w' = match o with Pending => sh | _ => unregister g sh end) as Hfin.
  { intros o3 w3 [Ht3 _] Heq. exists (shared_of w3). split; [done|]. by destruct o3; simplify_eq. }
  destruct o1 as [a|e| | |].
  - apply (Hfin (Done a) w2 Ht2).
  - destruct (report_failure e None w2) as [o3 w3] eqn:E. specialize (Hfin o3 w3).
    destruct o3; apply Hfin; by eapply report_failure_traced.
  - apply (Hfin Elapsed w2 Ht2).
  - apply (Hfin Pending w2 Ht2).
  - apply (Hfin Crash w2 Ht2).
Qed.
End refines.

(** ** Isolation *)

(** What the dashboard knows of the connection registered as [g]. *)
Definition row_view (g : ActiveGuard) (now : N) (s : Stats) (h : Heap) : option ClientView :=
  (λ r, client_view h now (g_id g, r)) <$> clients s !! g_id g.

Lemma heap_load_store_ne l l' v h : l ≠ l' → heap_load l (heap_store l' v h) = heap_load l h.
Proof. intros Hne. unfold heap_load, heap_store. simpl. by rewrite lookup_insert_ne. Qed.

(** The cells of one registration are no other's. *)
Lemma guard_cells_disjoint s h g gs g' l l' :
  registry_inv s h (g :: gs) → g' ∈ gs → l ∈ guard_cells g' → l' ∈ guard_cells g → l ≠ l'.
Proof.
  intros Hinv Hg' Hl Hl' ->. pose proof (inv_cells _ _ _ Hinv) as Hnd. simpl in Hnd.
  change (NoDup (guard_cells g ++ flat_map guard_cells gs)) in Hnd.
  apply list.NoDup_app in Hnd as (_ & Hd & _). apply (Hd l' Hl').
  apply list_elem_of_In, in_flat_map. exists g'. by rewrite <- !list_elem_of_In.
Qed.

Lemma guard_ids_disjoint s h g gs g' :
  registry_inv s h (g :: gs) → g' ∈ gs → g_id g ≠ g_id g'.
Proof.
  intros Hinv Hg' Heq. pose proof (inv_ids _ _ _ Hinv) as Hnd. rewrite fmap_cons in Hnd.
  apply list.NoDup_cons in Hnd as [Hnd _]. apply Hnd. rewrite Heq. by apply list_elem_of_fmap_2.
Qed.

(** A step of a session is a step of the registry in which no one comes or goes. *)
Lemma session_step_registry g gs sh sh' :
  g ∈ gs → session_step g sh sh' →
  registry_step {| r_stats := cm_stats sh; r_heap := cm_heap sh; r_guards := gs |}
                {| r_stats := cm_stats sh'; r_heap := cm_heap sh'; r_guards := gs |} ∨
  (cm_stats sh' = cm_stats sh ∧ cm_heap sh' = cm_heap sh).
Proof.
  intros Hg [cmd s h c|k n s h c|code s h c|l v s h c Hl|op s h c]; cbn [cm_stats cm_heap]; [left..|by right].
  - apply step_request.
  - apply step_count.
  - apply step_error.
  - by eapply step_progress.
Qed.

Lemma session_step_inv g gs sh sh' :
  g ∈ gs → session_step g sh sh' → registry_inv (cm_stats sh) (cm_heap sh) gs →
  registry_inv (cm_stats sh') (cm_heap sh') gs.
Proof.
  intros Hg Hstep Hinv. destruct (session_step_registry _ _ _ _ Hg Hstep) as [Hr|[-> ->]]; [|done].
  by apply registry_step_inv in Hr.
Qed.

Lemma session_steps_inv g gs sh sh' :
  g ∈ gs → session_steps g sh sh' → registry_inv (cm_stats sh) (cm_heap sh) gs →
  registry_inv (cm_stats sh') (cm_heap sh') gs.
Proof. intros Hg Hsteps. induction Hsteps; eauto using session_step_inv. Qed.

Lemma session_step_row g gs sh sh' g' now :
  session_step g sh sh' → registry_inv (cm_stats sh) (cm_heap sh) (g :: gs) → g' ∈ gs →
  row_view g' now (cm_stats sh') (cm_heap sh') = row_view g' now (cm_stats sh) (cm_heap sh).
Proof.
  intros Hstep Hinv Hg'. pose proof (guard_ids_disjoint _ _ _ _ _ Hinv Hg') as Hid.
  destruct Hstep as [cmd s h c|k n s h c|code s h c|l v s h c Hl|op s h c]; try done; simpl in *.
  - unfold row_view. simpl. by rewrite lookup_alter_ne.
  - destruct (inv_row _ _ _ Hinv g') as (r & Hr & [_ Hup Hdown]); [by right|].
    unfold row_view. rewrite Hr. simpl. rewrite Hup, Hdown.
    assert (∀ l', l' ∈ guard_cells g' → l' ≠ l) as Hne.
    { intros l' Hl'. eapply guard_cells_disjoint; [done..|].
      unfold guard_cells. destruct Hl as [-> | ->]; [by left|by right; left]. }
    rewrite !heap_load_store_ne; [done|apply Hne; by right; left|apply Hne; by left].
Qed.

Lemma session_steps_row g gs sh sh' g' now :
  session_steps g sh sh' → registry_inv (cm_stats sh) (cm_heap sh) (g :: gs) → g' ∈ gs →
  row_view g' now (cm_stats sh') (cm_heap sh') = row_view g' now (cm_stats sh) (cm_heap sh).
Proof.
  intros Hsteps. induction Hsteps as [sh|sh sh1 sh2 Hstep _ IH]; intros Hinv Hg'; [done|].
  rewrite IH; [by eapply session_step_row| |done].
  eapply session_step_inv; [by left|exact Hstep|exact Hinv].
Qed.

Lemma begin_client_row peer local now0 s h g s' h' gs g' now :
  begin_client peer local now0 s h = (g, s', h') → registry_inv s h gs → g' ∈ gs →
  row_view g' now s' h' = row_view g' now s h.
Proof.
  intros Hb Hinv Hg'. destruct (inv_row _ _ _ Hinv _ Hg') as (r & Hr & [_ Hup Hdown]).
  assert (g_id g' < next_client_id s)%N as Hid
    by (eapply (proj1 (list.Forall_forall _ _) (inv_id_bound _ _ _ Hinv)); exact Hg').
  assert (∀ l, l ∈ guard_cells g' → l < next_cell h) as Hl.
  { intros l Hl. eapply (proj1 (list.Forall_forall _ _) (inv_cell_bound _ _ _ Hinv)).
    apply list_elem_of_In, in_flat_map. exists g'. by rewrite <- !list_elem_of_In. }
  assert (g_bytes_up g' < next_cell h) by (apply Hl; by left).
  assert (g_bytes_down g' < next_cell h) by (apply Hl; by right; left).
  unfold begin_client, heap_alloc in Hb. injection Hb as <- <- <-.
  unfold row_view. simpl. rewrite lookup_insert_ne, Hr by lia. simpl.
  rewrite Hup, Hdown. unfold heap_load. simpl. by rewrite !lookup_insert_ne by lia.
Qed.

Lemma ActiveGuard_drop_row s h g gs g' now :
  registry_inv s h (g :: gs) → g' ∈ gs →
  row_view g' now (ActiveGuard_drop g s) h = row_view g' now s h.
Proof.
  intros Hinv Hg'. pose proof (guard_ids_disjoint _ _ _ _ _ Hinv Hg').
  unfold row_view. simpl. by rewrite lookup_delete_ne.
Qed.

Section isolation.
Context `{!Net, !ArrivalOrder, !HashOrder}.

(** C20: sessions are isolated from each other: whatever a client, its
    destination and the network do from the start of a session to its end, in
    success, failure or panic, no other open connection's row of the dashboard
    changes: not its peer, its state or command, nor its byte counts. *)
Theorem run_client_isolated gs addr w o w' g' now :
  registry_inv (w_stats w) (w_heap w) gs →
  (next_client_id (w_stats w) + 1 < u64_modulus)%N →
  run_client addr w = (o, w') → g' ∈ gs →
  is_Some (row_view g' now (w_stats w) (w_heap w)) ∧
  row_view g' now (w_stats w') (w_heap w') = row_view g' now (w_stats w) (w_heap w).
Proof.
  intros Hinv Hid Hrun Hg'. split.
  { destruct (inv_row _ _ _ Hinv _ Hg') as (r & Hr & _). unfold row_view. rewrite Hr. by eexists. }
  destruct (start_client addr w) as [g w1] eqn:Hs.
  destruct (start_client_registered gs _ _ _ _ Hs Hid Hinv) as [Hinv1 _].
  destruct (run_client_steps _ _ _ _ _ _ Hs Hrun) as (sh & Hsteps & Hsh).
  pose proof (session_steps_row g gs _ _ g' now Hsteps Hinv1 Hg') as Hrow.
  assert (registry_inv (cm_stats sh) (cm_heap sh) (g :: gs)) as Hinv2.
  { eapply session_steps_inv; [by left|exact Hsteps|exact Hinv1]. }
  transitivity (row_view g' now (w_stats w1) (w_heap w1)).
  - change (row_view g' now (cm_stats (shared_of w')) (cm_heap (shared_of w')) =
            row_view g' now (cm_stats (shared_of w1)) (cm_heap (shared_of w1))).
    rewrite <- Hrow, Hsh. destruct o; try done; by eapply ActiveGuard_drop_row.
  - unfold start_client in Hs. destruct (begin_client _ _ _ _ _) as [[g0 s] h] eqn:Hb.
    injection Hs as <- <-. by eapply begin_client_row.
Qed.
End isolation.

(** A session uses up one identifier. *)
Lemma session_steps_next g sh sh' :
  session_steps g sh sh' → next_client_id (cm_stats sh') = next_client_id (cm_stats sh).
Proof.
  induction 1 as [|sh sh1 sh2 Hstep _ IH]; [done|]. rewrite IH. by destruct Hstep.
Qed.

Lemma run_client_next `{!Net, !ArrivalOrder, !HashOrder} addr w o w' :
  run_client addr w = (o, w') →
  next_client_id (w_stats w') = u64_add (next_client_id (w_stats w)) 1.
Proof.
  intros Hrun. destruct (start_client addr w) as [g w1] eqn:Hs.
  destruct (run_client_steps _ _ _ _ _ _ Hs Hrun) as (sh & Hsteps%session_steps_next & Hsh).
  transitivity (next_client_id (cm_stats sh)).
  - change (w_stats w') with (cm_stats (shared_of w')). rewrite Hsh. by destruct o.
  - rewrite Hsteps. unfold start_client in Hs.
    destruct (begin_client _ _ _ _ _) as [[g0 s] h] eqn:Hb. injection Hs as <- <-.
    by injection Hb as <- <- <-.
Qed.

(** ** Sessions are runs of the server *)

Section simulation.
Context `{!Semaphore}.

(** The state that the connection [c] of the process shares. *)
Definition cache_of (c : SocksConnection) (p : Process) : option DnsCache :=
  l ← sc_cache c; p_caches p !! l.

(** Connection [j] of the server runs as [g] and sees the shared state [sh]. *)
Record runs_as (sv : Server) (j : nat) (c : SocksConnection) (g : ActiveGuard) (sh : SharedState)
    : Prop := {
  ra_live : sv_live sv !! j = Some c;
  ra_guard : sc_guard c = Some g;
  ra_stats : p_stats (sv_proc sv) !! ctx_stats (sv_ctx sv) = Some (cm_stats sh);
  ra_heap : p_heap (sv_proc sv) = cm_heap sh;
  ra_cache : cache_of c (sv_proc sv) = cm_cache sh
}.

(** A connection that works leaves the accept loops, the permits and the other
    connections alone. *)
Definition undisturbed (sv sv' : Server) : Prop :=
  sv_ctx sv' = sv_ctx sv ∧ sv_sem sv' = sv_sem sv ∧ sv_loops sv' = sv_loops sv ∧
  sv_live sv' = sv_live sv ∧ p_limiters (sv_proc sv') = p_limiters (sv_proc sv).

Lemma guards_elem sv j c g : sv_live sv !! j = Some c → sc_guard c = Some g → g ∈ guards sv.
Proof.
  intros Hj Hg. unfold guards. apply list_elem_of_omap. exists c. split; [|done].
  by eapply list_elem_of_lookup_2.
Qed.

(** Each small step of a session is one step of the server that runs it. *)
Lemma session_step_server sv j c g sh sh' :
  runs_as sv j c g sh → session_step g sh sh' →
  ∃ l sv', server_step l sv sv' ∧ runs_as sv' j c g sh' ∧ undisturbed sv sv'.
Proof.
  intros [Hj Hg Hs Hh Hc] Hstep.
  assert (sv_live sv ≠ []) as Hne by (intros Heq; by rewrite Heq in Hj).
  pose proof (guards_elem _ _ _ _ Hj Hg) as Hin.
  assert (∀ s' h' ca, sh' = {| cm_stats := s'; cm_heap := h'; cm_cache := ca |} → ca = cm_cache sh →
    registry_step {| r_stats := cm_stats sh; r_heap := cm_heap sh; r_guards := guards sv |}
                  {| r_stats := s'; r_heap := h'; r_guards := guards sv |} →
    ∃ l sv', server_step l sv sv' ∧ runs_as sv' j c g sh' ∧ undisturbed sv sv') as Hwork.
  { intros s' h' ca -> -> Hr. rewrite <- Hh in Hr. eexists LWork, _.
    split; [by eapply SWork|]. split; [|done]. split; try done.
    exact (on_stats_lookup _ (λ _, s') _ _ Hs). }
  destruct Hstep as [cmd s h ca|k n s h ca|code s h ca|l v s h ca Hl|op s h ca].
  - eapply Hwork; [done..|apply step_request].
  - eapply Hwork; [done..|apply step_count].
  - eapply Hwork; [done..|apply step_error].
  - eapply Hwork; [done..|by eapply step_progress].
  - clear Hwork. cbn [cm_cache cm_stats cm_heap] in *. unfold cache_of in Hc.
    destruct (sc_cache c) as [l|] eqn:El; [|done]. cbn [mbind option_bind] in Hc.
    eexists LCache, _. split; [by eapply (SCache l ca op)|]. split; [|done]. split; try done.
    unfold cache_of. rewrite El. simpl. apply list_lookup_insert_eq, lookup_lt_is_Some. by exists ca.
Qed.

Lemma session_steps_server sv j c g sh sh' :
  session_steps g sh sh' → runs_as sv j c g sh →
  ∃ sv', server_reachable sv sv' ∧ runs_as sv' j c g sh' ∧ undisturbed sv sv'.
Proof.
  intros Hsteps. revert sv. induction Hsteps as [sh|sh sh1 sh2 Hstep _ IH]; intros sv Hr.
  - exists sv. by split; [apply rtc_refl|].
  - destruct (session_step_server _ _ _ _ _ _ Hr Hstep) as (l & sv1 & Hl & Hr1 & Hu1).
    destruct (IH sv1 Hr1) as (sv2 & Hreach & Hr2 & Hu2). exists sv2. split; [|split; [done|]].
    + eapply rtc_l; [by exists l|done].
    + destruct Hu1 as (? & ? & ? & ? & ?), Hu2 as (? & ? & ? & ? & ?). split_and!; congruence.
Qed.
End simulation.

Section session_runs.
Context `{!Net, !ArrivalOrder, !HashOrder, !Semaphore} (max_ : usize) (cap : option usize).

(** The world in which the server runs [run_client] for [c]. *)
Definition session_world (c : SocksConnection) (client : SOCKClient) (s : Stats) (now : N)
    (p : Process) : World := world_of client s (cache_of c p) now p.

Lemma started_runs sv j c client s now g w1 :
  sv_live sv !! j = Some c → sc_client c = Some client → sc_stats c = ctx_stats (sv_ctx sv) →
  p_stats (sv_proc sv) !! ctx_stats (sv_ctx sv) = Some s →
  (next_client_id s + 1 < u64_modulus)%N →
  start_client (sc_peer c) (session_world c client s now (sv_proc sv)) = (g, w1) →
  ∃ c' sv', server_step (LStart j) sv sv' ∧ runs_as sv' j c' g (shared_of w1) ∧
    sc_cache c' = sc_cache c ∧ sc_client c' = None ∧
    sv_loops sv' = sv_loops sv ∧ sv_sem sv' = sv_sem sv ∧ sv_ctx sv' = sv_ctx sv ∧
    sv_live sv' = <[j := c']> (sv_live sv).
Proof.
  intros Hj Hcl Hst Hs Hid Hstart. unfold session_world, cache_of in Hstart.
  assert (w_cache w1 = cache_of c (sv_proc sv)) as Hcache.
  { destruct (start_client_eq _ _ _ _ Hstart) as (_ & _ & _ & _ & -> & _). done. }
  assert (∃ c' p', begin_connection (sv_backend sv) now c (sv_proc sv) = Some (c', p') ∧ sc_guard c' = Some g ∧
    sc_cache c' = sc_cache c ∧ sc_client c' = None ∧
    p' = on_stats (sc_stats c) (λ _, w_stats w1) (set_heap (w_heap w1) (sv_proc sv)))
    as (c' & p' & Est & Hg & Hca & Hcl' & ->).
  { rewrite begin_connection_task. unfold task_started, run_client_begins. rewrite Hcl, Hst.
    cbn [mbind option_bind]. rewrite Hs. cbn [mbind option_bind]. rewrite Hstart.
    eexists _, _. by split_and!. }
  eexists c', _. split; [eapply SStart; [exact Hj|exact Est|]|].
  { rewrite Hst, Hs. by intros s' [= <-]. }
  split_and!; try done. split; try done.
  - simpl. apply list_lookup_insert_eq, lookup_lt_is_Some. by exists c.
  - rewrite Hst. exact (on_stats_lookup _ (λ _, w_stats w1) _ _ Hs).
  - unfold cache_of in *. rewrite Hca. etrans; [|symmetry; exact Hcache]. done.
Qed.

(** What [leave] leaves of the shared state. *)
Lemma finish_shared sv sv' j c g sh :
  runs_as sv j c g sh → sc_stats c = ctx_stats (sv_ctx sv) → leave j sv = Some sv' →
  p_stats (sv_proc sv') !! ctx_stats (sv_ctx sv) = Some (ActiveGuard_drop g (cm_stats sh)) ∧
  p_heap (sv_proc sv') = cm_heap sh ∧ p_caches (sv_proc sv') = p_caches (sv_proc sv) ∧
  sv_loops sv' = sv_loops sv ∧ sv_live sv' = delete j (sv_live sv).
Proof.
  intros [Hj Hg Hs Hh _] Hst. unfold leave, task_ended, drop_guard. rewrite Hj. cbn [mbind option_bind].
  rewrite Hg, Hst. pose proof (on_stats_lookup _ (ActiveGuard_drop g) _ _ Hs) as Hs'.
  set (p1 := on_stats _ _ _) in *.
  destruct (drop_slot (sv_ctx sv) c p1) as [p2|] eqn:Hd; cbn [mbind option_bind]; [|done].
  intros [= <-]. assert (p_stats p2 = p_stats p1 ∧ p_heap p2 = p_heap p1 ∧ p_caches p2 = p_caches p1)
    as (E1 & E2 & E3).
  { unfold drop_slot in Hd. destruct (ctx_per_ip _), (sc_ip_slot c); simplify_eq; try done.
    destruct (p_limiters p1 !! _); [|done]. simpl in Hd. by destruct (IpSlot_drop _ _); simplify_eq/=. }
  cbn [sv_set sv_proc sv_loops sv_live]. rewrite E1, E2, E3. split_and!; try done.
Qed.

(** A connection that is waiting to be started is run by the server to the end of
    its session. *)
Lemma session_server_run sv j c client s now o w' :
  server_inv max_ cap sv →
  sv_live sv !! j = Some c → sc_client c = Some client →
  p_stats (sv_proc sv) !! ctx_stats (sv_ctx sv) = Some s →
  (next_client_id s + 1 < u64_modulus)%N →
  run_client (sc_peer c) (session_world c client s now (sv_proc sv)) = (o, w') →
  ∃ sv', server_reachable sv sv' ∧
    p_stats (sv_proc sv') !! ctx_stats (sv_ctx sv) = Some (w_stats w') ∧
    p_heap (sv_proc sv') = w_heap w' ∧ cache_of c (sv_proc sv') = w_cache w' ∧
    sv_loops sv' = sv_loops sv ∧
    match o with
    | Pending => sv_sem sv' = sv_sem sv ∧ delete j (sv_live sv') = delete j (sv_live sv)
    | _ => available (sv_sem sv') = S (available (sv_sem sv)) ∧
           sv_live sv' = delete j (sv_live sv)
    end.
Proof.
  intros Hinv Hj Hcl Hs Hid Hrun.
  assert (sc_stats c = ctx_stats (sv_ctx sv)) as Hst
    by (by eapply (Forall_lookup_1 _ _ _ _ (si_held _ _ _ Hinv)) in Hj as (_ & ? & _)).
  destruct (start_client (sc_peer c) (session_world c client s now (sv_proc sv))) as [g w1] eqn:Hsc.
  destruct (started_runs _ _ _ _ _ _ _ _ Hj Hcl Hst Hs Hid Hsc)
    as (c' & sv1 & Hstep & Hr1 & Hca & Hcl' & Hloops1 & Hsem1 & Hctx1 & Hlive1).
  destruct (run_client_steps _ _ _ _ _ _ Hsc Hrun) as (sh & Hsteps & Hsh).
  destruct (session_steps_server _ _ _ _ _ _ Hsteps Hr1)
    as (sv2 & Hreach & [Hj2 Hg2 Hs2 Hh2 Hc2] & Hctx2 & Hsem2 & Hloops2 & Hlive2 & _).
  assert (server_reachable sv sv2) as Hr2 by (eapply rtc_l; [by eexists|done]).
  assert (cache_of c (sv_proc sv2) = cm_cache sh) as Hc2' by (unfold cache_of in *; by rewrite <- Hca).
  assert (∀ p, p_caches p = p_caches (sv_proc sv2) → cache_of c p = cm_cache sh) as Hcp
    by (intros p Hp; rewrite <- Hc2'; unfold cache_of; by rewrite Hp).
  assert (w_heap w' = cm_heap sh ∧ w_cache w' = cm_cache sh ∧
    (o = Pending ∧ w_stats w' = cm_stats sh ∨
     o ≠ Pending ∧ w_stats w' = ActiveGuard_drop g (cm_stats sh))) as (-> & -> & Ho).
  { destruct sh. destruct o; injection Hsh as -> -> ->; auto. }
  destruct Ho as [[-> ->]|[Ho ->]].
  - exists sv2. rewrite <- Hctx1, <- Hctx2. split_and!; try congruence.
    rewrite Hlive2, Hlive1. by rewrite list_delete_insert.
  - pose proof (server_reachable_inv max_ cap _ _ Hr2 Hinv) as Hinv2.
    destruct (finish_inv max_ cap _ _ _ Hj2 Hcl' Hinv2) as (sv3 & Hf & _ & Hav).
    assert (sc_stats c' = ctx_stats (sv_ctx sv2)) as Hst'
      by (by eapply (Forall_lookup_1 _ _ _ _ (si_held _ _ _ Hinv2)) in Hj2 as (_ & ? & _)).
    destruct (finish_shared _ _ _ _ _ _ (Build_runs_as _ _ _ _ _ Hj2 Hg2 Hs2 Hh2 Hc2) Hst' Hf)
      as (Hs3 & Hh3 & Hp3 & Hl3 & Hlive3).
    exists sv3. split; [eapply rtc_r; [exact Hr2|]; eexists; eapply (SFinish Returned); [exact Hj2|by eexists|by rewrite end_connection_leave]|].
    rewrite <- Hctx1, <- Hctx2. split_and!; [done|done|by apply Hcp|congruence|].
    assert (sv_live sv3 = delete j (sv_live sv)) as Hlive.
    { rewrite Hlive3, Hlive2, Hlive1. by rewrite list_delete_insert. }
    destruct o; try done; (split; [|done]); by rewrite Hav, Hsem2, Hsem1.
Qed.

(** C9: the server's interleaving semantics is sound for the code of a session.
    For any state the server can be in and any connection waiting to be
    started in it, running [run_client] to whatever end it comes is a sequence
    of steps of the server: the connection starts, works, and, unless it is
    still under way, is released; the shared statistics, counters and cache at
    the end are those [run_client] computes, and nothing else moved: not the
    accept loops, nor the other connections. *)
Theorem run_client_simulated sv j c client s now o w' :
  server_inv max_ cap sv →
  sv_live sv !! j = Some c → sc_client c = Some client →
  p_stats (sv_proc sv) !! ctx_stats (sv_ctx sv) = Some s →
  (next_client_id s + 1 < u64_modulus)%N →
  run_client (sc_peer c) (session_world c client s now (sv_proc sv)) = (o, w') →
  ∃ sv', server_reachable sv sv' ∧
    p_stats (sv_proc sv') !! ctx_stats (sv_ctx sv) = Some (w_stats w') ∧
    p_heap (sv_proc sv') = w_heap w' ∧ cache_of c (sv_proc sv') = w_cache w' ∧
    sv_loops sv' = sv_loops sv ∧
    match o with
    | Pending => sv_sem sv' = sv_sem sv ∧ delete j (sv_live sv') = delete j (sv_live sv)
    | _ => available (sv_sem sv') = S (available (sv_sem sv)) ∧
           sv_live sv' = delete j (sv_live sv)
    end.
Proof. apply session_server_run. Qed.
End session_runs.

(** ** Witnesses *)

#[local] Existing Instance demo_session_net.
#[local] Existing Instance map_order.

(** A client that says nothing, next to a connection that is open. *)
Definition silent_neighbour : World :=
  set_w_stats (r_stats demo_registry) (set_w_heap (r_heap demo_registry) silent_world).

Lemma run_client_isolated_witness :
  ∃ o w', run_client demo_addr silent_neighbour = (o, w') ∧
    row_view demo_guard 7 (w_stats w') (w_heap w') =
    row_view demo_guard 7 (r_stats demo_registry) (r_heap demo_registry).
Proof.
  destruct (run_client demo_addr silent_neighbour) as [o w'] eqn:E. exists o, w'.
  split; [reflexivity|].
  exact (proj2 (run_client_isolated [demo_guard] demo_addr silent_neighbour o w' demo_guard 7
    (registry_reachable_inv 0 0 _ demo_registry_reachable) eq_refl E ltac:(by left))).
Defined.

(** The connection that [demo_server] has accepted, about to start. *)
Definition demo_running : Server := Server.accepted 0 (Ok demo_incoming) 0 0 (demo_waiting Actix 1).

Lemma demo_running_inv : server_inv 2 (Some 1) demo_running.
Proof.
  exact (reachable_inv Actix demo_ctx 2 1 (Some 1) demo_process _ demo_process_ready
    (demo_started Actix 1) _ (demo_accepted_reachable Actix 0 (Ok demo_incoming) 0 0)).
Qed.

Lemma run_client_simulated_witness :
  ∃ c client o w' sv',
    run_client (sc_peer c) (session_world c client (note_accepted (Stats_new 0 0)) 5
      (sv_proc demo_running)) = (o, w') ∧
    sv_live demo_running = [c] ∧ server_reachable demo_running sv' ∧
    p_stats (sv_proc sv') !! 0 = Some (w_stats w') ∧
    (o ≠ Pending → sv_live sv' = []).
Proof.
  set (c := {| sc_client := Some (new_client demo_ctx (fst demo_incoming)); sc_peer := demo_ip;
               sc_permit := true; sc_ip_slot := Some {| slot_ip := sock_ip demo_ip |};
               sc_stats := 0; sc_cache := None; sc_guard := None |}).
  set (client := new_client demo_ctx (fst demo_incoming)).
  destruct (run_client (sc_peer c) (session_world c client (note_accepted (Stats_new 0 0)) 5
    (sv_proc demo_running))) as [o w'] eqn:E.
  destruct (run_client_simulated 2 (Some 1) demo_running 0 c client (note_accepted (Stats_new 0 0)) 5
    o w' demo_running_inv eq_refl eq_refl eq_refl eq_refl E) as (sv' & Hr & Hs & _ & _ & _ & Ho).
  exists c, client, o, w', sv'. split; [exact E|]. split; [reflexivity|]. split; [exact Hr|].
  split; [exact Hs|]. intros Hne. destruct o; [exact (proj2 Ho)..| |exact (proj2 Ho)].
  destruct (Hne eq_refl).
Defined.
