(* ===== verification/Backends.v ===== *)
(** * The two backends serve alike ([src/src/lib.rs]: [Merino::serve];
      [src/src/actors.rs]: [SocksServer])

    The Tokio server runs a connection in a task, the Actix server in an actor,
    which is first built with statistics of its own, is started by its runtime
    and stops itself.  Bound and configured alike, the two servers start from the
    same context; and a bisimulation shows that every run of one is then a run of
    the other, step by step. *)
From S2P Require Import Prelude Fmt Types PerIp DnsCache Stats Stream Relay Connect Client.
From S2P Require Import Udp Config Session Server.

(** ** Processes that differ in what nobody refers to *)

Record proc_alike (p q : Process) : Prop := {
  pa_stats : p_stats p `prefix_of` p_stats q;
  pa_heap : p_heap q = p_heap p;
  pa_caches : p_caches q = p_caches p;
  pa_limiters : p_limiters q = p_limiters p
}.

Lemma proc_alike_refl p : proc_alike p p.
Proof. by split. Qed.

Lemma alter_prefix {A} (f : A → A) (l k : list A) i :
  i < length l → l `prefix_of` k → alter f i l `prefix_of` alter f i k.
Proof.
  intros Hi [r ->]. exists r. by rewrite alter_app_l.
Qed.

Lemma on_stats_alike p q l f s :
  p_stats p !! l = Some s → proc_alike p q → proc_alike (on_stats l f p) (on_stats l f q).
Proof.
  intros Hs []. split; try done. apply alter_prefix; [|done]. by eapply lookup_lt_Some.
Qed.

Lemma alike_lookup p q l s : proc_alike p q → p_stats p !! l = Some s → p_stats q !! l = Some s.
Proof. intros [[r Hr] _ _ _] Hs. rewrite Hr. by apply lookup_app_l_Some. Qed.

Lemma alike_lookup_inv p q l s s' :
  proc_alike p q → p_stats p !! l = Some s → p_stats q !! l = Some s' → s' = s.
Proof. intros Ha Hs. rewrite (alike_lookup _ _ _ _ Ha Hs). by intros [= ->]. Qed.

Lemma set_heap_alike p q h : proc_alike p q → proc_alike (set_heap h p) (set_heap h q).
Proof. by intros []. Qed.

Lemma set_caches_alike p q c : proc_alike p q → proc_alike (set_caches c p) (set_caches c q).
Proof. by intros []. Qed.

Lemma set_limiters_alike p q l : proc_alike p q → proc_alike (set_limiters l p) (set_limiters l q).
Proof. by intros []. Qed.

(** ** Their operations *)

Lemma claim_slot_alike ctx ip p q :
  proc_alike p q →
  (claim_slot ctx ip q).1 = (claim_slot ctx ip p).1 ∧
  proc_alike (claim_slot ctx ip p).2 (claim_slot ctx ip q).2.
Proof.
  intros Ha. unfold claim_slot. destruct (ctx_per_ip ctx) as [l|]; [|done].
  rewrite (pa_limiters _ _ Ha). destruct (p_limiters p !! l) as [lim|]; [|done].
  destruct (try_acquire lim ip) as [slot lim']. split; [done|]. by apply set_limiters_alike.
Qed.

Lemma task_started_alike now c p q s :
  proc_alike p q → p_stats p !! sc_stats c = Some s →
  option_Forall2 (λ x y, y.1 = x.1 ∧ proc_alike x.2 y.2) (task_started now c p) (task_started now c q).
Proof.
  intros Ha Hs. unfold task_started, run_client_begins. destruct (sc_client c) as [client|]; [|constructor].
  cbn [mbind option_bind]. rewrite Hs, (alike_lookup _ _ _ _ Ha Hs). cbn [mbind option_bind].
  unfold world_of. rewrite (pa_heap _ _ Ha), (pa_caches _ _ Ha).
  destruct (start_client _ _) as [guard w]. constructor. split; [done|].
  eapply (on_stats_alike (set_heap _ p)); [exact Hs|]. by apply set_heap_alike.
Qed.

Lemma begin_connection_alike now b b' c p q s :
  proc_alike p q → p_stats p !! sc_stats c = Some s →
  option_Forall2 (λ x y, y.1 = x.1 ∧ proc_alike x.2 y.2)
    (begin_connection b now c p) (begin_connection b' now c q).
Proof. rewrite !begin_connection_task. apply task_started_alike. Qed.

Lemma drop_guard_alike c p q s :
  proc_alike p q → p_stats p !! sc_stats c = Some s →
  proc_alike (drop_guard c p) (drop_guard c q).
Proof.
  intros Ha Hs. unfold drop_guard. destruct (sc_guard c); [|done]. by eapply on_stats_alike.
Qed.

Lemma drop_slot_alike ctx c p q :
  proc_alike p q → option_Forall2 proc_alike (drop_slot ctx c p) (drop_slot ctx c q).
Proof.
  intros Ha. unfold drop_slot. rewrite (pa_limiters _ _ Ha).
  destruct (ctx_per_ip ctx) as [l|], (sc_ip_slot c) as [slot|]; try by constructor.
  destruct (p_limiters p !! l) as [lim|]; cbn [mbind option_bind]; [|constructor].
  destruct (IpSlot_drop slot lim); cbn [mbind option_bind]; constructor.
  by apply set_limiters_alike.
Qed.

(** ** Servers *)

Section servers.
Context `{!Semaphore}.

(** [t] runs tasks, [a] runs actors; otherwise they are the same. *)
Record alike (t a : Server) : Prop := {
  al_tokio : sv_backend t = Tokio;
  al_actix : sv_backend a = Actix;
  al_ctx : sv_ctx a = sv_ctx t;
  al_proc : proc_alike (sv_proc t) (sv_proc a);
  al_sem : sv_sem a = sv_sem t;
  al_loops : sv_loops a = sv_loops t;
  al_live : sv_live a = sv_live t
}.

Lemma alike_set t a p q s loops live :
  alike t a → proc_alike p q → alike (sv_set p s loops live t) (sv_set q s loops live a).
Proof. intros [] Hp. by split. Qed.

Lemma take_permit_alike i t a :
  alike t a → option_Forall2 alike (take_permit i t) (take_permit i a).
Proof.
  intros Ha. unfold take_permit. rewrite (al_sem _ _ Ha), (al_loops _ _ Ha), (al_live _ _ Ha).
  destruct (sem_acquire (sv_sem t)); simpl; constructor. apply alike_set; [done|apply Ha].
Qed.

(** A task and an actor are handed the same connection; the actor leaves the
    statistics it was built with behind. *)
Lemma on_accept_alike t a client addr slot now un p q :
  alike t a → proc_alike p q →
  (on_accept a client addr slot now un q).1 = (on_accept t client addr slot now un p).1 ∧
  proc_alike (on_accept t client addr slot now un p).2 (on_accept a client addr slot now un q).2.
Proof.
  intros [Ht Hax Hc _ _ _ _] Hp. unfold on_accept. rewrite Ht, Hax, Hc. split; [done|].
  destruct Hp as [Hst ? ? ?]. split; try done. simpl. by apply prefix_app_r.
Qed.

Lemma accepted_alike i r now un t a s :
  alike t a → p_stats (sv_proc t) !! ctx_stats (sv_ctx t) = Some s →
  alike (accepted i r now un t) (accepted i r now un a).
Proof.
  intros Ha Hs. unfold accepted.
  rewrite (al_ctx _ _ Ha), (al_loops _ _ Ha), (al_live _ _ Ha), (al_sem _ _ Ha).
  destruct r as [[inc addr]|e]; [|apply alike_set; [done|apply Ha]].
  destruct (claim_slot_alike (sv_ctx t) (sock_ip addr) _ _ (al_proc _ _ Ha)) as [Heq Hp].
  assert (p_stats (claim_slot (sv_ctx t) (sock_ip addr) (sv_proc t)).2 = p_stats (sv_proc t)) as Hst.
  { unfold claim_slot. destruct (ctx_per_ip _); [|done]. destruct (p_limiters _ !! _); [|done].
    by destruct (try_acquire _ _). }
  destruct (claim_slot _ _ (sv_proc t)) as [r p], (claim_slot _ _ (sv_proc a)) as [r' q].
  simpl in Heq, Hp, Hst. subst r'. rewrite <- Hst in Hs. destruct r as [slot|].
  - pose proof (on_stats_alike _ _ _ note_accepted _ Hs Hp) as Hp'.
    destruct (on_accept_alike t a (new_client (sv_ctx t) inc) addr slot now un _ _ Ha Hp') as [Hc Hp''].
    destruct (on_accept t _ _ _ _ _ _) as [c p'], (on_accept a _ _ _ _ _ _) as [c' q'].
    simpl in Hc, Hp''. subst c'. by apply alike_set.
  - apply alike_set; [done|]. by eapply on_stats_alike.
Qed.

Lemma end_connection_alike how j t a c s :
  alike t a → sv_live t !! j = Some c → p_stats (sv_proc t) !! sc_stats c = Some s →
  option_Forall2 alike (end_connection how j t) (end_connection how j a).
Proof.
  intros Ha Hj Hs. rewrite !end_connection_leave. unfold leave, task_ended.
  rewrite (al_ctx _ _ Ha), (al_loops _ _ Ha), (al_live _ _ Ha), (al_sem _ _ Ha), Hj.
  cbn [mbind option_bind].
  destruct (drop_slot_alike (sv_ctx t) c _ _ (drop_guard_alike c _ _ _ (al_proc _ _ Ha) Hs));
    cbn [mbind option_bind]; constructor. by apply alike_set.
Qed.
End servers.

(** ** The bisimulation *)

Section bisimulation.
Context `{!Semaphore} (max_ : usize) (cap : option usize).

Lemma Forall2_Some_l {A B} (R : A → B → Prop) x my :
  option_Forall2 R (Some x) my → ∃ y, my = Some y ∧ R x y.
Proof. inversion 1. eauto. Qed.

Lemma Forall2_Some_r {A B} (R : A → B → Prop) mx y :
  option_Forall2 R mx (Some y) → ∃ x, mx = Some x ∧ R x y.
Proof. inversion 1. eauto. Qed.

(** The statistics of every connection are the server's. *)
Lemma inv_stats t :
  server_inv max_ cap t →
  ∃ s, p_stats (sv_proc t) !! ctx_stats (sv_ctx t) = Some s ∧
       ∀ j c, sv_live t !! j = Some c → p_stats (sv_proc t) !! sc_stats c = Some s.
Proof.
  intros [_ Hh _ (s & Hs & _)]. exists s. split; [done|]. intros j c Hj.
  by eapply (Forall_lookup_1 _ _ _ _ Hh) in Hj as (_ & -> & _).
Qed.

Lemma guards_alike t a : alike t a → guards a = guards t.
Proof. intros Ha. unfold guards. by rewrite (al_live _ _ Ha). Qed.

Lemma actors_follow l t t' a :
  server_inv max_ cap t → alike t a → server_step l t t' →
  ∃ a', server_step l a a' ∧ alike t' a'.
Proof.
  intros Hinv Ha Hstep. destruct (inv_stats _ Hinv) as (s0 & Hs0 & Hlive).
  destruct Hstep as [i t t' Hi Ht|i r now un t Hi|j now c c' p' t Hj Hst Hid
    |s s' h' t Hne Hs Hw|l c op t Hne Hl|how j c t t' Hj Hc Hf].
  - pose proof (take_permit_alike i _ _ Ha) as Hf2. rewrite Ht in Hf2. apply Forall2_Some_l in Hf2 as (a' & Ea & Ha').
    exists a'. split; [|done]. apply SAcquire; [by rewrite (al_loops _ _ Ha)|done].
  - eexists. split; [apply SAccept; by rewrite (al_loops _ _ Ha)|]. by eapply accepted_alike.
  - pose proof (begin_connection_alike now Tokio Actix c _ _ s0 (al_proc _ _ Ha) (Hlive _ _ Hj)) as Hf2.
    rewrite <- (al_tokio _ _ Ha), <- (al_actix _ _ Ha), Hst in Hf2. apply Forall2_Some_l in Hf2 as ([c2 q'] & Ea & Hc2 & Hp2). simpl in *. subst c2.
    eexists. split; [eapply SStart; [by rewrite (al_live _ _ Ha)|exact Ea|]|].
    + intros s1 Hs1. apply Hid. eapply alike_lookup_inv in Hs1; [|apply Ha|by eapply Hlive].
      subst s1. by eapply Hlive.
    + rewrite (al_sem _ _ Ha), (al_loops _ _ Ha), (al_live _ _ Ha). by apply alike_set.
  - eexists. split; [eapply (SWork s s' h')|].
    + by rewrite (al_live _ _ Ha).
    + rewrite (al_ctx _ _ Ha). eapply alike_lookup; [apply Ha|done].
    + by rewrite (guards_alike _ _ Ha), (pa_heap _ _ (al_proc _ _ Ha)).
    + rewrite (al_ctx _ _ Ha), (al_sem _ _ Ha), (al_loops _ _ Ha), (al_live _ _ Ha).
      apply alike_set; [done|]. eapply (on_stats_alike (set_heap h' _)); [exact Hs|].
      apply set_heap_alike, Ha.
  - pose proof (al_proc _ _ Ha) as Hp. eexists. split; [eapply (SCache l c op)|].
    + by rewrite (al_live _ _ Ha).
    + by rewrite (pa_caches _ _ Hp).
    + rewrite (al_sem _ _ Ha), (al_loops _ _ Ha), (al_live _ _ Ha), (pa_caches _ _ Hp).
      apply alike_set; [done|]. by apply set_caches_alike.
  - pose proof (end_connection_alike how j _ _ c s0 Ha Hj (Hlive _ _ Hj)) as Hf2. rewrite Hf in Hf2.
    apply Forall2_Some_l in Hf2 as (a' & Ea & Ha'). exists a'. split; [|done].
    eapply SFinish; [by rewrite (al_live _ _ Ha)|done|done].
Qed.

Lemma tasks_follow l t a a' :
  server_inv max_ cap t → alike t a → server_step l a a' →
  ∃ t', server_step l t t' ∧ alike t' a'.
Proof.
  intros Hinv Ha Hstep. destruct (inv_stats _ Hinv) as (s0 & Hs0 & Hlive).
  destruct Hstep as [i a a' Hi Ht|i r now un a Hi|j now c c' q' a Hj Hst Hid
    |s s' h' a Hne Hs Hw|l c op a Hne Hl|how j c a a' Hj Hc Hf].
  - pose proof (take_permit_alike i _ _ Ha) as Hf2. rewrite Ht in Hf2. apply Forall2_Some_r in Hf2 as (t' & Et & Ha').
    exists t'. split; [|done]. apply SAcquire; [by rewrite <- (al_loops _ _ Ha)|done].
  - eexists. split; [apply SAccept; by rewrite <- (al_loops _ _ Ha)|]. by eapply accepted_alike.
  - rewrite (al_live _ _ Ha) in Hj.
    pose proof (begin_connection_alike now Tokio Actix c _ _ s0 (al_proc _ _ Ha) (Hlive _ _ Hj)) as Hf2.
    rewrite <- (al_tokio _ _ Ha), <- (al_actix _ _ Ha), Hst in Hf2. apply Forall2_Some_r in Hf2 as ([c2 p'] & Et & Hc2 & Hp2). simpl in *. subst c2.
    eexists. split; [eapply SStart; [exact Hj|exact Et|]|].
    + intros s1 Hs1. apply Hid. eapply alike_lookup; [apply Ha|done].
    + rewrite (al_sem _ _ Ha), (al_loops _ _ Ha), (al_live _ _ Ha). by apply alike_set.
  - rewrite (al_ctx _ _ Ha) in Hs |- *. rewrite (al_live _ _ Ha) in Hne.
    rewrite (guards_alike _ _ Ha), (pa_heap _ _ (al_proc _ _ Ha)) in Hw.
    pose proof (alike_lookup_inv _ _ _ _ _ (al_proc _ _ Ha) Hs0 Hs) as ->.
    eexists. split; [eapply (SWork s0 s' h'); done|].
    rewrite (al_sem _ _ Ha), (al_loops _ _ Ha), (al_live _ _ Ha).
    apply alike_set; [done|]. eapply (on_stats_alike (set_heap h' _)); [exact Hs0|].
    apply set_heap_alike, Ha.
  - pose proof (al_proc _ _ Ha) as Hp. rewrite (pa_caches _ _ Hp) in Hl |- *.
    rewrite (al_live _ _ Ha) in Hne. eexists. split; [by eapply (SCache l c op)|].
    rewrite (al_sem _ _ Ha), (al_loops _ _ Ha), (al_live _ _ Ha).
    apply alike_set; [done|]. by apply set_caches_alike.
  - rewrite (al_live _ _ Ha) in Hj.
    pose proof (end_connection_alike how j _ _ c s0 Ha Hj (Hlive _ _ Hj)) as Hf2. rewrite Hf in Hf2.
    apply Forall2_Some_r in Hf2 as (t' & Et & Ha'). exists t'. split; [|done]. by eapply SFinish.
Qed.

(** A run with its events. *)
Inductive server_run : list label → Server → Server → Prop :=
  | run_stop sv : server_run [] sv sv
  | run_step l ls sv sv1 sv2 :
      server_step l sv sv1 → server_run ls sv1 sv2 → server_run (l :: ls) sv sv2.

Lemma actors_run ls t t' a :
  server_run ls t t' → server_inv max_ cap t → alike t a →
  ∃ a', server_run ls a a' ∧ alike t' a'.
Proof.
  intros Hrun. revert a. induction Hrun as [t|l ls t t1 t2 Hstep _ IH]; intros a Hinv Ha.
  - exists a. split; [constructor|done].
  - destruct (actors_follow _ _ _ _ Hinv Ha Hstep) as (a1 & Hstep' & Ha1).
    destruct (IH a1) as (a2 & Hrun' & Ha2); [by eapply server_step_inv|done|].
    exists a2. split; [by eapply run_step|done].
Qed.

Lemma tasks_run ls t a a' :
  server_run ls a a' → server_inv max_ cap t → alike t a →
  ∃ t', server_run ls t t' ∧ alike t' a'.
Proof.
  intros Hrun. revert t. induction Hrun as [a|l ls a a1 a2 Hstep _ IH]; intros t Hinv Ha.
  - exists t. split; [constructor|done].
  - destruct (tasks_follow _ _ _ _ Hinv Ha Hstep) as (t1 & Hstep' & Ha1).
    destruct (IH t1) as (t2 & Hrun' & Ha2); [by eapply server_step_inv|done|].
    exists t2. split; [by eapply run_step|done].
Qed.

(** Two servers of the same context, before their first step. *)
Lemma same_context_alike ctx n p t0 a0 :
  ready (ctx_stats ctx) (ctx_per_ip ctx) cap p →
  start_server Tokio ctx max_ n p = Some t0 → start_server Actix ctx max_ n p = Some a0 →
  server_inv max_ cap t0 ∧ alike t0 a0.
Proof.
  intros Hready Ht Ha. split; [by eapply start_server_inv|].
  unfold start_server in *. destruct (sem_new max_); simplify_eq/=. by split.
Qed.
End bisimulation.

(** ** From the configuration *)

(** What may be set before a server serves: statistics shared with it, made for
    the purpose as [main] does, and the options of both types. *)
Inductive setting : Type :=
  | ShareStats (now : N) (unix_now : u64)
  | MaxConnections (max_ : usize)
  | EnableDnsCache (ttl : Duration) (max_entries : usize)
  | MaxConnectionsPerIp (max_ : usize).

Definition set_merino (c : setting) (self : Merino) (p : Process) : Merino * Process :=
  match c with
  | ShareStats now unix_now =>
      let '(stats, p) := alloc_stats (Stats_new now unix_now) p in (Merino_set_stats stats self, p)
  | MaxConnections max_ => (Merino_set_max_connections max_ self, p)
  | EnableDnsCache ttl max_entries => Merino_set_dns_cache ttl max_entries self p
  | MaxConnectionsPerIp max_ => Merino_set_max_connections_per_ip max_ self p
  end.

Definition set_actors (c : setting) (self : SocksServer) (p : Process) : SocksServer * Process :=
  match c with
  | ShareStats now unix_now =>
      let '(stats, p) := alloc_stats (Stats_new now unix_now) p in
      (SocksServer_set_stats stats self, p)
  | MaxConnections max_ => (SocksServer_set_max_connections max_ self, p)
  | EnableDnsCache ttl max_entries => SocksServer_set_dns_cache ttl max_entries self p
  | MaxConnectionsPerIp max_ => SocksServer_set_max_connections_per_ip max_ self p
  end.

(** Any of them, in any order. *)
Definition configure {A} (set : setting → A → Process → A * Process) (l : list setting)
    (self : A) (p : Process) : A * Process :=
  fold_left (λ ap c, set c ap.1 ap.2) l (self, p).

(** The caller of the Actix server tells the statistics of the listeners, which
    [Merino::serve] does itself. *)
Definition start_actors `{!Semaphore} (self : SocksServer) (p : Process) : option Server :=
  SocksServer_started self (on_stats (ss_stats self) (note_listeners (SocksServer_local_addrs self)) p).

(** The two servers hold the same configuration. *)
Record configured_alike (m : Merino) (a : SocksServer) : Prop := {
  ca_listeners : ss_listeners_ a = mo_listeners m;
  ca_bound : collect (l_local_addr <$> mo_listeners m) = Ok (ss_bound_addrs a);
  ca_users : ss_users a = mo_users m;
  ca_methods : ss_auth_methods a = mo_auth_methods m;
  ca_timeout : ss_timeout a = mo_timeout m;
  ca_max : ss_max_connections a = mo_max_connections m;
  ca_dns : ss_dns_cache a = mo_dns_cache m;
  ca_per_ip : ss_per_ip a = mo_per_ip m;
  ca_stats : ss_stats a = mo_stats m
}.

Lemma bind_alike `{!Net} port ip methods users timeout now un p a q :
  SocksServer_bind port ip methods users timeout now un p = Ok (a, q) →
  ∃ m, Merino_new port ip methods users timeout now un p = Ok (m, q) ∧ configured_alike m a.
Proof.
  unfold SocksServer_bind, Merino_new. destruct (bind_all ip port) as [l|e]; simpl; [|done].
  destruct (collect _) as [bound|e] eqn:E; simpl; [|done]. intros [= <- <-].
  eexists. split; [done|]. by split.
Qed.

(** What every setting keeps: servers that are alike, in the same process, whose
    shared objects are ready. *)
Record set_up (m : Merino) (a : SocksServer) (p q : Process) : Prop := {
  su_alike : configured_alike m a;
  su_process : q = p;
  su_heap : p_heap p = heap_empty;
  su_ready : ∃ cap, ready (mo_stats m) (mo_per_ip m) cap p
}.

Lemma alloc_stats_ready stats per_ip cap now un p :
  p_heap p = heap_empty → ready stats per_ip cap p →
  ready (alloc_stats (Stats_new now un) p).1 per_ip cap (alloc_stats (Stats_new now un) p).2.
Proof.
  intros Hh [_ Hl]. split; [|done]. eexists. simpl. rewrite lookup_app_r, Nat.sub_diag, Hh by done.
  split; [done|]. apply registry_inv_init.
Qed.

Lemma set_up_set c m a p q :
  set_up m a p q →
  set_up (set_merino c m p).1 (set_actors c a q).1 (set_merino c m p).2 (set_actors c a q).2.
Proof.
  intros [Hal -> Hh [cap Hr]]. destruct (Hal) as [? ? ? ? ? ? ? ? Hst]. destruct c; simpl.
  - split; [by split|done|done|]. exists cap. by eapply alloc_stats_ready.
  - split; [by split|done|done|by exists cap].
  - rewrite Hst. split; [by split|done|done|]. exists cap.
    apply ready_on_stats; [intros; by apply register_dns_inv|]. done.
  - unfold Merino_set_max_connections_per_ip, SocksServer_set_max_connections_per_ip.
    pose proof (new_limiter_ready _ _ _ max_ _ Hr) as Hr'.
    assert (p_heap (new_limiter max_ p).2 = heap_empty)
      by (unfold new_limiter; by destruct (0 <? max_)).
    destruct (new_limiter max_ p) as [per_ip p']. simpl in *. split; [by split|done|done|by eexists].
Qed.

Lemma set_up_configure l m a p q :
  set_up m a p q →
  set_up (configure set_merino l m p).1 (configure set_actors l a q).1
         (configure set_merino l m p).2 (configure set_actors l a q).2.
Proof.
  unfold configure. revert m a p q. induction l as [|c l IH]; intros m a p q H; [done|]. simpl.
  rewrite (surjective_pairing (set_merino c m p)), (surjective_pairing (set_actors c a q)).
  by apply IH, set_up_set.
Qed.

Lemma collect_omap {E A} (l : list (result E A)) r :
  collect l = Ok r → omap (λ a, match a with Ok a => Some a | Err _ => None end) l = r.
Proof. intros ->%collect_Ok. induction r as [|a r IH]; [done|]. csimpl. by rewrite IH. Qed.

(** Both come down to a server of the same context. *)
Lemma serve_start `{!Semaphore} m a p q :
  set_up m a p q →
  ∃ ctx max_ n p' cap, ready (ctx_stats ctx) (ctx_per_ip ctx) cap p' ∧
    Merino_serve m p = start_server Tokio ctx max_ n p' ∧
    start_actors a q = start_server Actix ctx max_ n p'.
Proof.
  intros [[Hl Hb Hu Hm Ht Hmax Hd Hip Hst] -> Hh [cap Hr]].
  exists {| ctx_users := mo_users m; ctx_auth_methods := mo_auth_methods m;
            ctx_timeout := mo_timeout m; ctx_dns_cache := mo_dns_cache m;
            ctx_per_ip := mo_per_ip m; ctx_stats := mo_stats m |}.
  exists (mo_max_connections m), (length (mo_listeners m)).
  exists (on_stats (mo_stats m) (note_listeners (ss_bound_addrs a)) p), cap. split_and!.
  - apply ready_on_stats; [intros; by apply note_listeners_inv|done].
  - unfold Merino_serve. replace (omap _ (mo_listeners m)) with (ss_bound_addrs a); [done|].
    symmetry. rewrite <- (collect_omap _ _ Hb). clear. induction (mo_listeners m) as [|x l IH]; [done|].
    csimpl. by destruct (l_local_addr x); rewrite IH.
  - unfold start_actors, SocksServer_started, SocksServer_local_addrs.
    by rewrite Hl, Hu, Hm, Ht, Hmax, Hd, Hip, Hst.
Qed.

(** C11: the two backends are interchangeable.  Who can bind an Actix server can
    make a Tokio server of the same arguments; after the same settings, in any
    order, either both panic or both start; and then, whatever one of them can do
    - accept, refuse, start a connection, work on it, release it - in any order,
    the other can do in the same order, and both are then in the same state: the
    same context, the same connections with the same registrations, slots and
    permits, the same accept loops, the same counters and caches, the same server
    statistics.  Only the statistics that actors are built with, and nobody
    refers to, are left behind. *)
Theorem backends_equivalent `{!Net, !Semaphore} port ip methods users timeout now un p a q l :
  p_heap p = heap_empty →
  SocksServer_bind port ip methods users timeout now un p = Ok (a, q) →
  ∃ m, Merino_new port ip methods users timeout now un p = Ok (m, q) ∧
  match (let '(m, p) := configure set_merino l m q in Merino_serve m p),
        (let '(a, p) := configure set_actors l a q in start_actors a p) with
  | Some t0, Some a0 =>
      ∀ ls,
        (∀ t, server_run ls t0 t → ∃ a, server_run ls a0 a ∧ alike t a) ∧
        (∀ a, server_run ls a0 a → ∃ t, server_run ls t0 t ∧ alike t a)
  | None, None => True
  | _, _ => False
  end.
Proof.
  intros Hh Hbind. destruct (bind_alike _ _ _ _ _ _ _ _ _ _ Hbind) as (m & Hnew & Hal).
  exists m. split; [done|].
  assert (set_up m a q q) as Hup.
  { split; [done|done| |].
    - unfold Merino_new in Hnew. destruct (bind_all ip port); simplify_eq/=. done.
    - exists None. by eapply Merino_new_ready. }
  apply (set_up_configure l) in Hup.
  destruct (configure set_merino l m q) as [m' p'], (configure set_actors l a q) as [a' q'].
  cbn [fst snd] in Hup.
  destruct (serve_start _ _ _ _ Hup) as (ctx & max_ & n & p1 & cap & Hr & -> & ->).
  destruct (start_server Tokio ctx max_ n p1) as [t0|] eqn:Et;
    destruct (start_server Actix ctx max_ n p1) as [a0|] eqn:Ea;
    try (unfold start_server in *; destruct (sem_new max_); by simplify_eq/=).
  destruct (same_context_alike _ _ _ _ _ _ _ Hr Et Ea) as [Hinv Ha].
  intros ls. split; intros sv Hrun; [by eapply actors_run|by eapply tasks_run].
Qed.

(** ** Witness *)

#[local] Existing Instance demo_session_net.
#[local] Existing Instance counting_semaphore.

(** One connection at a time, one per source, and a cache. *)
Definition demo_settings : list setting :=
  [MaxConnections 0; ShareStats 0 0; EnableDnsCache (from_secs 60) 16; MaxConnectionsPerIp 1].

(** A server that runs tasks, and one connection from its arrival to its release. *)
Definition demo_tasks : option Server :=
  match Merino_new 1080 "localhost" [x00] [] None 0 0 process_empty with
  | Ok (m, p) => let '(m, p) := configure set_merino demo_settings m p in Merino_serve m p
  | Err _ => None
  end.

Lemma demo_tasks_run :
  ∃ t0 t, demo_tasks = Some t0 ∧ server_run [LAcquire 0; LAccept 0; LStart 0; LFinish 0] t0 t ∧
          sv_live t = [] ∧ available (sv_sem t) = 1.
Proof.
  destruct demo_tasks as [t0|] eqn:E; [|discriminate]. injection E as <-.
  eexists _, _. split; [reflexivity|]. split.
  { eapply run_step; [apply (SAcquire 0); [reflexivity|reflexivity]|].
    eapply run_step; [apply (SAccept 0 (Ok demo_incoming) 0 0); reflexivity|].
    eapply run_step; [eapply (SStart 0 0); [reflexivity|reflexivity|by intros s [= <-]]|].
    eapply run_step; [eapply (SFinish Returned 0); [reflexivity|by eexists|reflexivity]|].
    constructor. }
  split; reflexivity.
Qed.

(** Accepted, started and released: an actor does what the task did. *)
Lemma backends_equivalent_witness :
  ∃ a0 a, server_run [LAcquire 0; LAccept 0; LStart 0; LFinish 0] a0 a ∧
          sv_live a = [] ∧ available (sv_sem a) = 1.
Proof.
  destruct demo_tasks_run as (t0 & t & Et & Hrun & Hlive & Hsem).
  destruct (SocksServer_bind 1080 "localhost" [x00] [] None 0 0 process_empty) as [[a q]|e] eqn:Eb;
    [|discriminate].
  destruct (backends_equivalent 1080 "localhost" [x00] [] None 0 0 process_empty a q demo_settings
              eq_refl Eb) as (m & Hm & H).
  unfold demo_tasks in Et. rewrite Hm in Et. rewrite Et in H.
  destruct (let '(a, p) := configure set_actors demo_settings a q in start_actors a p) as [a0|];
    [|destruct H].
  destruct (proj1 (H _) t Hrun) as (a1 & Hrun' & Hal). exists a0, a1.
  split; [exact Hrun'|]. rewrite (al_live _ _ Hal), (al_sem _ _ Hal). split; [exact Hlive|exact Hsem].
Defined.
