(* ===== verification/Protocol.v ===== *)
(** * The server's side of the conversation (RFC 1928, RFC 1929)

    What the RFCs let a server write to its client, as an automaton over the log
    of the client's stream, and the theorem that every session is a run of it but
    for one thing the RFCs have no place for: a failure is answered with a reply
    in every state in which the client was not yet told.  The handlers of
    Handshake.v, Udp.v and Session.v are typed, construct by construct, with the
    phase before and after. *)
From S2P Require Import Prelude Fmt Types Wire Credentials DnsCache Stats Stream Relay Connect Client.
From S2P Require Import Hoare Handshake Resolve Udp Session.

Create HintDb typing.

(** ** The automaton *)

Inductive phase : Type :=
  | Negotiating      (** nothing was said *)
  | Authenticating   (** [05 02]: credentials are awaited *)
  | Authorized       (** [05 00], or [01 00]: a request is awaited *)
  | Bound            (** the first reply of BIND *)
  | Associated       (** the reply of UDP ASSOCIATE *)
  | Relaying         (** the bytes of the destination *)
  | Refused          (** [05 FF] *)
  | Told             (** [01 01] *)
  | Shut             (** shut down, by the other side of a relay or a failure *)
  | Broken           (** a write was cut short *)
  | Answered         (** the reply to a failure *)
  | Ended.

#[global] Instance phase_eq_dec : EqDecision phase.
Proof. solve_decision. Defined.

(** Where RFC 1928 has a reply to come: after a request, and after the first reply
    of BIND.  This is where a failure is answered by the protocol. *)
Definition reply_due (p : phase) : bool :=
  match p with Authorized | Bound => true | _ => false end.

(** The messages. *)
Inductive says : phase → list u8 → phase → Prop :=
  | says_userpass : says Negotiating [SOCKS_VERSION; AuthMethods_as_u8 UserPass] Authenticating
  | says_no_auth : says Negotiating [SOCKS_VERSION; AuthMethods_as_u8 NoAuth] Authorized
  | says_no_methods : says Negotiating [SOCKS_VERSION; AuthMethods_as_u8 NoMethods] Refused
  | says_welcome : says Authenticating [x01; ResponseCode_as_u8 Success] Authorized
  | says_denied : says Authenticating [x01; ResponseCode_as_u8 Failure] Told
  | says_connected : says Authorized (buf (SocksReply_new Success)) Relaying
  | says_bound a : says Authorized (buf (SocksReply_with_addr Success a)) Bound
  | says_associated a : says Authorized (buf (SocksReply_with_addr Success a)) Associated
  | says_peer a : says Bound (buf (SocksReply_with_addr Success a)) Relaying
  | says_data c : 0 < length c ≤ RELAY_BUF_SIZE → says Relaying c Relaying
  | says_failure p code :
      reply_due p = true → code ≠ Success → says p (buf (SocksReply_new code)) Answered.

Inductive closes : phase → phase → Prop :=
  | closes_version : closes Negotiating Shut
  | closes_refused : closes Refused Shut
  | closes_relay : closes Relaying Shut
  | closes_told : closes Told Told
  | closes_answered : closes Answered Ended.

(** After a write that failed, or was cancelled, nothing. *)
Definition cut (p : phase) : phase :=
  match p with Told | Answered => p | _ => Broken end.

Inductive phase_step : phase → out_event → phase → Prop :=
  | step_says p c q : says p c q → phase_step p (OutWrite c (length c)) q
  | step_cut p c q n : says p c q → phase_step p (OutWrite c n) (cut q)
  | step_closes p q : closes p q → phase_step p OutShutdown q.

(** [phase_run p l q]: from [p] to [q] by writing [l]. *)
Inductive phase_run (p : phase) : list out_event → phase → Prop :=
  | run_nil : phase_run p [] p
  | run_snoc l q ev r : phase_run p l q → phase_step q ev r → phase_run p (l ++ [ev]) r.

(** ** What the code does beyond it *)

(** Where the code answers a failure: wherever the client was not told of one. *)
Definition answerable (p : phase) : bool :=
  match p with
  | Refused | Told | Answered | Ended => false
  | _ => true
  end.

(** Where that reply has no place in the protocol: before a request was read, in
    the middle of relayed data or of a UDP association, after a message that was
    cut short, and after the stream has been shut down, which includes [05 FF]. *)
Definition misplaced (p : phase) : bool := answerable p && negb (reply_due p).

(** A run of the automaton; or one that stops where a reply has no place, that
    reply, and a shutdown. *)
Inductive conversation : list out_event → Prop :=
  | conv_rfc l p : phase_run Negotiating l p → conversation l
  | conv_misplaced l p code n coda :
      phase_run Negotiating l p → misplaced p = true → code ≠ Success →
      coda = [] ∨ coda = [OutShutdown] →
      conversation (l ++ OutWrite (buf (SocksReply_new code)) n :: coda).

(** The errors of the parsers. *)
Lemma take_fails bytes n e : take_ bytes n = Err e → e = truncated.
Proof. unfold take_. case_match; congruence. Qed.

Lemma take_addr_fails bytes ty e : take_addr bytes ty = Err e → e = truncated.
Proof. destruct ty, bytes; simpl; try apply take_fails. congruence. Qed.

Lemma parse_request_fails bytes e : parse_request bytes = Err e → ResponseCode_from e ≠ Success.
Proof.
  destruct bytes as [|v [|c [|r [|a rest]]]]; try (by intros [= <-]). unfold parse_request.
  destruct (SockCommand_from (usize_of_u8 c)); simpl; [|by intros [= <-]].
  destruct (AddrType_from (usize_of_u8 a)); simpl; [|by intros [= <-]].
  destruct (take_addr _ _) as [[addr rest']|e'] eqn:E; simpl;
    [|intros [= <-]; by rewrite (take_addr_fails _ _ _ E)].
  unfold take_port. by destruct rest' as [|? [|??]]; simpl; intros [= <-].
Qed.

Lemma parse_userpass_fails bytes e : parse_userpass bytes = Err e → ResponseCode_from e ≠ Success.
Proof.
  destruct bytes as [|v [|ul rest]]; try (by intros [= <-]). unfold parse_userpass.
  destruct (take_ rest (usize_of_u8 ul)) as [[u rest']|e'] eqn:E; cbn [mbind result_bind];
    [|intros [= <-]; by rewrite (take_fails _ _ _ E)].
  destruct rest' as [|pl rest']; [by intros [= <-]|].
  destruct (take_ rest' (usize_of_u8 pl)) as [[p rest'']|e'] eqn:E'; cbn [mbind result_bind]; [done|].
  intros [= <-]. by rewrite (take_fails _ _ _ E').
Qed.

(** ** The typing of handlers *)

Section typing.
Context (out0 : list out_event).

(** The session has written [l] since [out0] and is in phase [p]. *)
Definition said (p : phase) (s : Stream) : Prop :=
  ∃ l, out s = out0 ++ l ∧ phase_run Negotiating l p.

Definition spoken (p : phase) (w : World) : Prop := said p (stream (client w)).

Definition at_phase (p : phase) (w : World) : Prop := spoken p w ∧ replied (client w) = false.

(** A handler has failed: the client may still be answered, or it was told. *)
Definition failed (w : World) : Prop :=
  ∃ p, spoken p w ∧ if replied (client w) then p = Told else answerable p = true.

Definition ends (e : option io_error) : World → Prop := failed.

(** An error that is answered is not answered with success. *)
Definition fails (e : option MerinoError) (w : World) : Prop :=
  failed w ∧ ∀ e', e = Some e' → ResponseCode_from e' ≠ Success.

Lemma said_snoc p q ev s s' :
  said p s → phase_step p ev q → out s' = out s ++ [ev] → said q s'.
Proof.
  intros (l & Hl & Hrun) Hstep Hout. exists (l ++ [ev]). rewrite Hout, Hl, <- app_assoc.
  split; [done|]. by eapply run_snoc.
Qed.

Lemma said_out p s s' : said p s → out s' = out s → said p s'.
Proof. intros (l & Hl & Hrun) Hout. exists l. by rewrite Hout. Qed.

Lemma spoken_snoc p q ev w w' :
  spoken p w → phase_step p ev q → out (stream (client w')) = out (stream (client w)) ++ [ev] →
  spoken q w'.
Proof. apply said_snoc. Qed.

Lemma spoken_out p w w' :
  spoken p w → out (stream (client w')) = out (stream (client w)) → spoken p w'.
Proof. apply said_out. Qed.

Lemma at_phase_failed p w : answerable p = true → at_phase p w → failed w.
Proof. intros Ha [Hs Hr]. exists p. by rewrite Hr. Qed.

Lemma at_phase_ends p e w : answerable p = true → at_phase p w → ends e w.
Proof. apply at_phase_failed. Qed.

Lemma fails_throw p e w :
  answerable p = true → ResponseCode_from e ≠ Success → at_phase p w → fails (Some e) w.
Proof. intros Ha He Hw. split; [by eapply at_phase_failed|]. by intros e' [= <-]. Qed.

Lemma fails_none p w : answerable p = true → at_phase p w → fails None w.
Proof. intros Ha Hw. split; [by eapply at_phase_failed|done]. Qed.

Lemma at_phase_clock p w t : at_phase p w → at_phase p (set_clock t w).
Proof. done. Qed.

Lemma at_phase_note {E} p f : preserves (at_phase p) (note f : M E unit).
Proof. apply preserves_modify. intros w Hw. by destruct (has_stats (client w)). Qed.

(** ** The rules *)

Lemma typed_question {A} P (m : M io_error A) Q :
  hoare P m Q ends → hoare P (question m) Q fails.
Proof.
  intros Hm. eapply hoare_map_err; [exact Hm|]. intros e w Hw. split; [exact Hw|].
  destruct e as [e|]; intros e' [= <-]. done.
Qed.

Lemma typed_read p n :
  answerable p = true →
  hoare (at_phase p) (stream_read_exact n) (λ _, at_phase p) ends.
Proof.
  intros Ha. apply hoare_read. intros w s t [Hs Hr] Hout w'.
  assert (at_phase p w') as Hw' by (split; [by eapply spoken_out|done]).
  split; [by intros|]. intros e. by eapply at_phase_ends.
Qed.

Lemma typed_send p q c :
  says p c q → q ≠ Told → q ≠ Answered →
  hoare (at_phase p) (stream_write_all c) (λ _, at_phase q) ends.
Proof.
  intros Hsay Ht Hans. apply hoare_write. intros w s t n [Hs Hr] Hout w'. split.
  - intros ->. split; [|done]. by eapply spoken_snoc; [exact Hs|apply step_says|].
  - intros e. exists (cut q). cbn [replied client w' set_clock set_client set_stream]. rewrite Hr.
    split; [by eapply spoken_snoc; [exact Hs|by apply step_cut|]|by destruct q].
Qed.

Lemma typed_shutdown p q :
  closes p q → answerable q = true →
  hoare (at_phase p) stream_shutdown (λ _, at_phase q) ends.
Proof.
  intros Hc Ha. apply hoare_shutdown. intros w s [Hs Hr] Hout w'.
  assert (at_phase q w') as Hw'.
  { split; [|done]. by eapply spoken_snoc; [exact Hs|apply step_closes|]. }
  split; [done|]. intros e. by eapply at_phase_ends.
Qed.

Lemma typed_frame {A} p (m : M io_error A) :
  answerable p = true → preserves (at_phase p) m → hoare (at_phase p) m (λ _, at_phase p) ends.
Proof. intros Ha Hm. apply hoare_preserves; [done|]. intros e w. by apply at_phase_ends. Qed.

Lemma typed_throw {A} p (e : MerinoError) (Q : A → World → Prop) :
  answerable p = true → ResponseCode_from e ≠ Success → hoare (at_phase p) (throw e) Q fails.
Proof. intros Ha He. apply hoare_throw. intros w. by apply (fails_throw p). Qed.

Lemma typed_note {A} p f (m : M MerinoError A) Q :
  hoare (at_phase p) m Q fails → hoare (at_phase p) (note f;; m) Q fails.
Proof.
  intros Hm. eapply hoare_bind; [|intros; exact Hm]. apply hoare_modify. intros w Hw.
  by destruct (has_stats (client w)).
Qed.

Lemma typed_get {E A} P (f : World → M E A) Q (R : option E → World → Prop) :
  (∀ w, hoare P (f w) Q R) → hoare P (w ← get; f w) Q R.
Proof. intros Hf. apply hoare_get. intros w0 Hw0 dl w o w' Hrun ->. by eapply Hf. Qed.

Lemma typed_modify {A} p f (m : M MerinoError A) Q :
  (∀ w, at_phase p w → at_phase p (f w)) → hoare (at_phase p) m Q fails →
  hoare (at_phase p) (modify f;; m) Q fails.
Proof.
  intros Hf Hm. apply (hoare_bind _ _ _ (λ _, at_phase p)); [by apply hoare_modify|by intros _].
Qed.

Lemma typed_from_result {A} p (r : result MerinoError A) :
  answerable p = true → (∀ e, r = Err e → ResponseCode_from e ≠ Success) →
  hoare (at_phase p) (from_result r) (λ _, at_phase p) fails.
Proof.
  intros Ha He. apply hoare_from_result; [done|]. intros e -> w. apply (fails_throw p); auto.
Qed.

Lemma typed_from_io {A} p (r : result io_error A) :
  answerable p = true → hoare (at_phase p) (from_result r) (λ _, at_phase p) ends.
Proof. intros Ha. apply hoare_from_result; [done|]. intros e -> w. by apply at_phase_ends. Qed.

Lemma typed_ret {E A} p (a : A) (R : option E → World → Prop) :
  hoare (at_phase p) (mret a : M E A) (λ _, at_phase p) R.
Proof. apply (hoare_ret a (λ _, at_phase p)). Qed.

(** Types a call; a handler is typed call by call. *)
Ltac typed_call :=
  first
    [ eassumption
    | apply typed_question; typed_call
    | apply typed_read; done
    | apply typed_send; [first [eassumption | constructor]|done|done]
    | eapply typed_shutdown; [constructor|done]
    | apply typed_from_io; done
    | apply typed_from_result; [done|apply parse_request_fails || apply parse_userpass_fails]
    | solve [auto with typing] ].

Ltac typed :=
  repeat first
    [ eassumption
    | match goal with |- hoare _ (mbind _ get) _ _ => apply typed_get; intros ? end
    | match goal with |- hoare _ (mbind _ (note _)) _ _ => apply typed_note end
    | match goal with |- hoare _ (mbind _ (modify _)) _ _ => apply typed_modify; [done|] end
    | apply typed_throw; done
    | apply typed_ret
    | eapply hoare_bind; [typed_call|intros ?]
    | typed_call
    | match goal with
      | |- hoare _ (if ?b then _ else _) _ _ => destruct b
      | |- hoare _ (match ?x with _ => _ end) _ _ => destruct x
      end ].

(** ** The handshake *)

Lemma read_addr_typed frame ty :
  hoare (at_phase Authorized) (read_addr frame ty) (λ _, at_phase Authorized) fails.
Proof. unfold read_addr. typed. Qed.

Hint Resolve read_addr_typed : typing.

Lemma from_stream_typed :
  hoare (at_phase Authorized) SOCKSReq_from_stream (λ _, at_phase Authorized) fails.
Proof. unfold SOCKSReq_from_stream. typed. Qed.

Lemma read_userpass_typed :
  hoare (at_phase Authenticating) read_userpass (λ _, at_phase Authenticating) fails.
Proof. unfold read_userpass. typed. Qed.

Lemma avalible_loop_typed configured n methods :
  hoare (at_phase Negotiating) (avalible_loop configured n methods) (λ _, at_phase Negotiating) ends.
Proof. revert methods. induction n as [|n IH]; intros methods; simpl; typed. Qed.

(** Once the flag is set the failure is told, however the write ends. *)
Lemma deny_typed (Q : unit → World → Prop) : hoare (at_phase Authenticating) deny Q fails.
Proof.
  unfold deny. apply typed_note.
  apply (hoare_bind _ _ _ (λ _ w, spoken Authenticating w ∧ replied (client w) = true)).
  { apply hoare_modify. by intros w [Hs _]. }
  intros _. apply (hoare_bind _ _ _ (λ _ w, spoken Told w ∧ replied (client w) = true)).
  { apply typed_question, hoare_write. intros w s t n [Hs Hr] Hout w'.
    assert (spoken Told w') as Hw'.
    { eapply spoken_snoc; [exact Hs| |exact Hout].
      exact (step_cut Authenticating USERPASS_FAILURE Told n says_denied). }
    split; [done|]. intros e. exists Told. cbn [replied client w' set_clock set_client set_stream].
    by rewrite Hr. }
  intros _. apply (hoare_bind _ _ _ (λ _ w, spoken Told w ∧ replied (client w) = true)).
  { apply typed_question, hoare_shutdown. intros w s [Hs Hr] Hout w'.
    assert (spoken Told w') by (by eapply spoken_snoc; [exact Hs|apply step_closes, closes_told|]).
    split; [done|]. intros e. exists Told. cbn [replied client w' set_client set_stream]. by rewrite Hr. }
  intros _. apply hoare_throw. intros w [Hs Hr]. split; [|by intros e [= <-]].
  exists Told. by rewrite Hr.
Qed.

Hint Resolve from_stream_typed read_userpass_typed avalible_loop_typed deny_typed : typing.

Lemma auth_with_typed methods :
  hoare (at_phase Negotiating) (auth_with methods) (λ _, at_phase Authorized) fails.
Proof. unfold auth_with. typed. Qed.

Lemma get_avalible_methods_typed :
  hoare (at_phase Negotiating) get_avalible_methods (λ _, at_phase Negotiating) ends.
Proof. unfold get_avalible_methods. typed. Qed.

Hint Resolve auth_with_typed get_avalible_methods_typed : typing.

Lemma auth_typed : hoare (at_phase Negotiating) auth (λ _, at_phase Authorized) fails.
Proof. unfold auth. typed. Qed.

Hint Resolve auth_typed : typing.

Lemma negotiate_typed : hoare (at_phase Negotiating) negotiate (λ _, at_phase Authorized) fails.
Proof. unfold negotiate. typed. Qed.

(** ** The relay *)

Lemma pump_out k now src dst :
  match pump k now src dst with
  | Moved _ _ _ dst' =>
      ∃ c, 0 < length c ≤ RELAY_BUF_SIZE ∧ out dst' = out dst ++ [OutWrite c (length c)]
  | Closed _ _ dst' => out dst' = out dst ++ [OutShutdown]
  | PumpErr _ _ _ dst' | PumpStuck _ dst' =>
      out dst' = out dst ∨
      ∃ c n, 0 < length c ≤ RELAY_BUF_SIZE ∧ out dst' = out dst ++ [OutWrite c n]
  | NotReady => True
  end.
Proof.
  unfold pump, read_some. destruct (rx src) as [|x l] eqn:Hrx.
  { destruct (rx_end src); simpl; auto. }
  pose proof (read_chunk k (x :: l) ltac:(done)) as Hlen. cbv zeta in Hlen |- *.
  destruct ((firstn _ (x :: l)).*2) as [|b c] eqn:Hc; [simpl in Hlen; lia|].
  destruct (write_all None _ _ dst) as [[o t] dst'] eqn:Hw.
  destruct (write_all_frame _ _ _ _ _ _ _ Hw) as (n & -> & Hn & _).
  destruct o as [[]|e| | |]; simpl; try (right; by exists (b :: c), n).
  exists (b :: c). by rewrite Hn.
Qed.

(** The client's side of a running relay: open until the other side ends. *)
Definition relay_said (st : relay_state) : Prop :=
  said (if b_open st then Relaying else Shut) (r_a st).

(** Where a relay can be left, however it ends. *)
Definition relay_left (s : Stream) : Prop := ∃ p, answerable p = true ∧ said p s.

Lemma relay_said_left st : relay_said st → relay_left (r_a st).
Proof. intros Hs. eexists. split; [|exact Hs]. by destruct (b_open st). Qed.

Lemma said_cut s s' :
  said Relaying s →
  (out s' = out s ∨ ∃ c n, 0 < length c ≤ RELAY_BUF_SIZE ∧ out s' = out s ++ [OutWrite c n]) →
  relay_left s'.
Proof.
  intros Hs [Hout|(c & n & Hlen & Hout)].
  - exists Relaying. split; [done|by eapply said_out].
  - exists Broken. split; [done|]. eapply said_snoc; [exact Hs| |exact Hout].
    by apply (step_cut _ _ Relaying), says_data.
Qed.

Lemma relay_step_said stats counters ev st :
  relay_said st →
  match relay_step stats counters ev st with
  | Running st' => relay_said st'
  | Failed _ st' | Stuck st' => relay_left (r_a st')
  | Finished _ => False
  end.
Proof.
  intros Hs. destruct ev as [k|k|]; simpl.
  - destruct (a_open st); [|done]. pose proof (pump_frame k (r_now st) (r_a st) (r_b st)) as Hf.
    destruct (pump _ _ _ _) as [n t a b|t a b|e t a b|a b|]; simpl; try done;
      destruct Hf as (Ha & _).
    + by eapply said_out.
    + by eapply said_out.
    + apply relay_said_left in Hs as (p & ? & Hs). exists p. split; [done|by eapply said_out].
    + apply relay_said_left in Hs as (p & ? & Hs). exists p. split; [done|by eapply said_out].
  - destruct (b_open st) eqn:Ho; [|done]. unfold relay_said in Hs. rewrite Ho in Hs.
    pose proof (pump_out k (r_now st) (r_b st) (r_a st)) as Hp.
    destruct (pump _ _ _ _) as [n t b a|t b a|e t b a|b a|]; simpl.
    + destruct Hp as (c & Hlen & Hout). unfold relay_said. simpl.
      eapply said_snoc; [exact Hs|by apply step_says, says_data|exact Hout].
    + eapply said_snoc; [exact Hs|apply step_closes, closes_relay|exact Hp].
    + by eapply said_cut.
    + by eapply said_cut.
    + unfold relay_said. by rewrite Ho.
  - unfold relay_said, publish_opt. by destruct counters, stats.
Qed.

Lemma relay_loop_said stats counters evs st :
  relay_said st → relay_left (r_a (relay_final (relay_loop stats counters evs st))).
Proof.
  revert st. induction evs as [|ev evs IH]; intros st Hs; cbn [relay_loop];
    destruct (a_open st || b_open st).
  - by apply relay_said_left.
  - apply relay_said_left in Hs. by destruct counters.
  - pose proof (relay_step_said stats counters ev st Hs) as Hstep.
    destruct (relay_step stats counters ev st) as [st'|st'|e st'|st']; simpl; try done. by apply IH.
  - apply relay_said_left in Hs. by destruct counters.
Qed.

(** A handler that is through with the client. *)
Definition through {A} (a : A) (w : World) : Prop := ∃ p, spoken p w.

Lemma through_at {A} p (a : A) w : at_phase p w → through a w.
Proof. intros [Hs _]. by exists p. Qed.

Lemma through_ret {A} p (a : A) (R : option MerinoError → World → Prop) :
  hoare (at_phase p) (mret a : M MerinoError A) through R.
Proof.
  eapply hoare_conseq; [apply (typed_ret p a R)|done| |done].
  intros ? w. apply through_at.
Qed.

Section handlers.
Context `{!Net, !ArrivalOrder, !HashOrder}.

Lemma relay_to_typed remote : hoare (at_phase Relaying) (relay_to remote) through fails.
Proof.
  intros dl w o w'. unfold relay_to. intros Hrun [Hs Hr].
  set (r := copy_bidirectional_counted _ _ _ _ _ _ _) in *. set (w1 := set_remote _ _) in Hrun.
  destruct (relay_loop_said (has_stats (client w)) (relay_counters (client w)) (remote_schedule remote)
    (relay_start (stream (client w)) (remote_stream remote) (w_heap w) (clock w)) Hs) as (p & Ha & Hp).
  change (said p (r_a (relay_final r))) in Hp.
  assert (at_phase p w1) as Hw1 by (split; [exact Hp|exact Hr]). clearbody w1.
  destruct r as [st|st|e st|st].
  - injection Hrun as <- <-. by eapply fails_none.
  - eapply (typed_note p _ (mret _) through (through_ret p _ fails) dl w1); [exact Hrun|done].
  - case_bool_decide; injection Hrun as <- <-; [by eapply through_at|by eapply fails_throw].
  - injection Hrun as <- <-. by eapply fails_none.
Qed.

(** ** Commands *)

Lemma addr_to_socket_phase p ty addr port : preserves (at_phase p) (addr_to_socket ty addr port).
Proof.
  unfold addr_to_socket. walk.
  - intros dl w o w'. unfold cache_get. repeat case_match; by intros [= <- <-].
  - intros dl w o w'. unfold cache_insert. repeat case_match; by intros [= <- <-].
Qed.

(** A bounded wait. *)
Lemma typed_wait {A} p d (m : M MerinoError A) :
  answerable p = true →
  hoare (at_phase p) m (λ _, at_phase p) (λ e w, e = None ∧ at_phase p w) →
  hoare (at_phase p) (with_timeout d m : M MerinoError _)
    (λ r w, at_phase p w ∧ ∀ e, r ≠ Some (Err e)) fails.
Proof.
  intros Ha Hm. eapply hoare_timeout; [exact Hm|done|by intros ?? [??]| |].
  - by intros w [_ ?].
  - intros w [_ ?]. by eapply fails_none.
Qed.

Lemma connect_target_typed req :
  hoare (at_phase Authorized) (connect_target req) (λ _, at_phase Authorized) fails.
Proof.
  unfold connect_target. eapply hoare_bind.
  { eapply hoare_map_err; [apply typed_frame; [done|apply addr_to_socket_phase]|].
    intros e w Hw. split; [exact Hw|]. destruct e as [e|]; intros e' [= <-]. by case_bool_decide. }
  intros l. apply typed_get. intros w0. eapply hoare_bind.
  { apply typed_wait; [done|]. by apply hoare_await_until. }
  intros r dl w o w' Hrun [Hw Hr]. revert dl w o w' Hrun Hw.
  change (hoare (at_phase Authorized) match r with
    | None => throw connect_timeout_error
    | Some (Err never) => throw never
    | Some (Ok (Err e)) => throw (connect_error e)
    | Some (Ok (Ok target)) => mret target
    end (λ _, at_phase Authorized) fails).
  destruct r as [[[target|e]|e]|].
  - apply typed_ret.
  - apply typed_throw; [done|]. unfold connect_error. by destruct (io_kind e).
  - by destruct (Hr e).
  - by apply typed_throw.
Qed.

Lemma typed_reply p q reply :
  says p (buf reply) q → q ≠ Told → q ≠ Answered →
  hoare (at_phase p) (question (SocksReply_send reply)) (λ _, at_phase q) fails.
Proof. intros. by apply typed_question, typed_send. Qed.

Lemma handle_bind_typed req : hoare (at_phase Authorized) (handle_bind req) through fails.
Proof.
  unfold handle_bind. apply typed_get. intros w0.
  eapply hoare_bind; [typed_call|intros listener]. eapply hoare_bind; [typed_call|intros bound].
  eapply hoare_bind; [apply (typed_reply _ Bound); [apply says_bound|done..]|intros ?].
  apply typed_get. intros w1. eapply hoare_bind.
  { apply typed_wait; [done|]. by apply hoare_await_answer. }
  intros r dl w o w' Hrun [Hw Hr]. revert dl w o w' Hrun Hw.
  destruct r as [[[[inbound peer]|e]|e]|].
  - assert (∀ b, hoare (at_phase Bound)
      (if b : bool then throw (Socks RuleFailure)
       else question (SocksReply_send (SocksReply_with_addr Success peer));; relay_to inbound)
      through fails) as Hb.
    { intros [|]; [by apply typed_throw|]. eapply hoare_bind; [|intros; apply relay_to_typed].
      apply (typed_reply _ Relaying); [apply says_peer|done..]. }
    apply Hb.
  - by apply (typed_throw Bound (Io e) through).
  - by destruct (Hr e).
  - by apply (typed_throw Bound connect_timeout_error through).
Qed.

Lemma udp_step_typed expected ev c :
  hoare (at_phase Associated) (udp_step expected ev c) (λ _, at_phase Associated) fails.
Proof.
  assert (∀ data, hoare (at_phase Associated) (udp_forward data) (λ _, at_phase Associated) fails) as Hf.
  { intros data. unfold udp_forward. destruct (parse_udp_header data) as [[header n]|]; [|apply typed_ret].
    destruct (negb _); [apply typed_ret|]. eapply hoare_bind.
    { apply (hoare_try _ _ (λ _, at_phase Associated) (λ _, at_phase Associated)
               (λ _, at_phase Associated)); [|by intros|by intros|].
      - apply hoare_preserves; [apply addr_to_socket_phase|]. intros e w Hw. exact Hw.
      - intros w Hw. by apply (fails_none Associated). }
    intros [[|dest l]|e]; [apply typed_ret| |apply typed_ret].
    apply typed_note. by apply hoare_modify. }
  destruct ev as [|[[data src]|e]]; simpl; [| |apply typed_ret].
  - intros dl w o w' Hrun [Hs Hr]. destruct (read_some _ _ _) as [[|b l] t s|e t|] eqn:E;
      injection Hrun as <- <-; try done; (split; [|done]); (eapply said_out; [exact Hs|]);
      unfold read_some in E; repeat case_match; by simplify_eq.
  - destruct c as [c|]; [|destruct expected as [ip|]].
    + destruct (bool_decide _); [eapply hoare_bind; [apply Hf|intros; apply typed_ret]|].
      apply typed_note. eapply hoare_bind; [by apply (hoare_modify _ _ (λ _, at_phase Associated))|].
      intros ?. apply typed_ret.
    + destruct (bool_decide _); [|apply typed_ret].
      eapply hoare_bind; [apply Hf|intros; apply typed_ret].
    + eapply hoare_bind; [apply Hf|intros; apply typed_ret].
Qed.

Lemma udp_loop_typed expected evs c :
  hoare (at_phase Associated) (udp_loop expected evs c) (λ _, at_phase Associated) fails.
Proof.
  revert c. induction evs as [|ev evs IH]; intros c; simpl.
  - intros dl w o w' [= <- <-] Hw. destruct dl; by apply (fails_none Associated).
  - eapply hoare_bind; [apply udp_step_typed|]. intros [c'|]; [apply IH|apply typed_ret].
Qed.

Lemma handle_udp_associate_typed req :
  hoare (at_phase Authorized) (handle_udp_associate req) through fails.
Proof.
  unfold handle_udp_associate. apply typed_get. intros w0.
  eapply hoare_bind; [typed_call|intros socket]. eapply hoare_bind; [typed_call|intros bound].
  eapply hoare_bind; [apply (typed_reply _ Associated); [apply says_associated|done..]|intros ?].
  eapply hoare_bind; [apply udp_loop_typed|intros ?]. apply through_ret.
Qed.

Lemma handle_request_typed req : hoare (at_phase Authorized) (handle_request req) through fails.
Proof.
  unfold handle_request. apply typed_get. intros w0. apply typed_note.
  destruct (req_command req);
    [|apply handle_bind_typed|apply handle_udp_associate_typed].
  eapply hoare_bind; [apply connect_target_typed|intros target].
  eapply hoare_bind; [apply (typed_reply _ Relaying); [apply says_connected|done..]|intros ?].
  apply relay_to_typed.
Qed.

(** ** The session *)

Lemma bounded_typed {A} p q (m : M MerinoError A) :
  hoare (at_phase p) m (λ _, at_phase q) fails →
  hoare (at_phase p) (bounded m) (λ _, at_phase q) fails.
Proof.
  intros Hm. unfold bounded. apply typed_get. intros w0. eapply (hoare_bind _ _ _
    (λ r w, match r with
            | Some (Ok _) => at_phase q w
            | Some (Err e) => fails (Some e) w
            | None => fails None w
            end)).
  - by eapply (hoare_timeout _ _ _ _ _ _ _ Hm).
  - intros [[a|e]|].
    + by apply hoare_from_result; [|].
    + apply hoare_from_result; [done|]. by intros e' [= ->].
    + apply (hoare_bind _ _ _ (λ _, fails None)).
      * apply hoare_modify. intros w [Hw _]. by destruct (has_stats (client w)).
      * intros _. apply hoare_throw. intros w [Hw _]. split; [exact Hw|]. by intros e [= <-].
Qed.

Lemma init_typed : hoare (at_phase Negotiating) init through fails.
Proof.
  unfold init. eapply hoare_bind; [apply bounded_typed, negotiate_typed|intros req].
  eapply hoare_bind; [apply handle_request_typed|intros n].
  apply (hoare_ret () through).
Qed.

Lemma shutdown_spoken p q (R : option MerinoError → World → Prop) :
  closes p q →
  hoare (spoken p) (m_try stream_shutdown) (λ _, spoken q) R.
Proof.
  intros Hc dl w o w' Hrun Hw. unfold m_try, stream_shutdown in Hrun.
  destruct (shutdown (stream (client w))) as [r s] eqn:E.
  assert (spoken q (set_client (set_stream s (client w)) w)) as Hq.
  { eapply spoken_snoc; [exact Hw|by apply step_closes|]. unfold shutdown in E. by injection E as _ <-. }
  by destruct r; injection Hrun as <- <-.
Qed.

(** A reply out of place was written, and then [coda]. *)
Definition misspoken (coda : list out_event) (w : World) : Prop :=
  ∃ l p code n, out (stream (client w)) = out0 ++ l ++ OutWrite (buf (SocksReply_new code)) n :: coda ∧
    phase_run Negotiating l p ∧ misplaced p = true ∧ code ≠ Success.

Definition concluded (w : World) : Prop :=
  ∃ l, out (stream (client w)) = out0 ++ l ∧ conversation l.

Lemma spoken_concluded p w : spoken p w → concluded w.
Proof. intros (l & Hl & Hrun). exists l. split; [done|]. by eapply conv_rfc. Qed.

Lemma misspoken_concluded coda w :
  coda = [] ∨ coda = [OutShutdown] → misspoken coda w → concluded w.
Proof.
  intros Hcoda (l & p & code & n & Hl & Hrun & Hm & Hc). eexists. split; [exact Hl|].
  by eapply conv_misplaced.
Qed.

(** After the reply to a failure in phase [p], and after the shutdown. *)
Definition replied_from (p : phase) (w : World) : Prop :=
  if reply_due p then spoken Answered w else misspoken [] w.

Definition closed_from (p : phase) (w : World) : Prop :=
  if reply_due p then spoken Ended w else misspoken [OutShutdown] w.

Lemma closed_from_concluded p w : closed_from p w → concluded w.
Proof.
  unfold closed_from. destruct (reply_due p); [apply spoken_concluded|].
  apply misspoken_concluded. by right.
Qed.

Lemma failure_reply_spoken p code :
  answerable p = true → code ≠ Success →
  hoare (spoken p) (m_try (SocksReply_send (SocksReply_new code)) : M MerinoError _)
    (λ _, replied_from p) (λ _, concluded).
Proof.
  intros Ha Hc. eapply (hoare_try _ _ (λ _, replied_from p) (λ _, replied_from p)); [|by intros..|].
  - apply hoare_write. intros w s t n Hw Hout w'.
    assert (replied_from p w') as Hq; [|by split]. unfold replied_from.
    destruct (reply_due p) eqn:Hd.
    + eapply spoken_snoc; [exact Hw| |exact Hout]. by apply (step_cut p _ Answered), says_failure.
    + destruct Hw as (l & Hl & Hrun). exists l, p, code, n. split_and!; [|done| |done].
      * transitivity (out s); [done|]. by rewrite Hout, Hl, <- app_assoc.
      * unfold misplaced. by rewrite Ha, Hd.
  - intros w Hw. unfold replied_from in Hw. destruct (reply_due p).
    + by eapply spoken_concluded.
    + eapply misspoken_concluded; [by left|done].
Qed.

Lemma shutdown_closes p (R : option MerinoError → World → Prop) :
  hoare (replied_from p) (m_try stream_shutdown) (λ _, closed_from p) R.
Proof.
  unfold replied_from, closed_from. destruct (reply_due p); [apply shutdown_spoken; constructor|].
  intros dl w o w' Hrun (l & q & code & n & Hl & Hq & Hm & Hc).
  unfold m_try, stream_shutdown in Hrun.
  assert (misspoken [OutShutdown] (set_client (set_stream (shutdown (stream (client w))).2 (client w)) w)) as Hm'.
  { exists l, q, code, n. split_and!; [|done..]. unfold shutdown. simpl. rewrite Hl.
    by rewrite <- !app_assoc. }
  destruct (shutdown (stream (client w))) as [r s]. by destruct r; injection Hrun as <- <-.
Qed.

Lemma report_failure_typed e :
  hoare (fails (Some e)) (report_failure e) (λ _, concluded) (λ _, concluded).
Proof.
  unfold report_failure.
  apply (hoare_bind _ _ _ (λ _, fails (Some e))); [apply hoare_modify; by intros w Hw|intros _].
  apply hoare_get. intros w0 [(p & Hp & Hrep) Hc]. specialize (Hc e eq_refl).
  destruct (replied (client w0)).
  - subst p. apply (hoare_bind _ _ _ (λ _, spoken Told)).
    { intros dl w o w' Hrun ->. by injection Hrun as <- <-. }
    intros _. eapply hoare_bind; [apply (shutdown_spoken Told Told); constructor|].
    intros ? dl w o w' Hrun Hw. injection Hrun as <- <-. by eapply spoken_concluded.
  - apply (hoare_bind _ _ _ (λ _, replied_from p)).
    { eapply hoare_bind; [|intros ?; apply (hoare_ret () (λ _, replied_from p))].
      eapply hoare_conseq; [by apply (failure_reply_spoken p)|by intros w ->|by intros|by intros]. }
    intros _. eapply hoare_bind; [apply shutdown_closes|].
    intros ? dl w o w' Hrun Hw. injection Hrun as <- <-. by eapply closed_from_concluded.
Qed.
End handlers.
End typing.

Section conversation.
Context `{!Net, !ArrivalOrder, !HashOrder}.

(** C2: every session speaks the protocol.  Whatever the client sends, however
    its destination, the resolver and the network behave, and wherever writes are
    cut short, what a session writes to its client is a run of the RFC 1928 /
    RFC 1929 automaton - a method choice; the result of the authentication, if it
    was chosen; after a request a reply, two for BIND; only then bytes of the
    destination, in chunks that fit the buffer; one failure reply where a reply is
    due, and nothing but a shutdown after it or after [05 FF] - with one
    exception, of sessions that fail only: where no reply is due, the code writes
    a failure reply all the same, once, and nothing but a shutdown after it. *)
Theorem run_client_conversation addr w o w' :
  replied (client w) = false →
  run_client addr w = (o, w') →
  ∃ l, out (stream (client w')) = out (stream (client w)) ++ l ∧ conversation l ∧
    (fst (init None (snd (start_client addr w))) = Done () → ∃ p, phase_run Negotiating l p).
Proof.
  intros Hrep. unfold run_client. destruct (start_client addr w) as [guard w1] eqn:Hs. cbn [snd].
  destruct (start_client_eq _ _ _ _ Hs) as (Hc & _).
  set (out0 := out (stream (client w))).
  assert (at_phase out0 Negotiating w1) as Hw1.
  { split; [|by rewrite Hc]. exists []. rewrite app_nil_r, Hc. split; [done|constructor]. }
  destruct (init None w1) as [o1 w2] eqn:Hi. cbn [fst].
  pose proof (init_typed out0 _ _ _ _ Hi Hw1) as Hty.
  assert (∀ (o3 : outcome MerinoError unit) w3,
    match o3 with Pending => (Pending, w3)
    | _ => (o3, set_w_stats (ActiveGuard_drop guard (w_stats w3)) w3) end = (o, w') →
    stream (client w') = stream (client w3)) as Hsame by (intros o3 w3 Heq; destruct o3; by simplify_eq).
  assert (∀ (o3 : outcome MerinoError unit) w3, (∃ p, spoken out0 p w3) →
    match o3 with Pending => (Pending, w3)
    | _ => (o3, set_w_stats (ActiveGuard_drop guard (w_stats w3)) w3) end = (o, w') →
    ∃ l, out (stream (client w')) = out0 ++ l ∧ conversation l ∧
      (o1 = Done () → ∃ p, phase_run Negotiating l p)) as Hfin.
  { intros o3 w3 (p & l & Hl & Hrun) Heq. exists l. rewrite (Hsame _ _ Heq).
    split; [done|]. split; [by eapply conv_rfc|by eexists]. }
  destruct o1 as [a|e| | |].
  - apply (Hfin (Done a) w2 Hty).
  - destruct (report_failure e None w2) as [o3 w3] eqn:E.
    pose proof (report_failure_typed out0 e _ _ _ _ E Hty) as Hq.
    assert (concluded out0 w3) as (l & Hl & Hconv) by (by destruct o3).
    intros Heq. exists l. rewrite (Hsame _ _ Heq). by split_and!.
  - destruct Hty as [(p & Hp & _) _]. apply (Hfin Elapsed w2). by exists p.
  - destruct Hty as [(p & Hp & _) _]. apply (Hfin Pending w2). by exists p.
  - destruct Hty as [(p & Hp & _) _]. apply (Hfin Crash w2). by exists p.
Qed.
End conversation.

(** ** What the automaton rules out *)

(** Until a request is granted the client is sent nothing but messages of two
    bytes: no byte of a destination, and no success. *)
Lemma phase_run_handshake p l q :
  phase_run p l q → p = Negotiating → q ∈ [Negotiating; Authenticating; Authorized] →
  Forall (λ ev, ∃ c n, ev = OutWrite c n ∧ length c = 2) l.
Proof.
  induction 1 as [|l q ev r Hrun IH Hstep]; intros -> Hq; [done|].
  assert (q ∈ [Negotiating; Authenticating; Authorized] ∧ ∃ c n, ev = OutWrite c n ∧ length c = 2)
    as [Hq' Hev].
  { rewrite !elem_of_cons, elem_of_nil in Hq |- *.
    destruct Hstep as [q c r Hsay|q c r n Hsay|q r Hc].
    - destruct Hsay; try naive_solver; (split; [naive_solver|by eexists _, _]).
    - destruct r; naive_solver.
    - destruct Hc; naive_solver. }
  apply Forall_app. split; [by apply IH|]. by constructor.
Qed.

(** A failure is answered once: nothing follows the answer but a shutdown. *)
Lemma phase_run_answered l q : phase_run Answered l q → l = [] ∨ l = [OutShutdown].
Proof.
  assert (phase_run Answered l q → (q = Answered ∧ l = []) ∨ (q = Ended ∧ l = [OutShutdown])) as H.
  { induction 1 as [|l q ev r Hrun IH Hstep]; [by left|].
    destruct IH as [[-> ->]|[-> ->]]; inversion Hstep as [? ? ? Hs|? ? ? ? Hs|? ? Hs]; subst;
      inversion Hs; subst; simpl in *; try done; by right. }
  intros Hrun. destruct (H Hrun) as [[_ ->]|[_ ->]]; auto.
Qed.

(** A refused client is told nothing more. *)
Lemma phase_run_refused l q : phase_run Refused l q → l = [] ∨ l = [OutShutdown].
Proof.
  assert (phase_run Refused l q → (q = Refused ∧ l = []) ∨ (q = Shut ∧ l = [OutShutdown])) as H.
  { induction 1 as [|l q ev r Hrun IH Hstep]; [by left|].
    destruct IH as [[-> ->]|[-> ->]]; inversion Hstep as [? ? ? Hs|? ? ? ? Hs|? ? Hs]; subst;
      inversion Hs; subst; simpl in *; try done; by right. }
  intros Hrun. destruct (H Hrun) as [[_ ->]|[_ ->]]; auto.
Qed.

(** Once a relay runs the client is sent data, and no message of the server. *)
Lemma phase_run_relaying l q :
  phase_run Relaying l q → q = Relaying →
  Forall (λ ev, ∃ c, ev = OutWrite c (length c) ∧ 0 < length c ≤ RELAY_BUF_SIZE) l.
Proof.
  assert (phase_run Relaying l q → (q = Relaying ∧ Forall (λ ev, ∃ c, ev = OutWrite c (length c) ∧
    0 < length c ≤ RELAY_BUF_SIZE) l) ∨ q = Shut ∨ q = Broken) as H.
  { induction 1 as [|l q ev r Hrun IH Hstep]; [by left|].
    destruct IH as [[-> Hl]|[-> | ->]]; inversion Hstep as [? c ? Hs|? ? ? ? Hs|? ? Hs]; subst;
      inversion Hs; subst; simpl in *; try done; auto.
    left. split; [done|]. apply Forall_app. split; [done|]. constructor; [by exists c|done]. }
  intros Hrun ->. destruct (H Hrun) as [[_ Hl]|[? | ?]]; done.
Qed.

(** ** A relay that fails *)

Section in_band.
Context `{!Net, !ArrivalOrder, !HashOrder}.

Lemma relay_to_replied remote b : preserves (λ w, replied (client w) = b) (relay_to remote).
Proof.
  intros dl w o w'. unfold relay_to.
  set (r := copy_bidirectional_counted _ _ _ _ _ _ _). set (w1 := set_remote _ _).
  intros Hrun Hw. assert (replied (client w1) = b) as Hw1 by exact Hw. clearbody w1.
  destruct r as [st|st|e st|st]; [| |case_bool_decide|]; try (by simplify_eq).
  revert Hrun. rewrite bind_run. unfold note, modify. intros [= <- <-].
  by destruct (has_stats (client w1)).
Qed.

Lemma relay_to_sent remote w o w' :
  relay_to remote None w = (o, w') →
  ∃ l, l `prefix_of` rx_bytes (remote_stream remote) ∧
       tx (stream (client w')) = tx (stream (client w)) ++ l.
Proof.
  unfold relay_to.
  pose proof (relay_loop_inv (stream (client w)) (remote_stream remote) (has_stats (client w))
    (relay_counters (client w)) (remote_schedule remote) _
    (relay_start_inv (stream (client w)) (remote_stream remote) (w_heap w) (clock w))) as Hinv.
  set (r := copy_bidirectional_counted _ _ _ _ _ _ _). change (relay_loop _ _ _ _) with r in Hinv.
  set (w1 := set_remote _ _). intros Hrun.
  assert (relay_cut (stream (client w)) (remote_stream remote) (relay_final r)) as [_ Hcut].
  { destruct r as [st|st|e st|st]; [..|done|done];
      [by apply relay_inv_cut in Hinv|destruct Hinv as [Hinv _]; by apply relay_inv_cut in Hinv]. }
  assert (stream (client w') = stream (client w1)) as ->; [|exact Hcut].
  clearbody w1. destruct r as [st|st|e st|st]; [| |case_bool_decide|]; try (by simplify_eq).
  revert Hrun. rewrite bind_run. unfold note, modify. intros [= <- <-].
  by destruct (has_stats (client w1)).
Qed.

(** A session that fails unanswered is answered. *)
Lemma run_client_error_sent addr w g w1 e w2 :
  start_client addr w = (g, w1) → init None w1 = (Throw e, w2) → replied (client w2) = false →
  ∃ w' o n, run_client addr w = (o, w') ∧
    tx (stream (client w')) =
      tx (stream (client w2)) ++ firstn n (buf (SocksReply_new (ResponseCode_from e))) ∧
    (writable (stream (client w2)) → n = length (buf (SocksReply_new (ResponseCode_from e)))).
Proof.
  intros Hs Hi Hr. unfold run_client. rewrite Hs, Hi.
  destruct (decide (writable (stream (client w2)))) as [Hw|Hw].
  { destruct (report_failure_writable e w2 Hw Hr) as (w3 & -> & Ho). eexists _, _, _.
    split; [done|]. split; [|done]. cbn [client set_w_stats]. rewrite (tx_out_app _ _ _ Ho). simpl.
    by rewrite ?app_nil_r. }
  destruct (report_failure_run e w2) as (n & w3 & o & -> & _ & _ & Hout). rewrite Hr in Hout.
  destruct Hout as [[-> Ho]|(-> & _ & Ho)]; eexists _, _, n; (split; [done|]);
    (split; [|done]); cbn [client set_w_stats]; rewrite (tx_out_app _ _ _ Ho); simpl;
    by rewrite app_nil_r.
Qed.

(** C38: a relay that fails is answered in band.  When the connection to the
    destination fails under a CONNECT that was granted, the reply to the failure
    is written into the stream the client reads the destination from: what it
    has been sent is the success reply, some of the destination's bytes, and
    then a ten-byte SOCKS reply, which it cannot tell from data: all ten bytes if
    its stream still takes writes, else the beginning that got through. *)
Theorem relay_failure_in_band addr w g w1 req w2 target w3 w4 e w5 :
  replied (client w) = false →
  start_client addr w = (g, w1) → bounded negotiate None w1 = (Done req, w2) →
  req_command req = Types.Connect →
  (note (note_request (client_id (client w2)) Types.Connect);; connect_target req) None w2 =
    (Done target, w3) →
  SocksReply_send (SocksReply_new Success) None w3 = (Done (), w4) →
  relay_to target None w4 = (Throw e, w5) →
  ∃ w' o l n, run_client addr w = (o, w') ∧ l `prefix_of` rx_bytes (remote_stream target) ∧
    tx (stream (client w')) = tx (stream (client w3)) ++ buf (SocksReply_new Success) ++ l ++
      firstn n [SOCKS_VERSION; ResponseCode_as_u8 (ResponseCode_from e);
                x00; x01; x00; x00; x00; x00; x00; x00] ∧
    (writable (stream (client w5)) → n = 10).
Proof.
  intros Hrep Hs Hneg Hcmd Hct Hsend Hrel.
  assert (init None w1 = (Throw e, w5)) as Hi.
  { unfold init. rewrite bind_run, Hneg, bind_run. unfold handle_request. rewrite bind_run.
    cbn [get]. rewrite Hcmd. revert Hct. rewrite !bind_run.
    destruct (note _ None w2) as [[u| | | |] w2']; try done. rewrite bind_run. intros ->.
    rewrite bind_run, (question_run _ _ _ _ _ Hsend). by rewrite Hrel. }
  destruct (start_client_eq _ _ _ _ Hs) as (Hc & _).
  set (out0 := out (stream (client w))).
  assert (at_phase out0 Negotiating w1) as Hw1.
  { split; [|by rewrite Hc]. exists []. rewrite app_nil_r, Hc. split; [done|constructor]. }
  pose proof (bounded_typed out0 _ _ _ (negotiate_typed out0) _ _ _ _ Hneg Hw1) as Hw2.
  assert (at_phase out0 Authorized w3) as [_ Hr3].
  { exact (typed_note out0 _ _ _ _ (connect_target_typed out0 req) _ _ _ _ Hct Hw2). }
  apply stream_write_all_Done in Hsend as [t ->].
  pose proof (relay_to_replied target false _ _ _ _ Hrel Hr3) as Hr5.
  destruct (relay_to_sent _ _ _ _ Hrel) as (l & Hl & Htx).
  destruct (run_client_error_sent _ _ _ _ _ _ Hs Hi Hr5) as (w' & o & n & Hrun & Htx' & Hn).
  exists w', o, l, n. split; [done|]. split; [done|]. split; [|exact Hn]. rewrite Htx', Htx.
  cbn [client after_write set_clock set_client set_stream stream]. rewrite tx_log_write, firstn_all.
  by rewrite <- !app_assoc.
Qed.
End in_band.

(** ** Witnesses *)

#[local] Existing Instance map_order.

(** A destination that sends two bytes and resets the connection. *)
Definition reset_remote : Remote :=
  {| remote_stream := {| rx := [(0%N, x68); (0%N, x69)];
       rx_end := EndErr 1 (io_Error_new ErrorKind.ConnectionReset "reset"); writes := [];
       shutdowns := []; out := [] |};
     remote_schedule := [ReadB 9; ReadB 9] |}.
#[local] Instance reset_net : Net := demo_net reset_remote demo_listener.

Definition in_band_world : World := demo_world [x02] demo_bytes.

Lemma run_client_conversation_witness :
  ∃ o w' l, run_client demo_addr in_band_world = (o, w') ∧
    out (stream (client w')) = l ∧ conversation l.
Proof.
  destruct (run_client demo_addr in_band_world) as [o w'] eqn:E.
  destruct (run_client_conversation demo_addr in_band_world o w' eq_refl E) as (l & Ho & Hr & _).
  exists o, w', l. split; [reflexivity|]. split; [exact Ho|exact Hr].
Defined.

Abbreviation reset_start := (start_client demo_addr in_band_world) (only parsing).
Abbreviation reset_negotiated := (bounded negotiate None (snd reset_start)) (only parsing).
Abbreviation reset_connected := ((note (note_request (client_id (client (snd reset_negotiated)))
  Types.Connect);; connect_target demo_request) None (snd reset_negotiated)) (only parsing).
Abbreviation reset_granted :=
  (SocksReply_send (SocksReply_new Success) None (snd reset_connected)) (only parsing).
Abbreviation reset_relayed := (relay_to reset_remote None (snd reset_granted)) (only parsing).

Lemma relay_failure_in_band_witness :
  ∃ w' o l, run_client demo_addr in_band_world = (o, w') ∧ l `prefix_of` [x68; x69] ∧
    tx (stream (client w')) = [x05; x02; x01; x00] ++
      [x05; x00; x00; x01; x00; x00; x00; x00; x00; x00] ++ l ++
      [x05; x01; x00; x01; x00; x00; x00; x00; x00; x00].
Proof.
  assert (fst reset_negotiated = Done demo_request) as H1 by reflexivity.
  assert (fst reset_connected = Done reset_remote) as H2 by reflexivity.
  assert (fst reset_granted = Done ()) as H3 by reflexivity.
  assert (fst reset_relayed = Throw (Io (io_Error_new ErrorKind.ConnectionReset "reset"))) as H4
    by reflexivity.
  assert (tx (stream (client (snd reset_connected))) = [x05; x02; x01; x00]) as H5 by reflexivity.
  assert (writes (stream (client (snd reset_relayed))) = []) as H6 by reflexivity.
  destruct reset_start as [g w1] eqn:E0. cbn [snd] in *.
  destruct (bounded negotiate None w1) as [o1 w2] eqn:E1. cbn [fst snd] in *. subst o1.
  destruct ((note _;; connect_target demo_request) None w2) as [o2 w3] eqn:E2.
  cbn [fst snd] in *. subst o2.
  destruct (SocksReply_send _ None w3) as [o3 w4] eqn:E3. cbn [fst snd] in *. subst o3.
  destruct (relay_to reset_remote None w4) as [o4 w5] eqn:E4. cbn [fst snd] in *. subst o4.
  destruct (relay_failure_in_band demo_addr in_band_world _ _ _ _ _ _ _ _ _ eq_refl E0 E1 eq_refl
    E2 E3 E4) as (w' & o & l & n & E & Hl & Htx & Hn).
  rewrite Hn in Htx by (unfold writable; rewrite H6; constructor).
  rewrite H5 in Htx. exists w', o, l. split; [exact E|]. split; [exact Hl|exact Htx].
Defined.
