(* ===== verification/Text.v ===== *)
(** * Text as the standard library splits it

    [str::lines], [split_whitespace], [trim], [split_once], [split(c).next()]
    and [eq_ignore_ascii_case] on strings given by their scalar values. *)
From S2P Require Import Prelude Fmt Utf8.

Abbreviation text := (list N) (only parsing).

(** The scalar values of an ASCII literal. *)
Definition scalars (s : string) : text := Byte.to_N <$> as_bytes s.

(** ** The code *)

(** [char::is_whitespace]: the Unicode property [White_Space]. *)
Definition is_whitespace (c : N) : bool :=
  ((9 <=? c) && (c <=? 13) || (c =? 32) || (c =? 133) || (c =? 160) || (c =? 5760)
   || (8192 <=? c) && (c <=? 8202) || (c =? 8232) || (c =? 8233) || (c =? 8239) || (c =? 8287)
   || (c =? 12288))%N.

(** A line without the [\r] before its [\n]. *)
Definition strip_cr (line : text) : text :=
  match last line with
  | Some 13%N => removelast line
  | _ => line
  end.

(** [cur] is the line read so far.  What follows the last [\n] is a line when it
    is not empty, and keeps its [\r]. *)
Fixpoint lines_go (cur : text) (s : text) : list text :=
  match s with
  | [] => match cur with [] => [] | _ :: _ => [cur] end
  | c :: s => if (c =? 10)%N then strip_cr cur :: lines_go [] s else lines_go (cur ++ [c]) s
  end.

Definition lines (s : text) : list text := lines_go [] s.

(** The pieces between whitespace that are not empty. *)
Fixpoint words_go (cur : text) (s : text) : list text :=
  match s with
  | [] => match cur with [] => [] | _ :: _ => [cur] end
  | c :: s =>
      if is_whitespace c then
        match cur with [] => words_go [] s | _ :: _ => cur :: words_go [] s end
      else words_go (cur ++ [c]) s
  end.

Definition split_whitespace (s : text) : list text := words_go [] s.

Fixpoint trim_start (s : text) : text :=
  match s with
  | c :: s' => if is_whitespace c then trim_start s' else s
  | [] => []
  end.

Definition trim_end (s : text) : text := rev (trim_start (rev s)).
Definition trim (s : text) : text := trim_end (trim_start s).

(** Up to the first [c]. *)
Fixpoint take_until (c : N) (s : text) : text :=
  match s with
  | [] => []
  | d :: s => if (d =? c)%N then [] else d :: take_until c s
  end.

Fixpoint split_once (c : N) (s : text) : option (text * text) :=
  match s with
  | [] => None
  | d :: s =>
      if (d =? c)%N then Some ([], s)
      else '(a, b) ← split_once c s; Some (d :: a, b)
  end.

Definition ascii_lower (c : N) : N := if ((65 <=? c) && (c <=? 90))%N then (c + 32)%N else c.

Definition eq_ignore_ascii_case (a b : text) : bool :=
  bool_decide (ascii_lower <$> a = ascii_lower <$> b).

(** ** Facts *)

Definition has (c : N) (s : text) : bool := existsb (N.eqb c) s.
Definition no_whitespace (s : text) : bool := forallb (λ c, negb (is_whitespace c)) s.

(** A string whose first and last characters are not whitespace. *)
Definition trimmed (s : text) : bool :=
  match s with
  | [] => true
  | c :: _ => negb (is_whitespace c) && negb (is_whitespace (default 0%N (last s)))
  end.

Lemma lines_go_line cur l s :
  has 10 l = false → lines_go cur (l ++ 13%N :: 10%N :: s) = (cur ++ l) :: lines_go [] s.
Proof.
  revert cur. induction l as [|c l IH]; intros cur Hl; simpl.
  - rewrite app_nil_r. f_equal. unfold strip_cr. by rewrite last_snoc, removelast_last.
  - simpl in Hl. apply orb_false_elim in Hl as [Hc Hl].
    destruct (N.eqb_spec c 10) as [->|]; [done|]. rewrite IH by done.
    by rewrite <- app_assoc.
Qed.

Lemma lines_cons l s :
  has 10 l = false → lines (l ++ 13%N :: 10%N :: s) = l :: lines s.
Proof. apply lines_go_line. Qed.

Lemma lines_last l : has 10 l = false → l ≠ [] → lines l = [l].
Proof.
  intros Hl Hne. unfold lines. assert (∀ cur, cur ++ l ≠ [] → lines_go cur l = [cur ++ l]) as H.
  { clear Hne. induction l as [|c l IH]; intros cur Hne; simpl.
    - rewrite app_nil_r in *. by destruct cur.
    - simpl in Hl. apply orb_false_elim in Hl as [Hc Hl].
      destruct (N.eqb_spec c 10) as [->|]; [done|].
      rewrite IH by (done || by destruct cur). by rewrite <- app_assoc. }
  by apply H.
Qed.

Lemma words_go_word cur w s :
  no_whitespace w = true → cur ++ w ≠ [] →
  words_go cur (w ++ 32%N :: s) = (cur ++ w) :: words_go [] s.
Proof.
  revert cur. induction w as [|c w IH]; intros cur Hw Hne; simpl.
  - rewrite app_nil_r in *. by destruct cur.
  - simpl in Hw. apply andb_prop in Hw as [Hc Hw]. destruct (is_whitespace c); [done|].
    rewrite IH by (done || by destruct cur). by rewrite <- app_assoc.
Qed.

Lemma split_whitespace_cons w s :
  no_whitespace w = true → w ≠ [] →
  split_whitespace (w ++ 32%N :: s) = w :: split_whitespace s.
Proof. intros. by apply words_go_word. Qed.

Lemma trim_start_trimmed s : trimmed s = true → trim_start s = s.
Proof. destruct s as [|c s]; [done|]. simpl. by destruct (is_whitespace c). Qed.

Lemma trim_end_trimmed s : trimmed s = true → trim_end s = s.
Proof.
  intros H. unfold trim_end. destruct s as [|c s] using rev_ind; [done|].
  rewrite rev_app_distr. simpl. replace (is_whitespace c) with false.
  - simpl. by rewrite rev_involutive.
  - unfold trimmed in H. rewrite last_snoc in H. simpl in H.
    destruct (s ++ [c]) eqn:E; [by destruct s|]. symmetry.
    apply andb_prop in H as [_ H]. by destruct (is_whitespace c).
Qed.

(** [trim] removes the blanks around a value and nothing of it. *)
Lemma trim_blanks s : trimmed s = true → trim (32%N :: s) = s.
Proof. intros H. unfold trim. simpl. rewrite trim_start_trimmed by done. by apply trim_end_trimmed. Qed.

Lemma trim_trimmed s : trimmed s = true → trim s = s.
Proof. intros H. unfold trim. rewrite trim_start_trimmed by done. by apply trim_end_trimmed. Qed.

Lemma no_whitespace_trimmed s : no_whitespace s = true → trimmed s = true.
Proof.
  destruct s as [|c s]; [done|]. intros H. unfold trimmed.
  destruct (last (c :: s)) as [d|] eqn:E; [|by apply last_None in E].
  unfold no_whitespace in H. rewrite forallb_forall in H. apply andb_true_intro. split.
  - apply H. by left.
  - apply H, list_elem_of_In. by apply last_Some_elem_of.
Qed.

Lemma split_once_app c a b : has c a = false → split_once c (a ++ c :: b) = Some (a, b).
Proof.
  induction a as [|d a IH]; simpl; [by rewrite N.eqb_refl|]. intros [Hd Ha]%orb_false_elim.
  rewrite N.eqb_sym, Hd, IH by done. done.
Qed.

Lemma split_once_Some c s a b : split_once c s = Some (a, b) → s = a ++ c :: b ∧ has c a = false.
Proof.
  revert a b. induction s as [|d s IH]; intros a b; simpl; [done|].
  destruct (N.eqb_spec d c) as [->|Hne]; [by intros [= <- <-]|].
  destruct (split_once c s) as [[a' b']|]; [|done]. intros [= <- <-].
  destruct (IH _ _ eq_refl) as [-> Ha]. split; [done|]. simpl.
  apply orb_false_intro; [|done]. by apply N.eqb_neq.
Qed.
