(* ===== verification/PageText.v ===== *)
(** * The text of the dashboard page ([src/src/stats/http.rs],
      [DASHBOARD_HTML])

    The page as it is served, word for word, but that a quotation mark is
    written [^] here, a character the page does not have. *)
From S2P Require Import Prelude Fmt.

Definition quoted (s : string) : list u8 :=
  (λ b, if bool_decide (b = x5e) then x22 else b) <$> as_bytes s.

(** The head of the document, up to its style sheet. *)
Definition HTML_HEAD : list u8 := quoted "<!doctype html>
<html lang=^en^>
<head>
<meta charset=^utf-8^>
<meta name=^viewport^ content=^width=device-width, initial-scale=1^>
<title>merino live dashboard</title>
<link rel=^preconnect^ href=^https://fonts.googleapis.com^>
<link rel=^preconnect^ href=^https://fonts.gstatic.com^ crossorigin>
<link rel=^stylesheet^ href=^https://fonts.googleapis.com/css2?family=Inter:wght@400;500;600;700&amp;family=JetBrains+Mono:wght@400;500;700&amp;display=swap^>
<style>
".

(** The style sheet. *)
Definition HTML_STYLE : list u8 := quoted ":root {
  color-scheme: dark;
  --bg: #0b0d12;
  --bg-glow-a: rgba(79, 195, 247, .10);
  --bg-glow-b: rgba(126, 87, 194, .10);
  --card: rgba(22, 26, 34, .82);
  --card-border: rgba(120, 138, 160, .14);
  --card-border-strong: rgba(120, 138, 160, .22);
  --text: #e6eaf1;
  --muted: #8b95a7;
  --faint: #5b6577;
  --accent: #4fc3f7;
  --accent-dim: rgba(79, 195, 247, .14);
  --ok: #35d07f;
  --bad: #ff5c6c;
  --mono: ^JetBrains Mono^, ui-monospace, ^SFMono-Regular^, Menlo, monospace;
  --sans: ^Inter^, system-ui, -apple-system, ^Segoe UI^, Roboto, sans-serif;
}
* { box-sizing: border-box; }
html { scrollbar-color: #2a323f transparent; }
body {
  margin: 0;
  padding: 28px clamp(16px, 3vw, 40px) 48px;
  min-height: 100vh;
  font: 14px/1.55 var(--sans);
  color: var(--text);
  background:
    radial-gradient(1100px 600px at 12% -8%, var(--bg-glow-a), transparent 60%),
    radial-gradient(900px 520px at 100% 0%, var(--bg-glow-b), transparent 55%),
    var(--bg);
  background-attachment: fixed;
  -webkit-font-smoothing: antialiased;
  text-rendering: optimizeLegibility;
}
header { display: flex; align-items: center; gap: 14px; flex-wrap: wrap; margin: 0 0 22px; }
.brand { display: flex; align-items: center; gap: 12px; }
.mark {
  display: grid; place-items: center;
  width: 34px; height: 34px; border-radius: 10px;
  background: linear-gradient(145deg, var(--accent-dim), rgba(126, 87, 194, .18));
  border: 1px solid var(--card-border-strong);
  font-size: 17px;
}
h1 { font-size: 19px; font-weight: 600; letter-spacing: -.01em; margin: 0; }
h1 .thin { color: var(--muted); font-weight: 400; }
.dot {
  width: 9px; height: 9px; border-radius: 50%;
  background: var(--ok);
  box-shadow: 0 0 0 0 rgba(53, 208, 127, .55);
  animation: pulse 2.2s ease-out infinite;
}
.dot.off { background: var(--bad); box-shadow: 0 0 0 0 rgba(255, 92, 108, .5); animation: none; }
@keyframes pulse {
  0% { box-shadow: 0 0 0 0 rgba(53, 208, 127, .5); }
  70% { box-shadow: 0 0 0 7px rgba(53, 208, 127, 0); }
  100% { box-shadow: 0 0 0 0 rgba(53, 208, 127, 0); }
}
.sub { color: var(--muted); font-size: 13px; font-variant-numeric: tabular-nums; }
.sub .sep { color: var(--faint); padding: 0 7px; }
.grid { display: grid; grid-template-columns: repeat(auto-fit, minmax(280px, 1fr)); gap: 16px; align-items: start; }
.card { min-height: 172px; }
.card.wide { grid-column: 1 / -1; min-height: 0; }
.card {
  background: var(--card);
  border: 1px solid var(--card-border);
  border-radius: 14px;
  padding: 16px 18px;
  backdrop-filter: blur(6px);
  box-shadow: 0 1px 0 rgba(255, 255, 255, .03) inset, 0 12px 30px -22px rgba(0, 0, 0, .9);
}
.card h2 {
  display: flex; align-items: center; gap: 8px;
  font-size: 11px; font-weight: 600;
  text-transform: uppercase; letter-spacing: .13em;
  color: var(--muted); margin: 0 0 12px;
}
.card h2::before {
  content: ^^; width: 3px; height: 11px; border-radius: 2px;
  background: var(--accent); opacity: .75;
}
.kv { display: grid; grid-template-columns: minmax(0, 1fr) auto; gap: 5px 16px; margin: 0; }
.kv dt { color: var(--muted); white-space: nowrap; overflow: hidden; text-overflow: ellipsis; }
.kv dd {
  margin: 0; text-align: right; white-space: nowrap;
  font-family: var(--mono); font-size: 13px;
  font-variant-numeric: tabular-nums;
}
table { width: 100%; border-collapse: collapse; font-size: 12.5px; }
th, td { text-align: left; padding: 6px 8px; border-bottom: 1px solid rgba(120, 138, 160, .10); }
tbody tr:last-child td { border-bottom: 0; }
tbody tr:hover td { background: rgba(120, 138, 160, .06); }
td { font-family: var(--mono); font-variant-numeric: tabular-nums; color: #cfd6e2; }
.empty { color: var(--faint); font-style: italic; font-family: var(--sans); }
canvas { width: 100%; height: 64px; display: block; }
.spark-meta { display: flex; justify-content: space-between; color: var(--muted); font-size: 12px; margin-top: 8px; font-family: var(--mono); }
.table-wrap { overflow-x: auto; }
".

(** The body, up to the script. *)
Definition HTML_BODY : list u8 := quoted "</style>
</head>
<body>
<header>
  <div class=^brand^>
    <span class=^dot^ id=^dot^></span>
    <span class=^mark^>&#128225;</span>
    <h1>merino <span class=^thin^>live dashboard</span></h1>
  </div>
  <div class=^sub^ id=^meta^>connecting&hellip;</div>
</header>
<div class=^grid^>
  <div class=^card^><h2>Server</h2><dl class=^kv^ id=^server^></dl></div>
  <div class=^card^><h2>Connections</h2><dl class=^kv^ id=^connections^></dl></div>
  <div class=^card^><h2>DNS cache</h2><dl class=^kv^ id=^dns^></dl></div>
  <div class=^card^><h2>Traffic</h2><dl class=^kv^ id=^traffic^></dl></div>
  <div class=^card^><h2>Active connections</h2><canvas id=^spark^ width=^600^ height=^64^></canvas><div class=^spark-meta^><span id=^spark-min^>min 0</span><span id=^spark-max^>max 0</span></div></div>
  <div class=^card^><h2>Errors</h2><dl class=^kv^ id=^errors^></dl></div>
  <div class=^card^><h2>Active per IP</h2><div class=^table-wrap^><table id=^per-ip^><tbody></tbody></table></div></div>
  <div class=^card^><h2>Cached names</h2><div class=^table-wrap^><table id=^names^><tbody></tbody></table></div></div>
  <div class=^card wide^><h2>Clients</h2><div class=^table-wrap^><table id=^clients^><tbody></tbody></table></div></div>
</div>
<script>
".

(** The script, which [Dashboard] models. *)
Definition HTML_SCRIPT : list u8 := quoted "^use strict^;
var SPARK_LEN = 60;
var activeHistory = new Array(SPARK_LEN).fill(0);
var last = { up: 0, down: 0, t: 0 };

function fmtBytes(n) {
  var units = [^B^, ^kB^, ^MB^, ^GB^, ^TB^];
  var i = 0;
  while (n >= 1000 && i < units.length - 1) { n /= 1000; i++; }
  var v;
  if (i < 2) { v = String(Math.round(n)); }
  else if (n < 10) { v = n.toFixed(2); }
  else if (n < 100) { v = n.toFixed(1); }
  else { v = String(Math.round(n)); }
  return v + ^ ^ + units[i];
}
function fmtRate(bps) {
  if (bps < 1) { return ^0 B/s^; }
  return fmtBytes(bps) + ^/s^;
}
function fmtUptime(s) {
  var d = Math.floor(s / 86400), h = Math.floor((s % 86400) / 3600),
      m = Math.floor((s % 3600) / 60), sec = s % 60;
  var parts = [];
  if (d) { parts.push(d + ^d^); }
  if (h) { parts.push(h + ^h^); }
  if (m) { parts.push(m + ^m^); }
  parts.push(sec + ^s^);
  return parts.join(^ ^);
}
function setKV(id, pairs) {
  var dl = document.getElementById(id);
  dl.textContent = ^^;
  for (var i = 0; i < pairs.length; i++) {
    var dt = document.createElement(^dt^); dt.textContent = pairs[i][0] + ^:^;
    var dd = document.createElement(^dd^); dd.textContent = String(pairs[i][1]);
    dl.append(dt, dd);
  }
}
function setRows(id, cols, rows) {
  var tbody = document.querySelector(^#^ + id + ^ tbody^);
  tbody.textContent = ^^;
  if (!rows.length) {
    var tr = document.createElement(^tr^);
    var td = document.createElement(^td^);
    td.className = ^empty^;
    td.colSpan = cols;
    td.textContent = ^none^;
    tr.append(td); tbody.append(tr);
    return;
  }
  for (var r = 0; r < rows.length; r++) {
    var rowTr = document.createElement(^tr^);
    for (var cIdx = 0; cIdx < rows[r].length; cIdx++) {
      var cellTd = document.createElement(^td^);
      cellTd.textContent = String(rows[r][cIdx]);
      rowTr.append(cellTd);
    }
    tbody.append(rowTr);
  }
}
function drawSpark() {
  var canvas = document.getElementById(^spark^);
  if (!canvas.getContext) { return; }
  var ctx = canvas.getContext(^2d^);
  var w = canvas.width, h = canvas.height;
  ctx.clearRect(0, 0, w, h);
  var lo = activeHistory[0], hi = activeHistory[0];
  for (var i = 1; i < activeHistory.length; i++) {
    if (activeHistory[i] < lo) { lo = activeHistory[i]; }
    if (activeHistory[i] > hi) { hi = activeHistory[i]; }
  }
  var pad = (hi - lo) * 0.15;
  var ymin = Math.max(0, lo - pad);
  var ymax = hi + pad;
  if (ymax - ymin < 0.0001) { ymax = ymin + 1; }
  var span = ymax - ymin;
  var colors = window.getComputedStyle(document.body);
  var line = colors.getPropertyValue(^--accent^).trim() || ^#4fc3f7^;
  ctx.beginPath();
  for (var j = 0; j < activeHistory.length; j++) {
    var x = (j / (SPARK_LEN - 1)) * w;
    var y = h - 2 - ((activeHistory[j] - ymin) / span) * (h - 4);
    if (j === 0) { ctx.moveTo(x, y); } else { ctx.lineTo(x, y); }
  }
  ctx.strokeStyle = line;
  ctx.lineWidth = 1.5;
  ctx.stroke();
  ctx.lineTo(w, h); ctx.lineTo(0, h); ctx.closePath();
  ctx.fillStyle = ^rgba(79, 195, 247, 0.12)^;
  ctx.fill();
  document.getElementById(^spark-min^).textContent = ^min ^ + lo;
  document.getElementById(^spark-max^).textContent = ^max ^ + hi;
}
async function tick() {
  var now = Date.now();
  var s, clients;
  try {
    var responses = await Promise.all([
      fetch(^/stats^, { cache: ^no-store^ }).then(function (r) { return r.json(); }),
      fetch(^/clients^, { cache: ^no-store^ }).then(function (r) { return r.json(); })
    ]);
    s = responses[0]; clients = responses[1];
    document.getElementById(^dot^).className = ^dot^;
  } catch (e) {
    document.getElementById(^dot^).className = ^dot off^;
    return;
  }

  activeHistory.push(s.connections.active);
  activeHistory.shift();
  drawSpark();

  var rateUp = 0, rateDown = 0, delta = 0;
  if (last.t) {
    var dt = Math.max(1, (now - last.t) / 1000);
    rateUp = Math.max(0, s.traffic.bytes_client_to_target - last.up) / dt;
    rateDown = Math.max(0, s.traffic.bytes_target_to_client - last.down) / dt;
    delta = Math.round((now - last.t) / 1000);
  }
  last = { up: s.traffic.bytes_client_to_target, down: s.traffic.bytes_target_to_client, t: now };

  document.getElementById(^meta^).textContent =
    ^uptime ^ + fmtUptime(s.server.uptime_secs) +
    ^  \u00b7  updated ^ + delta + ^s ago^ +
    ^  \u00b7  v^ + s.server.version;

  setKV(^server^, [
    [^listeners^, s.server.listeners.join(^, ^) || ^—^],
    [^started^, new Date(s.server.started_at_unix * 1000).toISOString().slice(0, 19).replace(^T^, ^ ^) + ^Z^],
  ]);
  setKV(^connections^, [
    [^active^, s.connections.active],
    [^accepted total^, s.connections.accepted_total],
    [^refused (per-IP)^, s.connections.refused_per_ip_total],
    [^handshake timeouts^, s.connections.handshake_timeouts],
    [^auth failures^, s.connections.auth_failures],
    [^disconnects^, s.connections.disconnects],
  ]);
  setKV(^dns^, [
    [^enabled^, s.dns.enabled],
    [^entries^, s.dns.entries + ^ / ^ + s.dns.max_entries],
    [^ttl^, s.dns.ttl_secs + ^s^],
    [^hits^, s.dns.hits],
    [^misses^, s.dns.misses],
    [^inserts^, s.dns.inserts],
    [^evictions^, s.dns.evictions],
    [^expired^, s.dns.expired_dropped],
  ]);
  setKV(^traffic^, [
    [^client → target^, fmtBytes(s.traffic.bytes_client_to_target)],
    [^target → client^, fmtBytes(s.traffic.bytes_target_to_client)],
    [^rate up^, fmtRate(rateUp)],
    [^rate down^, fmtRate(rateDown)],
    [^udp datagrams^, s.traffic.udp_datagrams],
    [^CONNECT^, s.traffic.requests.connect],
    [^BIND^, s.traffic.requests.bind],
    [^UDP ASSOCIATE^, s.traffic.requests.udp_associate],
  ]);
  setKV(^errors^, s.errors.length
    ? s.errors.map(function (e) { return [e.name, e.count]; })
    : [[^none^, 0]]);
  setRows(^per-ip^, 2, s.connections.active_per_ip.map(function (r) { return [r.ip, r.count]; }));
  setRows(^names^, 2, s.dns.names.map(function (n) { return [n.name, n.expires_in_secs + ^s^]; }));
  setRows(^clients^, 7, clients.map(function (cl) {
    return [
      cl.id, cl.peer, cl.state, cl.command || ^—^,
      fmtBytes(cl.bytes_client_to_target), fmtBytes(cl.bytes_target_to_client),
      cl.elapsed_secs + ^s^
    ];
  }));
}
tick();
setInterval(tick, 1000);
".

(** The rest. *)
Definition HTML_END : list u8 := quoted "</script>
</body>
</html>
".

Definition DASHBOARD_HTML : list u8 :=
  HTML_HEAD ++ HTML_STYLE ++ HTML_BODY ++ HTML_SCRIPT ++ HTML_END.

#[global] Opaque DASHBOARD_HTML.
