(* ===== verification/Http.v ===== *)
(** * The statistics endpoint ([src/src/stats/http.rs])

    The bounded read of a request head, its parsing, the token check, routing,
    conditional responses and the budget of the listener.  The JSON encoder and the
    hash behind the [ETag] are parameters; the page served at [/] is in [PageText]. *)
From S2P Require Import Prelude Fmt Utf8 Text Types Credentials DnsCache Stats Stream Relay Config.
From S2P Require Import Server PageText.

(** ** What the code relies on *)

(** [serde_json::to_vec] of the two views, and the standard library's default
    hasher. *)
Class Web := {
  to_vec_snapshot : Snapshot → option (list u8);
  to_vec_clients : list ClientView → option (list u8);
  default_hash : list u8 → u64
}.

(** What a request sees of the process. *)
Record Shared := {
  sh_version : string; sh_stats : Stats; sh_heap : Heap; sh_caches : list DnsCache }.

(** ** Constants *)

Definition MAX_STATS_SOCKETS : usize := 64.
Definition REQUEST_TIMEOUT : Duration := from_secs 30.
Definition MAX_HEAD : usize := 8192.

(** ** A connection *)

(** [h_reads] are the sizes of the reads the kernel returns, full chunks once
    the list is exhausted. *)
Record Conn := { h_clock : N; h_stream : Stream; h_reads : list usize }.

Definition H (A : Type) : Type := option N → Conn → outcome io_error A * Conn.

#[global] Instance H_ret : MRet H := λ A a dl c, (Done a, c).
#[global] Instance H_bind : MBind H := λ A B f m dl c,
  match m dl c with
  | (Done a, c) => f a dl c
  | (Throw e, c) => (Throw e, c)
  | (Elapsed, c) => (Elapsed, c)
  | (Pending, c) => (Pending, c)
  | (Crash, c) => (Crash, c)
  end.

Definition set_conn (t : N) (s : Stream) (c : Conn) : Conn :=
  {| h_clock := t; h_stream := s; h_reads := h_reads c |}.

(** [stream.read(&mut chunk)]. *)
Definition h_read : H (list u8) := λ dl c,
  let cut := (cut_at dl, set_conn (cut_clock dl (h_clock c)) (h_stream c) c) in
  match read_some (min (default 512 (head (h_reads c))) 512) (h_clock c) (h_stream c) with
  | ReadBytes l now s =>
      if deadline_ok dl now
      then (Done l, {| h_clock := now; h_stream := s; h_reads := tail (h_reads c) |})
      else cut
  | ReadErr e now => if deadline_ok dl now then (Throw e, set_conn now (h_stream c) c) else cut
  | ReadWaits => cut
  end.

(** [write_all] returns at once when there is nothing to write. *)
Definition h_write_all (data : list u8) : H unit := λ dl c,
  match data with
  | [] => (Done (), c)
  | _ :: _ =>
      let '(o, t, s) := write_all dl data (h_clock c) (h_stream c) in (o, set_conn t s c)
  end.

Definition h_shutdown : H unit := λ dl c,
  let '(r, s) := shutdown (h_stream c) in
  (match r with Ok _ => Done () | Err e => Throw e end, set_conn (h_clock c) s c).

(** ** The request head *)

Definition CRLF2 : list u8 := [x0d; x0a; x0d; x0a].

(** [windows(4)]. *)
Fixpoint windows4 (l : list u8) : list (list u8) :=
  match l with
  | a :: l' =>
      match l' with
      | b :: c :: d :: _ => [a; b; c; d] :: windows4 l'
      | _ => []
      end
  | [] => []
  end.

Definition has_header_end (buf : list u8) : bool :=
  existsb (λ w, bool_decide (w = CRLF2)) (windows4 buf).

Definition header_bytes (buf : list u8) : list u8 :=
  match list_find (λ w, w = CRLF2) (windows4 buf) with
  | Some (i, _) => firstn i buf
  | None => buf
  end.

(** One more iteration than there are bytes to read is enough: every other one
    reads a byte (see [read_head_fuel]). *)
Fixpoint read_head_loop (fuel : nat) (buf : list u8) : H (option (list u8)) :=
  match fuel with
  | 0 => λ dl c, (Crash, c)
  | S fuel =>
      data ← h_read;
      match data with
      | [] => mret (match buf with [] => None | _ :: _ => Some buf end)
      | _ :: _ =>
          let buf := buf ++ data in
          if has_header_end buf then mret (Some buf)
          else if MAX_HEAD <? length buf then mret None
          else read_head_loop fuel buf
      end
  end.

Definition read_head : H (option (list u8)) := λ dl c,
  read_head_loop (S (length (rx (h_stream c)))) [] dl c.

Record ParsedHead := {
  method : text; path : text; bearer : option text; if_none_match : option text }.

(** One header line: the bearer token and the entity tag seen so far. *)
Definition header_line (acc : option text * option text) (line : text)
    : option text * option text :=
  match split_once 58 line with
  | None => acc
  | Some (name, value) =>
      if eq_ignore_ascii_case (trim name) (scalars "authorization") then
        match split_once 32 (trim value) with
        | Some (scheme, credential) =>
            if eq_ignore_ascii_case scheme (scalars "bearer") then (Some (trim credential), acc.2)
            else acc
        | None => acc
        end
      else if eq_ignore_ascii_case (trim name) (scalars "if-none-match") then
        (acc.1, Some (trim value))
      else acc
  end.

Definition parse_head (buf : list u8) : option ParsedHead :=
  t ← from_utf8 (header_bytes buf);
  match lines t with
  | [] => None
  | request_line :: rest =>
      match split_whitespace request_line with
      | method :: target :: _ =>
          let '(bearer, if_none_match) := fold_left header_line rest (None, None) in
          Some {| method := method; path := take_until 63 target; bearer := bearer;
                  if_none_match := if_none_match |}
      | _ => None
      end
  end.

(** ** Responses *)

(** [ct_eq] of this file, and the number of its iterations. *)
Definition token_width (a b : list u8) : usize := max (length a) (length b).

Definition token_eq (a b : text) : bool :=
  let a := encode a in
  let b := encode b in
  bool_decide (ct_eq_loop a b (seq 0 (token_width a b))
                 (u8_of_bool (negb (length a =? length b))) = x00).

Definition etag_of `{!Web} (body : list u8) : string :=
  let quote := of_bytes [x22] in quote +:+ hex_fixed 16 (default_hash body) +:+ quote.

Definition crlf : string := of_bytes [x0d; x0a].

Definition header_text (h : string * string) : string := h.1 +:+ ": " +:+ h.2 +:+ crlf.

Definition response_head (status content_type : string) (body : list u8)
    (headers : list (string * string)) : list u8 :=
  as_bytes ("HTTP/1.1 " +:+ status +:+ crlf +:+ "Content-Type: " +:+ content_type +:+ crlf
    +:+ "Content-Length: " +:+ dec (N.of_nat (length body)) +:+ crlf
    +:+ "Connection: close" +:+ crlf)
  ++ flat_map (λ h, as_bytes (header_text h)) headers ++ as_bytes crlf.

Definition respond (status content_type : string) (body : list u8)
    (headers : list (string * string)) : H unit :=
  h_write_all (response_head status content_type body headers);;
  h_write_all body;;
  h_shutdown.

Section handlers.
Context `{!Web, !HashOrder} (sh : Shared).

Definition serve_json (request : ParsedHead) (value : option (list u8)) : H unit :=
  let body := default (as_bytes "{}") value in
  let etag := etag_of body in
  if bool_decide (if_none_match request = Some (scalars etag)) then
    respond "304 Not Modified" "application/json" [] [("ETag", etag)]
  else
    respond "200 OK" "application/json" body [("ETag", etag); ("Cache-Control", "no-store")].

Definition h_now : H N := λ dl c, (Done (h_clock c), c).

Definition healthz_body (now : N) : list u8 :=
  as_bytes ("ok uptime_secs="
    +:+ dec (ss_uptime_secs (snap_server (snapshot (sh_version sh) (sh_caches sh) now (sh_stats sh))))
    +:+ of_bytes [x0a]).

Definition route (request : ParsedHead) : H unit :=
  now ← h_now;
  if bool_decide (path request = scalars "/") then
    respond "200 OK" "text/html; charset=utf-8" DASHBOARD_HTML []
  else if bool_decide (path request = scalars "/stats") then
    serve_json request (to_vec_snapshot (snapshot (sh_version sh) (sh_caches sh) now (sh_stats sh)))
  else if bool_decide (path request = scalars "/clients") then
    serve_json request (to_vec_clients (clients_view (sh_heap sh) now (sh_stats sh)))
  else if bool_decide (path request = scalars "/healthz") then
    respond "200 OK" "text/plain" (healthz_body now) []
  else respond "404 Not Found" "text/plain" (as_bytes ("not found" +:+ of_bytes [x0a])) [].

Definition bad_request : H unit :=
  respond "400 Bad Request" "text/plain" (as_bytes ("bad request" +:+ of_bytes [x0a])) [].

(** The token check. *)
Definition authorized (token : option text) (request : ParsedHead) : bool :=
  match token with
  | Some expected =>
      match bearer request with Some given => token_eq expected given | None => false end
  | None => true
  end.

Definition handle_conn (token : option text) : H unit :=
  head ← read_head;
  match head with
  | None => bad_request
  | Some head =>
      match parse_head head with
      | None => bad_request
      | Some request =>
          if negb (bool_decide (method request = scalars "GET")) then
            respond "405 Method Not Allowed" "text/plain"
              (as_bytes ("method not allowed" +:+ of_bytes [x0a])) [("Allow", "GET")]
          else if negb (authorized token request) then
            respond "401 Unauthorized" "text/plain" (as_bytes ("unauthorized" +:+ of_bytes [x0a])) []
          else route request
      end
  end.
End handlers.

(** The task of an accepted connection: [timeout(REQUEST_TIMEOUT, ..)]. *)
Definition serve_one `{!Web, !HashOrder} (sh : Shared) (token : option text) (c : Conn)
    : outcome io_error unit * Conn :=
  handle_conn sh token (Some (h_clock c + REQUEST_TIMEOUT)%N) c.

(** ** The listener *)

(** The accept loop of [serve_stats], its permits, and the deadlines of the
    connections being served. *)
Section serve.
Context `{!Semaphore}.

Record StatsServer := { st_sem : sem; st_loop : loop_at; st_live : list N }.

(** [None]: [Semaphore::new] panics, which it does not at this size. *)
Definition serve_stats : option StatsServer :=
  budget ← sem_new MAX_STATS_SOCKETS;
  Some {| st_sem := budget; st_loop := Acquiring; st_live := [] |}.

Inductive stats_step : StatsServer → StatsServer → Prop :=
  | StAcquire s s' live :
      sem_acquire s = Some s' →
      stats_step {| st_sem := s; st_loop := Acquiring; st_live := live |}
                 {| st_sem := s'; st_loop := Accepting; st_live := live |}
  | StAccept s live now :
      stats_step {| st_sem := s; st_loop := Accepting; st_live := live |}
                 {| st_sem := s; st_loop := Acquiring; st_live := live ++ [(now + REQUEST_TIMEOUT)%N] |}
  | StError s live :
      stats_step {| st_sem := s; st_loop := Accepting; st_live := live |}
                 {| st_sem := sem_release s; st_loop := Acquiring; st_live := live |}
  | StFinish s a l1 d l2 :
      stats_step {| st_sem := s; st_loop := a; st_live := l1 ++ d :: l2 |}
                 {| st_sem := sem_release s; st_loop := a; st_live := l1 ++ l2 |}.
End serve.

(** ** Reading the head *)

#[local] Arguments MAX_HEAD : simpl never.

Definition conn_bytes (c : Conn) : list u8 := rx_bytes (h_stream c).

Lemma h_read_spec dl c o c' :
  h_read dl c = (o, c') →
  out (h_stream c') = out (h_stream c) ∧
  match o with
  | Done [] => conn_bytes c = [] ∧ conn_bytes c' = [] ∧ at_eof (h_stream c')
  | Done l => length l ≤ 512 ∧ conn_bytes c = l ++ conn_bytes c' ∧
              length (rx (h_stream c')) < length (rx (h_stream c))
  | Crash => False
  | _ => conn_bytes c' = conn_bytes c
  end.
Proof.
  unfold h_read, read_some, conn_bytes, rx_bytes. set (k := min _ 512).
  destruct (rx (h_stream c)) as [|tb l] eqn:E.
  - destruct (rx_end (h_stream c)) eqn:Ee; try destruct (deadline_ok _ _); intros [= <- <-]; simpl;
      rewrite ?E; split_and!; try done; try (by eexists); by destruct dl.
  - set (n := min (max k 1) RELAY_BUF_SIZE).
    assert (1 ≤ n ≤ 512) as Hn.
    { assert (512 ≤ RELAY_BUF_SIZE) by (apply Nat.leb_le; vm_compute; reflexivity).
      unfold n, k. lia. }
    clearbody n. destruct n as [|n]; [lia|]. destruct (deadline_ok _ _); intros [= <- <-]; simpl.
    + split; [done|]. rewrite length_fmap, length_firstn, <- fmap_app, firstn_skipn, length_skipn.
      split_and!; [lia|done|lia].
    + rewrite E. by destruct dl.
Qed.

(** What the reading of a head has consumed, and how it can end. *)
Definition head_read (consumed : list u8) (o : outcome io_error (option (list u8))) (c' : Conn)
    : Prop :=
  length consumed ≤ MAX_HEAD + 512 ∧
  match o with
  | Done (Some buf) =>
      buf = consumed ∧ buf ≠ [] ∧
      (has_header_end buf = true ∨
       at_eof (h_stream c') ∧ conn_bytes c' = [] ∧ length buf ≤ MAX_HEAD)
  | Done None =>
      consumed = [] ∧ at_eof (h_stream c') ∧ conn_bytes c' = [] ∨
      MAX_HEAD < length consumed ∧ has_header_end consumed = false
  | Crash => False
  | _ => length consumed ≤ MAX_HEAD ∧ has_header_end consumed = false
  end.

Lemma read_head_loop_spec fuel buf dl c o c' :
  length (rx (h_stream c)) < fuel → length buf ≤ MAX_HEAD → has_header_end buf = false →
  read_head_loop fuel buf dl c = (o, c') →
  out (h_stream c') = out (h_stream c) ∧
  ∃ l, conn_bytes c = l ++ conn_bytes c' ∧ head_read (buf ++ l) o c'.
Proof.
  revert buf c. induction fuel as [|fuel IH]; intros buf c Hf Hlen Hend; [lia|]. simpl.
  unfold mbind, H_bind. destruct (h_read dl c) as [o1 c1] eqn:E.
  apply h_read_spec in E as [Hout E].
  assert (∀ o2 : outcome io_error (option (list u8)),
    match o2 with Done _ | Crash => False | _ => True end → conn_bytes c1 = conn_bytes c →
    (o2, c1) = (o, c') → out (h_stream c') = out (h_stream c) ∧
    ∃ l, conn_bytes c = l ++ conn_bytes c' ∧ head_read (buf ++ l) o c') as Hcut.
  { intros o2 Ho2 Hc [= <- <-]. split; [done|]. exists []. split; [done|]. rewrite app_nil_r.
    split; [lia|]. by destruct o2. }
  destruct o1 as [[|b l]|e| | |]; try done.
  - destruct E as (E1 & E2 & E3). unfold mret, H_ret. intros [= <- <-]. split; [done|].
    exists []. rewrite app_nil_r, E1, E2. split; [done|]. split; [lia|].
    destruct buf; [by left|]. split_and!; [done|done|by right].
  - destruct E as (E1 & E2 & E3). intros Hrun.
    assert (length (buf ++ b :: l) ≤ MAX_HEAD + 512) as Hlen' by (rewrite length_app; lia).
    destruct (has_header_end (buf ++ b :: l)) eqn:Ehe.
    { injection Hrun as <- <-. split; [done|]. exists (b :: l). split; [done|].
      split; [done|]. split_and!; [done|by destruct buf|by left]. }
    destruct (Nat.ltb_spec MAX_HEAD (length (buf ++ b :: l))) as [Hlt|Hle].
    { injection Hrun as <- <-. split; [done|]. exists (b :: l). split; [done|].
      split; [done|]. by right. }
    apply IH in Hrun as (Hout' & k & Hk & Hspec); [|lia|done|done].
    split; [congruence|]. exists ((b :: l) ++ k). split; [by rewrite E2, Hk, app_assoc|].
    by rewrite app_assoc.
  - by apply (Hcut (Throw e)).
  - by apply (Hcut Elapsed).
  - by apply (Hcut Pending).
Qed.

(** C35: a request head is read with bounded memory whatever the client sends and
    however it is chunked: at most 8192 + 512 bytes are taken from it, the
    buffer handed to the parser is exactly these and ends the head or the stream,
    a head is refused only when it is empty or longer than 8192 bytes, nothing
    is written meanwhile, and the loop never runs out of iterations. *)
Theorem read_head_bounded dl c o c' :
  read_head dl c = (o, c') →
  out (h_stream c') = out (h_stream c) ∧
  ∃ consumed, conn_bytes c = consumed ++ conn_bytes c' ∧ head_read consumed o c'.
Proof.
  intros Hr. unfold read_head in Hr.
  eapply (read_head_loop_spec _ []) in Hr; [exact Hr|lia|simpl; lia|done].
Qed.

(** ** Parsing the head *)

Lemma windows4_app h rest :
  windows4 (h ++ CRLF2 ++ rest) =
  windows4 (h ++ [x0d; x0a; x0d]) ++ windows4 (CRLF2 ++ rest).
Proof.
  induction h as [|a h IH]; [done|].
  change (windows4 ((a :: h) ++ CRLF2 ++ rest)) with (windows4 (a :: (h ++ CRLF2 ++ rest))).
  change (windows4 ((a :: h) ++ [x0d; x0a; x0d])) with (windows4 (a :: (h ++ [x0d; x0a; x0d]))).
  destruct h as [|b [|c [|d h]]]; try done. cbn [windows4 app] in *. by rewrite IH.
Qed.

Lemma windows4_length h : length (windows4 (h ++ [x0d; x0a; x0d])) = length h.
Proof.
  induction h as [|a h IH]; [done|].
  destruct h as [|b [|c [|d h]]]; try done. cbn [windows4 app length] in *. by rewrite IH.
Qed.

(** The head is what precedes the first blank line. *)
Lemma header_bytes_split h rest :
  has_header_end (h ++ [x0d; x0a; x0d]) = false → header_bytes (h ++ CRLF2 ++ rest) = h.
Proof.
  intros Hh. unfold header_bytes, has_header_end in *. rewrite windows4_app.
  rewrite list_find_app_r.
  - rewrite windows4_length.
    change (windows4 (CRLF2 ++ rest)) with (CRLF2 :: windows4 ([x0a; x0d; x0a] ++ rest)).
    cbn [list_find]. rewrite decide_True by done. simpl. apply take_app_length.
  - apply list_find_None. apply Forall_forall. intros w Hw ->.
    assert (existsb (λ w, bool_decide (w = CRLF2)) (windows4 (h ++ [x0d; x0a; x0d])) = true) as E.
    { apply existsb_exists. exists CRLF2. split; [exact Hw|]. by apply bool_decide_eq_true. }
    congruence.
Qed.

(** A request as a client writes it. *)
Definition render_line (h : text * text) : text := 13%N :: 10%N :: h.1 ++ 58%N :: 32%N :: h.2.

Definition render (method target version : text) (headers : list (text * text)) : text :=
  method ++ 32%N :: target ++ 32%N :: version ++ flat_map render_line headers.

(** Words without blanks or line ends. *)
Definition word (s : text) : Prop := no_whitespace s = true ∧ s ≠ [].

(** A header whose name is a token and whose value is one trimmed line. *)
Definition header_ok (h : text * text) : Prop :=
  word h.1 ∧ has 58 h.1 = false ∧ trimmed h.2 = true ∧ has 10 h.2 = false.

Lemma has_app c a b : has c (a ++ b) = has c a || has c b.
Proof. unfold has. apply existsb_app. Qed.

Lemma word_no_newline s : no_whitespace s = true → has 10 s = false.
Proof.
  unfold no_whitespace, has. induction s as [|c s IH]; simpl; [done|].
  intros [Hc Hs]%andb_prop. apply orb_false_intro; [|by apply IH].
  apply (N.eqb_neq 10 c). intros <-. discriminate Hc.
Qed.

Definition header_text_line (h : text * text) : text := h.1 ++ 58%N :: 32%N :: h.2.

Lemma header_text_line_ok h :
  header_ok h → has 10 (header_text_line h) = false ∧ header_text_line h ≠ [].
Proof.
  intros ((Hw & Hne) & _ & _ & Hv). unfold header_text_line. split.
  - by rewrite has_app, (word_no_newline _ Hw).
  - by destruct (h.1).
Qed.

Lemma lines_render l headers :
  has 10 l = false → l ≠ [] → Forall header_ok headers →
  lines (l ++ flat_map render_line headers) = l :: (header_text_line <$> headers).
Proof.
  intros Hl Hne Hall. revert l Hl Hne.
  induction Hall as [|h headers Hh _ IH]; intros l Hl Hne; simpl.
  - rewrite app_nil_r. by apply lines_last.
  - apply header_text_line_ok in Hh as [??].
    unfold render_line at 1. simpl. rewrite lines_cons by done. f_equal.
    change (h.1 ++ 58%N :: 32%N :: h.2) with (header_text_line h). by apply IH.
Qed.

(** What a header contributes. *)
Definition header_value (acc : option text * option text) (h : text * text)
    : option text * option text :=
  if eq_ignore_ascii_case h.1 (scalars "authorization") then
    match split_once 32 h.2 with
    | Some (scheme, credential) =>
        if eq_ignore_ascii_case scheme (scalars "bearer") then (Some (trim credential), acc.2) else acc
    | None => acc
    end
  else if eq_ignore_ascii_case h.1 (scalars "if-none-match") then (acc.1, Some h.2)
  else acc.

Lemma header_line_render acc h : header_ok h → header_line acc (header_text_line h) = header_value acc h.
Proof.
  intros ((Hw & _) & Hc & Ht & _). unfold header_line, header_text_line, header_value.
  rewrite split_once_app by done.
  rewrite (trim_trimmed h.1) by (by apply no_whitespace_trimmed). by rewrite trim_blanks.
Qed.

Lemma header_fold_render headers acc :
  Forall header_ok headers →
  fold_left header_line (header_text_line <$> headers) acc = fold_left header_value headers acc.
Proof.
  intros Hall. revert acc. induction Hall as [|h headers Hh _ IH]; intros acc; [done|].
  rewrite fmap_cons. cbn [fold_left]. rewrite header_line_render by done. apply IH.
Qed.

(** *** The blank line

    A line feed that is followed by something, and not by a carriage return. *)
Fixpoint no_blank (l : list u8) : bool :=
  match l with
  | [] => true
  | b :: l' =>
      (if bool_decide (b = x0a)
       then match l' with c :: _ => negb (bool_decide (c = x0d)) | [] => false end else true) &&
      no_blank l'
  end.

Lemma no_blank_end l : no_blank l = true → has_header_end (l ++ [x0d; x0a; x0d]) = false.
Proof.
  unfold has_header_end. induction l as [|a l IH]; intros Hn; [reflexivity|].
  apply andb_prop in Hn as [_ Hn]. specialize (IH Hn).
  destruct l as [|b l].
  { simpl. rewrite orb_false_r. apply bool_decide_eq_false. discriminate. }
  change (windows4 ((a :: b :: l) ++ _)) with
    (match l ++ [x0d; x0a; x0d] with
     | c :: d :: _ => [a; b; c; d] :: windows4 ((b :: l) ++ [x0d; x0a; x0d])
     | _ => [] end).
  destruct (l ++ [x0d; x0a; x0d]) as [|c [|d k]] eqn:E; [done..|]. simpl.
  apply orb_false_intro; [|exact IH]. apply bool_decide_eq_false. intros [= -> -> -> ->].
  simpl in Hn. destruct l as [|c l]; [done|]. by injection E as ->.
Qed.

Lemma no_blank_skip l k : x0a ∉ l → no_blank (l ++ k) = no_blank k.
Proof.
  induction l as [|b l IH]; [done|]. intros [Hb Hl]%not_elem_of_cons. simpl.
  rewrite bool_decide_eq_false_2 by (by intros ->). by apply IH.
Qed.

Section rendered.
Context (s : text) (Hs : Forall (λ c, is_scalar c = true) s).

Lemma encode_no_lf : has 10 s = false → x0a ∉ encode s.
Proof using Hs.
  intros Hl Hin. apply (encode_ascii _ _ Hs) in Hin; [|done]. change (Byte.to_N x0a) with 10%N in Hin.
  assert (has 10 s = true) as E; [|congruence]. unfold has. apply existsb_exists.
  exists 10%N. by rewrite <- list_elem_of_In.
Qed.

Lemma encode_word_head k : word s → ∃ b l, encode s ++ k = b :: l ∧ b ≠ x0d.
Proof using Hs.
  intros [Hw Hne]. destruct s as [|c s']; [done|]. apply list.Forall_cons in Hs as [Hc _].
  destruct (decode1_char c Hc) as (b & r & E & _). exists b, (r ++ encode s' ++ k). split.
  - change (encode (c :: s')) with (encode_char c ++ encode s'). by rewrite E, <- app_assoc.
  - intros ->. assert (x0d ∈ encode_char c) as Hin by (rewrite E; by left).
    assert (x0d ∈ encode [c]) as Hin' by (unfold encode; simpl; by rewrite app_nil_r).
    apply encode_ascii in Hin'; [|by constructor|done]. apply list_elem_of_singleton in Hin'.
    change (Byte.to_N x0d) with 13%N in Hin'. subst c. done.
Qed.
End rendered.

Lemma no_blank_line h k :
  header_ok h → Forall (λ c, is_scalar c = true) (render_line h) →
  no_blank (encode (render_line h) ++ k) = no_blank k.
Proof.
  intros (Hw & _ & _ & Hv) Hs. unfold render_line in *.
  apply list.Forall_cons in Hs as [_ [_ [Hn [_ [_ Hvs]%list.Forall_cons]%list.Forall_cons]%list.Forall_app]%list.Forall_cons].
  change (13%N :: 10%N :: h.1 ++ 58%N :: 32%N :: h.2) with ([13%N; 10%N] ++ h.1 ++ [58%N; 32%N] ++ h.2).
  rewrite !encode_app, <- !app_assoc. change (encode [13%N; 10%N]) with [x0d; x0a].
  destruct (encode_word_head h.1 Hn (encode [58%N; 32%N] ++ encode h.2 ++ k) Hw) as (b & l & E & Hb).
  transitivity (no_blank (encode h.1 ++ encode [58%N; 32%N] ++ encode h.2 ++ k)).
  - rewrite E. simpl. by rewrite (bool_decide_eq_false_2 (b = x0d)).
  - rewrite (no_blank_skip (encode h.1)) by (apply encode_no_lf; [done|apply word_no_newline, Hw]).
    rewrite (no_blank_skip (encode [58%N; 32%N])) by (by repeat (apply not_elem_of_cons; split; [done|]); apply not_elem_of_nil).
    by apply no_blank_skip, encode_no_lf.
Qed.

Lemma no_blank_lines headers :
  Forall header_ok headers → Forall (λ c, is_scalar c = true) (flat_map render_line headers) →
  no_blank (encode (flat_map render_line headers)) = true.
Proof.
  induction 1 as [|h headers Hh _ IH]; [done|]. cbn [flat_map]. intros [Hl Hls]%list.Forall_app.
  rewrite encode_app, no_blank_line by done. by apply IH.
Qed.

(** A request line has no line feed. *)
Lemma request_line_ok method target version :
  word method → word target → word version →
  has 10 (method ++ 32%N :: target ++ 32%N :: version) = false.
Proof.
  intros [Hm _] [Ht _] [Hv _]. rewrite has_app, (word_no_newline _ Hm). simpl.
  rewrite has_app, (word_no_newline _ Ht). simpl. by apply word_no_newline.
Qed.

Lemma render_lines method target version headers :
  render method target version headers =
  (method ++ 32%N :: target ++ 32%N :: version) ++ flat_map render_line headers.
Proof. unfold render. rewrite <- app_assoc. simpl. by rewrite <- app_assoc. Qed.

(** What is cut off at the blank line is what was written before it. *)
Lemma header_bytes_render method target version headers rest :
  word method → word target → word version → Forall header_ok headers →
  Forall (λ c, is_scalar c = true) (render method target version headers) →
  header_bytes (encode (render method target version headers) ++ CRLF2 ++ rest) =
  encode (render method target version headers).
Proof.
  intros Hm Ht Hv Hall Hs. apply header_bytes_split, no_blank_end.
  rewrite render_lines in Hs |- *. apply list.Forall_app in Hs as [Hl Hh].
  rewrite encode_app, no_blank_skip; [by apply no_blank_lines|].
  apply encode_no_lf; [done|by apply request_line_ok].
Qed.

(** C36: requests are read back as they were written: for every method, target,
    version and list of headers, in any characters, and whatever bytes follow the
    blank line, the parser returns the method, the target up to its query, and
    what the [Authorization] and [If-None-Match] headers say, the last one of a
    kind counting. *)
Theorem parse_head_render method target version headers rest :
  word method → word target → word version → Forall header_ok headers →
  Forall (λ c, is_scalar c = true) (render method target version headers) →
  parse_head (encode (render method target version headers) ++ CRLF2 ++ rest) =
    let '(b, e) := fold_left header_value headers (None, None) in
    Some {| method := method; path := take_until 63 target; bearer := b; if_none_match := e |}.
Proof.
  intros Hm Ht Hv Hall Hs. unfold parse_head.
  rewrite header_bytes_render, encode_from_utf8 by done. cbn [mbind option_bind].
  rewrite render_lines, lines_render; [|by apply request_line_ok| |done].
  2: { destruct Hm as [_ Hm]. by destruct method. }
  destruct Hm as [Hm Hmne], Ht as [Ht Htne].
  rewrite split_whitespace_cons by done. rewrite split_whitespace_cons by done.
  by rewrite header_fold_render.
Qed.

(** ** Tokens *)

Lemma token_eq_spec a b : token_eq a b = true ↔ encode a = encode b.
Proof. apply (ct_eq_spec (encode a) (encode b) (token_width _ _)). unfold token_width. lia. Qed.

(** ** The time of a request *)

Definition h_timely {A} (m : H A) : Prop :=
  ∀ d c o c', m (Some d) c = (o, c') → (h_clock c ≤ d)%N →
    (h_clock c ≤ h_clock c' ≤ d)%N ∧ o ≠ Pending.

Lemma h_timely_ret {A} (a : A) : h_timely (mret a).
Proof. intros d c o c' [= <- <-] ?. split; [lia|done]. Qed.

Lemma h_timely_bind {A B} (m : H A) (f : A → H B) :
  h_timely m → (∀ a, h_timely (f a)) → h_timely (m ≫= f).
Proof.
  intros Hm Hf d c o c'. unfold mbind, H_bind. destruct (m (Some d) c) as [o1 c1] eqn:E.
  intros Hr Hc. destruct (Hm _ _ _ _ E Hc) as [H1 Hp].
  destruct o1 as [a|e| | |]; try (injection Hr as <- <-; split; done).
  destruct (Hf a _ _ _ _ Hr) as [??]; [lia|]. split; [lia|done].
Qed.

Lemma h_timely_read : h_timely h_read.
Proof.
  intros d c o c'. unfold h_read, deadline_ok, cut_at, cut_clock, read_some.
  repeat case_match; intros [= <- <-] ?; simplify_eq; simpl in *; (split; [|done]); try lia.
  pose proof (read_clock_ge (h_clock c)) as Hge. split; [apply Hge|lia].
Qed.

Lemma h_timely_write data : h_timely (h_write_all data).
Proof.
  intros d c o c'. unfold h_write_all. destruct data as [|b l].
  { intros [= <- <-] ?. split; [lia|done]. }
  destruct (write_all _ _ _ _) as [[o1 t] s] eqn:E. intros [= <- <-] Hc. simpl.
  destruct (write_all_clock _ _ _ _ _ _ _ Hc E) as (? & ? & _).
  destruct (write_all_frame _ _ _ _ _ _ _ E) as (_ & _ & _ & ? & _). split; [lia|done].
Qed.

Lemma h_timely_shutdown : h_timely h_shutdown.
Proof.
  intros d c o c'. unfold h_shutdown. destruct (shutdown _) as [r s]. intros [= <- <-] ?.
  simpl. split; [lia|]. by destruct r.
Qed.

Lemma h_timely_read_head : h_timely read_head.
Proof.
  intros d c. unfold read_head. generalize (S (length (rx (h_stream c)))) as fuel. intros fuel.
  assert (∀ buf, h_timely (read_head_loop fuel buf)) as Hloop; [|apply Hloop].
  clear d c. induction fuel as [|fuel IH]; intros buf; simpl.
  - intros d c o c' [= <- <-] ?. split; [lia|done].
  - apply h_timely_bind; [apply h_timely_read|]. intros [|b l]; [apply h_timely_ret|].
    repeat case_match; auto using h_timely_ret.
Qed.

Lemma h_timely_respond status ctype body headers : h_timely (respond status ctype body headers).
Proof.
  apply h_timely_bind; [apply h_timely_write|]. intros _.
  apply h_timely_bind; [apply h_timely_write|]. intros _. apply h_timely_shutdown.
Qed.

Lemma h_timely_handle_conn `{!Web, !HashOrder} sh token : h_timely (handle_conn sh token).
Proof.
  apply h_timely_bind; [apply h_timely_read_head|].
  intros [head|]; [|apply h_timely_respond].
  destruct (parse_head head) as [request|]; [|apply h_timely_respond].
  destruct (negb _); [apply h_timely_respond|]. destruct (negb _); [apply h_timely_respond|].
  apply h_timely_bind; [intros d c o c' [= <- <-] ?; split; [lia|done]|]. intros now.
  assert (∀ v, h_timely (serve_json request v)) as Hj
    by (intros v; unfold serve_json; case_bool_decide; apply h_timely_respond).
  do 4 (destruct (bool_decide _); [apply Hj || apply h_timely_respond|]).
  apply h_timely_respond.
Qed.

(** No client of the statistics can hold its connection for more than
    thirty seconds, whatever it sends, however slowly, and however long it
    leaves the response unread. *)
Theorem stats_conn_bounded `{!Web, !HashOrder} sh token c o c' :
  serve_one sh token c = (o, c') →
  (h_clock c ≤ h_clock c' ≤ h_clock c + REQUEST_TIMEOUT)%N ∧ o ≠ Pending.
Proof. intros Hr. apply (h_timely_handle_conn sh token _ _ _ _ Hr). lia. Qed.

(** ** What is answered to whom *)

Section answers.
Context `{!Web, !HashOrder}.

Definition refusals : list (H unit) :=
  [bad_request;
   respond "405 Method Not Allowed" "text/plain"
     (as_bytes ("method not allowed" +:+ of_bytes [x0a])) [("Allow", "GET")];
   respond "401 Unauthorized" "text/plain" (as_bytes ("unauthorized" +:+ of_bytes [x0a])) []].

(** The request a connection makes, if any. *)
Definition request_of (dl : option N) (c : Conn) : option ParsedHead :=
  match read_head dl c with
  | (Done (Some head), _) => parse_head head
  | _ => None
  end.

Lemma handle_conn_refused token dl c :
  (∀ request, request_of dl c = Some request →
     method request ≠ scalars "GET" ∨ authorized token request = false) →
  ∃ refusal, refusal ∈ refusals ∧ ∀ sh, handle_conn sh token dl c = (read_head ≫= λ _, refusal) dl c.
Proof.
  unfold handle_conn, request_of, mbind, H_bind. intros Hreq.
  destruct (read_head dl c) as [[[head|]|e| | |] c1];
    try (exists bad_request; split; [by left|done]).
  destruct (parse_head head) as [request|]; [|exists bad_request; split; [by left|done]].
  case_bool_decide as Hm; simpl.
  - destruct (Hreq _ eq_refl) as [?|Ha]; [done|]. rewrite Ha. simpl.
    eexists. split; [by right; right; left|done].
  - eexists. split; [by right; left|done].
Qed.

(** C15: the statistics are shown to nobody without the token: unless the request
    is a [GET] that presents exactly the configured bearer token, what happens on
    the connection is one of three fixed refusals and does not depend on the
    statistics, the client list or the DNS cache. *)
Theorem stats_token_gate expected dl c :
  (∀ request given, request_of dl c = Some request → method request = scalars "GET" →
     bearer request = Some given → encode given ≠ encode expected) →
  ∃ refusal, refusal ∈ refusals ∧
    ∀ sh, handle_conn sh (Some expected) dl c = (read_head ≫= λ _, refusal) dl c.
Proof.
  intros Hreq. apply handle_conn_refused.
  intros request Hr. destruct (decide (method request = scalars "GET")) as [Hm|]; [|by left].
  right. unfold authorized. destruct (bearer request) as [given|] eqn:Hb; [|done].
  apply not_true_is_false. rewrite token_eq_spec. intros He. by apply (Hreq request given).
Qed.

(** The end of the connection was sent, last. *)
Definition closed (s : Stream) : Prop := ∃ l, out s = l ++ [OutShutdown].

(** A response written in full. *)
Lemma h_write_all_writable dl data c :
  writable (h_stream c) → deadline_ok dl (h_clock c) = true →
  ∃ c', h_write_all data dl c = (Done (), c') ∧ tx (h_stream c') = tx (h_stream c) ++ data ∧
        writable (h_stream c') ∧ h_clock c' = h_clock c ∧
        shutdowns (h_stream c') = shutdowns (h_stream c).
Proof.
  intros Hw Hdl. unfold h_write_all. destruct data as [|b l].
  - exists c. by rewrite app_nil_r.
  - destruct (write_all_writable dl (b :: l) _ _ Hw Hdl) as [-> Hw'].
    eexists. split_and!; [done| |done..]. cbn [h_stream set_conn].
    rewrite tx_log_write. f_equal. apply firstn_all.
Qed.

Lemma respond_writable status ctype body headers dl c :
  writable (h_stream c) → deadline_ok dl (h_clock c) = true → shutdowns (h_stream c) = [] →
  ∃ c', respond status ctype body headers dl c = (Done (), c') ∧ h_clock c' = h_clock c ∧
        tx (h_stream c') = tx (h_stream c) ++ response_head status ctype body headers ++ body ∧
        closed (h_stream c').
Proof.
  intros Hw Hdl Hs. unfold respond, mbind, H_bind.
  destruct (h_write_all_writable dl (response_head status ctype body headers) c Hw Hdl)
    as (c1 & -> & Htx1 & Hw1 & Hc1 & Hs1).
  destruct (h_write_all_writable dl body c1 Hw1) as (c2 & -> & Htx2 & _ & Hc2 & Hs2); [by rewrite Hc1|].
  unfold h_shutdown, shutdown. rewrite Hs2, Hs1, Hs. simpl. eexists. split_and!; [done|simpl; congruence| |].
  - unfold tx in *. simpl. rewrite flat_map_app, Htx2, Htx1. simpl. by rewrite app_nil_r, <- app_assoc.
  - by eexists.
Qed.

(** A client that asks for the statistics and presents the token, if one is
    configured, gets them: exactly the encoding of the snapshot (or of the
    client list) of this moment under its length and entity tag - or, when it
    already has that version, [304] without a body - and the connection is
    closed. *)
Theorem stats_served sh token dl c head c1 request target value :
  read_head dl c = (Done (Some head), c1) → parse_head head = Some request →
  method request = scalars "GET" →
  match token with Some expected => bearer request = Some expected | None => True end →
  path request = scalars target →
  (target = "/stats" ∧ value = to_vec_snapshot (snapshot (sh_version sh) (sh_caches sh) (h_clock c1) (sh_stats sh)) ∨
   target = "/clients" ∧ value = to_vec_clients (clients_view (sh_heap sh) (h_clock c1) (sh_stats sh))) →
  writable (h_stream c1) → deadline_ok dl (h_clock c1) = true → shutdowns (h_stream c1) = [] →
  let body := default (as_bytes "{}") value in
  ∃ c2, handle_conn sh token dl c = (Done (), c2) ∧ closed (h_stream c2) ∧
    tx (h_stream c2) = tx (h_stream c1) ++
      if bool_decide (if_none_match request = Some (scalars (etag_of body))) then
        response_head "304 Not Modified" "application/json" [] [("ETag", etag_of body)]
      else
        response_head "200 OK" "application/json" body
          [("ETag", etag_of body); ("Cache-Control", "no-store")] ++ body.
Proof.
  intros Hread Hparse Hm Htok Hpath Hval Hw Hdl Hs body.
  assert (authorized token request = true) as Ha.
  { unfold authorized. destruct token as [e|]; [|done]. rewrite Htok. by apply token_eq_spec. }
  unfold handle_conn, mbind, H_bind. rewrite Hread, Hparse, Ha, bool_decide_eq_true_2 by done. cbn [negb].
  assert (∃ c2, serve_json request value dl c1 = (Done (), c2) ∧
    closed (h_stream c2) ∧
    tx (h_stream c2) = tx (h_stream c1) ++
      if bool_decide (if_none_match request = Some (scalars (etag_of body))) then
        response_head "304 Not Modified" "application/json" [] [("ETag", etag_of body)]
      else response_head "200 OK" "application/json" body
             [("ETag", etag_of body); ("Cache-Control", "no-store")] ++ body) as (c2 & Hrun & Hrest).
  { unfold serve_json. fold body. case_bool_decide.
    - edestruct respond_writable as (c2 & -> & _ & Htx & Hl); [exact Hw|exact Hdl|exact Hs|].
      exists c2. split_and!; [done..|]. by rewrite Htx, app_nil_r.
    - edestruct respond_writable as (c2 & -> & _ & Htx & Hl); [exact Hw|exact Hdl|exact Hs|].
      by exists c2. }
  exists c2. split; [|done]. rewrite <- Hrun. unfold route, h_now, mbind, H_bind. rewrite Hpath.
  destruct Hval as [[-> ->]|[-> ->]]; reflexivity.
Qed.
End answers.

(** ** The budget of the listener *)

Definition stats_total `{!Semaphore} (s : StatsServer) : nat :=
  available (st_sem s) + (if is_accepting (st_loop s) then 1 else 0) + length (st_live s).

(** The statistics endpoint serves at most 64 connections at once, over
    every interleaving, and each that ends leaves room for another one. *)
Theorem stats_budget `{!Semaphore} s0 s :
  serve_stats = Some s0 → rtc stats_step s0 s →
  length (st_live s) ≤ MAX_STATS_SOCKETS ∧
  (st_loop s = Acquiring → length (st_live s) < MAX_STATS_SOCKETS → is_Some (sem_acquire (st_sem s))).
Proof.
  intros Hst Hr. assert (stats_total s = MAX_STATS_SOCKETS) as Hinv.
  { eapply (rtc_invariant stats_step (λ s, stats_total s = MAX_STATS_SOCKETS)); [|exact Hr|].
    - intros x y [s1 s2 live Hacq|s1 live now|s1 live|s1 a l1 d l2]; unfold stats_total; simpl;
        rewrite ?sem_release_spec, ?length_app; simpl; try lia.
      apply sem_acquire_spec in Hacq. lia.
    - unfold serve_stats in Hst. destruct (sem_new _) as [b|] eqn:E; simplify_eq/=.
      apply sem_new_spec in E. unfold stats_total. simpl. lia. }
  unfold stats_total in Hinv. split; [lia|]. intros Hl Hlt. rewrite Hl in Hinv. simpl in Hinv.
  apply sem_acquire_ok. lia.
Qed.

(** ** Two remarks on the comments *)

(** The work of the token comparison grows with what is presented once it is
    longer than the token, and never goes below the length of the token. *)
Lemma token_width_varies expected given :
  token_width expected given =
    if length expected <? length given then length given else length expected.
Proof. unfold token_width. destruct (Nat.ltb_spec (length expected) (length given)); lia. Qed.

(** A request other than [GET] is answered [405] before its token is looked at. *)
Lemma method_before_token `{!Web, !HashOrder} sh expected dl c head c1 request :
  read_head dl c = (Done (Some head), c1) → parse_head head = Some request →
  method request ≠ scalars "GET" →
  handle_conn sh (Some expected) dl c =
    respond "405 Method Not Allowed" "text/plain"
      (as_bytes ("method not allowed" +:+ of_bytes [x0a])) [("Allow", "GET")] dl c1.
Proof.
  intros Hread Hparse Hm. unfold handle_conn, mbind, H_bind.
  by rewrite Hread, Hparse, bool_decide_eq_false_2.
Qed.

(** A head of more than [MAX_HEAD] bytes is accepted when its last chunk both
    crosses the limit and ends it. *)
Definition long_head : Conn :=
  {| h_clock := 0; h_stream := demo_stream (replicate 8700 x61 ++ CRLF2); h_reads := [] |}.

Lemma read_head_over_limit :
  match (read_head None long_head).1 with
  | Done (Some buf) => MAX_HEAD <? length buf
  | _ => false
  end = true.
Proof. vm_compute. reflexivity. Qed.

(** ** Witnesses *)

Definition demo_web : Web :=
  {| to_vec_snapshot _ := Some (as_bytes "{}"); to_vec_clients _ := Some (as_bytes "[]");
     default_hash l := N.of_nat (length l) |}.

#[local] Existing Instance demo_web.
#[local] Existing Instance counting_semaphore.
#[local] Existing Instance map_order.

Definition demo_shared : Shared :=
  {| sh_version := "0.1.3"; sh_stats := Stats_new 0 0; sh_heap := heap_empty; sh_caches := [] |}.

Definition demo_token : text := scalars "s3cret".

Definition demo_request (token : text) : text :=
  render (scalars "GET") (scalars "/stats?x=1") (scalars "HTTP/1.1")
    [(scalars "Authorization", scalars "Bearer " ++ token)].

Definition demo_conn (token : text) : Conn :=
  {| h_clock := 5; h_stream := demo_stream (encode (demo_request token) ++ CRLF2); h_reads := [] |}.

Definition demo_head (token : text) : list u8 := encode (demo_request token) ++ CRLF2.

Definition demo_after (token : text) : Conn := (read_head None (demo_conn token)).2.

Definition demo_parsed (token : text) : ParsedHead :=
  {| method := scalars "GET"; path := scalars "/stats"; bearer := Some token;
     if_none_match := None |}.

Lemma demo_read : read_head None (demo_conn demo_token) = (Done (Some (demo_head demo_token)), demo_after demo_token).
Proof. vm_compute. reflexivity. Qed.

Lemma read_head_bounded_witness : out (h_stream (demo_after demo_token)) = [].
Proof. apply (read_head_bounded _ _ _ _ demo_read). Defined.

Lemma parse_head_render_witness :
  parse_head (demo_head demo_token ++ as_bytes "body") = Some (demo_parsed demo_token).
Proof.
  unfold demo_head. rewrite <- app_assoc.
  refine (parse_head_render (scalars "GET") (scalars "/stats?x=1") (scalars "HTTP/1.1")
    [(scalars "Authorization", scalars "Bearer " ++ demo_token)] (as_bytes "body") _ _ _ _ _);
    [by split..| |].
  - constructor; [|constructor]. by repeat split.
  - by repeat constructor.
Defined.

Definition silent_conn : Conn :=
  {| h_clock := 5; h_reads := [];
     h_stream := {| rx := []; rx_end := EndSilent; writes := []; shutdowns := []; out := [] |} |}.

Lemma stats_conn_bounded_witness :
  (h_clock (serve_one demo_shared None silent_conn).2 ≤ 5 + REQUEST_TIMEOUT)%N ∧
  (serve_one demo_shared None silent_conn).1 ≠ Pending.
Proof.
  destruct (stats_conn_bounded demo_shared None silent_conn _ _ (surjective_pairing _)) as [[_ Hle] Hp].
  split; [exact Hle|exact Hp].
Defined.

Lemma demo_request_of :
  request_of None (demo_conn (scalars "guess")) = Some (demo_parsed (scalars "guess")).
Proof. vm_compute. reflexivity. Qed.

Lemma stats_token_gate_witness :
  ∃ refusal, refusal ∈ refusals ∧ ∀ sh,
    handle_conn sh (Some demo_token) None (demo_conn (scalars "guess")) =
    (read_head ≫= λ _, refusal) None (demo_conn (scalars "guess")).
Proof.
  apply (stats_token_gate demo_token None (demo_conn (scalars "guess"))).
  intros request given. rewrite demo_request_of. intros [= <-] _ [= <-]. vm_compute. discriminate.
Defined.

Lemma stats_served_witness :
  ∃ c2, handle_conn demo_shared (Some demo_token) None (demo_conn demo_token) = (Done (), c2) ∧
        closed (h_stream c2) ∧
        tx (h_stream c2) =
          response_head "200 OK" "application/json" (as_bytes "{}")
            [("ETag", etag_of (as_bytes "{}")); ("Cache-Control", "no-store")] ++ as_bytes "{}".
Proof.
  refine (stats_served demo_shared (Some demo_token) None (demo_conn demo_token)
    (demo_head demo_token) (demo_after demo_token) (demo_parsed demo_token) "/stats"
    (Some (as_bytes "{}")) demo_read _ _ _ _ _ _ _ _);
    [vm_compute; reflexivity|reflexivity|reflexivity|reflexivity|by left|constructor|
     reflexivity|reflexivity].
Defined.

Definition demo_stats_server : StatsServer :=
  {| st_sem := (64 : sem); st_loop := Acquiring; st_live := [] |}.

Lemma stats_budget_witness : length (st_live demo_stats_server) ≤ 64.
Proof.
  apply (stats_budget demo_stats_server demo_stats_server); [reflexivity|apply rtc_refl].
Defined.
