(* ===== verification/HttpSpec.v ===== *)
(** * The statistics endpoint as a specification ([src/src/stats/http.rs])

    What a request is answered, as a pure function of the configured token, of
    the state of the process at that moment and of the head that was read; and
    the refinement: whatever the client and the network do, what a connection is
    sent is that answer, or as much of it as the connection takes. *)
From S2P Require Import Prelude Fmt Utf8 Types DnsCache Stats Stream Relay Server Text PageText Http.

(** ** The specification *)

Record Response := {
  rs_status : string;
  rs_type : string;
  rs_body : list u8;
  rs_headers : list (string * string)
}.

Definition response_bytes (r : Response) : list u8 :=
  response_head (rs_status r) (rs_type r) (rs_body r) (rs_headers r) ++ rs_body r.

Definition plain (status text : string) (headers : list (string * string)) : Response :=
  {| rs_status := status; rs_type := "text/plain"; rs_body := as_bytes (text +:+ of_bytes [x0a]);
     rs_headers := headers |}.

Section spec.
Context `{!Web, !HashOrder} (sh : Shared).

(** A resource under its entity tag. *)
Definition resource (request : ParsedHead) (value : option (list u8)) : Response :=
  let body := default (as_bytes "{}") value in
  if bool_decide (if_none_match request = Some (scalars (etag_of body))) then
    {| rs_status := "304 Not Modified"; rs_type := "application/json"; rs_body := [];
       rs_headers := [("ETag", etag_of body)] |}
  else
    {| rs_status := "200 OK"; rs_type := "application/json"; rs_body := body;
       rs_headers := [("ETag", etag_of body); ("Cache-Control", "no-store")] |}.

Definition page (now : N) (request : ParsedHead) : Response :=
  if bool_decide (path request = scalars "/") then
    {| rs_status := "200 OK"; rs_type := "text/html; charset=utf-8"; rs_body := DASHBOARD_HTML;
       rs_headers := [] |}
  else if bool_decide (path request = scalars "/stats") then
    resource request (to_vec_snapshot (snapshot (sh_version sh) (sh_caches sh) now (sh_stats sh)))
  else if bool_decide (path request = scalars "/clients") then
    resource request (to_vec_clients (clients_view (sh_heap sh) now (sh_stats sh)))
  else if bool_decide (path request = scalars "/healthz") then
    {| rs_status := "200 OK"; rs_type := "text/plain"; rs_body := healthz_body sh now; rs_headers := [] |}
  else plain "404 Not Found" "not found" [].

Definition answer (token : option text) (now : N) (head : option (list u8)) : Response :=
  match head ≫= parse_head with
  | None => plain "400 Bad Request" "bad request" []
  | Some request =>
      if negb (bool_decide (method request = scalars "GET")) then
        plain "405 Method Not Allowed" "method not allowed" [("Allow", "GET")]
      else if authorized token request then page now request
      else plain "401 Unauthorized" "unauthorized" []
  end.
End spec.

(** ** The refinement *)

(** [m] sends [bytes] and closes, or sends the beginning of [bytes]. *)
Definition sends (m : H unit) (bytes : list u8) : Prop :=
  ∀ dl c o c', m dl c = (o, c') →
    ∃ l, l `prefix_of` bytes ∧ tx (h_stream c') = tx (h_stream c) ++ l ∧
         (o = Done () → l = bytes ∧ closed (h_stream c')).

Lemma h_write_all_sends data dl c o c' :
  h_write_all data dl c = (o, c') →
  ∃ l, l `prefix_of` data ∧ tx (h_stream c') = tx (h_stream c) ++ l ∧ (o = Done () → l = data).
Proof.
  unfold h_write_all. destruct data as [|b data].
  - intros [= <- <-]. exists []. by rewrite app_nil_r.
  - destruct (write_all _ _ _ _) as [[o1 t] s] eqn:E. intros [= <- <-].
    destruct (write_all_frame _ _ _ _ _ _ _ E) as (n & -> & Hn & _).
    exists (firstn n (b :: data)). split; [apply prefix_take|].
    cbn [h_stream set_conn]. rewrite tx_log_write. split; [done|].
    intros Ho. by rewrite Hn, firstn_all by done.
Qed.

Lemma respond_sends status ctype body headers :
  sends (respond status ctype body headers) (response_head status ctype body headers ++ body).
Proof.
  intros dl c o c'. unfold respond, mbind, H_bind.
  destruct (h_write_all (response_head status ctype body headers) dl c) as [o1 c1] eqn:E1.
  apply h_write_all_sends in E1 as (l1 & Hp1 & Htx1 & Hl1).
  destruct o1 as [[]|e| | |]; try (intros [= <- <-]; exists l1; split; [by apply prefix_app_r|done]).
  rewrite (Hl1 eq_refl) in *. destruct (h_write_all body dl c1) as [o2 c2] eqn:E2.
  apply h_write_all_sends in E2 as (l2 & Hp2 & Htx2 & Hl2).
  assert (∀ s, out s = out (h_stream c2) ++ [OutShutdown] →
    tx s = tx (h_stream c) ++ response_head status ctype body headers ++ l2) as Hshut.
  { intros s Hs. unfold tx in *. rewrite Hs, flat_map_app, Htx2, Htx1. simpl.
    by rewrite app_nil_r, <- app_assoc. }
  destruct o2 as [[]|e| | |].
  2-5: intros [= <- <-]; exists (response_head status ctype body headers ++ l2);
       split; [by apply prefix_app|]; by rewrite Htx2, Htx1, <- app_assoc.
  rewrite (Hl2 eq_refl) in *. unfold h_shutdown. destruct (shutdown (h_stream c2)) as [r s] eqn:Es.
  assert (out s = out (h_stream c2) ++ [OutShutdown]) as Hout
    by (unfold shutdown in Es; by injection Es as _ <-).
  intros [= <- <-]. exists (response_head status ctype body headers ++ body).
  split; [done|]. split; [by apply Hshut|]. intros _. split; [done|]. by exists (out (h_stream c2)).
Qed.

Section refinement.
Context `{!Web, !HashOrder} (sh : Shared).

Lemma sends_bytes (m : H unit) l l' : sends m l → l = l' → sends m l'.
Proof. by intros ? <-. Qed.

Lemma serve_json_sends request value :
  sends (serve_json request value) (response_bytes (resource request value)).
Proof.
  unfold serve_json, resource. destruct (bool_decide _); apply respond_sends.
Qed.

Lemma route_sends request dl c o c' :
  route sh request dl c = (o, c') →
  ∃ l, l `prefix_of` response_bytes (page sh (h_clock c) request) ∧
       tx (h_stream c') = tx (h_stream c) ++ l ∧
       (o = Done () → l = response_bytes (page sh (h_clock c) request) ∧ closed (h_stream c')).
Proof.
  unfold route, h_now, mbind, H_bind, page. cbv beta iota.
  destruct (bool_decide (path request = scalars "/")); [by apply respond_sends|].
  destruct (bool_decide (path request = scalars "/stats")); [by apply serve_json_sends|].
  destruct (bool_decide (path request = scalars "/clients")); [by apply serve_json_sends|].
  destruct (bool_decide (path request = scalars "/healthz")); by apply respond_sends.
Qed.

(** C13: the endpoint implements its specification.  Whatever is sent to it and
    however the connection behaves, it sends nothing before the head was read,
    and then the one response that [answer] gives for that head, the
    configured token and the state of the process at that moment: in full and
    followed by the end of the connection if the handler completes, and else the
    beginning of it and nothing else. *)
Theorem handle_conn_refines token dl c o c' :
  handle_conn sh token dl c = (o, c') →
  match read_head dl c with
  | (Done head, c1) =>
      let response := response_bytes (answer sh token (h_clock c1) head) in
      ∃ l, l `prefix_of` response ∧ tx (h_stream c') = tx (h_stream c) ++ l ∧
           (o = Done () → l = response ∧ closed (h_stream c'))
  | (_, c1) => c' = c1 ∧ tx (h_stream c') = tx (h_stream c) ∧ o ≠ Done ()
  end.
Proof.
  unfold handle_conn, mbind, H_bind, answer. destruct (read_head dl c) as [o1 c1] eqn:Hr.
  assert (out (h_stream c1) = out (h_stream c)) as Hout.
  { pose proof Hr as Hr'. unfold read_head in Hr'.
    by eapply (read_head_loop_spec _ []) in Hr' as [Ho _]; [exact Ho|lia|simpl; lia|]. }
  assert (tx (h_stream c1) = tx (h_stream c)) as Htx by (unfold tx; by rewrite Hout).
  destruct o1 as [head|e| | |]; try (by intros [= <- <-]).
  cbv zeta. rewrite <- Htx. destruct head as [head|]; simpl; [|by apply respond_sends].
  destruct (parse_head head) as [request|]; simpl; [|by apply respond_sends].
  destruct (negb (bool_decide (method request = scalars "GET"))); [by apply respond_sends|].
  destruct (authorized token request); simpl; [apply route_sends|by apply respond_sends].
Qed.
End refinement.

(** ** Witness *)

#[local] Existing Instance demo_web.
#[local] Existing Instance map_order.

(** A wrong token. *)
Definition demo_wrong_token : text := scalars "guess".

Lemma handle_conn_refines_witness :
  ∃ o c' l, handle_conn demo_shared (Some demo_token) None (demo_conn demo_wrong_token) = (o, c') ∧
    tx (h_stream c') = l ∧ l `prefix_of` response_bytes (plain "401 Unauthorized" "unauthorized" []).
Proof.
  destruct (handle_conn demo_shared (Some demo_token) None (demo_conn demo_wrong_token)) as [o c'] eqn:E.
  pose proof (handle_conn_refines demo_shared (Some demo_token) None (demo_conn demo_wrong_token) o c' E) as Hr.
  assert ((read_head None (demo_conn demo_wrong_token)).1 = Done (Some (demo_head demo_wrong_token))) as Hd
    by (vm_compute; reflexivity).
  destruct (read_head None (demo_conn demo_wrong_token)) as [o1 c1]. cbn [fst] in Hd. subst o1.
  destruct Hr as (l & Hl & Htx & _). exists o, c', l. split; [reflexivity|]. split; [exact Htx|].
  assert (answer demo_shared (Some demo_token) (h_clock c1) (Some (demo_head demo_wrong_token)) =
          plain "401 Unauthorized" "unauthorized" []) as Ha; [|rewrite Ha in Hl; exact Hl].
  unfold answer. cbn [mbind option_bind].
  assert (parse_head (demo_head demo_wrong_token) = Some (demo_parsed demo_wrong_token)) as Hp
    by (vm_compute; reflexivity).
  rewrite Hp. reflexivity.
Defined.
