(* ===== verification/Number.v ===== *)
(** * The numbers of the page (ECMAScript)

    The dashboard's script computes in IEEE 754 doubles.  Every number it meets
    is finite, far from overflow and from the subnormal range, so a number is
    the rational it denotes and every operation rounds its exact result to 53
    significant bits, ties to even.  Conversions to text follow the language:
    [Number::toString], [toFixed] and [toISOString]. *)
From Stdlib Require Import QArith Qround Qpower Lqa.
From S2P Require Import Prelude Fmt.

#[local] Open Scope Q_scope.

(** ** Rounding *)

(** The exponent of the leading bit. *)
Definition floor_log2 (q : Q) : Z :=
  let e := (Z.log2 (Qnum q) - Z.log2 (Zpos (Qden q)))%Z in
  if Qle_bool (2 ^ e) q then e else (e - 1)%Z.

(** The nearest integer, the even one of two. *)
Definition nearest_even (q : Q) : Z :=
  let f := Qfloor q in
  match Qcompare (q - inject_Z f) (1 # 2) with
  | Lt => f
  | Gt => (f + 1)%Z
  | Eq => if Z.even f then f else (f + 1)%Z
  end.

Definition round_pos (q : Q) : Q :=
  let ulp := 2 ^ (floor_log2 q - 52) in
  inject_Z (nearest_even (q / ulp)) * ulp.

(** The double nearest to [q]. *)
Definition double (q : Q) : Q :=
  match Qcompare q 0 with
  | Eq => 0
  | Gt => round_pos q
  | Lt => - round_pos (- q)
  end.

Definition double_of_Z (z : Z) : Q := double (inject_Z z).
Definition double_of_N (n : N) : Q := double_of_Z (Z.of_N n).

(** [Math.round]: halves go up. *)
Definition math_round (q : Q) : Z := Qfloor (q + (1 # 2)).

(** [%] on non-negative numbers, which is exact. *)
Definition fmod (a b : Q) : Q := a - b * inject_Z (Qfloor (a / b)).

Lemma two_pos e : 0 < 2 ^ e.
Proof. apply Qpower_0_lt. reflexivity. Qed.

Lemma two_succ e : 2 ^ (e + 1) == 2 * 2 ^ e.
Proof. rewrite Qpower_plus by discriminate. change (2 ^ 1) with 2. apply Qmult_comm. Qed.

Lemma two_pow_Z e : (0 ≤ e)%Z → 2 ^ e == inject_Z (2 ^ e).
Proof. intros. by rewrite Zpower_Qpower. Qed.

Lemma two_mono a b : (a ≤ b)%Z → 2 ^ a <= 2 ^ b.
Proof. intros. apply Qpower_le_compat_l; [done|discriminate]. Qed.

Lemma floor_log2_spec q : 0 < q → 2 ^ floor_log2 q <= q < 2 ^ (floor_log2 q + 1).
Proof.
  intros Hq. unfold floor_log2. set (a := Z.log2 (Qnum q)). set (b := Z.log2 (Zpos (Qden q))).
  assert (0 < Qnum q)%Z as Hn by (destruct q as [n d]; unfold Qlt in Hq; simpl in *; lia).
  destruct (Z.log2_spec (Qnum q) Hn) as [Ha1 Ha2].
  destruct (Z.log2_spec (Zpos (Qden q)) eq_refl) as [Hb1 Hb2]. fold a in Ha1, Ha2. fold b in Hb1, Hb2.
  pose proof (Z.log2_nonneg (Qnum q)) as Ha0. fold a in Ha0.
  pose proof (Z.log2_nonneg (Zpos (Qden q))) as Hb0. fold b in Hb0.
  rewrite <- Z.add_1_r in Ha2, Hb2.
  rewrite Zle_Qle in Ha1, Hb1. rewrite Zlt_Qlt in Ha2, Hb2.
  rewrite <- two_pow_Z in Ha1, Hb1, Ha2, Hb2 by lia.
  pose proof (Qmake_Qdiv (Qnum q) (Qden q)) as Hqd.
  assert (q * inject_Z (Zpos (Qden q)) == inject_Z (Qnum q)) as Hqm.
  { destruct q as [n d]. simpl Qnum in *. simpl Qden in *. rewrite Hqd. field. discriminate. }
  set (N := inject_Z (Qnum q)) in *. set (D := inject_Z (Zpos (Qden q))) in *.
  assert (2 ^ (a - b) * 2 ^ b == 2 ^ a) as Hab by (rewrite <- Qpower_plus by discriminate; f_equiv; lia).
  pose proof (two_pos (a - b)). pose proof (two_pos b).
  rewrite two_succ in Ha2, Hb2.
  destruct (Qle_bool (2 ^ (a - b)) q) eqn:E.
  - apply Qle_bool_iff in E. split; [done|]. rewrite two_succ.
    apply Qnot_le_lt. intros Hc. nra.
  - assert (q < 2 ^ (a - b)) as Hlt.
    { apply Qnot_le_lt. rewrite <- Qle_bool_iff. congruence. }
    rewrite Z.sub_add. split; [|done].
    assert (2 ^ (a - b) == 2 * 2 ^ (a - b - 1)) as Hs by (rewrite <- two_succ; f_equiv; lia).
    apply Qnot_lt_le. intros Hc. nra.
Qed.

Lemma inject_Z_succ z : inject_Z (z + 1) == inject_Z z + 1.
Proof. by rewrite inject_Z_plus. Qed.

Lemma Qfloor_bounds q : inject_Z (Qfloor q) <= q < inject_Z (Qfloor q) + 1.
Proof.
  split; [apply Qfloor_le|]. pose proof (Qlt_floor q) as H. by rewrite inject_Z_succ in H.
Qed.

Lemma Qfloor_unique z q : inject_Z z <= q < inject_Z z + 1 → Qfloor q = z.
Proof.
  intros [Hl Hu]. pose proof (Qfloor_bounds q) as [H1 H2].
  apply Qfloor_resp_le in Hl. rewrite Qfloor_Z in Hl.
  assert (inject_Z (Qfloor q) < inject_Z (z + 1)) as H by (rewrite inject_Z_succ; lra).
  rewrite <- Zlt_Qlt in H. lia.
Qed.

Lemma nearest_even_error q :
  q - (1 # 2) <= inject_Z (nearest_even q) <= q + (1 # 2).
Proof.
  unfold nearest_even. pose proof (Qfloor_bounds q) as [H1 H2].
  destruct (Qcompare_spec (q - inject_Z (Qfloor q)) (1 # 2));
    [destruct (Z.even (Qfloor q))| |]; rewrite ?inject_Z_succ; lra.
Qed.

Lemma nearest_even_Z z : nearest_even (inject_Z z) = z.
Proof.
  unfold nearest_even. rewrite Qfloor_Z.
  destruct (Qcompare_spec (inject_Z z - inject_Z z) (1 # 2)); [lra|done|lra].
Qed.

#[local] Instance nearest_even_proper : Proper (Qeq ==> eq) nearest_even.
Proof.
  intros x y Hxy. unfold nearest_even. rewrite (Qfloor_comp x y) by done.
  assert (Qcompare (x - inject_Z (Qfloor y)) (1 # 2) = Qcompare (y - inject_Z (Qfloor y)) (1 # 2))
    as -> by (by rewrite Hxy). done.
Qed.

Lemma nearest_even_mono p q : p <= q → (nearest_even p ≤ nearest_even q)%Z.
Proof.
  intros Hpq. destruct (Z.le_gt_cases (nearest_even p) (nearest_even q)) as [|Hlt]; [done|].
  (* half-way between the two results from both sides *)
  assert (nearest_even q + 1 ≤ nearest_even p)%Z as Hge by lia.
  rewrite Zle_Qle, inject_Z_succ in Hge.
  pose proof (nearest_even_error p). pose proof (nearest_even_error q).
  assert (p == q) as Heq by lra. rewrite Heq in Hlt. lia.
Qed.

(** ** The laws of rounding *)

Lemma floor_log2_mono p q : 0 < p → p <= q → (floor_log2 p ≤ floor_log2 q)%Z.
Proof.
  intros Hp Hpq. destruct (floor_log2_spec p Hp) as [H1 _].
  destruct (floor_log2_spec q) as [_ H2]; [lra|].
  destruct (Z.le_gt_cases (floor_log2 p) (floor_log2 q)) as [|Hlt]; [done|].
  pose proof (two_mono (floor_log2 q + 1) (floor_log2 p) ltac:(lia)). lra.
Qed.

Lemma floor_log2_unique e q : 2 ^ e <= q < 2 ^ (e + 1) → floor_log2 q = e.
Proof.
  intros [Hl Hu]. pose proof (two_pos e). destruct (floor_log2_spec q) as [H1 H2]; [lra|].
  destruct (Z.lt_trichotomy (floor_log2 q) e) as [Hlt|[->|Hlt]]; [|done|].
  - pose proof (two_mono (floor_log2 q + 1) e ltac:(lia)). lra.
  - pose proof (two_mono (e + 1) (floor_log2 q) ltac:(lia)). lra.
Qed.

Lemma floor_log2_comp p q : 0 < p → p == q → floor_log2 p = floor_log2 q.
Proof.
  intros Hp Heq. pose proof (floor_log2_spec p Hp) as Hs. symmetry.
  apply floor_log2_unique. by rewrite <- Heq.
Qed.

Lemma round_pos_error q : 0 < q → q - q * 2 ^ (-53) <= round_pos q <= q + q * 2 ^ (-53).
Proof.
  intros Hq. unfold round_pos. set (e := floor_log2 q). set (u := 2 ^ (e - 52)).
  pose proof (two_pos (e - 52)) as Hu. fold u in Hu.
  destruct (floor_log2_spec q Hq) as [Hl _]. fold e in Hl.
  assert (u * (1 # 2) == 2 ^ e * 2 ^ (-53)) as Hh.
  { unfold u. rewrite <- Qpower_plus by discriminate.
    change (1 # 2) with (2 ^ (-1)). rewrite <- Qpower_plus by discriminate. f_equiv. lia. }
  assert (u * (1 # 2) <= q * 2 ^ (-53)) by (rewrite Hh; apply Qmult_le_compat_r; [done|discriminate]).
  destruct (nearest_even_error (q / u)) as [H1 H2].
  assert (q == q / u * u) as Hqu by (field; lra).
  set (m := inject_Z (nearest_even (q / u))) in *. set (r := q / u) in *. split; nra.
Qed.

Lemma round_pos_Z z : (0 < z ≤ 2 ^ 53)%Z → round_pos (inject_Z z) == inject_Z z.
Proof.
  intros Hz. unfold round_pos. set (e := floor_log2 (inject_Z z)).
  assert (0 < inject_Z z) as Hpos by (change 0 with (inject_Z 0); rewrite <- Zlt_Qlt; lia).
  destruct (floor_log2_spec _ Hpos) as [Hl Hu]. fold e in Hl, Hu.
  assert (∃ m, inject_Z z == inject_Z m * 2 ^ (e - 52)) as [m Hm].
  { destruct (Z.le_gt_cases e 52) as [He|He].
    - exists (z * 2 ^ (52 - e))%Z. rewrite inject_Z_mult, <- two_pow_Z by lia.
      rewrite <- Qmult_assoc, <- Qpower_plus by discriminate.
      assert (2 ^ (52 - e + (e - 52)) == 1) as -> by (replace (52 - e + (e - 52))%Z with 0%Z by lia; reflexivity).
      ring.
    - assert (z = 2 ^ 53)%Z as ->.
      { enough (2 ^ 53 ≤ z)%Z by lia. rewrite Zle_Qle.
        pose proof (two_mono 53 e ltac:(lia)) as Hm. rewrite two_pow_Z in Hm by lia. lra. }
      assert (e = 53)%Z as ->. { apply floor_log2_unique. split; vm_compute; congruence. }
      exists (2 ^ 52)%Z. reflexivity. }
  pose proof (two_pos (e - 52)).
  assert (inject_Z z / 2 ^ (e - 52) == inject_Z m) as -> by (rewrite Hm; field; lra).
  by rewrite nearest_even_Z.
Qed.

Lemma round_pos_mono p q : 0 < p → p <= q → round_pos p <= round_pos q.
Proof.
  intros Hp Hpq. assert (0 < q) as Hq by lra.
  pose proof (floor_log2_mono _ _ Hp Hpq) as He.
  destruct (floor_log2_spec p Hp) as [Hpl Hpu]. destruct (floor_log2_spec q Hq) as [Hql Hqu].
  unfold round_pos. set (e := floor_log2 p) in *. set (f := floor_log2 q) in *.
  pose proof (two_pos (e - 52)) as Hue. pose proof (two_pos (f - 52)) as Huf.
  apply Z.le_lteq in He as [He| ->].
  - (* what lies between two exponents is a power of two *)
    apply Qle_trans with (2 ^ f).
    + apply Qle_trans with (2 ^ (e + 1)); [|apply two_mono; lia].
      assert (2 ^ (e + 1) == inject_Z (2 ^ 53) * 2 ^ (e - 52)) as Hb.
      { rewrite <- two_pow_Z, <- Qpower_plus by done. f_equiv. lia. }
      rewrite Hb. apply Qmult_le_compat_r; [|lra]. rewrite <- Zle_Qle.
      rewrite <- (nearest_even_Z (2 ^ 53)). apply nearest_even_mono.
      apply Qle_shift_div_r; [done|]. lra.
    + assert (2 ^ f == inject_Z (2 ^ 52) * 2 ^ (f - 52)) as Hb.
      { rewrite <- two_pow_Z, <- Qpower_plus by done. f_equiv. lia. }
      rewrite Hb. apply Qmult_le_compat_r; [|lra]. rewrite <- Zle_Qle.
      rewrite <- (nearest_even_Z (2 ^ 52)). apply nearest_even_mono.
      apply Qle_shift_div_l; [done|]. lra.
  - apply Qmult_le_compat_r; [|lra]. rewrite <- Zle_Qle. apply nearest_even_mono.
    apply Qmult_le_compat_r; [done|]. apply Qlt_le_weak, Qinv_lt_0_compat. done.
Qed.

(** A double is its own rounding: scaling by a power of two only moves the
    exponent. *)
Lemma round_pos_scale q k : 0 < q → round_pos (q * 2 ^ k) == round_pos q * 2 ^ k.
Proof.
  intros Hq. pose proof (two_pos k) as Hk. destruct (floor_log2_spec q Hq) as [Hl Hu].
  assert (floor_log2 (q * 2 ^ k) = (floor_log2 q + k)%Z) as Hf.
  { apply floor_log2_unique.
    assert (2 ^ (floor_log2 q + k) == 2 ^ floor_log2 q * 2 ^ k) as -> by (by apply Qpower_plus).
    assert (2 ^ (floor_log2 q + k + 1) == 2 ^ (floor_log2 q + 1) * 2 ^ k) as ->
      by (rewrite <- Qpower_plus by done; f_equiv; lia).
    split; [by apply Qmult_le_compat_r; [|apply Qlt_le_weak]|by apply Qmult_lt_compat_r]. }
  unfold round_pos. rewrite Hf. set (u := 2 ^ (floor_log2 q - 52)).
  assert (0 < u) by apply two_pos.
  assert (2 ^ (floor_log2 q + k - 52) == u * 2 ^ k) as Hs
    by (unfold u; rewrite <- Qpower_plus by done; f_equiv; lia).
  assert (q * 2 ^ k / 2 ^ (floor_log2 q + k - 52) == q / u) as Ha by (rewrite Hs; field; split; lra).
  rewrite (nearest_even_proper _ _ Ha), Hs. ring.
Qed.

Lemma round_pos_idem q : 0 < q → round_pos (round_pos q) == round_pos q ∧ 0 < round_pos q.
Proof.
  intros Hq. destruct (floor_log2_spec q Hq) as [Hl Hu].
  pose proof (two_pos (floor_log2 q - 52)) as Hp.
  assert (∀ m, 2 ^ (floor_log2 q - 52 + m) == 2 ^ m * 2 ^ (floor_log2 q - 52)) as Hs.
  { intros m. rewrite <- Qpower_plus by done. f_equiv. lia. }
  assert (2 ^ 52 ≤ nearest_even (q / 2 ^ (floor_log2 q - 52)) ≤ 2 ^ 53)%Z as Hm.
  { rewrite <- (nearest_even_Z (2 ^ 52)), <- (nearest_even_Z (2 ^ 53)).
    split; apply nearest_even_mono; [apply Qle_shift_div_l|apply Qle_shift_div_r]; try done;
      rewrite <- two_pow_Z by done; rewrite <- Hs.
    - by replace (floor_log2 q - 52 + 52)%Z with (floor_log2 q) by lia.
    - replace (floor_log2 q - 52 + 53)%Z with (floor_log2 q + 1)%Z by lia. by apply Qlt_le_weak. }
  unfold round_pos at 2 3 4. set (m := nearest_even _) in *.
  assert (0 < inject_Z m) as Hm0 by (change 0 with (inject_Z 0); rewrite <- Zlt_Qlt; lia).
  rewrite round_pos_scale by done. rewrite round_pos_Z by lia. split; [reflexivity|nra].
Qed.

#[global] Instance double_proper : Proper (Qeq ==> Qeq) double.
Proof.
  intros x y Hxy. unfold double.
  assert (Qcompare x 0 = Qcompare y 0) as -> by (by rewrite Hxy).
  assert (∀ a b, 0 < a → a == b → round_pos a == round_pos b) as Hc.
  { intros a b Ha Hab. unfold round_pos. rewrite (floor_log2_comp a b) by done.
    assert (a / 2 ^ (floor_log2 b - 52) == b / 2 ^ (floor_log2 b - 52)) as -> by (by rewrite Hab).
    reflexivity. }
  destruct (Qcompare_spec y 0); [reflexivity| |]; rewrite Hc; try reflexivity; lra.
Qed.

Lemma double_pos q : 0 < q → double q = round_pos q.
Proof. intros Hq. unfold double. destruct (Qcompare_spec q 0); [lra|lra|done]. Qed.

Lemma double_neg q : q < 0 → double q = - round_pos (- q).
Proof. intros Hq. unfold double. destruct (Qcompare_spec q 0); [lra|done|lra]. Qed.

Lemma double_zero : double 0 = 0.
Proof. reflexivity. Qed.

(** Rounding is monotone, and exact on the integers a double can count. *)
Lemma round_pos_nonneg q : 0 < q → 0 <= round_pos q.
Proof.
  intros Hq. destruct (round_pos_error q Hq) as [Hl _].
  assert (2 ^ (-53) <= 1) by (change 1 with (2 ^ 0); by apply two_mono). nra.
Qed.

Lemma double_mono p q : p <= q → double p <= double q.
Proof.
  intros Hpq. destruct (Qcompare_spec p 0) as [Hp|Hp|Hp].
  - rewrite Hp, double_zero. destruct (Qcompare_spec q 0) as [Hq|Hq|Hq]; [by rewrite Hq|lra|].
    rewrite double_pos by done. by apply round_pos_nonneg.
  - rewrite (double_neg p) by done. pose proof (round_pos_nonneg (- p) ltac:(lra)).
    destruct (Qcompare_spec q 0) as [Hq|Hq|Hq].
    + rewrite Hq, double_zero. lra.
    + rewrite double_neg by done. pose proof (round_pos_mono (- q) (- p) ltac:(lra) ltac:(lra)). lra.
    + rewrite double_pos by done. pose proof (round_pos_nonneg q Hq). lra.
  - rewrite !double_pos by lra. by apply round_pos_mono.
Qed.

Lemma double_exact z : (- 2 ^ 53 ≤ z ≤ 2 ^ 53)%Z → double_of_Z z == inject_Z z.
Proof.
  intros Hz. unfold double_of_Z. destruct (Z.lt_trichotomy z 0) as [H|[->|H]].
  - rewrite Zlt_Qlt in H. rewrite double_neg by done.
    assert (- inject_Z z == inject_Z (- z)) as E by (by rewrite inject_Z_opp).
    assert (round_pos (- inject_Z z) == round_pos (inject_Z (- z))) as ->.
    { rewrite <- !double_pos by (rewrite <- ?E; change (inject_Z 0) with 0 in H; lra). by rewrite E. }
    rewrite round_pos_Z, inject_Z_opp; [ring|rewrite <- Zlt_Qlt in H; lia].
  - reflexivity.
  - rewrite double_pos by (change 0 with (inject_Z 0); by rewrite <- Zlt_Qlt). apply round_pos_Z. lia.
Qed.

Lemma double_idem q : double (double q) == double q.
Proof.
  destruct (Qcompare_spec q 0) as [Hq|Hq|Hq].
  - by rewrite Hq.
  - rewrite (double_neg q) by done. destruct (round_pos_idem (- q)) as [Hi Hp]; [lra|].
    rewrite double_neg by lra.
    assert (double (- - round_pos (- q)) == double (round_pos (- q))) as E by (f_equiv; ring).
    rewrite !double_pos in E by lra. by rewrite E, Hi.
  - rewrite (double_pos q) by done. destruct (round_pos_idem q Hq) as [Hi Hp].
    by rewrite double_pos.
Qed.

Lemma double_gt0 q : 0 < q → 0 < double q.
Proof. intros Hq. rewrite double_pos by done. by apply round_pos_idem. Qed.

Lemma double_nonneg q : 0 <= q → 0 <= double q.
Proof. intros H. rewrite <- double_zero. by apply double_mono. Qed.

Lemma double_le_Z q z : (0 ≤ z ≤ 2 ^ 53)%Z → q <= inject_Z z → double q <= inject_Z z.
Proof.
  intros Hz Hq. rewrite <- (double_exact z) by lia. by apply double_mono.
Qed.

(** The floor of a rounded quotient of counts is their quotient. *)
Lemma floor_double_div a b :
  (0 ≤ a < 2 ^ 53)%Z → (0 < b)%Z → Qfloor (double (inject_Z a / inject_Z b)) = (a / b)%Z.
Proof.
  intros Ha Hb. set (k := (a / b)%Z). set (q := inject_Z a / inject_Z b).
  assert (0 < inject_Z b) as HB by (change 0 with (inject_Z 0); by rewrite <- Zlt_Qlt).
  assert (0 <= inject_Z a) as HA by (change 0 with (inject_Z 0); rewrite <- Zle_Qle; lia).
  assert (q * inject_Z b == inject_Z a) as Hq by (unfold q; field; lra).
  pose proof (Z.div_mod a b ltac:(lia)) as Hdm. fold k in Hdm.
  pose proof (Z.mod_pos_bound a b Hb) as Hm. set (m := (a mod b)%Z) in *.
  assert (0 ≤ k)%Z as Hk0 by (apply Z.div_pos; lia).
  assert (k ≤ a)%Z as Hka by nia.
  apply Qfloor_unique.
  assert (inject_Z a == inject_Z b * inject_Z k + inject_Z m) as HD
    by (rewrite <- inject_Z_mult, <- inject_Z_plus; f_equiv; exact Hdm).
  assert (0 <= inject_Z m) as HM0 by (change 0 with (inject_Z 0); rewrite <- Zle_Qle; lia).
  assert (inject_Z m + 1 <= inject_Z b) as HM1 by (rewrite <- inject_Z_succ, <- Zle_Qle; lia).
  assert (inject_Z k <= q) as Hkq by nra.
  split.
  - rewrite <- (double_exact k) by lia. by apply double_mono.
  - destruct (Qcompare_spec q 0) as [H0|H0|H0].
    + rewrite H0, double_zero. assert (0 <= inject_Z k) by (change 0 with (inject_Z 0); rewrite <- Zle_Qle; lia). lra.
    + nra.
    + rewrite double_pos by done. destruct (round_pos_error q H0) as [_ Hu].
      assert (inject_Z a + 1 <= inject_Z (2 ^ 53)) as HA1 by (rewrite <- inject_Z_succ, <- Zle_Qle; lia).
      assert (2 ^ (-53) * inject_Z (2 ^ 53) == 1) as Hinv by reflexivity.
      set (e := 2 ^ (-53)) in *. set (P := inject_Z (2 ^ 53)) in *.
      assert (0 < e) by (apply two_pos). clearbody e P q.
      assert (inject_Z a * e < 1) by nra.
      assert (q * e * inject_Z b < 1) by nra.
      assert ((inject_Z k + 1 - q) * inject_Z b >= 1) by nra.
      apply Qle_lt_trans with (q + q * e); [done|]. apply Qnot_le_lt. intros Hc. nra.
Qed.

(** ** Numbers as text *)

(** The digits of an integer below 10^21: the shortest decimal that is read back
    as the same double, with zeros after it. *)
Definition candidate (v : N) (digits k : nat) : N :=
  let p := (10 ^ N.of_nat (digits - k))%N in ((v + p / 2) / p * p)%N.

Definition shortest (v : N) : N :=
  let digits := String.length (dec v) in
  List.hd v (List.filter (λ c, Qeq_bool (double_of_N c) (inject_Z (Z.of_N v)))
               (candidate v digits <$> seq 1 digits)).

(** [String(z)] of an integer. *)
Definition number_to_string (z : Z) : string :=
  if (z <? 0)%Z then "-" +:+ dec (shortest (Z.to_N (- z))) else dec (shortest (Z.to_N z)).

Fixpoint zeros (k : nat) : string :=
  match k with 0%nat => "" | S k => String "0" (zeros k) end.

Definition pad (k : nat) (n : N) : string := zeros (k - String.length (dec n)) +:+ dec n.

(** [toFixed], for positive arguments and digits. *)
Definition to_fixed (digits : nat) (q : Q) : string :=
  let p := (10 ^ N.of_nat digits)%N in
  let n := Z.to_N (Qfloor (q * inject_Z (Z.of_N p) + (1 # 2))) in
  dec (n / p) +:+ "." +:+ pad digits (n mod p).

Lemma shortest_exact v : (v < 2 ^ 53)%N → shortest v = v.
Proof.
  intros Hv. unfold shortest.
  destruct (List.filter _ _) as [|c l] eqn:E; [done|]. simpl.
  assert (In c (c :: l)) as Hc by (by left). rewrite <- E in Hc.
  apply List.filter_In in Hc as [_ Hc]. apply Qeq_bool_eq in Hc. unfold double_of_N in Hc.
  destruct (N.le_gt_cases c (2 ^ 53)) as [Hle|Hgt].
  - rewrite double_exact in Hc by lia. rewrite inject_Z_injective in Hc. lia.
  - assert (inject_Z (2 ^ 53) <= double_of_Z (Z.of_N c)) as Hm.
    { rewrite <- double_exact by lia. apply double_mono. rewrite <- Zle_Qle. lia. }
    rewrite Hc, <- Zle_Qle in Hm. lia.
Qed.

Lemma number_to_string_dec n : (n < 2 ^ 53)%N → number_to_string (Z.of_N n) = dec n.
Proof.
  intros Hn. unfold number_to_string. destruct (Z.ltb_spec (Z.of_N n) 0); [lia|].
  by rewrite N2Z.id, shortest_exact.
Qed.

(** ** Dates *)

(** Year, month and day of a day number counted from 1970-01-01. *)
Definition civil_from_days (days : Z) : Z * Z * Z :=
  let z := (days + 719468)%Z in
  let era := (z / 146097)%Z in
  let doe := (z mod 146097)%Z in
  let yoe := ((doe - doe / 1460 + doe / 36524 - doe / 146096) / 365)%Z in
  let doy := (doe - (365 * yoe + yoe / 4 - yoe / 100))%Z in
  let mp := ((5 * doy + 2) / 153)%Z in
  let d := (doy - (153 * mp + 2) / 5 + 1)%Z in
  let m := (if mp <? 10 then mp + 3 else mp - 9)%Z in
  ((yoe + era * 400 + (if m <=? 2 then 1 else 0))%Z, m, d).

Definition iso_year (y : Z) : string :=
  if (0 <=? y)%Z && (y <=? 9999)%Z then pad 4 (Z.to_N y)
  else (if (y <? 0)%Z then "-" else "+") +:+ pad 6 (Z.to_N (Z.abs y)).

(** [new Date(t).toISOString()]; [None] is a [RangeError]. *)
Definition to_iso_string (t : Z) : option string :=
  if (Z.abs t <=? 8640000000000000)%Z then
    let days := (t / 86400000)%Z in
    let ms := (t mod 86400000)%Z in
    let '(y, m, d) := civil_from_days days in
    Some (iso_year y +:+ "-" +:+ pad 2 (Z.to_N m) +:+ "-" +:+ pad 2 (Z.to_N d) +:+ "T" +:+
          pad 2 (Z.to_N (ms / 3600000)) +:+ ":" +:+ pad 2 (Z.to_N (ms / 60000 mod 60)) +:+ ":" +:+
          pad 2 (Z.to_N (ms / 1000 mod 60)) +:+ "." +:+ pad 3 (Z.to_N (ms mod 1000)) +:+ "Z")
  else None.

(** Known dates and numbers. *)
Example iso_epoch : to_iso_string 0 = Some "1970-01-01T00:00:00.000Z".
Proof. reflexivity. Qed.

Example iso_leap_day : to_iso_string 951782399999 = Some "2000-02-28T23:59:59.999Z".
Proof. reflexivity. Qed.

Example iso_last : to_iso_string 8640000000000000 = Some "+275760-09-13T00:00:00.000Z".
Proof. reflexivity. Qed.

Example string_of_two_64 : number_to_string 18446744073709551616 = "18446744073709552000".
Proof. vm_compute. reflexivity. Qed.

Example string_of_odd : number_to_string (Qfloor (double_of_N 9007199254740993)) = "9007199254740992".
Proof. vm_compute. reflexivity. Qed.

Example fixed_rounds_down : to_fixed 2 (double (double_of_Z 1005 / 1000)) = "1.00".
Proof. vm_compute. reflexivity. Qed.
