(* ===== verification/Dom.v ===== *)
(** * The document of a page

    The tree a browser keeps: elements with a tag, attributes and children, and
    text nodes.  The operations are those the dashboard's script uses: looking
    an element up, replacing its text, appending created elements. *)
From S2P Require Import Prelude.

#[local] Set Warnings "-register-all".

Inductive node : Type :=
  | Text (data : string)
  | Element (tag : string) (attrs : list (string * string)) (kids : list node).

(** Induction with the children in scope. *)
Section node_ind.
Variable P : node → Prop.
Hypothesis HText : ∀ data, P (Text data).
Hypothesis HElement : ∀ tag attrs kids, Forall P kids → P (Element tag attrs kids).

Fixpoint node_ind' (n : node) : P n :=
  match n with
  | Text data => HText data
  | Element tag attrs kids =>
      HElement tag attrs kids
        ((fix go (l : list node) : Forall P l :=
            match l with
            | [] => @List.Forall_nil _ P
            | k :: l => @List.Forall_cons _ P k l (node_ind' k) (go l)
            end) kids)
  end.
End node_ind.

(** ** Attributes and children *)

Definition attr (name : string) (n : node) : option string :=
  match n with
  | Text _ => None
  | Element _ attrs _ => snd <$> List.find (λ kv, String.eqb kv.1 name) attrs
  end.

Definition has_id (id : string) (n : node) : bool :=
  match attr "id" n with Some i => String.eqb i id | None => false end.

Definition has_tag (tag : string) (n : node) : bool :=
  match n with Text _ => false | Element t _ _ => String.eqb t tag end.

Definition kids_of (n : node) : list node :=
  match n with Text _ => [] | Element _ _ kids => kids end.

Definition on_kids (f : list node → list node) (n : node) : node :=
  match n with Text d => Text d | Element tag attrs kids => Element tag attrs (f kids) end.

(** Setting an attribute the element has or has not. *)
Fixpoint set_attr_list (name value : string) (attrs : list (string * string))
    : list (string * string) :=
  match attrs with
  | [] => [(name, value)]
  | (k, v) :: attrs =>
      if String.eqb k name then (name, value) :: attrs else (k, v) :: set_attr_list name value attrs
  end.

Definition set_attr (name value : string) (n : node) : node :=
  match n with
  | Text d => Text d
  | Element tag attrs kids => Element tag (set_attr_list name value attrs) kids
  end.

(** ** The operations of the script *)

Definition createElement (tag : string) : node := Element tag [] [].

(** The children [textContent = s] leaves: no text node for the empty string. *)
Definition text_nodes (s : string) : list node := if String.eqb s "" then [] else [Text s].

Definition set_textContent (s : string) : node → node := on_kids (λ _, text_nodes s).

Definition append (new : list node) : node → node := on_kids (λ kids, kids ++ new).

(** The first child [upd] applies to. *)
Definition update_list (upd : node → option node) : list node → option (list node) :=
  fix go l :=
    match l with
    | [] => None
    | k :: l => match upd k with Some k' => Some (k' :: l) | None => cons k <$> go l end
    end.

(** [f] at the first element of the tree, in document order, that satisfies [p];
    [None] if there is none. *)
Fixpoint update (p : node → bool) (f : node → option node) (n : node) : option node :=
  if p n then f n
  else match n with
       | Text _ => None
       | Element tag attrs kids => Element tag attrs <$> update_list (update p f) kids
       end.

(** [document.getElementById(id)] and [document.querySelector("#id tag")], as the
    place where [f] works.  Identifiers are unique in the page. *)
Definition at_id (id : string) (f : node → node) : node → option node :=
  update (has_id id) (λ n, Some (f n)).

Definition at_id_tag (id tag : string) (f : node → node) : node → option node :=
  update (has_id id) (λ n,
    match n with
    | Text _ => None
    | Element t attrs kids =>
        Element t attrs <$> update_list (update (has_tag tag) (λ k, Some (f k))) kids
    end).

(** ** Reading a document *)

(** The text of a subtree. *)
Fixpoint textContent (n : node) : string :=
  match n with
  | Text d => d
  | Element _ _ kids => foldr (λ k s, textContent k +:+ s) "" kids
  end.

(** The markup of a subtree: its elements and attributes, without any text. *)
Fixpoint skeleton (n : node) : list node :=
  match n with
  | Text _ => []
  | Element tag attrs kids => [Element tag attrs (flat_map skeleton kids)]
  end.

(** No element of the subtree can be looked up. *)
Fixpoint inert (n : node) : bool :=
  match n with
  | Text _ => true
  | Element _ attrs kids =>
      negb (existsb (λ kv, String.eqb kv.1 "id") attrs) && forallb inert kids
  end.

Lemma attr_absent name tag attrs kids :
  existsb (λ kv, String.eqb kv.1 name) attrs = false → attr name (Element tag attrs kids) = None.
Proof.
  simpl. induction attrs as [|[k v] attrs IH]; [done|]. simpl.
  destruct (String.eqb k name); [done|exact IH].
Qed.

Lemma update_list_None upd l : Forall (λ k, upd k = None) l → update_list upd l = None.
Proof. induction 1 as [|k l Hk _ IH]; [done|]. simpl. by rewrite Hk, IH. Qed.

Lemma update_inert id f n : inert n = true → update (has_id id) f n = None.
Proof.
  induction n as [d|tag attrs kids IH] using node_ind'; [done|].
  intros [Ha Hk]%andb_true_iff. apply negb_true_iff in Ha.
  simpl update. unfold has_id at 1. rewrite attr_absent by done.
  rewrite update_list_None; [done|]. rewrite forallb_forall in Hk.
  rewrite list.Forall_forall in *. intros k Hin. apply IH; [done|]. by apply Hk, list_elem_of_In.
Qed.

Lemma update_list_inert id f l :
  forallb inert l = true → update_list (update (has_id id) f) l = None.
Proof.
  intros Hl. apply update_list_None. rewrite forallb_forall in Hl.
  apply list.Forall_forall. intros k Hk. by apply update_inert, Hl, list_elem_of_In.
Qed.

Lemma textContent_text_nodes tag attrs s : textContent (Element tag attrs (text_nodes s)) = s.
Proof.
  assert (∀ s, s +:+ "" = s) as Happ.
  { intros l. induction l as [|c l IH]; [done|]. change (String c (l +:+ "") = String c l). by rewrite IH. }
  unfold text_nodes. destruct (String.eqb_spec s "") as [->|]; [done|]. apply Happ.
Qed.

Lemma skeleton_text_nodes s : flat_map skeleton (text_nodes s) = [].
Proof. unfold text_nodes. by destruct (String.eqb s ""). Qed.

Lemma inert_text_nodes s : forallb inert (text_nodes s) = true.
Proof. unfold text_nodes. by destruct (String.eqb s ""). Qed.
