(* ===== verification/Dashboard.v ===== *)
(** * The dashboard page ([src/src/stats/http.rs], [DASHBOARD_HTML])

    The body of the page as a document and its script as operations on it: the
    number formats, the lists and tables, the spark line and [tick], which a
    timer starts every second and which goes on when its two requests are
    answered.  What the browser does - the timer, the requests, the canvas, the
    style sheet - is a parameter or an event. *)
From Stdlib Require Import QArith Qround.
From S2P Require Import Prelude Fmt Types DnsCache Stats Number Dom.

(** ** Formats *)

Definition units : list string := ["B"; "kB"; "MB"; "GB"; "TB"].

(** The loop; [more] is how far [i] is from the last unit. *)
Fixpoint scale (n : Q) (i more : nat) : Q * nat :=
  match more with
  | O => (n, i)
  | S more => if Qle_bool 1000 n then scale (double (n / 1000)) (S i) more else (n, i)
  end.

Definition fmtBytes (n : Q) : string :=
  let '(n, i) := scale n 0 (length units - 1) in
  let v :=
    if (i <? 2)%nat then number_to_string (math_round n)
    else if negb (Qle_bool 10 n) then to_fixed 2 n
    else if negb (Qle_bool 100 n) then to_fixed 1 n
    else number_to_string (math_round n) in
  v +:+ " " +:+ nth i units "".

Definition fmtRate (bps : Q) : string :=
  if negb (Qle_bool 1 bps) then "0 B/s" else fmtBytes bps +:+ "/s".

(** The remainders of integers are exact. *)
Definition fmtUptime (s : Z) : string :=
  let d := Qfloor (double (inject_Z s / 86400)) in
  let h := Qfloor (double (inject_Z (s mod 86400) / 3600)) in
  let m := Qfloor (double (inject_Z (s mod 3600) / 60)) in
  let sec := (s mod 60)%Z in
  let part n u := if (n =? 0)%Z then [] else [number_to_string n +:+ u] in
  Fmt.join " " (part d "d" ++ part h "h" ++ part m "m" ++ [number_to_string sec +:+ "s"]).

(** ** Values

    The answers of the endpoint are read back as the records they were made
    from; their integers become doubles. *)
Inductive js_value : Type :=
  | VStr (s : string) | VNum (z : Z) | VBool (b : bool).

Definition js_String (v : js_value) : string :=
  match v with
  | VStr s => s
  | VNum z => number_to_string z
  | VBool b => if b then "true" else "false"
  end.

(** The integer [JSON.parse] makes of a count. *)
Definition num (n : N) : Z := Qfloor (double_of_N n).

(** [s || other] on strings. *)
Definition or_else (s other : string) : string := if String.eqb s "" then other else s.

(** The serializers write addresses as [Display] does. *)
Definition ip_to_string (ip : IpAddr) : string :=
  match ip with
  | IpV4 a => ipv4_to_string (vec_to_list a)
  | IpV6 a => ipv6_to_string a
  end.

(** ** The page *)

(** The places the script writes to. *)
Inductive slot : Type :=
  | Meta | ServerList | ConnectionsList | DnsList | TrafficList | SparkMin | SparkMax | ErrorsList
  | PerIpTable | NamesTable | ClientsTable.

#[global] Instance slot_eq_dec : EqDecision slot.
Proof. solve_decision. Defined.

Definition slot_id (s : slot) : string :=
  match s with
  | Meta => "meta" | ServerList => "server" | ConnectionsList => "connections" | DnsList => "dns"
  | TrafficList => "traffic" | SparkMin => "spark-min" | SparkMax => "spark-max"
  | ErrorsList => "errors" | PerIpTable => "per-ip" | NamesTable => "names"
  | ClientsTable => "clients"
  end.

Definition el (tag : string) (attrs : list (string * string)) (kids : list node) : node :=
  Element tag attrs kids.

Definition kv_list (s : slot) (kids : list node) : node :=
  el "dl" [("class", "kv"); ("id", slot_id s)] kids.

Definition table (s : slot) (kids : list node) : node :=
  el "div" [("class", "table-wrap")] [el "table" [("id", slot_id s)] [el "tbody" [] kids]].

Definition card (attrs title : string) (content : list node) : node :=
  el "div" [("class", attrs)] (el "h2" [] [Text title] :: content).

(** The body, white space between elements left out, with the class of the dot
    and what the places hold. *)
Definition layout (dot : string) (c : slot → list node) : node :=
  el "body" [] [
    el "header" [] [
      el "div" [("class", "brand")] [
        el "span" [("class", dot); ("id", "dot")] [];
        el "span" [("class", "mark")] [Text "📡"];
        el "h1" [] [Text "merino "; el "span" [("class", "thin")] [Text "live dashboard"]]];
      el "div" [("class", "sub"); ("id", "meta")] (c Meta)];
    el "div" [("class", "grid")] [
      card "card" "Server" [kv_list ServerList (c ServerList)];
      card "card" "Connections" [kv_list ConnectionsList (c ConnectionsList)];
      card "card" "DNS cache" [kv_list DnsList (c DnsList)];
      card "card" "Traffic" [kv_list TrafficList (c TrafficList)];
      card "card" "Active connections" [
        el "canvas" [("id", "spark"); ("width", "600"); ("height", "64")] [];
        el "div" [("class", "spark-meta")] [
          el "span" [("id", "spark-min")] (c SparkMin);
          el "span" [("id", "spark-max")] (c SparkMax)]];
      card "card" "Errors" [kv_list ErrorsList (c ErrorsList)];
      card "card" "Active per IP" [table PerIpTable (c PerIpTable)];
      card "card" "Cached names" [table NamesTable (c NamesTable)];
      card "card wide" "Clients" [table ClientsTable (c ClientsTable)]]].

(** As it is served. *)
Definition served_contents (s : slot) : list node :=
  match s with
  | Meta => [Text "connecting…"]
  | SparkMin => [Text "min 0"]
  | SparkMax => [Text "max 0"]
  | _ => []
  end.

(** ** The state of the script *)

Inductive canvas_op : Type :=
  | ClearRect (x y w h : Q) | BeginPath | MoveTo (x y : Q) | LineTo (x y : Q) | ClosePath
  | StrokeStyle (style : string) | LineWidth (w : Q) | Stroke | FillStyle (style : string) | Fill.

Record Last := { l_up : Z; l_down : Z; l_t : Z }.

Record Page := {
  document : node;
  activeHistory : list Z;
  last : Last;
  canvas : list canvas_op
}.

Definition SPARK_LEN : nat := 60.

Definition page : Page :=
  {| document := layout "dot" served_contents;
     activeHistory := replicate SPARK_LEN 0%Z;
     last := {| l_up := 0; l_down := 0; l_t := 0 |};
     canvas := [] |}.

(** A statement of the script: it returns, or throws, what it did before stays. *)
Definition js (A : Type) : Type := Page → option A * Page.

#[global] Instance js_ret : MRet js := λ _ a p, (Some a, p).
#[global] Instance js_bind : MBind js := λ _ _ k m p,
  match m p with
  | (Some a, p) => k a p
  | (None, p) => (None, p)
  end.

Definition throw {A} : js A := λ p, (None, p).
Definition gets {A} (f : Page → A) : js A := λ p, (Some (f p), p).

Definition set_document (d : node) (p : Page) : Page :=
  {| document := d; activeHistory := activeHistory p; last := last p; canvas := canvas p |}.
Definition set_history (h : list Z) : js unit := λ p,
  (Some (), {| document := document p; activeHistory := h; last := last p; canvas := canvas p |}).
Definition set_last (l : Last) : js unit := λ p,
  (Some (), {| document := document p; activeHistory := activeHistory p; last := l;
               canvas := canvas p |}).
Definition draw (ops : list canvas_op) : js unit := λ p,
  (Some (), {| document := document p; activeHistory := activeHistory p; last := last p;
               canvas := canvas p ++ ops |}).

(** A change of the document; without the element it is a [TypeError]. *)
Definition on_document (f : node → option node) : js unit := λ p,
  match f (document p) with
  | Some d => (Some (), set_document d p)
  | None => (None, p)
  end.

Fixpoint for_each {A} (body : A → js unit) (l : list A) : js unit :=
  match l with
  | [] => mret ()
  | x :: l => body x ;; for_each body l
  end.

(** ** Lists and tables *)

Definition setKV (id : string) (pairs : list (string * js_value)) : js unit :=
  on_document (at_id id (set_textContent "")) ;;
  for_each (λ pair,
    let dt := set_textContent (pair.1 +:+ ":") (createElement "dt") in
    let dd := set_textContent (js_String pair.2) (createElement "dd") in
    on_document (at_id id (append [dt; dd]))) pairs.

Definition setRows (id : string) (cols : nat) (rows : list (list js_value)) : js unit :=
  on_document (at_id_tag id "tbody" (set_textContent "")) ;;
  match rows with
  | [] =>
      let td := set_textContent "none"
                  (set_attr "colspan" (dec (N.of_nat cols))
                     (set_attr "class" "empty" (createElement "td"))) in
      on_document (at_id_tag id "tbody" (append [append [td] (createElement "tr")]))
  | _ =>
      for_each (λ row,
        let cells := (λ v, set_textContent (js_String v) (createElement "td")) <$> row in
        on_document (at_id_tag id "tbody"
          (append [fold_left (λ tr td, append [td] tr) cells (createElement "tr")]))) rows
  end.

(** ** The spark line *)

Class Browser := {
  get_context : bool;
  accent_style : string
}.

Definition Qmax0 (q : Q) : Q := if Qle_bool 0 q then q else 0.

Section script.
Context `{!Browser}.

(** The [width] and [height] of the canvas. *)
Definition canvas_w : Q := 600.
Definition canvas_h : Q := 64.

Definition lowest (l : list Z) : Z := fold_left (λ lo v, if (v <? lo)%Z then v else lo) (tl l) (hd 0%Z l).
Definition highest (l : list Z) : Z := fold_left (λ hi v, if (hi <? v)%Z then v else hi) (tl l) (hd 0%Z l).

(** The bottom and the height of the shown range. *)
Definition spark_range (lo hi : Z) : Q * Q :=
  let pad := double (double (inject_Z hi - inject_Z lo) * double (15 # 100)) in
  let ymin := Qmax0 (double (inject_Z lo - pad)) in
  let ymax := double (inject_Z hi + pad) in
  let ymax := if negb (Qle_bool (double (1 # 10000)) (double (ymax - ymin)))
              then double (ymin + 1) else ymax in
  (ymin, double (ymax - ymin)).

(** The range is not empty for counts below 2^52, so the division is one of
    numbers. *)
Definition spark_point (ymin span : Q) (j : nat) (v : Z) : Q * Q :=
  (double (double (inject_Z (Z.of_nat j) / inject_Z (Z.of_nat (SPARK_LEN - 1))) * canvas_w),
   double (double (canvas_h - 2) -
           double (double (double (inject_Z v - ymin) / span) * double (canvas_h - 4)))).

Definition spark_line (history : list Z) : list (Q * Q) :=
  let '(ymin, span) := spark_range (lowest history) (highest history) in
  imap (spark_point ymin span) history.

Definition spark_ops (history : list Z) : list canvas_op :=
  [ClearRect 0 0 canvas_w canvas_h; BeginPath] ++
  imap (λ j p, if (j =? 0)%nat then MoveTo p.1 p.2 else LineTo p.1 p.2) (spark_line history) ++
  [StrokeStyle (or_else accent_style "#4fc3f7"); LineWidth (3 # 2); Stroke;
   LineTo canvas_w canvas_h; LineTo 0 canvas_h; ClosePath;
   FillStyle "rgba(79, 195, 247, 0.12)"; Fill].

Definition drawSpark : js unit :=
  on_document (at_id "spark" (λ n, n)) ;;
  if negb get_context then mret () else
  history ← gets activeHistory;
  draw (spark_ops history) ;;
  on_document (at_id "spark-min" (set_textContent ("min " +:+ number_to_string (lowest history)))) ;;
  on_document (at_id "spark-max" (set_textContent ("max " +:+ number_to_string (highest history)))).

(** ** [tick] *)

(** What its two requests come to; [None] when one of them fails or its answer
    is not JSON. *)
Definition fetched : Type := option (Snapshot * list ClientView).

Definition started_text (unix : u64) : option string :=
  iso ← to_iso_string (Qfloor (double (inject_Z (num unix) * 1000)));
  let s := String.substring 0 19 iso in
  Some ((match String.index 0 "T" s with
         | Some i => String.substring 0 i s +:+ " " +:+
                     String.substring (S i) (String.length s - S i) s
         | None => s
         end) +:+ "Z").

Definition VCount (n : N) : js_value := VNum (num n).
Definition count_text (n : N) : string := number_to_string (num n).

Definition connections_pairs (c : ConnectionsSnapshot) : list (string * js_value) :=
  [("active", VCount (cs_active c));
   ("accepted total", VCount (cs_accepted_total c));
   ("refused (per-IP)", VCount (cs_refused_per_ip_total c));
   ("handshake timeouts", VCount (cs_handshake_timeouts c));
   ("auth failures", VCount (cs_auth_failures c));
   ("disconnects", VCount (cs_disconnects c))].

Definition dns_pairs (d : DnsSnapshot) : list (string * js_value) :=
  [("enabled", VBool (ds_enabled d));
   ("entries", VStr (count_text (N.of_nat (ds_entries d)) +:+ " / " +:+
                     count_text (N.of_nat (ds_max_entries d))));
   ("ttl", VStr (count_text (ds_ttl_secs d) +:+ "s"));
   ("hits", VCount (ds_hits d));
   ("misses", VCount (ds_misses d));
   ("inserts", VCount (ds_inserts d));
   ("evictions", VCount (ds_evictions d));
   ("expired", VCount (ds_expired_dropped d))].

Definition traffic_pairs (t : TrafficSnapshot) (rateUp rateDown : Q) : list (string * js_value) :=
  [("client → target", VStr (fmtBytes (inject_Z (num (ts_bytes_client_to_target t)))));
   ("target → client", VStr (fmtBytes (inject_Z (num (ts_bytes_target_to_client t)))));
   ("rate up", VStr (fmtRate rateUp));
   ("rate down", VStr (fmtRate rateDown));
   ("udp datagrams", VCount (ts_udp_datagrams t));
   ("CONNECT", VCount (rq_connect (ts_requests t)));
   ("BIND", VCount (rq_bind (ts_requests t)));
   ("UDP ASSOCIATE", VCount (rq_udp_associate (ts_requests t)))].

Definition errors_pairs (errors : list ErrorSnapshot) : list (string * js_value) :=
  match errors with
  | [] => [("none", VNum 0)]
  | _ => (λ e, (es_name e, VCount (es_count e))) <$> errors
  end.

Definition ip_cells (r : IpCount) : list js_value :=
  [VStr (ip_to_string (ic_ip r)); VCount (ic_count r)].

Definition name_cells (n : DnsName) : list js_value :=
  [VStr (dn_name n); VStr (count_text (dn_expires_in_secs n) +:+ "s")].

Definition client_cells (cl : ClientView) : list js_value :=
  [VCount (cv_id cl); VStr (SocketAddr_to_string (cv_peer cl)); VStr (cv_state cl);
   VStr (match cv_command cl with Some c => or_else c "—" | None => "—" end);
   VStr (fmtBytes (inject_Z (num (cv_bytes_client_to_target cl))));
   VStr (fmtBytes (inject_Z (num (cv_bytes_target_to_client cl))));
   VStr (count_text (cv_elapsed_secs cl) +:+ "s")].

(** The rate of a total since the last time. *)
Definition rate (total before : Z) (dt : Q) : Q :=
  double (Qmax0 (double (inject_Z total - inject_Z before)) / dt).

(** What follows [await]: [now] is when this call began. *)
Definition resume (now : Z) (responses : fetched) : js unit :=
  match responses with
  | None => on_document (at_id "dot" (set_attr "class" "dot off"))
  | Some (s, clients) =>
      on_document (at_id "dot" (set_attr "class" "dot")) ;;
      history ← gets activeHistory;
      set_history (tl (history ++ [num (cs_active (snap_connections s))])) ;;
      drawSpark ;;
      last ← gets last;
      let traffic := snap_traffic s in
      let up := num (ts_bytes_client_to_target traffic) in
      let down := num (ts_bytes_target_to_client traffic) in
      let elapsed := double (double (inject_Z (now - l_t last)) / 1000) in
      let '(rateUp, rateDown, delta) :=
        if (l_t last =? 0)%Z then (0%Q, 0%Q, 0%Z) else
        let dt := if Qle_bool 1 elapsed then elapsed else 1%Q in
        (rate up (l_up last) dt, rate down (l_down last) dt, math_round elapsed) in
      set_last {| l_up := up; l_down := down; l_t := now |} ;;
      on_document (at_id "meta" (set_textContent
        ("uptime " +:+ fmtUptime (num (ss_uptime_secs (snap_server s))) +:+
         "  ·  updated " +:+ number_to_string delta +:+ "s ago" +:+
         "  ·  v" +:+ ss_version (snap_server s)))) ;;
      match started_text (ss_started_at_unix (snap_server s)) with
      | None => throw
      | Some started =>
          setKV "server" [("listeners", VStr (or_else (Fmt.join ", " (ss_listeners (snap_server s))) "—"));
                          ("started", VStr started)] ;;
          setKV "connections" (connections_pairs (snap_connections s)) ;;
          setKV "dns" (dns_pairs (snap_dns s)) ;;
          setKV "traffic" (traffic_pairs traffic rateUp rateDown) ;;
          setKV "errors" (errors_pairs (snap_errors s)) ;;
          setRows "per-ip" 2 (ip_cells <$> cs_active_per_ip (snap_connections s)) ;;
          setRows "names" 2 (name_cells <$> ds_names (snap_dns s)) ;;
          setRows "clients" 7 (client_cells <$> clients)
      end
  end.

(** ** The page over time

    The timer starts a call of [tick] every second whether or not the calls
    before it have been answered; their answers come in any order. *)
Record Tab := { shown : Page; waiting : list Z }.

Inductive tab_step : Tab → Tab → Prop :=
  | TTick now tab :
      tab_step tab {| shown := shown tab; waiting := waiting tab ++ [now] |}
  | TAnswer i now responses tab :
      waiting tab !! i = Some now →
      tab_step tab {| shown := (resume now responses (shown tab)).2;
                      waiting := delete i (waiting tab) |}.

Definition opened : Tab := {| shown := page; waiting := [] |}.
Definition tab_reachable : Tab → Tab → Prop := rtc tab_step.
End script.

(** ** Writing to a place of the page *)

Definition is_table (s : slot) : bool :=
  match s with PerIpTable | NamesTable | ClientsTable => true | _ => false end.

(** Where the script finds the place. *)
Definition at_slot (s : slot) : (node → node) → node → option node :=
  if is_table s then at_id_tag (slot_id s) "tbody" else at_id (slot_id s).

(** Looking for an element of a document whose contents cannot be found:
    evaluation, with what is known of the contents. *)
Ltac find_element c Hc :=
  unfold at_id, at_id_tag;
  match goal with
  | |- update (has_id ?id) ?f _ = _ =>
      let H := fresh in
      pose proof (λ s, update_list_inert id f (c s) (Hc s)) as H;
      lazy -[fn_insert] in H; lazy -[fn_insert]; rewrite ?H; reflexivity
  end.

Lemma layout_slot s f dot c :
  (∀ s, forallb inert (c s) = true) →
  at_slot s (on_kids f) (layout dot c) = Some (layout dot (<[s := f (c s)]> c)).
Proof. intros Hc. destruct s; cbn [at_slot is_table slot_id]; find_element c Hc. Qed.

Lemma layout_dot class dot c :
  at_id "dot" (set_attr "class" class) (layout dot c) = Some (layout class c).
Proof. reflexivity. Qed.

Lemma layout_spark dot c :
  (∀ s, forallb inert (c s) = true) → at_id "spark" (λ n, n) (layout dot c) = Some (layout dot c).
Proof.
  intros Hc. find_element c Hc.
Qed.
