(* ===== verification/Html.v ===== *)
(** * From the text of the page to its document ([src/src/stats/http.rs])

    A browser reads the page of [PageText] into the document that [Dashboard]
    works on.  As much of HTML as the page uses: tags and attributes, void
    elements, the raw text of scripts and style sheets, character references.
    White space between elements and the script element itself, which shows
    nothing, are left out of the document. *)
From S2P Require Import Prelude Fmt Utf8 PageText Number Dom Dashboard.

(** ** Bytes *)

(** Up to the first byte that satisfies [p], and from there on. *)
Fixpoint split_at_first (p : u8 → bool) (l : list u8) : list u8 * list u8 :=
  match l with
  | [] => ([], [])
  | b :: l' => if p b then ([], l) else let '(x, y) := split_at_first p l' in (b :: x, y)
  end.

Definition is_byte (c b : u8) : bool := bool_decide (c = b).
Definition is_space (b : u8) : bool := is_byte x20 b || is_byte x0a b.

(** ** Tokens *)

Inductive token : Type :=
  | Open (tag : string) (attrs : list (string * string))
  | Close (tag : string)
  | Chars (data : string).

(** [&#n;] and the named references of the page. *)
Definition reference (name : list u8) : list u8 :=
  match name with
  | x23 :: digits =>
      encode [fold_left (λ n d, n * 10 + (Byte.to_N d - 48))%N digits 0%N]
  | _ =>
      if bool_decide (name = as_bytes "hellip") then encode [8230%N]
      else if bool_decide (name = as_bytes "amp") then [x26]
      else x26 :: name ++ [x3b]
  end.

Fixpoint decode_text (fuel : nat) (l : list u8) : list u8 :=
  match fuel with
  | 0 => l
  | S fuel =>
      match split_at_first (is_byte x26) l with
      | (before, _ :: l) =>
          let '(name, l) := split_at_first (is_byte x3b) l in
          before ++ reference name ++ decode_text fuel (tail l)
      | (before, []) => before
      end
  end.

Definition text_of (l : list u8) : string := of_bytes (decode_text (length l) l).

(** The attributes of a tag: names, with a value in quotation marks or none. *)
Fixpoint attributes (fuel : nat) (l : list u8) : list (string * string) :=
  match fuel with
  | 0 => []
  | S fuel =>
      match l with
      | [] => []
      | b :: l' =>
          if is_space b then attributes fuel l'
          else
            let '(name, l) := split_at_first (λ b, is_byte x3d b || is_space b) l in
            match l with
            | x3d :: x22 :: l =>
                let '(value, l) := split_at_first (is_byte x22) l in
                (of_bytes name, text_of value) :: attributes fuel (tail l)
            | _ => (of_bytes name, "") :: attributes fuel l
            end
      end
  end.

Definition is_raw (tag : string) : bool := String.eqb tag "script" || String.eqb tag "style".
Definition is_void (tag : string) : bool := String.eqb tag "meta" || String.eqb tag "link".

(** The text of a script or style sheet: up to the next end tag. *)
Fixpoint raw_text (l : list u8) : list u8 * list u8 :=
  match l with
  | [] => ([], [])
  | b :: l' =>
      match b, l' with
      | x3c, x2f :: _ => ([], l)
      | _, _ => let '(x, y) := raw_text l' in (b :: x, y)
      end
  end.

(** Every token takes a byte, so the length of the text is fuel enough. *)
Fixpoint tokenize (fuel : nat) (l : list u8) : list token :=
  match fuel with
  | 0 => []
  | S fuel =>
      match l with
      | [] => []
      | x3c :: x21 :: l => tokenize fuel (tail (split_at_first (is_byte x3e) l).2)
      | x3c :: x2f :: l =>
          let '(tag, l) := split_at_first (is_byte x3e) l in
          Close (of_bytes tag) :: tokenize fuel (tail l)
      | x3c :: l =>
          let '(inside, l) := split_at_first (is_byte x3e) l in
          let '(tag, attrs) := split_at_first is_space inside in
          let open := Open (of_bytes tag) (attributes (length attrs) attrs) in
          if is_raw (of_bytes tag) then
            let '(raw, l) := raw_text (tail l) in open :: Chars (of_bytes raw) :: tokenize fuel l
          else open :: tokenize fuel (tail l)
      | _ =>
          let '(data, l) := split_at_first (is_byte x3c) l in
          Chars (text_of data) :: tokenize fuel l
      end
  end.

(** ** The tree *)

(** The elements that are open, innermost first, with what came before in each. *)
Fixpoint build (tokens : list token) (open : list (string * list (string * string) * list node))
    (kids : list node) : option (list node) :=
  match tokens with
  | [] => match open with [] => Some kids | _ => None end
  | Open tag attrs :: tokens =>
      if is_void tag then build tokens open (kids ++ [Element tag attrs []])
      else build tokens ((tag, attrs, kids) :: open) []
  | Close tag :: tokens =>
      match open with
      | (tag', attrs, before) :: open =>
          if String.eqb tag tag' then build tokens open (before ++ [Element tag attrs kids]) else None
      | [] => None
      end
  | Chars data :: tokens =>
      build tokens open (if all_chars is_space data then kids else kids ++ [Text data])
  end.

Definition parse_html (text : list u8) : option (list node) :=
  build (tokenize (length text) text) [] [].

Definition drop_scripts (n : node) : node :=
  on_kids (List.filter (λ k, negb (has_tag "script" k))) n.

(** The body of the page. *)
Definition document_of (text : list u8) : option node :=
  nodes ← parse_html text;
  html ← List.find (has_tag "html") nodes;
  drop_scripts <$> List.find (has_tag "body") (kids_of html).

(** The text of its script. *)
Definition script_of (text : list u8) : option string :=
  nodes ← parse_html text;
  html ← List.find (has_tag "html") nodes;
  body ← List.find (has_tag "body") (kids_of html);
  textContent <$> List.find (has_tag "script") (kids_of body).

(** ** The page is the document of [Dashboard] *)

Lemma document_of_dashboard : document_of DASHBOARD_HTML = Some (document page).
Proof. vm_compute. reflexivity. Qed.

(** The script is all of the text between its tags. *)
Lemma script_of_dashboard : script_of DASHBOARD_HTML = Some (of_bytes (x0a :: HTML_SCRIPT)).
Proof. vm_compute. reflexivity. Qed.

(** The ways in which a script makes markup or code of a string. *)
Definition markup_sinks : list string :=
  ["innerHTML"; "outerHTML"; "insertAdjacentHTML"; "document.write"; "createContextualFragment";
   "setAttribute"; "srcdoc"; "eval("; "Function("].

(** The script of the page uses none of them: [DashboardSpec.page_no_injection]
    is about a script that only sets texts, classes and a number of columns. *)
Lemma script_without_sinks :
  forallb (λ sink, match String.index 0 sink (of_bytes HTML_SCRIPT) with
                   | Some _ => false | None => true end) markup_sinks = true.
Proof. vm_compute. reflexivity. Qed.
