(* ===== verification/DashboardSpec.v ===== *)
(** * What the dashboard page shows

    Whatever the calls of [tick] are answered, and in whatever order: the markup
    of the page depends only on how many rows there are to show, the proxied data
    stays text; a call that is answered with the statistics shows them. *)
From Stdlib Require Import QArith Qround Lqa.
From S2P Require Import Prelude Fmt Types DnsCache Stats Number Dom Dashboard.

(** ** What a place holds *)

Definition kv_nodes (pairs : list (string * js_value)) : list node :=
  flat_map (λ p, [Element "dt" [] (text_nodes (p.1 +:+ ":"));
                  Element "dd" [] (text_nodes (js_String p.2))]) pairs.

Definition cell_node (v : js_value) : node := Element "td" [] (text_nodes (js_String v)).
Definition row_node (row : list js_value) : node := Element "tr" [] (cell_node <$> row).

Definition none_node (cols : nat) : node :=
  Element "tr" [] [Element "td" [("class", "empty"); ("colspan", dec (N.of_nat cols))] [Text "none"]].

Definition row_nodes (cols : nat) (rows : list (list js_value)) : list node :=
  match rows with [] => [none_node cols] | _ => row_node <$> rows end.

(** The document is the page with this dot and these contents. *)
Definition shows (p : Page) (dot : string) (c : slot → list node) : Prop :=
  document p = layout dot c ∧ ∀ s, forallb inert (c s) = true.

(** [p'] is [p] with another document. *)
Definition same_script (p p' : Page) : Prop :=
  activeHistory p' = activeHistory p ∧ last p' = last p ∧ canvas p' = canvas p.

#[global] Instance same_script_trans : Transitive same_script.
Proof. intros p q r (? & ? & ?) (? & ? & ?). split_and!; congruence. Qed.

Lemma layout_ext dot c c' : (∀ s, c s = c' s) → layout dot c = layout dot c'.
Proof. intros H. unfold layout. by rewrite !H. Qed.

Lemma shows_ext p dot c c' : (∀ s, c s = c' s) → shows p dot c → shows p dot c'.
Proof.
  intros H [Hd Hi]. split; [by rewrite Hd; apply layout_ext|]. intros s. by rewrite <- H.
Qed.

Lemma inert_insert s kids (c : slot → list node) :
  forallb inert kids = true → (∀ s, forallb inert (c s) = true) →
  ∀ s', forallb inert (<[s := kids]> c s') = true.
Proof.
  intros Hk Hc s'. destruct (decide (s = s')) as [<-|]; [by rewrite fn_lookup_insert|].
  by rewrite fn_lookup_insert_ne.
Qed.

(** One change of a place. *)
Lemma slot_step s f p dot c :
  shows p dot c → forallb inert (f (c s)) = true →
  ∃ p', on_document (at_slot s (on_kids f)) p = (Some (), p') ∧
        shows p' dot (<[s := f (c s)]> c) ∧ same_script p p'.
Proof.
  intros [Hd Hi] Hf. eexists. unfold on_document. rewrite Hd, layout_slot by done.
  split; [done|]. split; [split; [done|by apply inert_insert]|done].
Qed.

(** Appending what [body] makes of each element, one after the other. *)
Lemma for_each_append {A} s (build : A → list node) (body : A → js unit) l p dot c :
  (∀ x, body x = on_document (at_slot s (append (build x)))) →
  (∀ x, forallb inert (build x) = true) → shows p dot c →
  ∃ p', for_each body l p = (Some (), p') ∧
        shows p' dot (<[s := c s ++ flat_map build l]> c) ∧ same_script p p'.
Proof.
  intros Hb Hbuild. revert p c. induction l as [|x l IH]; intros p c Hp.
  - exists p. split; [done|]. split; [|done].
    eapply shows_ext; [|exact Hp]. intros s'. cbn [flat_map]. rewrite app_nil_r.
    destruct (decide (s = s')) as [<-|]; [by rewrite fn_lookup_insert|by rewrite fn_lookup_insert_ne].
  - destruct (slot_step s (λ kids, kids ++ build x) p dot c Hp) as (p1 & E1 & H1 & S1).
    { rewrite forallb_app. apply andb_true_iff. split; [apply Hp|apply Hbuild]. }
    destruct (IH p1 _ H1) as (p2 & E2 & H2 & S2). exists p2. split.
    + cbn [for_each]. unfold mbind, js_bind. rewrite Hb. unfold append. by rewrite E1.
    + split; [|by trans p1]. eapply shows_ext; [|exact H2]. intros s'. cbn [flat_map].
      destruct (decide (s = s')) as [<-|].
      * by rewrite !fn_lookup_insert, <- app_assoc.
      * by rewrite !fn_lookup_insert_ne.
Qed.

Lemma inert_flat_map {A} (build : A → list node) l :
  (∀ x, forallb inert (build x) = true) → forallb inert (flat_map build l) = true.
Proof. intros H. induction l as [|x l IH]; [done|]. cbn. rewrite forallb_app, H. done. Qed.

Lemma kv_inert pair :
  forallb inert [Element "dt" [] (text_nodes (pair.1 +:+ ":"));
                 Element "dd" [] (text_nodes (js_String pair.2 : string))] = true.
Proof. simpl. by rewrite !inert_text_nodes. Qed.

Lemma row_inert row : inert (row_node row) = true.
Proof.
  unfold row_node. simpl. induction row as [|v row IH]; [done|]. simpl.
  by rewrite inert_text_nodes.
Qed.

(** [setKV] and [setRows] replace what the place holds. *)
Lemma setKV_shows s pairs p dot c :
  is_table s = false → shows p dot c →
  ∃ p', setKV (slot_id s) pairs p = (Some (), p') ∧
        shows p' dot (<[s := kv_nodes pairs]> c) ∧ same_script p p'.
Proof.
  intros Hs Hp. unfold setKV.
  destruct (slot_step s (λ _, text_nodes "") p dot c Hp eq_refl) as (p1 & E1 & H1 & S1).
  destruct (for_each_append s
    (λ pair, [Element "dt" [] (text_nodes (pair.1 +:+ ":"));
              Element "dd" [] (text_nodes (js_String pair.2 : string))])
    (λ pair, on_document (at_id (slot_id s)
       (append [set_textContent (pair.1 +:+ ":") (createElement "dt");
                set_textContent (js_String pair.2) (createElement "dd")])))
    pairs p1 dot _ ltac:(by unfold at_slot; rewrite Hs) kv_inert H1) as (p2 & E2 & H2 & S2).
  exists p2. unfold at_slot in E1. rewrite Hs in E1. unfold mbind, js_bind.
  unfold set_textContent at 1. rewrite E1. split; [exact E2|]. split; [|by trans p1].
  eapply shows_ext; [|exact H2]. intros s'. destruct (decide (s = s')) as [<-|].
  - rewrite !fn_lookup_insert. done.
  - by rewrite !fn_lookup_insert_ne.
Qed.

Lemma fold_append_kids tr l :
  fold_left (λ tr td, append [td] tr) l tr = on_kids (λ kids, kids ++ l) tr.
Proof.
  revert tr. induction l as [|td l IH]; intros tr; cbn [fold_left].
  - destruct tr; [done|]. simpl. by rewrite app_nil_r.
  - rewrite IH. destruct tr; [done|]. simpl. by rewrite <- app_assoc.
Qed.

Lemma built_row row :
  fold_left (λ tr td, append [td] tr)
    ((λ v, set_textContent (js_String v) (createElement "td")) <$> row) (createElement "tr") =
  row_node row.
Proof. by rewrite fold_append_kids. Qed.

Lemma setRows_shows s cols rows p dot c :
  is_table s = true → shows p dot c →
  ∃ p', setRows (slot_id s) cols rows p = (Some (), p') ∧
        shows p' dot (<[s := row_nodes cols rows]> c) ∧ same_script p p'.
Proof.
  intros Hs Hp. unfold setRows.
  destruct (slot_step s (λ _, text_nodes "") p dot c Hp eq_refl) as (p1 & E1 & H1 & S1).
  unfold at_slot in E1. rewrite Hs in E1. unfold mbind, js_bind.
  unfold set_textContent at 1. rewrite E1.
  assert (∀ kids p2, shows p2 dot (<[s := kids]> (<[s := text_nodes ""]> c)) →
            shows p2 dot (<[s := kids]> c)) as Hext.
  { intros kids p2. apply shows_ext. intros s'.
    destruct (decide (s = s')) as [<-|]; [by rewrite !fn_lookup_insert|by rewrite !fn_lookup_insert_ne]. }
  destruct rows as [|row rows].
  - destruct (slot_step s (λ kids, kids ++ [none_node cols]) p1 dot _ H1) as (p2 & E2 & H2 & S2).
    { by rewrite fn_lookup_insert. }
    unfold at_slot in E2. rewrite Hs in E2. exists p2. split; [exact E2|]. split; [|by trans p1].
    rewrite fn_lookup_insert in H2. by apply Hext.
  - destruct (for_each_append s (λ row, [row_node row])
      (λ row, on_document (at_id_tag (slot_id s) "tbody"
         (append [fold_left (λ tr td, append [td] tr)
            ((λ v, set_textContent (js_String v) (createElement "td")) <$> row)
            (createElement "tr")]))) (row :: rows) p1 dot (<[s := text_nodes ""]> c)) as (p2 & E2 & H2 & S2);
      [|by intros r; cbn [forallb]; rewrite row_inert|exact H1|].
    { intros r. unfold at_slot. rewrite Hs. by rewrite built_row. }
    exists p2. split; [exact E2|]. split; [|by trans p1].
    rewrite fn_lookup_insert in H2. apply Hext in H2. eapply shows_ext; [|exact H2]. intros s'.
    destruct (decide (s = s')) as [<-|]; [|by rewrite !fn_lookup_insert_ne].
    rewrite !fn_lookup_insert. cbn [row_nodes]. clear. induction (row :: rows) as [|r l IH]; [done|].
    cbn in *. by f_equal.
Qed.

Lemma set_text_shows s t p dot c :
  is_table s = false → shows p dot c →
  ∃ p', on_document (at_id (slot_id s) (set_textContent t)) p = (Some (), p') ∧
        shows p' dot (<[s := text_nodes t]> c) ∧ same_script p p'.
Proof.
  intros Hs Hp. destruct (slot_step s (λ _, text_nodes t) p dot c Hp) as (p' & E & H).
  { apply inert_text_nodes. }
  exists p'. unfold at_slot in E. rewrite Hs in E. by split.
Qed.

Lemma js_bind_ok {A B} (m : js A) (k : A → js B) p a p' :
  m p = (Some a, p') → (m ≫= k) p = k a p'.
Proof. unfold mbind, js_bind. by intros ->. Qed.

(** ** A call of [tick] *)

(** The places that hold a line of text. *)
Definition is_text (s : slot) : bool :=
  match s with Meta | SparkMin | SparkMax => true | _ => false end.

Section tick.
Context `{!Browser}.

Lemma drawSpark_shows p dot c :
  shows p dot c →
  ∃ p' c', drawSpark p = (Some (), p') ∧ shows p' dot c' ∧
    activeHistory p' = activeHistory p ∧ last p' = last p ∧
    (∀ s, s ≠ SparkMin → s ≠ SparkMax → c' s = c s) ∧
    (∀ s, c' s = c s ∨ is_text s = true ∧ flat_map skeleton (c' s) = []) ∧
    if get_context then
      canvas p' = canvas p ++ spark_ops (activeHistory p) ∧
      c' SparkMin = text_nodes ("min " +:+ number_to_string (lowest (activeHistory p))) ∧
      c' SparkMax = text_nodes ("max " +:+ number_to_string (highest (activeHistory p)))
    else canvas p' = canvas p ∧ c' = c.
Proof.
  intros Hp. unfold drawSpark.
  assert (on_document (at_id "spark" (λ n, n)) p = (Some (), set_document (document p) p)) as E.
  { unfold on_document. destruct Hp as [Hd Hi]. rewrite Hd, layout_spark by done. done. }
  erewrite js_bind_ok by exact E. destruct get_context; cbn [negb].
  - set (p1 := set_document (document p) p).
    erewrite js_bind_ok by reflexivity. erewrite js_bind_ok by reflexivity.
    match goal with |- context [ (on_document _ ;; _) ?q ] => set (p2 := q) end.
    assert (shows p2 dot c) as H2 by exact Hp.
    destruct (set_text_shows SparkMin ("min " +:+ number_to_string (lowest (activeHistory p)))
      p2 dot c eq_refl H2) as (p3 & E3 & H3 & (S31 & S32 & S33)).
    destruct (set_text_shows SparkMax ("max " +:+ number_to_string (highest (activeHistory p)))
      p3 dot _ eq_refl H3) as (p4 & E4 & H4 & (S41 & S42 & S43)).
    erewrite js_bind_ok by exact E3. exists p4. eexists. split; [exact E4|]. split; [exact H4|].
    rewrite S41, S31, S42, S32, S43, S33. split_and!; try done.
    + intros s Hmin Hmax. by rewrite !fn_lookup_insert_ne.
    + intros s. destruct (decide (SparkMax = s)) as [<-|].
      { right. split; [done|]. rewrite fn_lookup_insert. apply skeleton_text_nodes. }
      rewrite fn_lookup_insert_ne by done. destruct (decide (SparkMin = s)) as [<-|].
      { right. split; [done|]. rewrite fn_lookup_insert. apply skeleton_text_nodes. }
      rewrite fn_lookup_insert_ne by done. by left.
  - eexists _, c. split; [reflexivity|]. split; [exact Hp|]. split_and!; try done. intros s. by left.
Qed.

(** What the places hold after a call that was answered with [s] and [clients]. *)
Record filled (s : Snapshot) (clients : list ClientView) (started : string)
    (c : slot → list node) : Prop := {
  f_meta : ∃ t, c Meta = text_nodes t;
  f_server : c ServerList = kv_nodes
    [("listeners", VStr (or_else (Fmt.join ", " (ss_listeners (snap_server s))) "—"));
     ("started", VStr started)];
  f_connections : c ConnectionsList = kv_nodes (connections_pairs (snap_connections s));
  f_dns : c DnsList = kv_nodes (dns_pairs (snap_dns s));
  f_traffic : ∃ up down, c TrafficList = kv_nodes (traffic_pairs (snap_traffic s) up down);
  f_errors : c ErrorsList = kv_nodes (errors_pairs (snap_errors s));
  f_per_ip : c PerIpTable = row_nodes 2 (ip_cells <$> cs_active_per_ip (snap_connections s));
  f_names : c NamesTable = row_nodes 2 (name_cells <$> ds_names (snap_dns s));
  f_clients : c ClientsTable = row_nodes 7 (client_cells <$> clients)
}.

(** The lists and tables, from the start time on. *)
Lemma fill_shows s clients started up down p dot c :
  shows p dot c → (∃ t, c Meta = text_nodes t) →
  ∃ p' c',
    (setKV "server" [("listeners", VStr (or_else (Fmt.join ", " (ss_listeners (snap_server s))) "—"));
                     ("started", VStr started)] ;;
     setKV "connections" (connections_pairs (snap_connections s)) ;;
     setKV "dns" (dns_pairs (snap_dns s)) ;;
     setKV "traffic" (traffic_pairs (snap_traffic s) up down) ;;
     setKV "errors" (errors_pairs (snap_errors s)) ;;
     setRows "per-ip" 2 (ip_cells <$> cs_active_per_ip (snap_connections s)) ;;
     setRows "names" 2 (name_cells <$> ds_names (snap_dns s)) ;;
     setRows "clients" 7 (client_cells <$> clients)) p = (Some (), p') ∧
    shows p' dot c' ∧ filled s clients started c' ∧ same_script p p' ∧
    c' SparkMin = c SparkMin ∧ c' SparkMax = c SparkMax.
Proof.
  intros H0 Hm.
  edestruct (setKV_shows ServerList) as (p1 & E1 & H1 & S1); [done|exact H0|].
  edestruct (setKV_shows ConnectionsList) as (p2 & E2 & H2 & S2); [done|exact H1|].
  edestruct (setKV_shows DnsList) as (p3 & E3 & H3 & S3); [done|exact H2|].
  edestruct (setKV_shows TrafficList) as (p4 & E4 & H4 & S4); [done|exact H3|].
  edestruct (setKV_shows ErrorsList) as (p5 & E5 & H5 & S5); [done|exact H4|].
  edestruct (setRows_shows PerIpTable) as (p6 & E6 & H6 & S6); [done|exact H5|].
  edestruct (setRows_shows NamesTable) as (p7 & E7 & H7 & S7); [done|exact H6|].
  edestruct (setRows_shows ClientsTable) as (p8 & E8 & H8 & S8); [done|exact H7|].
  eexists p8, _. split.
  { erewrite js_bind_ok by exact E1. erewrite js_bind_ok by exact E2.
    erewrite js_bind_ok by exact E3. erewrite js_bind_ok by exact E4.
    erewrite js_bind_ok by exact E5. erewrite js_bind_ok by exact E6.
    erewrite js_bind_ok by exact E7. exact E8. }
  split; [exact H8|]. split; [|split; [|split; reflexivity]].
  - destruct Hm as [t Ht]. split; try reflexivity; [by exists t|by exists up, down].
  - trans p1; [done|]. trans p2; [done|]. trans p3; [done|]. trans p4; [done|].
    trans p5; [done|]. trans p6; [done|]. by trans p7.
Qed.

Lemma dot_shows class p dot c :
  shows p dot c →
  ∃ p', on_document (at_id "dot" (set_attr "class" class)) p = (Some (), p') ∧
        shows p' class c ∧ same_script p p'.
Proof.
  intros [Hd Hi]. eexists. unfold on_document. rewrite Hd, layout_dot. done.
Qed.

(** A call that is answered: the places hold what the answer says, unless the
    start time is no date. *)
Lemma resume_shows now s clients p dot c :
  shows p dot c →
  ∃ o p' c', resume now (Some (s, clients)) p = (o, p') ∧ shows p' "dot" c' ∧
    activeHistory p' = tl (activeHistory p ++ [num (cs_active (snap_connections s))]) ∧
    last p' = {| l_up := num (ts_bytes_client_to_target (snap_traffic s));
                 l_down := num (ts_bytes_target_to_client (snap_traffic s)); l_t := now |} ∧
    match started_text (ss_started_at_unix (snap_server s)) with
    | Some started => o = Some () ∧ filled s clients started c' ∧
                      ∀ x, is_text x = true → c' x = c x ∨ flat_map skeleton (c' x) = []
    | None => o = None ∧ ∀ x, c' x = c x ∨ is_text x = true ∧ flat_map skeleton (c' x) = []
    end.
Proof.
  intros H0. unfold resume.
  destruct (dot_shows "dot" p dot c H0) as (p1 & E1 & H1 & (S11 & S12 & _)).
  erewrite js_bind_ok by exact E1.
  rewrite (js_bind_ok (gets activeHistory) _ p1 (activeHistory p1) p1) by reflexivity.
  rewrite S11. set (h := tl (activeHistory p ++ _)).
  set (p2 := {| document := document p1; activeHistory := h; last := last p1; canvas := canvas p1 |}).
  assert (set_history h p1 = (Some (), p2)) as E2 by reflexivity.
  erewrite js_bind_ok by exact E2.
  destruct (drawSpark_shows p2 "dot" c H1) as (p3 & c3 & E3 & H3 & S31 & S32 & Hc3 & Hs3 & _).
  erewrite js_bind_ok by exact E3. erewrite js_bind_ok by reflexivity.
  match goal with |- context [let '(_, _) := ?x in _] => destruct x as [[up down] delta] end.
  set (l := {| l_up := _; l_down := _; l_t := now |}).
  set (p4 := {| document := document p3; activeHistory := activeHistory p3; last := l;
                canvas := canvas p3 |}).
  assert (set_last l p3 = (Some (), p4)) as E4 by reflexivity.
  erewrite js_bind_ok by exact E4.
  match goal with |- context [set_textContent ?t] => set (meta := t) end.
  destruct (set_text_shows Meta meta p4 "dot" c3 eq_refl H3) as (p5 & E5 & H5 & (S51 & S52 & _)).
  erewrite js_bind_ok by exact E5.
  destruct (started_text _) as [started|].
  - destruct (fill_shows s clients started up down p5 "dot" _ H5) as
      (p6 & c6 & E6 & H6 & F6 & (S61 & S62 & _) & Hmin & Hmax); [by exists meta|].
    exists (Some ()), p6, c6. split; [exact E6|]. split; [done|].
    rewrite S61, S51, S62, S52. simpl. rewrite S31. split_and!; try done.
    destruct (f_meta _ _ _ _ F6) as [t Ht].
    intros [] Hx; try done; [right; rewrite Ht; apply skeleton_text_nodes|rewrite Hmin|rewrite Hmax];
      (destruct (Hs3 SparkMin), (Hs3 SparkMax)); naive_solver.
  - exists None, p5. eexists. split; [reflexivity|]. split; [exact H5|].
    rewrite S51, S52. simpl. rewrite S31. split_and!; try done. intros x.
    destruct (decide (Meta = x)) as [<-|].
    + right. split; [done|]. rewrite fn_lookup_insert. apply skeleton_text_nodes.
    + rewrite fn_lookup_insert_ne by done. apply Hs3.
Qed.

(** ** The spark line *)

Lemma fold_min_spec l a :
  let m := fold_left (λ lo v, if (v <? lo)%Z then v else lo) l a in
  (m = a ∨ m ∈ l) ∧ (m ≤ a)%Z ∧ ∀ v, v ∈ l → (m ≤ v)%Z.
Proof.
  revert a. induction l as [|x l IH]; intros a; cbn [fold_left].
  - split_and!; [by left|done|]. by intros v ?%not_elem_of_nil.
  - destruct (IH (if (x <? a)%Z then x else a)) as (Hin & Hle & Hall).
    destruct (Z.ltb_spec x a); (split_and!; [|lia|]).
    + destruct Hin as [->|]; right; [by left|by right].
    + intros v [->|]%elem_of_cons; [lia|auto].
    + destruct Hin as [->|]; [by left|right; by right].
    + intros v [->|]%elem_of_cons; [lia|auto].
Qed.

Lemma fold_max_spec l a :
  let m := fold_left (λ hi v, if (hi <? v)%Z then v else hi) l a in
  (m = a ∨ m ∈ l) ∧ (a ≤ m)%Z ∧ ∀ v, v ∈ l → (v ≤ m)%Z.
Proof.
  revert a. induction l as [|x l IH]; intros a; cbn [fold_left].
  - split_and!; [by left|done|]. by intros v ?%not_elem_of_nil.
  - destruct (IH (if (a <? x)%Z then x else a)) as (Hin & Hle & Hall).
    destruct (Z.ltb_spec a x); (split_and!; [|lia|]).
    + destruct Hin as [->|]; right; [by left|by right].
    + intros v [->|]%elem_of_cons; [lia|auto].
    + destruct Hin as [->|]; [by left|right; by right].
    + intros v [->|]%elem_of_cons; [lia|auto].
Qed.

Lemma history_bounds l v :
  v ∈ l → lowest l ∈ l ∧ highest l ∈ l ∧ (lowest l ≤ v ≤ highest l)%Z.
Proof.
  intros Hv. destruct l as [|x l]; [by apply not_elem_of_nil in Hv|].
  unfold lowest, highest. cbn [hd tl].
  destruct (fold_min_spec l x) as (Hm & Hmx & Hml). destruct (fold_max_spec l x) as (HM & HMx & HMl).
  rewrite !elem_of_cons. split; [exact Hm|]. split; [exact HM|].
  apply elem_of_cons in Hv as [->|Hv]; [lia|]. by split; [apply Hml|apply HMl].
Qed.

Local Open Scope Q_scope.

Lemma inject_Z_nonneg z : (0 ≤ z)%Z → 0 <= inject_Z z.
Proof. intros Hz. change 0 with (inject_Z 0). by rewrite <- Zle_Qle. Qed.

Lemma spark_range_spec lo hi ymin span :
  (0 ≤ lo ≤ hi)%Z → (hi < 2 ^ 52)%Z → spark_range lo hi = (ymin, span) →
  ∃ ymax, span = double (ymax - ymin) ∧ 0 < span ∧
          0 <= ymin <= inject_Z lo ∧ inject_Z hi <= ymax.
Proof.
  intros Hlo Hhi. unfold spark_range. set (pad := double (double _ * _)).
  assert (inject_Z lo <= inject_Z hi) as Hlh by (rewrite <- Zle_Qle; lia).
  pose proof (inject_Z_nonneg lo ltac:(lia)) as Hlo0.
  assert (0 <= pad) as Hpad.
  { apply double_nonneg, Qmult_le_0_compat; apply double_nonneg; [lra|discriminate]. }
  set (y0 := Qmax0 _). set (y1 := double (inject_Z hi + pad)).
  assert (0 <= y0 <= inject_Z lo) as Hy0.
  { assert (double (inject_Z lo - pad) <= inject_Z lo) as Hle by (apply double_le_Z; [lia|lra]).
    unfold y0, Qmax0. destruct (Qle_bool 0 _) eqn:E; [apply Qle_bool_iff in E; lra|lra]. }
  assert (inject_Z hi <= y1) as Hy1.
  { rewrite <- (double_exact hi) by lia. apply double_mono. lra. }
  set (eps := double (1 # 10000)).
  assert (0 < eps /\ eps < 1) as He by (split; reflexivity).
  destruct (Qle_bool eps (double (y1 - y0))) eqn:E; cbn [negb]; intros [= <- <-].
  - apply Qle_bool_iff in E. exists y1. split; [done|]. split; [lra|]. split; [done|]. exact Hy1.
  - assert (y1 <= y0 + 1) as Hsmall.
    { apply Qnot_lt_le. intros Hgt. assert (1 <= double (y1 - y0)) as Hd.
      { assert (1 == double 1) as -> by reflexivity. apply double_mono. lra. }
      assert (Qle_bool eps (double (y1 - y0)) = true) as E' by (apply Qle_bool_iff; lra). congruence. }
    exists (double (y0 + 1)). split; [done|].
    assert (y1 <= double (y0 + 1)) as Hd.
    { assert (y1 == double y1) as -> by (symmetry; apply double_idem). by apply double_mono. }
    split; [|split; [done|lra]]. apply double_gt0.
    assert (0 < y0 + 1) as Hpos by lra. rewrite double_pos by done.
    destruct (round_pos_error _ Hpos) as [Hl _].
    assert (inject_Z lo <= inject_Z (2 ^ 52)) as Hb by (rewrite <- Zle_Qle; lia).
    assert (2 ^ (-53) * inject_Z (2 ^ 52) == 1 # 2) as Hk by reflexivity.
    assert (0 < 2 ^ (-53)) as He53 by reflexivity. assert (2 ^ (-53) < 1 # 2) as Hs by reflexivity.
    set (e := 2 ^ (-53)) in *. set (B := inject_Z (2 ^ 52)) in *. clearbody e B.
    assert (y0 * e <= B * e) by (apply Qmult_le_compat_r; lra). lra.
Qed.

(** The spark line never leaves the canvas: with fewer than 2^52 active
    connections at each of the sixty moments shown, and all of the rounding of
    the script's arithmetic, every point lies in the canvas, two pixels away from
    its upper and lower edge. *)
Theorem spark_in_canvas history :
  length history = SPARK_LEN → Forall (λ v, 0 ≤ v < 2 ^ 52)%Z history →
  Forall (λ p, (0 <= p.1 <= canvas_w) ∧ (2 <= p.2 <= canvas_h - 2)) (spark_line history).
Proof.
  intros Hlen Hh. unfold spark_line.
  destruct (spark_range (lowest history) (highest history)) as [ymin span] eqn:E.
  apply Forall_lookup. intros j p. rewrite list_lookup_imap.
  destruct (history !! j) as [v|] eqn:Hj; [|done]. intros [= <-].
  assert (v ∈ history) as Hv by (by eapply list_elem_of_lookup_2).
  destruct (history_bounds _ _ Hv) as (Hlo & Hhi & Hbl).
  rewrite list.Forall_forall in Hh. pose proof (Hh _ Hlo). pose proof (Hh _ Hhi).
  destruct (spark_range_spec (lowest history) (highest history) ymin span) as
    (ymax & Hspan & Hpos & [Hy0 Hy1] & Hy2); [lia|lia|done|].
  apply lookup_lt_Some in Hj. rewrite Hlen in Hj. cbn [spark_point fst snd]. split.
  - set (r := inject_Z (Z.of_nat j) / inject_Z (Z.of_nat (SPARK_LEN - 1))).
    assert (0 <= r <= 1) as [Hr0 Hr1].
    { pose proof (inject_Z_nonneg (Z.of_nat j) ltac:(lia)).
      assert (inject_Z (Z.of_nat j) <= 59) by (change 59 with (inject_Z 59); rewrite <- Zle_Qle; unfold SPARK_LEN in Hj; lia).
      unfold r. change (inject_Z (Z.of_nat (SPARK_LEN - 1))) with 59.
      split; [apply Qle_shift_div_l|apply Qle_shift_div_r]; try done; lra. }
    pose proof (double_nonneg r Hr0). pose proof (double_le_Z r 1 ltac:(lia) Hr1) as Hr.
    change (inject_Z 1) with 1 in Hr. unfold canvas_w. split.
    + apply double_nonneg. nra.
    + apply (double_le_Z _ 600); [lia|]. change (inject_Z 600) with 600. lra.
  - assert (inject_Z (lowest history) <= inject_Z v <= inject_Z (highest history)) as [Hl Hu]
      by (rewrite <- !Zle_Qle; lia).
    set (d := double (inject_Z v - ymin)).
    assert (0 <= d <= span) as [Hd0 Hd1].
    { split; [apply double_nonneg; lra|]. rewrite Hspan. apply double_mono. lra. }
    assert (0 <= d / span <= 1) as [Ht0 Ht1].
    { split; [apply Qle_shift_div_l|apply Qle_shift_div_r]; solve [exact Hpos|lra]. }
    pose proof (double_nonneg _ Ht0). pose proof (double_le_Z (d / span) 1 ltac:(lia) Ht1) as Ht.
    change (inject_Z 1) with 1 in Ht. set (t := double (d / span)) in *.
    assert (double (canvas_h - 4) == 60 /\ double (canvas_h - 2) == 62) as [E60 E62] by (split; reflexivity).
    assert (0 <= double (t * double (canvas_h - 4)) <= 60) as [Hs0 Hs1].
    { split; [apply double_nonneg; rewrite E60; lra|]. apply (double_le_Z _ 60); [lia|].
      rewrite E60. change (inject_Z 60) with 60. lra. }
    set (w := double (t * double (canvas_h - 4))) in *. unfold canvas_h at 2. split.
    + assert (double 2 == 2) as E2 by reflexivity. rewrite <- E2 at 1. apply double_mono.
      rewrite E62. lra.
    + apply Qle_trans with 62; [|discriminate]. apply (double_le_Z _ 62); [lia|].
      rewrite E62. change (inject_Z 62) with 62. lra.
Qed.
Local Close Scope Q_scope.

(** ** The markup of the page *)

Definition kv_markup (n : nat) : list node :=
  flat_map (λ _, [Element "dt" [] []; Element "dd" [] []]) (seq 0 n).

Definition rows_markup (cols n : nat) : list node :=
  match n with
  | O => [Element "tr" [] [Element "td" [("class", "empty"); ("colspan", dec (N.of_nat cols))] []]]
  | _ => replicate n (Element "tr" [] (replicate cols (Element "td" [] [])))
  end.

(** The markup of the places that show [n s] rows, [None] as long as nothing was
    shown: it is made of numbers only. *)
Definition markup (n : slot → option nat) (s : slot) : list node :=
  match s with
  | Meta | SparkMin | SparkMax => []
  | PerIpTable | NamesTable => match n s with Some k => rows_markup 2 k | None => [] end
  | ClientsTable => match n s with Some k => rows_markup 7 k | None => [] end
  | _ => match n s with Some k => kv_markup k | None => [] end
  end.

Lemma skeleton_layout dot c c' :
  (∀ s, flat_map skeleton (c s) = flat_map skeleton (c' s)) →
  skeleton (layout dot c) = skeleton (layout dot c').
Proof. intros E. unfold layout, card, kv_list, table, el. cbn [skeleton flat_map]. by rewrite !E. Qed.

Lemma skeleton_kv pairs : flat_map skeleton (kv_nodes pairs) = kv_markup (length pairs).
Proof.
  unfold kv_markup. generalize 0. induction pairs as [|[k v] pairs IH]; intros n; [done|].
  cbn [length seq flat_map]. unfold kv_nodes in *. cbn [flat_map]. rewrite flat_map_app, (IH (S n)).
  cbn [flat_map skeleton app fst snd]. by rewrite !skeleton_text_nodes.
Qed.

Lemma skeleton_row row :
  skeleton (row_node row) = [Element "tr" [] (replicate (length row) (Element "td" [] []))].
Proof.
  unfold row_node. cbn [skeleton]. do 2 f_equal. induction row as [|v row IH]; [done|].
  cbn [fmap list_fmap flat_map length replicate]. unfold cell_node at 1. cbn [skeleton].
  rewrite skeleton_text_nodes. cbn [app]. by f_equal.
Qed.

Lemma skeleton_rows cols rows :
  Forall (λ row, length row = cols) rows →
  flat_map skeleton (row_nodes cols rows) = rows_markup cols (length rows).
Proof.
  intros Hrows. destruct Hrows as [|row rows Hrow Hrows]; [done|].
  cbn [row_nodes rows_markup length]. change (S (length rows)) with (length (row :: rows)).
  assert (Forall (λ row, length row = cols) (row :: rows)) as Hall by by constructor.
  clear Hrow Hrows. induction Hall as [|r l Hr _ IH]; [done|].
  cbn [fmap list_fmap flat_map length replicate]. rewrite skeleton_row, Hr. cbn [app]. by f_equal.
Qed.

(** What holds of the page at any time. *)
Definition page_inv (p : Page) : Prop :=
  ∃ dot c n, (dot = "dot" ∨ dot = "dot off") ∧ shows p dot c ∧
    (∀ s, flat_map skeleton (c s) = markup n s) ∧ length (activeHistory p) = SPARK_LEN.

Lemma filled_markup s clients started c :
  filled s clients started c →
  (∀ x, is_text x = true → flat_map skeleton (c x) = []) →
  ∃ n, ∀ x, flat_map skeleton (c x) = markup n x.
Proof.
  intros [_ H1 H2 H3 (up & down & H4) H5 H6 H7 H8] Htext.
  exists (λ x, Some match x with
    | ServerList => 2 | ConnectionsList => 6 | DnsList | TrafficList => 8
    | ErrorsList => length (errors_pairs (snap_errors s))
    | PerIpTable => length (ip_cells <$> cs_active_per_ip (snap_connections s))
    | NamesTable => length (name_cells <$> ds_names (snap_dns s))
    | ClientsTable => length (client_cells <$> clients)
    | _ => 0 end).
  intros x. destruct (is_text x) eqn:E.
  - rewrite Htext by done. by destruct x.
  - destruct x; try done; cbn [markup];
      rewrite ?H1, ?H2, ?H3, ?H4, ?H5, ?H6, ?H7, ?H8, ?skeleton_kv; try done;
      apply skeleton_rows; apply Forall_fmap, Forall_true; done.
Qed.

Lemma page_inv_init : page_inv page.
Proof.
  exists "dot", served_contents, (λ _, None). split; [by left|]. split; [split; [done|by intros []]|].
  split; [by intros []|reflexivity].
Qed.

Lemma markup_text n x : is_text x = true → markup n x = [].
Proof. by destruct x. Qed.

Lemma resume_inv now responses p : page_inv p → page_inv (resume now responses p).2.
Proof.
  intros (dot & c & n & Hdot & Hp & Hn & Hlen). destruct responses as [[s clients]|].
  - destruct (resume_shows now s clients p dot c Hp) as (o & p' & c' & -> & Hp' & Hh & _ & Hcase).
    assert (length (activeHistory p') = SPARK_LEN) as Hlen'.
    { rewrite Hh. destruct (activeHistory p); [done|]. simpl. rewrite length_app. simpl in *. lia. }
    cbn [snd]. destruct (started_text _) as [started|].
    + destruct Hcase as (_ & Hf & Hs). destruct (filled_markup _ _ _ _ Hf) as [n' Hn'].
      * intros x Hx. destruct (Hs x Hx) as [->|]; [|done]. by rewrite Hn, markup_text.
      * exists "dot", c', n'. split; [by left|]. done.
    + destruct Hcase as (_ & Hs). exists "dot", c', n. split; [by left|]. split; [done|].
      split; [|done]. intros x. destruct (Hs x) as [->|[Hx ->]]; [done|]. by rewrite markup_text.
  - destruct (dot_shows "dot off" p dot c Hp) as (p1 & E1 & Hp1 & (S11 & _)).
    cbn [resume]. rewrite E1. exists "dot off", c, n. cbn [snd].
    split; [by right|]. split; [done|]. split; [done|]. by rewrite S11.
Qed.

Lemma tab_inv tab : tab_reachable opened tab → page_inv (shown tab).
Proof.
  intros Hr. eapply (rtc_invariant _ (λ t, page_inv (shown t))) in Hr; [done| |apply page_inv_init].
  intros ?? [] Ht; [done|]. by apply resume_inv.
Qed.

Lemma skeleton_replicate k x : skeleton x = [x] → flat_map skeleton (replicate k x) = replicate k x.
Proof. intros E. induction k as [|k IH]; [done|]. cbn. by rewrite E, IH. Qed.

(** There is no text in the markup. *)
Lemma skeleton_markup n s : flat_map skeleton (markup n s) = markup n s.
Proof.
  destruct s; cbn [markup]; try done; destruct (n _) as [k|]; try done;
    try (unfold kv_markup; induction (seq 0 k) as [|x l IH]; [done|]; cbn in *; congruence);
    destruct k; try done; by apply skeleton_replicate.
Qed.

(** C18: the page shows data as text only.  After any sequence of calls of
    [tick], answered in any order with any statistics, rejected or interrupted
    by an exception, the elements of the page with their attributes are those of
    the page as it was served, the dot on or off, and rows whose number alone is
    a matter of the data: no name, address or count that is shown makes an
    element or an attribute.  The spark line always has sixty points. *)
Theorem page_no_injection tab :
  tab_reachable opened tab →
  ∃ dot n, (dot = "dot" ∨ dot = "dot off") ∧
    skeleton (document (shown tab)) = skeleton (layout dot (markup n)) ∧
    length (activeHistory (shown tab)) = SPARK_LEN.
Proof.
  intros (dot & c & n & Hdot & [-> _] & Hn & Hlen)%tab_inv. exists dot, n. split; [done|].
  split; [|done]. apply skeleton_layout. intros s. by rewrite Hn, skeleton_markup.
Qed.

(** ** The text of the page *)

Definition cells (tr : node) : list string := textContent <$> kids_of tr.

Definition kv_text (pairs : list (string * js_value)) : list string :=
  flat_map (λ p, [p.1 +:+ ":"; js_String p.2]) pairs.

Definition rows_text (rows : list (list js_value)) : list (list string) :=
  match rows with [] => [["none"]] | _ => (λ row : list js_value, js_String <$> row) <$> rows end.

Lemma text_kv pairs : textContent <$> kv_nodes pairs = kv_text pairs.
Proof.
  unfold kv_nodes, kv_text. induction pairs as [|p pairs IH]; [done|].
  cbn [flat_map]. rewrite !fmap_app, IH. cbn [fmap list_fmap app].
  by rewrite !textContent_text_nodes.
Qed.

Lemma text_rows cols rows : cells <$> row_nodes cols rows = rows_text rows.
Proof.
  destruct rows as [|row rows]; [done|]. cbn [row_nodes rows_text].
  rewrite <- list_fmap_compose. apply list_fmap_ext. intros _ r _. unfold compose, cells, row_node.
  cbn [kids_of]. rewrite <- list_fmap_compose. apply list_fmap_ext. intros _ v _.
  apply textContent_text_nodes.
Qed.

(** A call of [tick] that is answered shows the answer, whatever happened to
    the page before: it ends without an exception when the start time is a date,
    the dot is on, the newest point of the spark line is the number of active
    connections, and the lists and tables read, entry by entry, what the
    statistics say. *)
Theorem page_shows tab now s clients started :
  tab_reachable opened tab → started_text (ss_started_at_unix (snap_server s)) = Some started →
  ∃ p c, resume now (Some (s, clients)) (shown tab) = (Some (), p) ∧ document p = layout "dot" c ∧
    list.last (activeHistory p) = Some (num (cs_active (snap_connections s))) ∧
    textContent <$> c ConnectionsList = kv_text (connections_pairs (snap_connections s)) ∧
    textContent <$> c DnsList = kv_text (dns_pairs (snap_dns s)) ∧
    textContent <$> c ErrorsList = kv_text (errors_pairs (snap_errors s)) ∧
    cells <$> c PerIpTable = rows_text (ip_cells <$> cs_active_per_ip (snap_connections s)) ∧
    cells <$> c NamesTable = rows_text (name_cells <$> ds_names (snap_dns s)) ∧
    cells <$> c ClientsTable = rows_text (client_cells <$> clients).
Proof.
  intros (dot & c & n & _ & Hp & _ & Hlen)%tab_inv Hs.
  destruct (resume_shows now s clients (shown tab) dot c Hp) as (o & p & c' & E & [Hd _] & Hh & _ & Hc).
  rewrite Hs in Hc. destruct Hc as (-> & [_ _ H2 H3 _ H5 H6 H7 H8] & _).
  exists p, c'. rewrite Hh, H2, H3, H5, H6, H7, H8, !text_kv, !text_rows. split_and!; try done.
  destruct (activeHistory (shown tab)); [done|]. by rewrite <- app_comm_cons; cbn [tl]; rewrite last_snoc.
Qed.
End tick.

(** ** Numbers *)

Lemma num_exact n : (n < 2 ^ 53)%N → num n = Z.of_N n.
Proof.
  intros Hn. unfold num, double_of_N. rewrite (Qfloor_comp _ (inject_Z (Z.of_N n))).
  - apply Qfloor_Z.
  - apply double_exact. lia.
Qed.

Lemma count_text_dec n : (n < 2 ^ 53)%N → js_String (VCount n) = dec n.
Proof. intros Hn. unfold VCount. cbn [js_String]. rewrite num_exact by done. by apply number_to_string_dec. Qed.

Lemma floor_div_N n k :
  (n < 2 ^ 53)%N → (0 < k)%N →
  Qfloor (double (inject_Z (Z.of_N n) / inject_Z (Z.of_N k))) = Z.of_N (n / k).
Proof. intros Hn Hk. rewrite floor_double_div by lia. by rewrite N2Z.inj_div. Qed.

(** The words of a duration. *)
Definition duration_words (d h m s : N) : list string :=
  let part n u := if (n =? 0)%N then [] else [dec n +:+ u] in
  part d "d" ++ part h "h" ++ part m "m" ++ [dec s +:+ "s"].

Lemma hms n :
  let d := (n / 86400)%N in let h := (n mod 86400 / 3600)%N in
  let m := (n mod 3600 / 60)%N in let s := (n mod 60)%N in
  (h < 24 ∧ m < 60 ∧ s < 60 ∧ d ≤ n ∧ n = ((d * 24 + h) * 60 + m) * 60 + s)%N.
Proof. zify. Z.to_euclidean_division_equations. lia. Qed.

(** C37: the uptime is shown as what it is: for every number of seconds a double
    can count, divisions in floating point included, the days, hours, minutes and
    seconds that are shown add up to it, with each but the days in its range. *)
Theorem fmtUptime_exact n :
  (n < 2 ^ 53)%N →
  ∃ d h m s, fmtUptime (num n) = Fmt.join " " (duration_words d h m s) ∧
    (h < 24 ∧ m < 60 ∧ s < 60)%N ∧ n = (((d * 24 + h) * 60 + m) * 60 + s)%N.
Proof.
  intros Hn. rewrite num_exact by done. destruct (hms n) as (Hh & Hm & Hs & Hd & Hsum).
  pose proof (N.mod_lt n 86400 ltac:(lia)) as Hr. pose proof (N.mod_lt n 3600 ltac:(lia)) as Hr'.
  eexists _, _, _, _. split; [|split; [exact (conj Hh (conj Hm Hs))|exact Hsum]].
  pose proof (floor_div_N n 86400 Hn eq_refl) as Ed.
  pose proof (floor_div_N (n mod 86400) 3600 ltac:(lia) eq_refl) as Eh.
  pose proof (floor_div_N (n mod 3600) 60 ltac:(lia) eq_refl) as Em.
  rewrite N2Z.inj_mod in Eh, Em. unfold fmtUptime, duration_words.
  change (inject_Z (Z.of_N 86400)) with 86400%Q in Ed.
  change (inject_Z (Z.of_N 3600)) with 3600%Q in Eh. change (Z.of_N 86400) with 86400%Z in Eh.
  change (inject_Z (Z.of_N 60)) with 60%Q in Em. change (Z.of_N 3600) with 3600%Z in Em.
  rewrite Ed, Eh, Em. change 60%Z with (Z.of_N 60). rewrite <- N2Z.inj_mod.
  assert (∀ k u, (k < 2 ^ 53)%N →
    (if (Z.of_N k =? 0)%Z then [] else [number_to_string (Z.of_N k) +:+ u]) =
    (if (k =? 0)%N then [] else [dec k +:+ u])) as Hpart.
  { intros k u Hk. rewrite number_to_string_dec by done. by destruct k. }
  rewrite !Hpart, number_to_string_dec by lia. done.
Qed.

(** ** Witnesses: a hostile name *)

Definition demo_browser : Browser := {| get_context := true; accent_style := "#4fc3f7" |}.
#[local] Existing Instance demo_browser.

Definition demo_snapshot : Snapshot :=
  {| snap_server := {| ss_version := "0.1.3"; ss_uptime_secs := 93784;
                       ss_started_at_unix := 1700000000; ss_listeners := ["0.0.0.0:1080"] |};
     snap_connections :=
       {| cs_active := 0; cs_active_per_ip := []; cs_accepted_total := 7;
          cs_refused_per_ip_total := 0; cs_handshake_timeouts := 0; cs_auth_failures := 0;
          cs_disconnects := 0 |};
     snap_dns :=
       {| ds_enabled := true; ds_ttl_secs := 60; ds_max_entries := 1024; ds_entries := 1;
          ds_hits := 0; ds_misses := 1; ds_inserts := 1; ds_evictions := 0; ds_expired_dropped := 0;
          ds_names := [{| dn_name := "<script>alert(1)</script>"; dn_expires_in_secs := 59 |}] |};
     snap_traffic :=
       {| ts_bytes_client_to_target := 1234567; ts_bytes_target_to_client := 0;
          ts_udp_datagrams := 0;
          ts_requests := {| rq_connect := 7; rq_bind := 0; rq_udp_associate := 0 |} |};
     snap_errors := [] |}.

Definition demo_tab : Tab :=
  {| shown := (resume 1000 (Some (demo_snapshot, [])) page).2; waiting := [] |}.

Lemma demo_tab_reachable : tab_reachable opened demo_tab.
Proof.
  eapply rtc_l; [apply (TTick 1000)|]. apply rtc_once.
  apply (TAnswer 0 1000 (Some (demo_snapshot, []))
           {| shown := shown opened; waiting := waiting opened ++ [1000%Z] |}).
  reflexivity.
Qed.

Lemma page_no_injection_witness :
  ∃ dot n, (dot = "dot" ∨ dot = "dot off") ∧
    skeleton (document (shown demo_tab)) = skeleton (layout dot (markup n)).
Proof.
  destruct (page_no_injection demo_tab demo_tab_reachable) as (dot & n & Hd & Hs & _).
  exists dot, n. split; [exact Hd|exact Hs].
Defined.

Lemma page_shows_witness :
  ∃ p c, resume 2000 (Some (demo_snapshot, [])) (shown demo_tab) = (Some (), p) ∧
    document p = layout "dot" c ∧
    cells <$> c NamesTable = [["<script>alert(1)</script>"; "59s"]] ∧
    cells <$> c ClientsTable = [["none"]].
Proof.
  destruct (page_shows demo_tab 2000 demo_snapshot [] "2023-11-14 22:13:20Z" demo_tab_reachable)
    as (p & c & E & Hd & _ & _ & _ & _ & _ & Hn & Hc); [vm_compute; reflexivity|].
  exists p, c. split; [exact E|]. split; [exact Hd|]. split; [|exact Hc].
  rewrite Hn. vm_compute. reflexivity.
Defined.

Lemma fmtUptime_exact_witness :
  ∃ d h m s, "1d 2h 3m 4s" = Fmt.join " " (duration_words d h m s) ∧
    93784%N = (((d * 24 + h) * 60 + m) * 60 + s)%N.
Proof.
  destruct (fmtUptime_exact 93784) as (d & h & m & s & E & _ & Hs); [reflexivity|].
  exists d, h, m, s. split; [rewrite <- E; vm_compute; reflexivity|exact Hs].
Defined.

Lemma spark_in_canvas_witness :
  Forall (λ p, (0 <= p.1 <= canvas_w) ∧ (2 <= p.2 <= canvas_h - 2))%Q
    (spark_line (replicate 59 0%Z ++ [7%Z])).
Proof.
  apply spark_in_canvas; [reflexivity|]. apply Forall_app. split; [by apply Forall_replicate|].
  by constructor.
Defined.
