(* ===== verification/Interleave.v ===== *)
(** * The registry under concurrency ([src/src/stats.rs])

    [Stats.v] takes each operation of the registry as one step.  In the code it
    is several: [begin_client] takes a number, lists a row, counts the
    connection and then its source, each an atomic operation or a critical
    section of its own, and [ActiveGuard::drop] undoes them in its own order.
    Here the connections interleave action by action.  The theorems: what any
    reader can see in the middle, and that nothing can happen that the
    operations, taken as single steps, could not do. *)
From S2P Require Import Prelude Fmt Types DnsCache Stats.

(** ** The atomic actions *)

Definition with_active (f : u64 → u64) (s : Stats) : Stats :=
  {| started_at := started_at s; started_at_unix := started_at_unix s; listeners := listeners s;
     active := f (active s); active_per_ip := active_per_ip s; counters := counters s;
     errors_by_code := errors_by_code s; dns := dns s; clients := clients s;
     next_client_id := next_client_id s |}.

Definition with_per_ip (f : gmap IpAddr u64 → gmap IpAddr u64) (s : Stats) : Stats :=
  {| started_at := started_at s; started_at_unix := started_at_unix s; listeners := listeners s;
     active := active s; active_per_ip := f (active_per_ip s); counters := counters s;
     errors_by_code := errors_by_code s; dns := dns s; clients := clients s;
     next_client_id := next_client_id s |}.

(** [self.next_client_id.fetch_add(1)]. *)
Definition take_id (s : Stats) : u64 * Stats :=
  (next_client_id s,
   {| started_at := started_at s; started_at_unix := started_at_unix s; listeners := listeners s;
      active := active s; active_per_ip := active_per_ip s; counters := counters s;
      errors_by_code := errors_by_code s; dns := dns s; clients := clients s;
      next_client_id := u64_add (next_client_id s) 1 |}).

(** [lock(&self.clients).insert(id, record)] and [.remove(&self.id)]. *)
Definition list_row (id : u64) (r : ClientRecord) : Stats → Stats := with_clients (insert id r).
Definition unlist_row (id : u64) : Stats → Stats := with_clients (delete id).

(** [self.active.fetch_add(1)] and [fetch_sub(1)]. *)
Definition active_up : Stats → Stats := with_active (λ n, u64_add n 1).
Definition active_down : Stats → Stats := with_active (λ n, u64_sub n 1).

(** The critical sections of [active_per_ip]. *)
Definition source_up (ip : IpAddr) : Stats → Stats :=
  with_per_ip (λ per_ip, <[ip := (default 0 (per_ip !! ip) + 1)%N]> per_ip).
Definition source_down (ip : IpAddr) : Stats → Stats :=
  with_per_ip (λ per_ip,
    match per_ip !! ip with
    | Some count => if (count <=? 1)%N then delete ip per_ip else <[ip := (count - 1)%N]> per_ip
    | None => per_ip
    end).

(** What is local to the thread: the shared counters and the row. *)
Definition new_guard (id : u64) (peer : SocketAddr) (h : Heap) : ActiveGuard * Heap :=
  let '(bytes_up, h) := heap_alloc 0 h in
  let '(bytes_down, h) := heap_alloc 0 h in
  ({| g_ip := sock_ip peer; g_id := id; g_bytes_up := bytes_up; g_bytes_down := bytes_down |}, h).

Definition new_row (g : ActiveGuard) (peer : SocketAddr) (local : option SocketAddr) (now : N)
    : ClientRecord :=
  {| cr_peer := peer; cr_local := local; cr_started_at := now; cr_command := None;
     cr_bytes_up := g_bytes_up g; cr_bytes_down := g_bytes_down g |}.

(** The operations are sequences of these actions. *)
Lemma begin_client_actions peer local now s h :
  begin_client peer local now s h =
  let '(id, s) := take_id s in
  let '(g, h) := new_guard id peer h in
  (g, source_up (g_ip g) (active_up (list_row id (new_row g peer local now) s)), h).
Proof. reflexivity. Qed.

Lemma ActiveGuard_drop_actions g s :
  ActiveGuard_drop g s = unlist_row (g_id g) (source_down (g_ip g) (active_down s)).
Proof. reflexivity. Qed.

Lemma note_request_actions id cmd s :
  note_request (Some id) cmd s =
  update_client id (set_command (request_label cmd)) (counter_add (request_counter cmd) 1 s).
Proof. reflexivity. Qed.

(** ** Connections in the middle of an operation *)

(** [Numbered]: [begin_client] took its number; [Listed]: and inserted its row;
    [Counted]: and counted the connection.  [Open]: registered.  [Tagging]:
    [note_request] counted the request, the row is still to be tagged.
    [Uncounted], [Unsourced]: [drop] is under way. *)
Inductive stage : Type :=
  | Numbered (r : ClientRecord)
  | Listed
  | Counted
  | Open
  | Tagging (label : string)
  | Uncounted
  | Unsourced.

Record thread := { t_guard : ActiveGuard; t_stage : stage }.

Definition at_stage (g : ActiveGuard) (st : stage) : thread := {| t_guard := g; t_stage := st |}.

(** The next action of a connection; [None] when it is gone. *)
Inductive thread_step : Stats → Heap → thread → Stats → Heap → option thread → Prop :=
  | act_list g r s h :
      thread_step s h (at_stage g (Numbered r)) (list_row (g_id g) r s) h (Some (at_stage g Listed))
  | act_count g s h :
      thread_step s h (at_stage g Listed) (active_up s) h (Some (at_stage g Counted))
  | act_source g s h :
      thread_step s h (at_stage g Counted) (source_up (g_ip g) s) h (Some (at_stage g Open))
  | act_request g cmd s h :
      thread_step s h (at_stage g Open) (counter_add (request_counter cmd) 1 s) h
        (Some (at_stage g (Tagging (request_label cmd))))
  | act_tag g label s h :
      thread_step s h (at_stage g (Tagging label)) (update_client (g_id g) (set_command label) s) h
        (Some (at_stage g Open))
  | act_progress g l v s h :
      l = g_bytes_up g ∨ l = g_bytes_down g →
      thread_step s h (at_stage g Open) s (heap_store l v h) (Some (at_stage g Open))
  | act_uncount g s h :
      thread_step s h (at_stage g Open) (active_down s) h (Some (at_stage g Uncounted))
  | act_unsource g s h :
      thread_step s h (at_stage g Uncounted) (source_down (g_ip g) s) h (Some (at_stage g Unsourced))
  | act_unlist g s h :
      thread_step s h (at_stage g Unsourced) (unlist_row (g_id g) s) h None.

Record config := { c_stats : Stats; c_heap : Heap; c_threads : list thread }.

(** The steps of all threads, with the counters that any of them may bump. *)
Inductive config_step : config → config → Prop :=
  | step_number s h ts peer local now id s' g h' :
      (next_client_id s + 1 < u64_modulus)%N →
      take_id s = (id, s') → new_guard id peer h = (g, h') →
      config_step {| c_stats := s; c_heap := h; c_threads := ts |}
        {| c_stats := s'; c_heap := h';
           c_threads := at_stage g (Numbered (new_row g peer local now)) :: ts |}
  | step_thread s h ts1 t ts2 s' h' t' :
      thread_step s h t s' h' t' →
      config_step {| c_stats := s; c_heap := h; c_threads := ts1 ++ t :: ts2 |}
        {| c_stats := s'; c_heap := h'; c_threads := ts1 ++ option_list t' ++ ts2 |}
  | step_counter k n s h ts :
      config_step {| c_stats := s; c_heap := h; c_threads := ts |}
        {| c_stats := counter_add k n s; c_heap := h; c_threads := ts |}
  | step_fault code s h ts :
      config_step {| c_stats := s; c_heap := h; c_threads := ts |}
        {| c_stats := note_error code s; c_heap := h; c_threads := ts |}.

Definition config_init (now : N) (unix_now : u64) : config :=
  {| c_stats := Stats_new now unix_now; c_heap := heap_empty; c_threads := [] |}.

Definition config_reachable (now : N) (unix_now : u64) : config → Prop :=
  rtc config_step (config_init now unix_now).

(** ** The invariant of the middle *)

Definition listed (st : stage) : bool := match st with Numbered _ => false | _ => true end.
Definition counted (st : stage) : bool :=
  match st with Counted | Open | Tagging _ => true | _ => false end.
Definition sourced (st : stage) : bool :=
  match st with Open | Tagging _ | Uncounted => true | _ => false end.
(** Registered: numbered, and not being dropped. *)
Definition registered (st : stage) : bool :=
  match st with Uncounted | Unsourced => false | _ => true end.
Definition settled (st : stage) : bool := match st with Open => true | _ => false end.

(** The threads at some stages, by their guards. *)
Definition guards_at (p : stage → bool) (ts : list thread) : list ActiveGuard :=
  t_guard <$> filter (λ t, p (t_stage t) = true) ts.

Abbreviation t_id := (λ t, g_id (t_guard t)).
Abbreviation t_cells := (λ t, guard_cells (t_guard t)).

Lemma guards_at_cons p g st ts :
  guards_at p (at_stage g st :: ts) = if p st then g :: guards_at p ts else guards_at p ts.
Proof. unfold guards_at. rewrite filter_cons. simpl. by destruct (p st). Qed.

#[global] Instance guards_at_perm p : Proper ((≡ₚ) ==> (≡ₚ)) (guards_at p).
Proof. intros ts ts' H. unfold guards_at. by rewrite H. Qed.

Lemma guards_at_length p ts : length (guards_at p ts) ≤ length ts.
Proof. unfold guards_at. rewrite length_fmap. apply length_filter. Qed.

(** What the row of a thread must be. *)
Definition row_ok (s : Stats) (t : thread) : Prop :=
  match t_stage t with
  | Numbered r => row_of (t_guard t) r
  | _ => ∃ r, clients s !! t_id t = Some r ∧ row_of (t_guard t) r
  end.

Record config_inv (s : Stats) (h : Heap) (ts : list thread) : Prop := {
  ci_next : (next_client_id s < u64_modulus)%N;
  ci_ids : NoDup (t_id <$> ts);
  ci_id_bound t : t ∈ ts → (t_id t < next_client_id s)%N;
  ci_len : (N.of_nat (length ts) ≤ next_client_id s)%N;
  ci_active : active s = N.of_nat (length (guards_at counted ts));
  ci_per_ip ip : active_per_ip s !! ip =
    if decide (count_ip ip (guards_at sourced ts) = 0%N) then None
    else Some (count_ip ip (guards_at sourced ts));
  ci_row t : t ∈ ts → row_ok s t;
  ci_rows id r : clients s !! id = Some r → ∃ t, t ∈ ts ∧ t_id t = id ∧ listed (t_stage t) = true
}.

Lemma config_inv_init now unix_now : config_inv (Stats_new now unix_now) heap_empty [].
Proof. split; simpl; try done; try constructor; by intros t ?%not_elem_of_nil. Qed.

#[global] Instance config_inv_perm s h : Proper ((≡ₚ) ==> iff) (config_inv s h).
Proof.
  assert (∀ ts ts', ts ≡ₚ ts' → config_inv s h ts → config_inv s h ts') as Himpl.
  { intros ts ts' Hp []. split; try done.
    - by rewrite <- Hp.
    - intros t. rewrite <- Hp. auto.
    - by rewrite <- Hp.
    - by rewrite <- Hp.
    - intros ip. by rewrite <- (count_ip_perm ip (guards_at sourced ts)) by (by rewrite Hp).
    - intros t. rewrite <- Hp. auto.
    - intros id r Hr. setoid_rewrite <- Hp. eauto. }
  intros ts ts' Hp. split; apply Himpl; [done|by symmetry].
Qed.

(** The ids of the other threads. *)
Lemma config_other s h t ts t' :
  config_inv s h (t :: ts) → t' ∈ ts → t_id t' ≠ t_id t.
Proof.
  intros Hinv Hin Heq. pose proof (ci_ids _ _ _ Hinv) as Hnd. rewrite fmap_cons in Hnd.
  apply list.NoDup_cons in Hnd as [Hnd _]. apply Hnd. cbv beta. rewrite <- Heq.
  apply (list_elem_of_fmap_2 t_id _ _ Hin).
Qed.

(** A change of the statistics that leaves the rows of the others alone. *)
Lemma row_ok_frame s s' t :
  clients s' !! t_id t = clients s !! t_id t → row_ok s t → row_ok s' t.
Proof. unfold row_ok. by intros ->. Qed.

(** An action of one thread, for the parts of the invariant it does not touch. *)
Lemma config_inv_action s h s' h' g st st' ts :
  config_inv s h (at_stage g st :: ts) →
  next_client_id s' = next_client_id s →
  active s' = N.of_nat (length (guards_at counted (at_stage g st' :: ts))) →
  (∀ ip, active_per_ip s' !! ip =
    if decide (count_ip ip (guards_at sourced (at_stage g st' :: ts)) = 0%N) then None
    else Some (count_ip ip (guards_at sourced (at_stage g st' :: ts)))) →
  (∀ id, id ≠ g_id g → clients s' !! id = clients s !! id) →
  row_ok s' (at_stage g st') → (listed st' = false → clients s' !! g_id g = None) →
  config_inv s' h' (at_stage g st' :: ts).
Proof.
  intros Hinv Hn Ha Hip Hcl Hrow Hnone. split; rewrite ?Hn; try done.
  - apply Hinv.
  - apply (ci_ids _ _ _ Hinv).
  - intros t Ht. apply elem_of_cons in Ht as [->|Ht];
      [apply (ci_id_bound _ _ _ Hinv (at_stage g st)); by left|].
    apply (ci_id_bound _ _ _ Hinv); by right.
  - apply (ci_len _ _ _ Hinv).
  - intros t Ht. apply elem_of_cons in Ht as [->|Ht]; [done|].
    eapply row_ok_frame; [|apply (ci_row _ _ _ Hinv); by right].
    apply Hcl. exact (config_other _ _ _ _ _ Hinv Ht).
  - intros id r Hr. destruct (decide (id = g_id g)) as [->|Hne].
    + exists (at_stage g st'). split_and!; [by left|done|]. simpl.
      destruct (listed st') eqn:E; [done|]. rewrite Hnone in Hr by done. done.
    + rewrite Hcl in Hr by done. destruct (ci_rows _ _ _ Hinv _ _ Hr) as (t & Ht & Hid & Hl).
      apply elem_of_cons in Ht as [->|Ht]; [done|]. exists t. split_and!; [by right|done..].
Qed.

(** The counters of the sources, one up and one down. *)
Lemma source_up_spec ip gs s :
  (∀ i, active_per_ip s !! i = if decide (count_ip i gs = 0%N) then None else Some (count_ip i gs)) →
  ∀ g, g_ip g = ip → ∀ i, active_per_ip (source_up ip s) !! i =
    if decide (count_ip i (g :: gs) = 0%N) then None else Some (count_ip i (g :: gs)).
Proof.
  intros Hip g <- i. rewrite count_ip_cons. simpl. rewrite Hip.
  destruct (decide (g_ip g = i)) as [<-|Hne].
  - rewrite lookup_insert_eq. repeat case_decide; try lia; f_equal; simpl; lia.
  - by rewrite lookup_insert_ne, Hip, N.add_0_l by done.
Qed.

Lemma source_down_spec g gs s :
  (∀ i, active_per_ip s !! i =
     if decide (count_ip i (g :: gs) = 0%N) then None else Some (count_ip i (g :: gs))) →
  ∀ i, active_per_ip (source_down (g_ip g) s) !! i =
    if decide (count_ip i gs = 0%N) then None else Some (count_ip i gs).
Proof.
  intros Hip i. simpl. rewrite Hip. pose proof (Hip i) as Hi. rewrite count_ip_cons in Hi |- *.
  rewrite (decide_True (P := g_ip g = g_ip g)) by done.
  destruct (decide (1 + count_ip (g_ip g) gs = 0)%N); [lia|].
  destruct (decide (g_ip g = i)) as [<-|Hne].
  - destruct (N.leb_spec (1 + count_ip (g_ip g) gs) 1).
    + clear Hi. rewrite lookup_delete_eq. case_decide; [done|lia].
    + clear Hi. rewrite lookup_insert_eq. case_decide; [lia|f_equal; lia].
  - rewrite N.add_0_l in Hi. destruct (_ <=? 1)%N; [rewrite lookup_delete_ne by done|
      rewrite lookup_insert_ne by done]; done.
Qed.

Lemma row_ok_listed s t r :
  listed (t_stage t) = true → clients s !! t_id t = Some r → row_of (t_guard t) r → row_ok s t.
Proof. unfold row_ok. destruct (t_stage t); by eauto. Qed.

Lemma config_row s h g st ts :
  config_inv s h (at_stage g st :: ts) → listed st = true →
  ∃ r, clients s !! g_id g = Some r ∧ row_of g r.
Proof.
  intros Hinv Hl. pose proof (ci_row _ _ _ Hinv (at_stage g st)) as Hr. unfold row_ok in Hr.
  destruct st; simpl in *; try done; apply Hr; by left.
Qed.

Lemma set_command_row_of g label r : row_of g r → row_of g (set_command label r).
Proof. intros []. by split. Qed.

Lemma u64_down n : (N.of_nat (S n) < u64_modulus)%N → u64_sub (N.of_nat (S n)) 1 = N.of_nat n.
Proof.
  unfold u64_sub, u64_modulus. intros H. rewrite (N.mod_small 1) by lia.
  symmetry. apply (N.mod_unique _ _ 1); lia.
Qed.

(** One more than the others that are counted is still a machine integer. *)
Lemma config_counted s h t ts :
  config_inv s h (t :: ts) → (N.of_nat (S (length (guards_at counted ts))) < u64_modulus)%N.
Proof.
  intros Hinv. pose proof (guards_at_length counted ts). pose proof (ci_len _ _ _ Hinv) as Hl.
  pose proof (ci_next _ _ _ Hinv). simpl in Hl. lia.
Qed.

Lemma config_inv_unlist s h g ts :
  config_inv s h (at_stage g Unsourced :: ts) → config_inv (unlist_row (g_id g) s) h ts.
Proof.
  intros Hinv. assert (∀ t, t ∈ ts → t_id t ≠ g_id g) as Hother
    by (intros t; exact (config_other _ _ _ _ _ Hinv)).
  destruct Hinv as [Hn Hid Hidb Hlen Ha Hip Hrow Hrows]. split; simpl in *; try done.
  - by apply list.NoDup_cons in Hid as [_ ?].
  - intros t Ht. apply Hidb. by right.
  - lia.
  - intros t Ht. eapply row_ok_frame; [|apply Hrow; by right]. simpl.
    rewrite lookup_delete_ne; [done|]. intros E. by apply (Hother t).
  - intros id r. rewrite lookup_delete_Some. intros [Hne Hr].
    destruct (Hrows _ _ Hr) as (t & [->|Ht]%elem_of_cons & ? & ?); [done|eauto].
Qed.

Lemma thread_step_inv s h t ts s' h' t' :
  thread_step s h t s' h' t' → config_inv s h (t :: ts) →
  config_inv s' h' (option_list t' ++ ts).
Proof.
  intros Hstep Hinv. pose proof (config_counted _ _ _ _ Hinv) as Hlt.
  pose proof (ci_active _ _ _ Hinv) as Ha. pose proof (ci_per_ip _ _ _ Hinv) as Hip.
  destruct Hstep; cbn [option_list option_rect app]; try by apply config_inv_unlist.
  all: eapply config_inv_action; [exact Hinv|done|..]; rewrite ?guards_at_cons in *;
    cbn [counted sourced listed length] in *; try done.
  all: try (by destruct (config_row _ _ _ _ _ Hinv eq_refl) as (r0 & ? & ?); eapply row_ok_listed).
  - intros id Hne. simpl. by rewrite lookup_insert_ne.
  - eapply row_ok_listed; [done|apply lookup_insert_eq|]. exact (ci_row _ _ _ Hinv (at_stage g (Numbered r)) ltac:(by left)).
  - simpl. unfold u64_add. rewrite Ha, N.mod_small; lia.
  - by apply source_up_spec.
  - intros id Hne. simpl. by rewrite lookup_alter_ne.
  - destruct (config_row _ _ _ _ _ Hinv eq_refl) as (r0 & Hr & Hof).
    eapply row_ok_listed; [done| |by apply (set_command_row_of _ label)].
    simpl. rewrite lookup_alter_eq. by rewrite Hr.
  - simpl. by rewrite Ha, u64_down.
  - by apply source_down_spec.
Qed.

Lemma config_step_inv c c' :
  config_step c c' → config_inv (c_stats c) (c_heap c) (c_threads c) →
  config_inv (c_stats c') (c_heap c') (c_threads c').
Proof.
  intros [s h ts peer local now id s' g h' Hlt [= <- <-] Hg|s h ts1 t ts2 s' h' t' Hstep|k n s h ts
         |code s h ts] Hinv; cbn [c_stats c_heap c_threads] in *.
  - assert (u64_add (next_client_id s) 1 = next_client_id s + 1)%N as Hnext
      by (unfold u64_add; by apply N.mod_small).
    unfold new_guard, heap_alloc in Hg. injection Hg as <- <-.
    destruct Hinv as [Hn Hid Hidb Hlen Ha Hip Hrow Hrows].
    split; cbn [next_client_id active active_per_ip clients]; rewrite ?Hnext; try done.
    + rewrite fmap_cons. apply list.NoDup_cons. split; [|done].
      intros (t & Heq & Ht)%list_elem_of_fmap. simpl in Heq. specialize (Hidb _ Ht).
      rewrite <- Heq in Hidb. lia.
    + intros t [->|Ht]%elem_of_cons; simpl; [lia|]. specialize (Hidb _ Ht). lia.
    + simpl. lia.
    + by intros t [->|Ht]%elem_of_cons; [|apply Hrow].
    + intros id r Hr. destruct (Hrows _ _ Hr) as (t & ? & ? & ?). exists t. split_and!; [by right|done..].
  - rewrite <- Permutation_middle in Hinv. apply (thread_step_inv _ _ _ _ _ _ _ Hstep) in Hinv.
    by rewrite Permutation_app_swap_app.
  - destruct Hinv. by split.
  - destruct Hinv. by split.
Qed.

Lemma config_reachable_inv now unix_now c :
  config_reachable now unix_now c → config_inv (c_stats c) (c_heap c) (c_threads c).
Proof.
  intros Hr. eapply (rtc_invariant config_step (λ c, config_inv (c_stats c) (c_heap c) (c_threads c)));
    [apply config_step_inv|done|apply config_inv_init].
Qed.

(** ** Linearizability

    The registry as it would be had every operation happened at once, at its
    first action: [begin_client] when the number was taken, [note_request] when
    the counter was bumped, [drop] when the connection stopped being counted. *)

(** The row of a registered connection at that point. *)
Definition row_then (s : Stats) (t : thread) : option ClientRecord :=
  match t_stage t with
  | Numbered r => Some r
  | Tagging label => set_command label <$> clients s !! t_id t
  | _ => clients s !! t_id t
  end.

(** Everything but what the operations do in several steps. *)
Definition shell (s : Stats) : Stats :=
  with_active (λ _, 0%N) (with_per_ip (λ _, ∅) (with_clients (λ _, ∅) s)).

Record completes (s : Stats) (h : Heap) (ts : list thread) (w : registry) : Prop := {
  co_inv : registry_inv (r_stats w) (r_heap w) (r_guards w);
  co_heap : r_heap w = h;
  co_shell : shell (r_stats w) = shell s;
  co_guards : r_guards w ≡ₚ guards_at registered ts;
  co_row t : t ∈ ts → registered (t_stage t) = true →
    clients (r_stats w) !! t_id t = row_then s t
}.

Lemma completes_init now unix_now :
  completes (Stats_new now unix_now) heap_empty [] (registry_init now unix_now).
Proof. split; try done; [apply registry_inv_init|by intros t ?%not_elem_of_nil]. Qed.

#[global] Instance completes_perm s h : Proper ((≡ₚ) ==> (=) ==> iff) (completes s h).
Proof.
  assert (∀ ts ts' w, ts ≡ₚ ts' → completes s h ts w → completes s h ts' w) as Himpl.
  { intros ts ts' w Hp []. split; try done; [by rewrite <- Hp|].
    intros t. rewrite <- Hp. auto. }
  intros ts ts' Hp w ? <-. split; apply Himpl; [done|by symmetry].
Qed.

Lemma shell_next s s' : shell s = shell s' → next_client_id s = next_client_id s'.
Proof. intros H. exact (f_equal next_client_id H). Qed.

Lemma row_then_frame s s' t :
  clients s' !! t_id t = clients s !! t_id t → row_then s' t = row_then s t.
Proof. unfold row_then. by intros ->. Qed.

(** Actions that are not the first of their operation go unnoticed. *)
Lemma completes_stutter s h g st s' st' ts w :
  config_inv s h (at_stage g st :: ts) → completes s h (at_stage g st :: ts) w →
  shell s' = shell s → registered st' = registered st →
  (∀ id, id ≠ g_id g → clients s' !! id = clients s !! id) →
  (registered st = true → row_then s' (at_stage g st') = row_then s (at_stage g st)) →
  completes s' h (at_stage g st' :: ts) w.
Proof.
  intros Hinv [Hi Hh Hs Hg Hr] Hs' Hreg Hcl Hrow. split; try done; [by rewrite Hs'| |].
  - rewrite Hg, !guards_at_cons. by rewrite Hreg.
  - intros t Ht Hp. apply elem_of_cons in Ht as [->|Ht].
    + simpl in Hp. rewrite Hreg in Hp. rewrite Hrow by done.
      apply (Hr (at_stage g st)); [by left|done].
    + rewrite (row_then_frame s); [apply Hr; [by right|done]|].
      apply Hcl. exact (config_other _ _ _ _ _ Hinv Ht).
Qed.

(** The rows of the others do not change when one connection is tagged,
    registered or released, here or there. *)
Lemma completes_other s h t ts w t' :
  config_inv s h (t :: ts) → completes s h (t :: ts) w → t' ∈ ts →
  registered (t_stage t') = true →
  t_id t' ≠ t_id t ∧ clients (r_stats w) !! t_id t' = row_then s t'.
Proof.
  intros Hinv Hc Ht Hp. split; [exact (config_other _ _ _ _ _ Hinv Ht)|].
  apply (co_row _ _ _ _ Hc); [by right|done].
Qed.

Lemma completes_request s h g cmd ts w :
  config_inv s h (at_stage g Open :: ts) → completes s h (at_stage g Open :: ts) w →
  ∃ w', rtc registry_step w w' ∧
    completes (counter_add (request_counter cmd) 1 s) h
      (at_stage g (Tagging (request_label cmd)) :: ts) w'.
Proof.
  intros Hinv Hc. destruct w as [ws wh wg].
  pose proof (step_request ws wh wg (Some (g_id g)) cmd) as Hstep. eexists. split; [by apply rtc_once|].
  pose proof (registry_step_inv _ _ Hstep (co_inv _ _ _ _ Hc)) as Hi.
  split; [done|apply Hc| | |]; cbn [r_stats r_guards].
  - pose proof (co_shell _ _ _ _ Hc) as Hs. simpl in Hs.
    change (counter_add (request_counter cmd) 1 (shell ws) =
            counter_add (request_counter cmd) 1 (shell s)). by rewrite Hs.
  - pose proof (co_guards _ _ _ _ Hc) as Hg. by rewrite guards_at_cons in Hg |- *.
  - intros t Ht Hp. apply elem_of_cons in Ht as [->|Ht]; simpl.
    + rewrite lookup_alter_eq.
      change (row_then _ _) with (set_command (request_label cmd) <$> row_then s (at_stage g Open)).
      f_equal. apply (co_row _ _ _ _ Hc (at_stage g Open)); [by left|done].
    + destruct (completes_other _ _ _ _ _ _ Hinv Hc Ht Hp) as [Hne Hr].
      rewrite lookup_alter_ne by done. exact Hr.
Qed.

Lemma completes_uncount s h g ts w :
  config_inv s h (at_stage g Open :: ts) → completes s h (at_stage g Open :: ts) w →
  ∃ w', rtc registry_step w w' ∧ completes (active_down s) h (at_stage g Uncounted :: ts) w'.
Proof.
  intros Hinv Hc. destruct w as [ws wh wg].
  pose proof (co_guards _ _ _ _ Hc) as Hg. simpl in Hg. rewrite guards_at_cons in Hg. simpl in Hg.
  destruct (list_elem_of_split wg g) as (gs1 & gs2 & ->); [rewrite Hg; by left|].
  pose proof (step_end ws wh gs1 g gs2) as Hstep. eexists. split; [by apply rtc_once|].
  pose proof (registry_step_inv _ _ Hstep (co_inv _ _ _ _ Hc)) as Hi.
  split; [done|apply Hc|apply Hc| |]; cbn [r_stats r_guards].
  - rewrite guards_at_cons. cbn [registered]. by rewrite <- Permutation_middle in Hg;
      apply Permutation_cons_inv in Hg.
  - intros t Ht Hp. apply elem_of_cons in Ht as [->|Ht]; [done|]. simpl.
    destruct (completes_other _ _ _ _ _ _ Hinv Hc Ht Hp) as [Hne Hr].
    rewrite lookup_delete_ne by (intros E; by apply Hne). exact Hr.
Qed.

Lemma completes_progress s h g l v ts w :
  l = g_bytes_up g ∨ l = g_bytes_down g →
  completes s h (at_stage g Open :: ts) w →
  ∃ w', rtc registry_step w w' ∧ completes s (heap_store l v h) (at_stage g Open :: ts) w'.
Proof.
  intros Hl Hc. destruct w as [ws wh wg].
  pose proof (co_guards _ _ _ _ Hc) as Hg. simpl in Hg. rewrite guards_at_cons in Hg.
  assert (registry_step {| r_stats := ws; r_heap := wh; r_guards := wg |}
    {| r_stats := ws; r_heap := heap_store l v wh; r_guards := wg |}) as Hstep.
  { eapply step_progress; [|exact Hl]. rewrite Hg. by left. }
  eexists. split; [by apply rtc_once|].
  pose proof (registry_step_inv _ _ Hstep (co_inv _ _ _ _ Hc)) as Hi.
  destruct Hc as [_ Hh Hs Hgs Hr]. split; try done. simpl in *. by rewrite Hh.
Qed.

(** A connection that is being dropped has no say. *)
Lemma completes_gone s h s' st st' g ts w :
  config_inv s h (at_stage g st :: ts) → completes s h (at_stage g st :: ts) w →
  registered st = false → from_option registered false st' = false → shell s' = shell s →
  (∀ id, id ≠ g_id g → clients s' !! id = clients s !! id) →
  completes s' h (option_list (at_stage g <$> st') ++ ts) w.
Proof.
  intros Hinv Hc Hst Hst' Hs Hcl. pose proof (co_guards _ _ _ _ Hc) as Hg.
  rewrite guards_at_cons, Hst in Hg.
  split; [apply Hc|apply Hc|rewrite Hs; apply Hc| |].
  - rewrite Hg. destruct st' as [st'|]; [|done]. simpl in *. by rewrite guards_at_cons, Hst'.
  - assert (∀ t, t ∈ ts → registered (t_stage t) = true →
      clients (r_stats w) !! t_id t = row_then s' t) as Hts.
    { intros t Ht Hp. destruct (completes_other _ _ _ _ _ _ Hinv Hc Ht Hp) as [Hne Hr].
      rewrite Hr. symmetry. by apply row_then_frame, Hcl. }
    intros t. destruct st' as [st'|]; simpl; [|by apply Hts].
    intros [->|Ht]%elem_of_cons Hp; [|by apply Hts]. simpl in *. congruence.
Qed.

Lemma thread_step_simulated s h t ts s' h' t' w :
  thread_step s h t s' h' t' → config_inv s h (t :: ts) → completes s h (t :: ts) w →
  ∃ w', rtc registry_step w w' ∧ completes s' h' (option_list t' ++ ts) w'.
Proof.
  intros Hstep Hinv Hc. destruct Hstep as [g r s h|g s h|g s h|g cmd s h|g label s h|g l v s h Hl
    |g s h|g s h|g s h].
  4: by apply completes_request.
  5: by apply completes_progress.
  5: by apply completes_uncount.
  all: exists w; (split; [apply rtc_refl|]).
  - eapply completes_stutter; [exact Hinv|done..| |]; simpl.
    + intros id Hne. by rewrite lookup_insert_ne.
    + intros _. unfold row_then. simpl. by rewrite lookup_insert_eq.
  - by eapply completes_stutter.
  - by eapply completes_stutter.
  - eapply completes_stutter; [exact Hinv|done..| |]; simpl.
    + intros id Hne. by rewrite lookup_alter_ne.
    + intros _. unfold row_then. simpl. by rewrite lookup_alter_eq.
  - by apply (completes_gone s h _ Uncounted (Some Unsourced)).
  - apply (completes_gone s h _ Unsourced None _ _ _ Hinv Hc); try done.
    intros id Hne. simpl. by rewrite lookup_delete_ne.
Qed.

Lemma completes_number s h ts peer local now g h' w :
  (next_client_id s + 1 < u64_modulus)%N →
  new_guard (next_client_id s) peer h = (g, h') →
  config_inv s h ts → completes s h ts w →
  ∃ w', rtc registry_step w w' ∧
    completes (take_id s).2 h' (at_stage g (Numbered (new_row g peer local now)) :: ts) w'.
Proof.
  intros Hlt Hg Hinv Hc. destruct w as [ws wh wg].
  pose proof (co_shell _ _ _ _ Hc) as Hs. pose proof (shell_next _ _ Hs) as Hn.
  pose proof (co_heap _ _ _ _ Hc) as Hh. simpl in Hs, Hn, Hh. subst wh.
  assert (begin_client peer local now ws h =
    (g, source_up (g_ip g) (active_up (list_row (next_client_id s) (new_row g peer local now)
          (take_id ws).2)), h')) as Hb.
  { rewrite begin_client_actions. unfold take_id. rewrite Hn, Hg. reflexivity. }
  rewrite <- Hn in Hlt. pose proof (step_begin ws h wg _ _ _ _ _ _ Hlt Hb) as Hstep.
  eexists. split; [by apply rtc_once|].
  pose proof (registry_step_inv _ _ Hstep (co_inv _ _ _ _ Hc)) as Hi.
  split; [done|done| | |]; cbn [r_stats r_guards].
  - change (shell (source_up _ _)) with (take_id (shell ws)).2.
    change (shell (take_id s).2) with (take_id (shell s)).2. by rewrite Hs.
  - rewrite guards_at_cons. simpl. constructor. apply (co_guards _ _ _ _ Hc).
  - assert (g_id g = next_client_id s) as Hid
      by (unfold new_guard, heap_alloc in Hg; by injection Hg as <- _).
    intros t Ht Hp. simpl. apply elem_of_cons in Ht as [->|Ht].
    + simpl. by rewrite Hid, lookup_insert_eq.
    + pose proof (ci_id_bound _ _ _ Hinv _ Ht). simpl in *. rewrite lookup_insert_ne by lia.
      apply (co_row _ _ _ _ Hc); done.
Qed.

Lemma config_step_simulated c c' w :
  config_step c c' → config_inv (c_stats c) (c_heap c) (c_threads c) →
  completes (c_stats c) (c_heap c) (c_threads c) w →
  ∃ w', rtc registry_step w w' ∧ completes (c_stats c') (c_heap c') (c_threads c') w'.
Proof.
  intros [s h ts peer local now id s' g h' Hlt [= <- <-] Hg|s h ts1 t ts2 s' h' t' Hstep|k n s h ts
         |code s h ts] Hinv Hc; cbn [c_stats c_heap c_threads] in *.
  - by apply (completes_number s h ts peer local now g h').
  - rewrite <- Permutation_middle in Hinv, Hc.
    destruct (thread_step_simulated _ _ _ _ _ _ _ _ Hstep Hinv Hc) as (w' & Hw & Hc').
    exists w'. split; [done|]. by rewrite Permutation_app_swap_app.
  - destruct w as [ws wh wg]. pose proof (step_count ws wh wg k n) as Hw.
    eexists. split; [by apply rtc_once|].
    pose proof (registry_step_inv _ _ Hw (co_inv _ _ _ _ Hc)) as Hi.
    destruct Hc as [_ Hh Hs Hg Hr]. split; try done. exact (f_equal (counter_add k n) Hs).
  - destruct w as [ws wh wg]. pose proof (step_error ws wh wg code) as Hw.
    eexists. split; [by apply rtc_once|].
    pose proof (registry_step_inv _ _ Hw (co_inv _ _ _ _ Hc)) as Hi.
    destruct Hc as [_ Hh Hs Hg Hr]. split; try done. exact (f_equal (note_error code) Hs).
Qed.

(** ** When no operation is under way *)

Definition quiescent (ts : list thread) : Prop := Forall (λ t, settled (t_stage t) = true) ts.

Lemma guards_at_quiescent p ts :
  (∀ st, settled st = true → p st = true) → quiescent ts → guards_at p ts = t_guard <$> ts.
Proof.
  intros Hp Hq. unfold guards_at. f_equal. induction Hq as [|t ts Ht _ IH]; [done|].
  rewrite filter_cons_True by auto. by rewrite IH.
Qed.

Lemma shell_inj s s' :
  shell s = shell s' → active s = active s' → active_per_ip s = active_per_ip s' →
  clients s = clients s' → s = s'.
Proof. destruct s, s'. intros [= -> -> -> -> -> -> ->]. simpl. by intros -> -> ->. Qed.

Lemma completes_quiescent s h ts w :
  config_inv s h ts → completes s h ts w → quiescent ts → r_stats w = s.
Proof.
  intros Hinv Hc Hq. pose proof (co_guards _ _ _ _ Hc) as Hg. pose proof (co_inv _ _ _ _ Hc) as Hi.
  rewrite guards_at_quiescent in Hg by (done || by intros []).
  assert (∀ t, t ∈ ts → settled (t_stage t) = true) as Hall
    by (intros t; eapply (proj1 (list.Forall_forall _ _) Hq)).
  assert (∀ t, t ∈ ts → clients (r_stats w) !! t_id t = clients s !! t_id t) as Hrow.
  { intros t Ht. rewrite (co_row _ _ _ _ Hc _ Ht) by (by specialize (Hall _ Ht); destruct (t_stage t)).
    specialize (Hall _ Ht). unfold row_then. by destruct (t_stage t). }
  apply shell_inj; [apply Hc| | |].
  - rewrite (inv_active _ _ _ Hi), (ci_active _ _ _ Hinv), Hg.
    by rewrite guards_at_quiescent by (done || by intros []).
  - apply map_eq. intros ip. rewrite (inv_per_ip _ _ _ Hi), (ci_per_ip _ _ _ Hinv).
    by rewrite guards_at_quiescent, (count_ip_perm ip _ _ Hg) by (done || by intros []).
  - apply map_eq. intros id. apply option_eq. intros r. split; intros Hr.
    + destruct (inv_rows _ _ _ Hi _ _ Hr) as (g & Hgin & <-). rewrite Hg in Hgin.
      apply list_elem_of_fmap in Hgin as (t & -> & Ht). by rewrite <- Hrow.
    + destruct (ci_rows _ _ _ Hinv _ _ Hr) as (t & Ht & <- & _). by rewrite Hrow.
Qed.

Lemma config_steps_simulated c c' w :
  rtc config_step c c' → config_inv (c_stats c) (c_heap c) (c_threads c) →
  completes (c_stats c) (c_heap c) (c_threads c) w →
  ∃ w', rtc registry_step w w' ∧ completes (c_stats c') (c_heap c') (c_threads c') w'.
Proof.
  intros Hsteps. revert w. induction Hsteps as [c|c c1 c2 Hstep _ IH]; intros w Hinv Hc.
  - exists w. split; [apply rtc_refl|done].
  - destruct (config_step_simulated _ _ _ Hstep Hinv Hc) as (w1 & Hw1 & Hc1).
    apply config_step_inv in Hstep; [|done].
    destruct (IH w1 Hstep Hc1) as (w2 & Hw2 & Hc2). exists w2. split; [by etrans|done].
Qed.

(** C10: the registry is linearizable.  However the actions of connections that
    start, request, progress and end are interleaved, the registry is, up to the
    operations still under way, in a state that the same operations reach when
    each is taken as one step; when none is under way, in exactly that state, so
    that everything proved of [registry_reachable] holds of the code. *)
Theorem registry_linearizable now unix_now c :
  config_reachable now unix_now c →
  ∃ w, registry_reachable now unix_now w ∧
    completes (c_stats c) (c_heap c) (c_threads c) w ∧
    (quiescent (c_threads c) →
     r_stats w = c_stats c ∧ r_heap w = c_heap c ∧ r_guards w ≡ₚ t_guard <$> c_threads c).
Proof.
  intros Hr. pose proof (config_reachable_inv _ _ _ Hr) as Hinv.
  destruct (config_steps_simulated _ _ (registry_init now unix_now) Hr
    (config_inv_init now unix_now) (completes_init now unix_now)) as (w & Hw & Hc).
  exists w. split_and!; [done..|]. intros Hq. split_and!.
  - by eapply completes_quiescent.
  - apply Hc.
  - rewrite (co_guards _ _ _ _ Hc). by rewrite guards_at_quiescent by (done || by intros []).
Qed.

(** ** What a reader sees in the middle *)

(** Registered and not in the middle of being so. *)
Definition established (st : stage) : bool :=
  match st with Open | Tagging _ => true | _ => false end.

Lemma guards_at_mono p q ts :
  (∀ st, p st = true → q st = true) → length (guards_at p ts) ≤ length (guards_at q ts).
Proof.
  intros Hpq. induction ts as [|[g st] ts IH]; [done|].
  change {| t_guard := g; t_stage := st |} with (at_stage g st). rewrite !guards_at_cons.
  specialize (Hpq st). destruct (p st), (q st); simpl; try lia.
Qed.

Lemma count_ip_mono p q ip ts :
  (∀ st, p st = true → q st = true) →
  (count_ip ip (guards_at p ts) ≤ count_ip ip (guards_at q ts))%N.
Proof.
  intros Hpq. induction ts as [|[g st] ts IH]; [done|].
  change {| t_guard := g; t_stage := st |} with (at_stage g st). rewrite !guards_at_cons.
  specialize (Hpq st). destruct (p st), (q st); rewrite ?count_ip_cons; lia.
Qed.

Lemma guards_at_all ts : guards_at (λ _, true) ts = t_guard <$> ts.
Proof. unfold guards_at. f_equal. induction ts; [done|]. by rewrite filter_cons_True, IHts. Qed.

(** C34: a reader that looks at any moment, between any two actions, is wrong by
    the operations under way and no more.  The number of active connections and
    that of each source lie between the connections that are established and
    those that are, were or are about to be; no source is shown with zero; the
    client list has one row for every established connection, with its source
    and counters, and only rows of connections that are there. *)
Theorem registry_in_flight now unix_now c :
  config_reachable now unix_now c →
  let s := c_stats c in let ts := c_threads c in
  (N.of_nat (length (guards_at established ts)) ≤ active s ≤ N.of_nat (length ts))%N ∧
  (∀ ip, let shown := default 0%N (active_per_ip s !! ip) in
     (count_ip ip (guards_at established ts) ≤ shown ≤ count_ip ip (t_guard <$> ts))%N ∧
     active_per_ip s !! ip ≠ Some 0%N) ∧
  (∀ t, t ∈ ts → established (t_stage t) = true →
     ∃ r, clients s !! t_id t = Some r ∧ row_of (t_guard t) r) ∧
  (∀ id r, clients s !! id = Some r → ∃ t, t ∈ ts ∧ t_id t = id).
Proof.
  intros Hinv%config_reachable_inv s ts. subst s ts. split_and!.
  - rewrite (ci_active _ _ _ Hinv). apply N2Z.inj_le. rewrite !nat_N_Z. apply Nat2Z.inj_le.
    apply guards_at_mono. by intros [].
  - rewrite (ci_active _ _ _ Hinv). pose proof (guards_at_length counted (c_threads c)). lia.
  - intros ip. rewrite (ci_per_ip _ _ _ Hinv), <- guards_at_all.
    pose proof (count_ip_mono established sourced ip (c_threads c) ltac:(by intros [])).
    pose proof (count_ip_mono sourced (λ _, true) ip (c_threads c) ltac:(by intros [])).
    split; [case_decide; simpl; lia|]. case_decide; congruence.
  - intros t Ht He. pose proof (ci_row _ _ _ Hinv _ Ht) as Hr. unfold row_ok in Hr.
    by destruct (t_stage t).
  - intros id r Hr. destruct (ci_rows _ _ _ Hinv _ _ Hr) as (t & ? & ? & _). eauto.
Qed.

(** ** Witnesses: a connection, registered and in the middle of being so *)

Definition demo_row : ClientRecord := new_row demo_guard demo_ip None 0.

Definition demo_half : config :=
  {| c_stats := list_row 0 demo_row (take_id (Stats_new 0 0)).2;
     c_heap := (new_guard 0 demo_ip heap_empty).2; c_threads := [at_stage demo_guard Listed] |}.

Definition demo_whole : config :=
  {| c_stats := r_stats demo_registry; c_heap := r_heap demo_registry;
     c_threads := [at_stage demo_guard Open] |}.

Lemma demo_half_reachable : config_reachable 0 0 demo_half.
Proof.
  eapply rtc_l; [by eapply (step_number _ _ [] demo_ip None 0)|].
  eapply rtc_once. exact (step_thread _ _ [] _ [] _ _ _ (act_list demo_guard demo_row _ _)).
Qed.

Lemma demo_whole_reachable : config_reachable 0 0 demo_whole.
Proof.
  eapply rtc_r; [eapply rtc_r; [apply demo_half_reachable|]|].
  - exact (step_thread _ _ [] _ [] _ _ _ (act_count demo_guard _ _)).
  - exact (step_thread _ _ [] _ [] _ _ _ (act_source demo_guard _ _)).
Qed.

Lemma registry_linearizable_witness :
  ∃ w, registry_reachable 0 0 w ∧ r_stats w = c_stats demo_whole ∧ r_guards w ≡ₚ [demo_guard].
Proof.
  destruct (registry_linearizable 0 0 demo_whole demo_whole_reachable) as (w & Hw & _ & Hq).
  destruct Hq as (Hs & _ & Hg); [by repeat constructor|].
  exists w. split; [exact Hw|]. split; [exact Hs|exact Hg].
Defined.

Lemma registry_in_flight_witness :
  (0 ≤ active (c_stats demo_half) ≤ 1)%N ∧ length (guards_at established (c_threads demo_half)) = 0.
Proof.
  split; [|reflexivity]. destruct (registry_in_flight 0 0 demo_half demo_half_reachable) as (H & _).
  exact H.
Defined.
