(* ===== verification/Oblivious.v ===== *)
(** * Sessions do not depend on the statistics

    Every connection counts into the statistics that all of them share, while
    the others do the same.  Here: none of them ever reads back what is there.
    What a client, its destination and the cache experience of a session is the
    same, byte by byte and instant by instant, whatever the shared counters, the
    registry and the rows of the others hold.  With [Trace.v], which says what a
    session does to them, this is why sessions can be studied one at a time. *)
From S2P Require Import Prelude Fmt Types DnsCache Stats Stream Relay Connect Client.
From S2P Require Import Handshake Resolve Udp Session.

(** The world without the statistics, the counters and the registration. *)
Definition canon (w : World) : World :=
  set_w_stats (Stats_new 0 0) (set_w_heap heap_empty
    (set_client (set_guard None None (client w)) w)).

Lemma canon_idem w : canon (canon w) = canon w.
Proof. done. Qed.

(** [m] comes to the same end in a world without statistics. *)
Definition oblivious {E A} (m : M E A) : Prop :=
  ∀ dl w, (m dl (canon w)).1 = (m dl w).1 ∧ canon (m dl (canon w)).2 = canon (m dl w).2.

(** Then it does so in any two worlds that differ in nothing else. *)
Lemma oblivious_agree {E A} (m : M E A) dl w1 w2 :
  oblivious m → canon w1 = canon w2 →
  (m dl w1).1 = (m dl w2).1 ∧ canon (m dl w1).2 = canon (m dl w2).2.
Proof.
  intros Hm Hw. destruct (Hm dl w1) as [<- <-], (Hm dl w2) as [<- <-]. by rewrite Hw.
Qed.

(** ** The rules *)

Section rules.
Context {E : Type}.

Lemma oblivious_ret {A} (a : A) : oblivious (mret a : M E A).
Proof. by intros dl w. Qed.

Lemma oblivious_throw {A} (e : E) : oblivious (throw e : M E A).
Proof. by intros dl w. Qed.

Lemma oblivious_from_result {A} (r : result E A) : oblivious (from_result r).
Proof. intros dl w. by destruct r. Qed.

Lemma oblivious_bind {A B} (m : M E A) (f : A → M E B) :
  oblivious m → (∀ a, oblivious (f a)) → oblivious (m ≫= f).
Proof.
  intros Hm Hf dl w. rewrite !bind_run. destruct (Hm dl w) as [Ho Hw].
  destruct (m dl (canon w)) as [o1 w1], (m dl w) as [o2 w2]. cbn [fst snd] in *. subst o1.
  destruct o2; try done. by apply oblivious_agree.
Qed.

(** [get]: what follows may look at everything but the statistics. *)
Lemma oblivious_get {A} (f : World → M E A) :
  (∀ w, f (canon w) = f w) → (∀ w, oblivious (f w)) → oblivious (w ← get; f w).
Proof. intros Hc Hf dl w. rewrite !bind_run. cbn [get]. rewrite Hc. apply Hf. Qed.

Lemma oblivious_modify f :
  (∀ w, canon (f (canon w)) = canon (f w)) → oblivious (modify f : M E unit).
Proof. intros Hf dl w. split; [done|apply Hf]. Qed.

Lemma oblivious_note f : oblivious (note f : M E unit).
Proof. intros dl w. unfold note, modify. split; [done|]. simpl. by destruct (has_stats (client w)). Qed.

Lemma oblivious_map_err {F A} (g : E → F) (m : M E A) : oblivious m → oblivious (m_map_err g m).
Proof.
  intros Hm dl w. unfold m_map_err. destruct (Hm dl w) as [Ho Hw].
  destruct (m dl (canon w)) as [o1 w1], (m dl w) as [o2 w2]. cbn [fst snd] in *. subst o1.
  by destruct o2.
Qed.

Lemma oblivious_try {F A} (m : M E A) : oblivious m → oblivious (m_try m : M F _).
Proof.
  intros Hm dl w. unfold m_try. destruct (Hm dl w) as [Ho Hw].
  destruct (m dl (canon w)) as [o1 w1], (m dl w) as [o2 w2]. cbn [fst snd] in *. subst o1.
  by destruct o2.
Qed.

Lemma oblivious_timeout {F A} d (m : M E A) : oblivious m → oblivious (with_timeout d m : M F _).
Proof.
  intros Hm dl w. unfold with_timeout. change (clock (canon w)) with (clock w).
  match goal with |- context [m ?dl' (canon w)] => destruct (Hm dl' w) as [Ho Hw];
    destruct (m dl' (canon w)) as [o1 w1], (m dl' w) as [o2 w2] end.
  cbn [fst snd] in *. subst o1. destruct o2, dl; try done. by destruct (_ <? _)%N.
Qed.

Lemma oblivious_await_answer {A} (a : option (N * A)) : oblivious (await_answer a : M E A).
Proof.
  intros dl w. unfold await_answer. change (clock (canon w)) with (clock w).
  destruct a as [[d a]|]; [|done]. by destruct (deadline_ok _ _).
Qed.

Lemma oblivious_await_until {A} (a : option (N * A)) : oblivious (await_until a : M E A).
Proof.
  intros dl w. unfold await_until. change (clock (canon w)) with (clock w).
  destruct a as [[d a]|]; [|done]. by destruct (deadline_ok _ _).
Qed.
End rules.

Lemma oblivious_read n : oblivious (stream_read_exact n).
Proof.
  intros dl w. unfold stream_read_exact.
  change (stream (client (canon w))) with (stream (client w)). change (clock (canon w)) with (clock w).
  by destruct (read_exact dl n (clock w) (stream (client w))) as [[o t] s].
Qed.

Lemma oblivious_write data : oblivious (stream_write_all data).
Proof.
  intros dl w. unfold stream_write_all.
  change (stream (client (canon w))) with (stream (client w)). change (clock (canon w)) with (clock w).
  by destruct (write_all dl data (clock w) (stream (client w))) as [[o t] s].
Qed.

Lemma oblivious_shutdown : oblivious stream_shutdown.
Proof.
  intros dl w. unfold stream_shutdown. change (stream (client (canon w))) with (stream (client w)).
  destruct (shutdown (stream (client w))) as [[]]; done.
Qed.

#[export] Hint Resolve oblivious_ret oblivious_throw oblivious_from_result oblivious_note
  oblivious_map_err oblivious_try oblivious_timeout oblivious_await_answer oblivious_await_until
  oblivious_read oblivious_write oblivious_shutdown : handlers.

(** Goes through a handler call by call. *)
Ltac unseen :=
  repeat match goal with
  | |- oblivious (get ≫= _) => apply oblivious_get; [reflexivity|intros ?]
  | |- oblivious (_ ≫= _) => apply oblivious_bind; [|intros ?]
  | |- oblivious (modify _) => apply oblivious_modify; intros ?; reflexivity
  | |- oblivious (question _) => unfold question
  | |- oblivious (SocksReply_send _) => unfold SocksReply_send
  | |- oblivious (m_map_err _ _) => apply oblivious_map_err
  | |- oblivious (m_try _) => apply oblivious_try
  | |- oblivious (with_timeout _ _) => apply oblivious_timeout
  | |- oblivious (if ?b then _ else _) => destruct b
  | |- oblivious (match ?x with _ => _ end) => destruct x
  | |- _ => solve [auto with handlers]
  end.

(** ** The handlers *)

Section handlers.
Context `{!Net, !ArrivalOrder, !HashOrder}.

Lemma avalible_loop_oblivious configured n methods : oblivious (avalible_loop configured n methods).
Proof. revert methods. induction n as [|n IH]; intros methods; simpl; unseen; auto. Qed.
Hint Resolve avalible_loop_oblivious : handlers.

Lemma from_stream_oblivious : oblivious SOCKSReq_from_stream.
Proof. unfold SOCKSReq_from_stream, read_addr. unseen. Qed.
Hint Resolve from_stream_oblivious : handlers.

Lemma negotiate_oblivious : oblivious negotiate.
Proof. unfold negotiate, auth, get_avalible_methods, auth_with, deny, read_userpass. unseen. Qed.

Lemma cache_get_oblivious {E} name : oblivious (cache_get name : M E _).
Proof.
  intros dl w. unfold cache_get. change (w_cache (canon w)) with (w_cache w).
  change (clock (canon w)) with (clock w). destruct (w_cache w) as [c|]; [|done].
  by destruct (DnsCache_get c name (clock w)).
Qed.

Lemma cache_insert_oblivious {E} name addrs : oblivious (cache_insert name addrs : M E _).
Proof.
  intros dl w. unfold cache_insert. change (w_cache (canon w)) with (w_cache w).
  change (clock (canon w)) with (clock w). destruct (w_cache w) as [c|]; [|done].
  by destruct (DnsCache_insert c name addrs (clock w)).
Qed.
Hint Resolve negotiate_oblivious cache_get_oblivious cache_insert_oblivious : handlers.

Lemma addr_to_socket_oblivious ty addr port : oblivious (addr_to_socket ty addr port).
Proof. unfold addr_to_socket. unseen. Qed.
Hint Resolve addr_to_socket_oblivious : handlers.

Lemma udp_step_oblivious expected ev c : oblivious (udp_step expected ev c).
Proof.
  assert (∀ data, oblivious (udp_forward data)) as Hf by (intros data; unfold udp_forward, send_to; unseen).
  unfold udp_step, send_to. destruct ev as [|r]; [|unseen].
  intros dl w. change (clock (canon w)) with (clock w).
  change (stream (client (canon w))) with (stream (client w)).
  by destruct (read_some 1 (clock w) (stream (client w))) as [[]| |].
Qed.
Hint Resolve udp_step_oblivious : handlers.

Lemma udp_loop_oblivious expected evs c : oblivious (udp_loop expected evs c).
Proof. revert c. induction evs as [|ev evs IH]; intros c; simpl; [by intros dl w|unseen; auto]. Qed.
Hint Resolve udp_loop_oblivious : handlers.

(** The relay writes its counters and does not read them. *)
Definition uncounted (st : relay_state) : relay_state :=
  {| r_a := r_a st; r_b := r_b st; a_open := a_open st; b_open := b_open st;
     progress_up := progress_up st; progress_down := progress_down st; r_cells := heap_empty;
     r_now := r_now st |}.

Definition uncounted_result (r : relay_result) : relay_result :=
  match r with
  | Running st => Running (uncounted st)
  | Finished st => Finished (uncounted st)
  | Failed e st => Failed e (uncounted st)
  | Stuck st => Stuck (uncounted st)
  end.

Lemma publish_opt_uncounted stats counters st :
  uncounted (publish_opt stats counters st) = uncounted st.
Proof. by destruct counters, stats. Qed.

Lemma relay_step_uncounted stats counters ev st :
  uncounted_result (relay_step stats counters ev st) =
  uncounted_result (relay_step stats None ev (uncounted st)).
Proof.
  destruct ev as [k|k|]; simpl.
  - destruct (a_open st); [|done]. by destruct (pump k (r_now st) (r_a st) (r_b st)).
  - destruct (b_open st); [|done]. by destruct (pump k (r_now st) (r_b st) (r_a st)).
  - by rewrite publish_opt_uncounted.
Qed.

Lemma relay_loop_uncounted stats c c' evs st st' :
  uncounted st = uncounted st' →
  uncounted_result (relay_loop stats c evs st) = uncounted_result (relay_loop stats c' evs st').
Proof.
  revert st st'. induction evs as [|ev evs IH]; intros st st' Heq; cbn [relay_loop];
    (assert (a_open st || b_open st = a_open st' || b_open st') as ->
       by exact (f_equal (λ s, a_open s || b_open s) Heq));
    destruct (a_open st' || b_open st');
    try (simpl; rewrite !publish_opt_uncounted; by rewrite Heq); [simpl; by rewrite Heq|].
  pose proof (relay_step_uncounted stats c ev st) as Hs.
  rewrite Heq, <- (relay_step_uncounted stats c' ev st') in Hs.
  destruct (relay_step stats c ev st), (relay_step stats c' ev st');
    simpl in Hs; try discriminate; try exact Hs.
  apply IH. congruence.
Qed.

Lemma relay_to_oblivious remote : oblivious (relay_to remote).
Proof.
  intros dl w. unfold relay_to.
  change (has_stats (client (canon w))) with (has_stats (client w)).
  change (relay_counters (client (canon w))) with (@None (loc * loc)).
  change (stream (client (canon w))) with (stream (client w)). change (clock (canon w)) with (clock w).
  set (stats := has_stats (client w)). unfold copy_bidirectional_counted.
  pose proof (relay_loop_uncounted stats None (relay_counters (client w)) (remote_schedule remote)
    (relay_start (stream (client w)) (remote_stream remote) (w_heap (canon w)) (clock w))
    (relay_start (stream (client w)) (remote_stream remote) (w_heap w) (clock w)) eq_refl) as Hr.
  assert (∀ st st' w0 w0', uncounted st = uncounted st' → canon w0 = canon w0' →
    canon (set_remote (Some (r_b st)) (set_clock (r_now st) (set_w_heap (r_cells st)
      (set_client (set_stream (r_a st) (client w0)) w0)))) =
    canon (set_remote (Some (r_b st')) (set_clock (r_now st') (set_w_heap (r_cells st')
      (set_client (set_stream (r_a st') (client w0')) w0'))))) as Hset.
  { intros st st' w0 w0' [= -> -> _ _ _ _ ->] Hw.
    exact (f_equal (λ w, set_remote (Some (r_b st')) (set_clock (r_now st')
      (set_client (set_stream (r_a st') (client w)) w))) Hw). }
  destruct (relay_loop stats None _ _) as [st|st|e st|st], (relay_loop stats (relay_counters _) _ _)
    as [st'|st'|e' st'|st']; simpl in Hr; try discriminate; cbn [relay_final].
  - split; [done|]. apply Hset; [congruence|done].
  - assert (uncounted st = uncounted st') as Heq by congruence.
    assert (progress_up st = progress_up st' ∧ progress_down st = progress_down st') as [-> ->]
      by (by injection Heq).
    apply oblivious_agree; [unseen|]. by apply Hset.
  - assert (e = e' ∧ uncounted st = uncounted st') as [-> Heq] by (split; congruence).
    case_bool_decide; (split; [done|by apply Hset]).
  - split; [done|]. apply Hset; [congruence|done].
Qed.
Hint Resolve relay_to_oblivious : handlers.

Lemma handle_request_oblivious req : oblivious (handle_request req).
Proof.
  intros dl w. unfold handle_request.
  match goal with |- context [get ≫= λ w, note (_ (client_id (client w)) _);; ?k] => 
     set (rest := k) end.
  assert (oblivious rest) as Hrest.
  { unfold rest, handle_bind, connect_target, handle_udp_associate. unseen. }
  set (noted := λ w0 : World, if has_stats (client w0)
    then set_w_stats (note_request (client_id (client w0)) (Wire.req_command req) (w_stats w0)) w0
    else w0).
  apply (oblivious_agree rest dl (noted (canon w)) (noted w) Hrest).
  unfold noted. change (has_stats (client (canon w))) with (has_stats (client w)).
  by destruct (has_stats (client w)).
Qed.
Hint Resolve handle_request_oblivious : handlers.

Lemma init_oblivious : oblivious init.
Proof. unfold init, bounded. unseen. Qed.

Lemma report_failure_oblivious e : oblivious (report_failure e).
Proof. unfold report_failure. unseen. Qed.

Lemma start_client_canon addr w : canon (start_client addr w).2 = canon w.
Proof. done. Qed.

Lemma run_client_agree addr w1 w2 :
  canon w1 = canon w2 →
  (run_client addr w1).1 = (run_client addr w2).1 ∧
  canon (run_client addr w1).2 = canon (run_client addr w2).2.
Proof.
  intros Hw. unfold run_client.
  pose proof (start_client_canon addr w1) as Hc1. pose proof (start_client_canon addr w2) as Hc2.
  destruct (start_client addr w1) as [g1 w1'], (start_client addr w2) as [g2 w2'].
  assert (canon w1' = canon w2') as Hw' by (simpl in Hc1, Hc2; by rewrite Hc1, Hc2).
  destruct (oblivious_agree init None w1' w2' init_oblivious Hw') as [Ho Hi].
  destruct (init None w1') as [o1 v1], (init None w2') as [o2 v2]. cbn [fst snd] in *. subst o2.
  destruct o1 as [a|e| | |]; try done.
  destruct (oblivious_agree (report_failure e) None v1 v2 (report_failure_oblivious e) Hi) as [Ho Hr].
  destruct (report_failure e None v1) as [o1 u1], (report_failure e None v2) as [o2 u2].
  cbn [fst snd] in *. subst o2. destruct o1; (split; [done|exact Hr]).
Qed.
End handlers.

(** What there is to see of a session from outside the statistics: how it ends
    and when, both streams, the datagrams and the cache. *)
Definition experience (r : outcome MerinoError unit * World) :
    outcome MerinoError unit * N * Stream * option Stream * list (SocketAddr * list u8) * option DnsCache :=
  (r.1, clock r.2, stream (client r.2), w_remote r.2, w_datagrams r.2, w_cache r.2).

Section sessions.
Context `{!Net, !ArrivalOrder, !HashOrder}.

(** C16: the statistics are write-only for a session.  Put any other statistics
    and byte counters in place of those a session starts with - other totals,
    other connections, other rows - and it ends the same way at the same
    instant, with the same bytes read and written on every side, the same
    datagrams and the same cache: what a client experiences does not depend on
    what is counted of the others. *)
Theorem run_client_oblivious addr w s h :
  experience (run_client addr (set_w_stats s (set_w_heap h w))) = experience (run_client addr w).
Proof.
  destruct (run_client_agree addr (set_w_stats s (set_w_heap h w)) w eq_refl) as [Ho Hw].
  unfold experience. rewrite Ho. f_equal; [f_equal; [f_equal; [f_equal; [f_equal|]|]|]|].
  - exact (f_equal clock Hw).
  - exact (f_equal (λ w, stream (client w)) Hw).
  - exact (f_equal w_remote Hw).
  - exact (f_equal w_datagrams Hw).
  - exact (f_equal w_cache Hw).
Qed.
End sessions.
