(* ===== verification/Ending.v ===== *)
(** * Every session ends ([src/src/lib.rs]: [run_client])

    When the parties of a session do their part - no write stalls for ever,
    streams come to an end, the resolver answers - the task of a connection
    returns: there is no path on which the proxy itself waits for ever.  The
    triples below carry the conditions on the client's stream through the
    handlers, and what is still to be read from it. *)
From S2P Require Import Prelude Fmt Utf8 Types Wire Display DnsCache Stats Stream Relay.
From S2P Require Import Connect Client Handshake Resolve Udp Session.

(** ** Streams that come to an end *)

(** At most [n] bytes and then the end are still to come, and no write stalls. *)
Record lively (n : nat) (s : Stream) : Prop := {
  lv_writes : Forall (λ w, w_delay w ≠ None) (writes s);
  lv_ends : ends s;
  lv_left : length (rx s) ≤ n
}.

Lemma lively_mono n m s : n ≤ m → lively n s → lively m s.
Proof. intros Hle [? ? ?]. split; [done..|lia]. Qed.

Lemma lively_log n data k s : lively n s → lively n (log_write data k s).
Proof. intros [Hw He Hl]. split; [|done..]. simpl. by destruct Hw. Qed.

Lemma lively_shutdown n s : lively n s → lively n (shutdown s).2.
Proof. intros [Hw He Hl]. by split. Qed.

Lemma lively_write n dl data now s o now' s' :
  lively n s → write_all dl data now s = (o, now', s') →
  lively n s' ∧ o ≠ Pending ∧ o ≠ Crash ∧ (dl = None → o ≠ Elapsed).
Proof.
  intros Hs Hw. pose proof (write_all_frame _ _ _ _ _ _ _ Hw) as (k & -> & _ & _ & Hc).
  split; [by apply lively_log|].
  assert (w_delay (next_write s) ≠ None) as Hd.
  { unfold next_write. destruct Hs as [Hws _ _]. by destruct Hws. }
  unfold write_all, cut_at, deadline_ok in Hw.
  destruct (w_delay (next_write s)); [|done]. split_and!; [|done|];
    destruct dl; repeat case_match; naive_solver.
Qed.

Lemma read_exact_ends dl k now s o now' s' :
  ends s → read_exact dl k now s = (o, now', s') →
  o ≠ Pending ∧ o ≠ Crash ∧ (dl = None → o ≠ Elapsed).
Proof.
  revert now s o now' s'. induction k as [|k IH]; intros now s o now' s' He.
  { by intros [= <- <- <-]. }
  unfold read_exact; fold read_exact. destruct (rx s) as [|[t b] l] eqn:Hrx.
  - unfold ends, cut_at, deadline_ok in *.
    destruct (rx_end s), dl; repeat case_match; naive_solver.
  - destruct (deadline_ok dl (N.max now t)) eqn:Hok.
    + destruct (read_exact dl k (N.max now t) (set_rx l s)) as [[o1 t'] s1] eqn:E.
      apply IH in E as (? & ? & ?); [|done]. destruct o1; intros [= <- <- <-]; naive_solver.
    + unfold cut_at. destruct dl; [|done]. intros [= <- <- <-]. naive_solver.
Qed.

Lemma lively_read n dl k now s o now' s' :
  lively n s → read_exact dl k now s = (o, now', s') →
  lively n s' ∧ o ≠ Pending ∧ o ≠ Crash ∧ (dl = None → o ≠ Elapsed).
Proof.
  intros [Hw He Hl] Hr. split; [|by eapply read_exact_ends].
  apply read_exact_frame in Hr as ((l & Hrx & _) & -> & _). split; [done..|].
  cbn [rx set_rx]. rewrite Hrx, length_app in Hl. lia.
Qed.

(** ** The relay *)

Lemma pump_lively n m k now src dst :
  lively n src → lively m dst →
  match pump k now src dst with
  | Moved _ _ src' dst' | Closed _ src' dst' | PumpErr _ _ src' dst' => lively n src' ∧ lively m dst'
  | PumpStuck _ _ | NotReady => False
  end.
Proof.
  intros Hs Hd. pose proof Hs as [Hw He Hl]. unfold pump, read_some, ends in *.
  destruct (rx src) as [|p l] eqn:Hrx.
  { destruct (rx_end src) eqn:E; [|by split|done]. split; [done|by apply lively_shutdown]. }
  set (j := min (max k 1) RELAY_BUF_SIZE).
  assert (lively n (set_rx (skipn j (p :: l)) src)) as Hs'.
  { split; [done..|]. cbn [rx set_rx]. rewrite length_skipn. lia. }
  destruct ((firstn j (p :: l)).*2) as [|b c]; [split; [done|by apply lively_shutdown]|].
  destruct (write_all None _ _ dst) as [[o t] dst'] eqn:E.
  apply (lively_write m) in E as (Hd' & ? & ? & Hel); [|done].
  destruct o; try done. by destruct Hel.
Qed.

Definition lively_relay (n m : nat) (st : relay_state) : Prop := lively n (r_a st) ∧ lively m (r_b st).

Lemma relay_step_lively n m stats counters ev st :
  lively_relay n m st →
  match relay_step stats counters ev st with
  | Running st' | Failed _ st' | Finished st' => lively_relay n m st'
  | Stuck _ => False
  end.
Proof.
  intros [Ha Hb]. destruct ev as [k|k|]; simpl.
  - destruct (a_open st); [|by split].
    pose proof (pump_lively n m k (r_now st) (r_a st) (r_b st) Ha Hb) as H.
    destruct (pump _ _ _ _); done.
  - destruct (b_open st); [|by split].
    pose proof (pump_lively m n k (r_now st) (r_b st) (r_a st) Hb Ha) as H.
    destruct (pump _ _ _ _); try done; by destruct H.
  - by destruct counters, stats.
Qed.

Lemma relay_loop_lively n m stats counters evs st :
  lively_relay n m st →
  lively_relay n m (relay_final (relay_loop stats counters evs st)) ∧
  ∀ st', relay_loop stats counters evs st ≠ Stuck st'.
Proof.
  revert st. induction evs as [|ev evs IH]; intros st Hst; simpl; destruct (_ || _); try done.
  - by destruct counters.
  - pose proof (relay_step_lively n m stats counters ev st Hst) as H.
    destruct (relay_step _ _ ev st); [by apply IH|done..].
  - by destruct counters.
Qed.

(** ** Handlers that end

    From a client whose stream is lively, [m] does not wait for ever - not even
    under a deadline -, leaves the stream lively and returns a value in [Q]; it
    does not panic when there is no cache. *)

Definition alive (n : nat) (cached : bool) (w : World) : Prop :=
  lively n (stream (client w)) ∧ (cached = false → w_cache w = None).

Definition finishes {E A} (n : nat) (cached : bool) (m : M E A) (Q : A → Prop) : Prop :=
  ∀ dl w o w', m dl w = (o, w') → alive n cached w →
    alive n cached w' ∧ o ≠ Pending ∧ (dl = None → o ≠ Elapsed) ∧
    (cached = false → o ≠ Crash) ∧ ∀ a, o = Done a → Q a.

Definition any {A} (a : A) : Prop := True.

Section rules.
Context (n : nat) (cached : bool).
Abbreviation fin := (finishes n cached).

Lemma finishes_ret {E A} (a : A) (Q : A → Prop) : Q a → fin (mret a : M E A) Q.
Proof. intros HQ dl w o w'. unfold mret, M_ret. intros [= <- <-] Hw. naive_solver. Qed.

Lemma finishes_throw {E A} (e : E) (Q : A → Prop) : fin (throw e : M E A) Q.
Proof. intros dl w o w' [= <- <-] Hw. naive_solver. Qed.

Lemma finishes_get {E} : fin (get : M E World) any.
Proof. intros dl w o w' [= <- <-] Hw. naive_solver. Qed.

Lemma finishes_modify {E} f :
  (∀ w, alive n cached w → alive n cached (f w)) → fin (modify f : M E unit) any.
Proof. intros Hf dl w o w' [= <- <-] Hw. apply Hf in Hw. naive_solver. Qed.

Lemma finishes_note {E} f : fin (note f : M E unit) any.
Proof. apply finishes_modify. intros w. by destruct (has_stats (client w)). Qed.

Lemma finishes_bind {E A B} (m : M E A) (f : A → M E B) Q R :
  fin m Q → (∀ a, Q a → fin (f a) R) → fin (m ≫= f) R.
Proof.
  intros Hm Hf dl w o w'. rewrite bind_run. destruct (m dl w) as [o1 w1] eqn:E1. intros Hrun Hw.
  destruct (Hm _ _ _ _ E1 Hw) as (Hw1 & Hp & He & Hc & HQ).
  destruct o1; simplify_eq; [by eapply Hf; [apply HQ| |]|naive_solver..].
Qed.

Lemma finishes_impl {E A} (m : M E A) (Q R : A → Prop) :
  (∀ a, Q a → R a) → fin m Q → fin m R.
Proof. intros HQ Hm dl w o w' Hrun Hw. destruct (Hm _ _ _ _ Hrun Hw) as (? & ? & ? & ? & ?). naive_solver. Qed.

Lemma finishes_map_err {E F A} (g : E → F) (m : M E A) Q : fin m Q → fin (m_map_err g m) Q.
Proof.
  intros Hm dl w o w'. unfold m_map_err. destruct (m dl w) as [o1 w1] eqn:E1. intros Hrun Hw.
  destruct (Hm _ _ _ _ E1 Hw) as (? & ? & ? & ? & ?). destruct o1; simplify_eq; naive_solver.
Qed.

Lemma finishes_try {E F A} (m : M E A) : fin m any → fin (m_try m : M F _) any.
Proof.
  intros Hm dl w o w'. unfold m_try. destruct (m dl w) as [o1 w1] eqn:E1. intros Hrun Hw.
  destruct (Hm _ _ _ _ E1 Hw) as (? & ? & ? & ? & ?). destruct o1; simplify_eq; naive_solver.
Qed.

Lemma finishes_from_result {E A} (r : result E A) : fin (from_result r) (λ a, r = Ok a).
Proof. intros dl w o w'. destruct r; intros [= <- <-] Hw; naive_solver. Qed.

(** A [timeout] ends whatever it guards, an answer that never comes as well. *)
Lemma finishes_timeout {E F A} d (m : M E A) (Q : A → Prop) :
  fin m Q →
  fin (with_timeout d m : M F _) (λ r, ∀ a, r = Some (Ok a) → Q a).
Proof.
  intros Hm dl w o w'. unfold with_timeout. destruct (m _ w) as [o1 w1] eqn:E1. intros Hrun Hw.
  destruct (Hm _ _ _ _ E1 Hw) as (? & ? & _ & ? & ?).
  destruct o1; [..|done|]; destruct dl; try case_match; simplify_eq; naive_solver.
Qed.

Lemma alive_clock t w : alive n cached w → alive n cached (set_clock t w).
Proof. done. Qed.

Lemma finishes_await {E A} (a : option (N * A)) : a ≠ None → fin (await_answer a : M E A) any.
Proof.
  intros Ha dl w o w'. unfold await_answer, deadline_ok, cut_at.
  destruct a as [[d a]|]; [|done]. destruct dl; [case_match|]; intros [= <- <-] Hw;
    (split; [by apply alive_clock|naive_solver]).
Qed.

Lemma finishes_timeout_answer {E F A} d (a : option (N * A)) :
  fin (with_timeout d (await_answer a : M E A) : M F _)
    (λ r, ∀ x, r = Some (Ok x) → ∃ t, a = Some (t, x)).
Proof.
  intros dl w o w'. unfold with_timeout, await_answer, cut_at.
  destruct a as [[t x]|]; [destruct (deadline_ok _ _)|]; destruct dl; repeat case_match;
    intros Hrun Hw; simplify_eq; (split; [by try apply alive_clock|naive_solver]).
Qed.

Lemma finishes_timeout_until {E F A} d (a : option (N * A)) :
  fin (with_timeout d (await_until a : M E A) : M F _)
    (λ r, ∀ x, r = Some (Ok x) → ∃ t, a = Some (t, x)).
Proof.
  intros dl w o w'. unfold with_timeout, await_until, cut_at.
  destruct a as [[t x]|]; [destruct (deadline_ok _ _)|]; destruct dl; repeat case_match;
    intros Hrun Hw; simplify_eq; (split; [by try apply alive_clock|naive_solver]).
Qed.

Lemma finishes_read k : fin (stream_read_exact k) any.
Proof.
  intros dl w o w'. unfold stream_read_exact.
  destruct (read_exact dl k (clock w) (stream (client w))) as [[o1 t] s] eqn:E.
  intros [= <- <-] [Hs Hc]. apply (lively_read n) in E as (? & ? & ? & ?); [|done].
  split; [by split|naive_solver].
Qed.

Lemma finishes_write data : fin (stream_write_all data) any.
Proof.
  intros dl w o w'. unfold stream_write_all.
  destruct (write_all dl data (clock w) (stream (client w))) as [[o1 t] s] eqn:E.
  intros [= <- <-] [Hs Hc]. apply (lively_write n) in E as (? & ? & ? & ?); [|done].
  split; [by split|naive_solver].
Qed.

Lemma finishes_shutdown : fin stream_shutdown any.
Proof.
  intros dl w o w'. unfold stream_shutdown. intros Hrun [Hs Hc].
  pose proof (lively_shutdown n _ Hs) as Hs'. destruct (shutdown _) as [r s]. simpl in Hs'.
  assert (alive n cached (set_client (set_stream s (client w)) w)) as Hw by by split.
  destruct r; injection Hrun as <- <-; naive_solver.
Qed.
End rules.

Create HintDb ending.
#[export] Hint Resolve finishes_ret finishes_throw finishes_get finishes_note finishes_map_err
  finishes_try finishes_read finishes_write finishes_shutdown : ending.

(** Goes through a handler call by call. *)
Ltac finish :=
  repeat match goal with
  | |- finishes _ _ (_ ≫= _) _ => apply finishes_bind with any; [|intros ? _]
  | |- finishes _ _ (mret _) _ => apply finishes_ret; done
  | |- finishes _ _ (modify _) _ => apply finishes_modify; by intros ? [? ?]
  | |- finishes _ _ (question _) _ => unfold question
  | |- finishes _ _ (SocksReply_send _) _ => unfold SocksReply_send
  | |- finishes _ _ (m_map_err _ _) _ => apply finishes_map_err
  | |- finishes _ _ (m_try _) _ => apply finishes_try
  | |- finishes _ _ (from_result _) any => eapply finishes_impl; [done|apply finishes_from_result]
  | |- finishes _ _ (if ?b then _ else _) _ => destruct b
  | |- finishes _ _ (match ?x with _ => _ end) _ => destruct x eqn:?
  | |- _ => solve [eauto with ending]
  end.

(** ** The handlers of a session *)

(** The connection serves a client with at most [n] bytes left: both sides end,
    writes do not stall, and the relay over it is scheduled often enough. *)
Record serves (n : nat) (remote : Remote) : Prop := {
  sv_lively : ∃ m, lively m (remote_stream remote);
  sv_reads_a : n < count_ev is_read_a (remote_schedule remote);
  sv_reads_b : length (rx (remote_stream remote)) < count_ev is_read_b (remote_schedule remote)
}.

Definition is_control (ev : udp_event) : bool := match ev with Control => true | _ => false end.
Definition controls (evs : list udp_event) : nat := length (List.filter is_control evs).

(** A network that answers: the resolver does, connections and peers serve
    clients with at most [n] bytes left, and a socket's task learns of them. *)
Class Answers `{!Net} (n : nat) : Prop := {
  answers_lookup name t : lookup_host name t ≠ None;
  answers_connect a t d remote : tcp_connect a t = Some (d, Ok remote) → serves n remote;
  answers_accept a l t d remote peer :
    tcp_bind a = Ok l → l_accept l t = Some (d, Ok (remote, peer)) → serves n remote;
  answers_udp a s : udp_bind a = Ok s → n < controls (u_events s)
}.

Lemma recv_loop_Ok received closed last t s :
  recv_loop received closed last = Some (t, Ok s) → (t, Ok s) ∈ received.
Proof.
  revert last. induction received as [|[t1 [s1|e]] l IH]; intros last; simpl.
  - by destruct closed.
  - intros [= <- <-]. by left.
  - intros H. right. by eapply IH.
Qed.

Section handlers.
Context `{!Net, !ArrivalOrder, !HashOrder} (n : nat) (cached : bool) `{!Answers n}.
Abbreviation fin := (finishes n cached).

Lemma connect_any_serves addrs t0 t remote :
  connect_any addrs t0 = Some (t, Ok remote) → serves n remote.
Proof using Answers0.
  unfold connect_any. intros Hin%recv_loop_Ok.
  apply elem_of_arrivals in Hin as (i & a & _ & Ha). unfold attempt in Ha.
  destruct (tcp_connect a _) as [[d r]|] eqn:E; [|done]. injection Ha as _ ->.
  by eapply answers_connect.
Qed.

Lemma avalible_loop_finishes configured k methods : fin (avalible_loop configured k methods) any.
Proof. revert methods. induction k as [|k IH]; intros methods; simpl; finish; auto. Qed.
Hint Resolve avalible_loop_finishes : ending.

Lemma negotiate_finishes : fin negotiate any.
Proof.
  unfold negotiate, auth, get_avalible_methods, auth_with, deny, read_userpass,
    SOCKSReq_from_stream, read_addr. finish.
Qed.

Lemma cache_get_finishes {E} name : fin (cache_get name : M E _) any.
Proof.
  intros dl w o w'. unfold cache_get. destruct (w_cache w) as [c|] eqn:E1.
  - destruct (DnsCache_get c name (clock w)) as [r c']. intros [= <- <-] [Hs Hc].
    split; [split; [done|]|naive_solver]. intros Hf. apply Hc in Hf. congruence.
  - intros [= <- <-] Hw. naive_solver.
Qed.

Lemma cache_insert_finishes {E} name addrs : fin (cache_insert name addrs : M E _) any.
Proof.
  intros dl w o w'. unfold cache_insert. destruct (w_cache w) as [c|] eqn:E1.
  - intros Hrun [Hs Hc]. assert (cached = false → False) as Hf by (intros Hf%Hc; congruence).
    destruct (DnsCache_insert c name addrs (clock w)); injection Hrun as <- <-;
      (split; [split; [done|by intros ?%Hf]|]); (split; [done|]); (split; [done|]);
      (split; [by intros ?%Hf|done]).
  - intros [= <- <-] Hw. naive_solver.
Qed.
Hint Resolve cache_get_finishes cache_insert_finishes : ending.

Lemma addr_to_socket_finishes ty addr port : fin (addr_to_socket ty addr port) any.
Proof using Answers0.
  unfold addr_to_socket. finish. apply finishes_await, answers_lookup.
Qed.
Hint Resolve addr_to_socket_finishes negotiate_finishes : ending.

(** Nothing that is guarded by the handshake budget can outlast it. *)
Lemma bounded_finishes {A} (m : M MerinoError A) : fin m any → fin (bounded m) any.
Proof.
  intros Hm. unfold bounded. finish.
  eapply finishes_impl; [done|]. by apply finishes_timeout.
Qed.

Lemma connect_target_finishes req : fin (connect_target req) (serves n).
Proof using Answers0.
  unfold connect_target.
  apply finishes_bind with any; [by finish|intros addrs _].
  apply finishes_bind with any; [by finish|intros w _].
  eapply finishes_bind; [apply finishes_timeout_until|]. intros r Hr.
  destruct r as [[[target|e]|e]|]; try apply finishes_throw.
  apply finishes_ret. destruct (Hr _ eq_refl) as [t Ht]. by eapply connect_any_serves.
Qed.

Lemma relay_to_fin remote : serves n remote → fin (relay_to remote) any.
Proof.
  intros [[m Hm] Ha Hb] dl w o w'. unfold relay_to, copy_bidirectional_counted.
  set (evs := remote_schedule remote) in *. set (st0 := relay_start _ _ _ _). intros Hrun [Hs Hc].
  destruct (relay_loop_lively n m (has_stats (client w)) (relay_counters (client w)) evs st0)
    as [[Hfa _] Hstuck]; [by split|].
  assert (∀ st, relay_loop (has_stats (client w)) (relay_counters (client w)) evs st0 ≠ Running st) as Hrunning.
  { intros st. apply relay_loop_terminates; simpl; [apply Hs|apply Hm| |]; destruct Hs; lia. }
  destruct (relay_loop _ _ evs st0) as [st|st|e st|st]; [by destruct (Hrunning st)| | |by destruct (Hstuck st)].
  - assert (alive n cached (set_remote (Some (r_b st)) (set_clock (r_now st) (set_w_heap (r_cells st)
      (set_client (set_stream (r_a st) (client w)) w))))) as Hw1 by by split.
    refine ((_ : fin _ any) dl _ o w' Hrun Hw1). finish.
  - case_bool_decide; injection Hrun as <- <-; (split; [by split|naive_solver]).
Qed.
Hint Resolve relay_to_fin : ending.

Lemma handle_bind_finishes req : fin (handle_bind req) any.
Proof using Answers0.
  unfold handle_bind. apply finishes_bind with any; [by finish|intros w _].
  apply finishes_bind with (λ l, tcp_bind (SocketAddr_new (local_interface (client w)) 0) = Ok l).
  { apply finishes_map_err, finishes_from_result. }
  intros listener Hl. do 3 (apply finishes_bind with any; [by finish|intros ? _]).
  eapply finishes_bind; [apply finishes_timeout_answer|]. intros r Hr.
  destruct r as [[[[inbound peer]|e]|e]|]; try apply finishes_throw.
  destruct (Hr _ eq_refl) as [t Ht].
  assert (serves n inbound) by (by eapply answers_accept). finish.
Qed.
End handlers.

Lemma serves_mono n k remote : k ≤ n → serves n remote → serves k remote.
Proof. intros Hle [? ? ?]. split; [done|lia|done]. Qed.

Lemma Answers_mono `{!Net} n k : k ≤ n → Answers n → Answers k.
Proof.
  intros Hle [Hl Hc Ha Hu]. split.
  - exact Hl.
  - intros. by eapply serves_mono, Hc.
  - intros. by eapply serves_mono, Ha.
  - intros a s Hs. specialize (Hu a s Hs). lia.
Qed.

Lemma finishes_mono {E A} k n cached (m : M E A) dl w o w' (Q : A → Prop) :
  k ≤ n → finishes k cached m Q → m dl w = (o, w') → alive k cached w →
  alive n cached w' ∧ o ≠ Pending ∧ (dl = None → o ≠ Elapsed) ∧
  (cached = false → o ≠ Crash) ∧ ∀ a, o = Done a → Q a.
Proof.
  intros Hle Hm Hrun Hw. destruct (Hm _ _ _ _ Hrun Hw) as ([Hs Hc] & H). split; [|done].
  split; [by eapply lively_mono|done].
Qed.

Section session.
Context `{!Net, !ArrivalOrder, !HashOrder} (cached : bool).

Lemma udp_forward_finishes n data : Answers n → finishes n cached (udp_forward data) any.
Proof.
  intros Hn. unfold udp_forward, send_to. finish. by apply addr_to_socket_finishes.
Qed.

Lemma udp_datagram_finishes n expected r c :
  Answers n → finishes n cached (udp_step expected (Datagram r) c) any.
Proof.
  intros Hn. unfold udp_step, send_to. finish; by apply udp_forward_finishes.
Qed.

(** Each time the control connection wakes the task, a byte of it is dropped or
    its end is seen. *)
Lemma udp_loop_finishes n expected evs c :
  Answers n → n < controls evs → finishes n cached (udp_loop expected evs c) any.
Proof.
  revert n c. induction evs as [|[|r] evs IH]; intros n c Hn Hlt; [by apply Nat.nlt_0_r in Hlt| |].
  - intros dl w o w'. cbn [udp_loop]. rewrite bind_run. cbn [udp_step]. unfold read_some.
    intros Hrun [Hs Hc]. pose proof Hs as [Hws He Hl]. unfold ends in He.
    destruct (rx (stream (client w))) as [|p l] eqn:Hrx.
    + destruct (rx_end (stream (client w))) eqn:Hend; [..|done];
        injection Hrun as <- <-; (split; [by split|naive_solver]).
    + change (min (max 1 1) RELAY_BUF_SIZE) with 1 in Hrun.
      cbn [firstn skipn fmap list_fmap] in Hrun.
      unfold controls in Hlt. cbn [List.filter is_control length] in Hlt, Hl.
      destruct n as [|n]; [lia|].
      assert (Answers n) as Hn' by (eapply Answers_mono; [|exact Hn]; lia).
      specialize (IH n c Hn' ltac:(unfold controls; lia)).
      eapply (finishes_mono n); [lia|exact IH|exact Hrun|].
      split; [|done]. split; [done..|]. simpl. rewrite drop_0. lia.
  - cbn [udp_loop]. apply finishes_bind with any; [by apply udp_datagram_finishes|intros next _].
    destruct next; [by apply IH|by apply finishes_ret].
Qed.

Lemma handle_request_finishes n req : Answers n → finishes n cached (handle_request req) any.
Proof.
  intros Hn. unfold handle_request. do 2 (apply finishes_bind with any; [by finish|intros ? _]).
  destruct (req_command req).
  - eapply finishes_bind; [by apply connect_target_finishes|intros target Ht].
    apply finishes_bind with any; [by finish|intros _ _]. by apply relay_to_fin.
  - by apply handle_bind_finishes.
  - unfold handle_udp_associate. apply finishes_bind with any; [by finish|intros w _].
    apply finishes_bind with (λ s, udp_bind (SocketAddr_new (local_interface (client w)) 0) = Ok s).
    { apply finishes_map_err, finishes_from_result. }
    intros socket Hs. do 2 (apply finishes_bind with any; [by finish|intros ? _]).
    apply finishes_bind with any; [|intros _ _; by apply finishes_ret].
    apply udp_loop_finishes; [done|]. by eapply answers_udp.
Qed.

Lemma init_finishes n : Answers n → finishes n cached init any.
Proof.
  intros Hn. unfold init. apply finishes_bind with any; [|intros req _].
  { apply bounded_finishes, negotiate_finishes. }
  apply finishes_bind with any; [by apply handle_request_finishes|intros _ _; by apply finishes_ret].
Qed.

Lemma report_failure_finishes n e : finishes n cached (report_failure e) any.
Proof. unfold report_failure. finish. Qed.

Lemma session_ends n addr w o w' :
  Answers n → lively n (stream (client w)) → (cached = false → w_cache w = None) →
  run_client addr w = (o, w') → o = Done () ∨ (o = Crash ∧ cached = true).
Proof.
  intros Hn Hs Hc. unfold run_client. destruct (start_client addr w) as [guard w1] eqn:Hst.
  assert (alive n cached w1) as Hw1.
  { apply start_client_eq in Hst as (Hcl & _ & _ & _ & Hca & _). split; [|by rewrite Hca].
    by rewrite Hcl. }
  destruct (init None w1) as [o1 w2] eqn:Hi.
  destruct (init_finishes n Hn _ _ _ _ Hi Hw1) as (Hw2 & Hp & He & Hcr & _). specialize (He eq_refl).
  destruct o1 as [[]|e| | |]; try done.
  - intros [= <- _]. by left.
  - destruct (report_failure_run e w2) as (k & w3 & o3 & Er & _ & _ & Ho3).
    destruct (report_failure_finishes n e _ _ _ _ Er Hw2) as (_ & Hp3 & _).
    rewrite Er. destruct Ho3 as [[-> _]|[-> _]]; [|done]. intros [= <- _]. by left.
  - intros [= <- _]. right. split; [done|]. destruct cached; [done|]. by destruct Hcr.
Qed.
End session.

(** C7: every session ends.  When the client's stream and those of its peers come
    to an end, no write stalls for ever and the resolver answers, the task of a
    connection returns: it is never left waiting, whatever the client sends,
    whatever fails and whichever command it runs.  It panics, if at all, in the
    DNS cache. *)
Theorem run_client_ends `{!Net, !ArrivalOrder, !HashOrder} n addr w o w' :
  Answers n → lively n (stream (client w)) → run_client addr w = (o, w') →
  o = Done () ∨ (o = Crash ∧ is_Some (w_cache w)).
Proof.
  intros Hn Hs Hrun. destruct (w_cache w) as [c|] eqn:Hc.
  - destruct (session_ends true n addr w o w') as [?|[? _]]; eauto. done.
  - destruct (session_ends false n addr w o w') as [?|[? ?]]; eauto. done.
Qed.

(** ** Witness *)

(** Every address accepts at once, and answers three bytes. *)
Definition answering_remote : Remote :=
  {| remote_stream := demo_b; remote_schedule := replicate 65 (ReadA 9) ++ replicate 4 (ReadB 9) |}.

Definition answering_net : Net := {|
  lookup_host _ _ := Some (from_millis 5, Ok [demo_v4 x02]);
  lookup_host_port _ _ := Ok [demo_v4 x02];
  tcp_connect _ _ := Some (from_millis 20, Ok answering_remote);
  tcp_bind _ := Ok {| l_local_addr := Ok (demo_v4 x02);
                      l_accept _ := Some (0%N, Ok (answering_remote, demo_v4 x03)) |};
  udp_bind a := Ok {| u_local_addr := Ok a; u_events := replicate 65 Control |};
  set_nonblocking _ := Ok ();
  from_std l := Ok l
|}.
#[local] Existing Instance answering_net.
#[local] Existing Instance map_order.

Lemma answering_serves : serves 64 answering_remote.
Proof.
  split; [exists 3; split; [constructor|discriminate|simpl; lia]|vm_compute; lia|vm_compute; lia].
Qed.

#[local] Instance answering_answers : Answers 64.
Proof.
  split.
  - discriminate.
  - intros a t d remote [= _ <-]. apply answering_serves.
  - intros a l t d remote peer [= <-] [= _ <- _]. apply answering_serves.
  - intros a s [= <-]. vm_compute. lia.
Qed.

Lemma run_client_ends_witness :
  ∃ w', run_client demo_addr (demo_world [x02] demo_bytes) = (Done (), w').
Proof.
  destruct (run_client demo_addr (demo_world [x02] demo_bytes)) as [o w'] eqn:E. exists w'.
  destruct (run_client_ends 64 demo_addr (demo_world [x02] demo_bytes) o w' _
    ltac:(split; [constructor|discriminate|vm_compute; lia]) E) as [->|[_ [c Hc]]];
    [reflexivity|discriminate].
Defined.
