(* ===== verification/Drain.v ===== *)
(** * Winding down: a server whose clients have all gone

    In the steps of [Server] a connection that has started may end at any time.
    Here its end is tied to [run_client]: it can end only as the session of its
    client does.  [Ending] shows when sessions return; so, when no one connects
    any more, the server comes to the end of the connections it has, and then has
    everything back - permits, slots, registrations - while a session that hangs
    keeps what it holds for ever. *)
From S2P Require Import Prelude Fmt Types Wire Credentials PerIp DnsCache Stats Stream Relay Connect.
From S2P Require Import Client Handshake Resolve Udp Config Session Server Trace Ending.

(** ** Nothing is left *)

(** No connection, and nothing held on behalf of one: all permits are available
    or with the loops that wait for a client, the registry is empty, and so is
    the limiter's map. *)
Record idle `{!Semaphore} (max_ : usize) (sv : Server) : Prop := {
  idle_live : sv_live sv = [];
  idle_permits : available (sv_sem sv) + holding (sv_loops sv) = max_;
  idle_stats : ∃ s, p_stats (sv_proc sv) !! ctx_stats (sv_ctx sv) = Some s ∧
                    active s = 0%N ∧ active_per_ip s = ∅ ∧ clients s = ∅;
  idle_slots l : ctx_per_ip (sv_ctx sv) = Some l →
                 ∃ limiter, p_limiters (sv_proc sv) !! l = Some limiter ∧ counts limiter = ∅
}.

Lemma registry_inv_empty s h :
  registry_inv s h [] → active s = 0%N ∧ active_per_ip s = ∅ ∧ clients s = ∅.
Proof.
  intros [_ _ _ _ _ _ Ha Hip _ Hrows]. split_and!; [done| |].
  - apply map_empty. intros ip. by rewrite Hip.
  - apply map_empty. intros id. destruct (clients s !! id) as [r|] eqn:E; [|done].
    by destruct (Hrows _ _ E) as (g & Hg%not_elem_of_nil & _).
Qed.

Lemma server_inv_idle `{!Semaphore} max_ cap sv :
  server_inv max_ cap sv → sv_live sv = [] → idle max_ sv.
Proof.
  intros [Hp _ Hl (s & Hs & Hr)] Hlive. split; [done| | |].
  - rewrite Hlive in Hp. simpl in Hp. lia.
  - exists s. split; [done|]. apply (registry_inv_empty _ (p_heap (sv_proc sv))).
    unfold guards in Hr. by rewrite Hlive in Hr.
  - intros l Hc. unfold limited in Hl. rewrite Hc, Hlive in Hl. destruct cap as [k|]; [|done].
    destruct Hl as (limiter & Hlim & _ & Hspec & _). exists limiter. split; [done|].
    apply map_empty. intros ip. by rewrite (spec_counts _ _ Hspec), multiplicity_slots_of.
Qed.

(** ** Connections that end as their sessions do *)

(** What a started connection runs: its client, and since when. *)
Definition session : Type := SOCKClient * N.

(** How [run_client] leaves; [None]: it does not. *)
Definition exit_of {E A} (o : outcome E A) : option exit :=
  match o with
  | Pending => None
  | Crash => Some Panicked
  | Done _ | Throw _ | Elapsed => Some Returned
  end.

(** A world in which the session of [c] may run: the statistics, the counters and
    what the cache holds are up to the other connections. *)
Record session_of (c : SocksConnection) (run : session) (w : World) : Prop := {
  so_client : client w = run.1;
  so_clock : clock w = run.2;
  so_cache : sc_cache c = None → w_cache w = None;
  so_fresh : w_datagrams w = [] ∧ w_remote w = None
}.

Section driven.
Context `{!Net, !ArrivalOrder, !HashOrder, !Semaphore}.

(** The session of [c] can come to an end, and it does so by [how]. *)
Definition leaves (c : SocksConnection) (run : session) (how : exit) : Prop :=
  ∃ w, session_of c run w ∧ exit_of (run_client (sc_peer c) w).1 = Some how.

Definition hangs (c : SocksConnection) (run : session) : Prop :=
  ∀ w, session_of c run w → (run_client (sc_peer c) w).1 = Pending.

(** A server, and for every connection the session it runs, once it has
    started. *)
Definition driven : Type := Server * list (option session).

(** The steps of the server: what starts is the session of the client, and what
    ends is one that does. *)
Inductive driven_step : label → driven → driven → Prop :=
  | DServer l sv sv' runs :
      server_step l sv sv' → match l with LStart _ | LFinish _ => False | _ => True end →
      driven_step l (sv, runs)
        (sv', runs ++ replicate (length (sv_live sv') - length (sv_live sv)) None)
  | DStart j now c c' p' client sv runs :
      sv_live sv !! j = Some c → sc_client c = Some client →
      begin_connection (sv_backend sv) now c (sv_proc sv) = Some (c', p') →
      (∀ s, p_stats (sv_proc sv) !! sc_stats c = Some s → next_client_id s + 1 < u64_modulus)%N →
      driven_step (LStart j) (sv, runs)
        (sv_set p' (sv_sem sv) (sv_loops sv) (<[j := c']> (sv_live sv)) sv,
         <[j := Some (client, now)]> runs)
  | DFinish how j c run sv sv' runs :
      sv_live sv !! j = Some c → is_Some (sc_guard c) → runs !! j = Some (Some run) →
      leaves c run how → end_connection how j sv = Some sv' →
      driven_step (LFinish j) (sv, runs) (sv', delete j runs).

Definition driven_reachable : driven → driven → Prop := rtc (λ d d', ∃ l, driven_step l d d').

(** They are steps of the server. *)
Lemma driven_server_step l d d' : driven_step l d d' → server_step l d.1 d'.1.
Proof.
  intros [l' sv sv' runs Hs Hl|j now c c' p' cl sv runs Hj Hc Hb Hid
    |how j c run sv sv' runs Hj Hg Hr Hl He]; simpl; [done|by eapply SStart|by eapply SFinish].
Qed.

Lemma driven_server d d' : driven_reachable d d' → server_reachable d.1 d'.1.
Proof.
  induction 1 as [d|d d1 d2 [l Hl] _ IH]; [apply rtc_refl|].
  eapply rtc_l; [exists l; by apply driven_server_step|done].
Qed.

(** The sessions are those of the connections that have started. *)
Definition aligned (d : driven) : Prop :=
  Forall2 (λ c run, run = None ↔ sc_guard c = None) (sv_live d.1) d.2.

(** A step other than a start or an end leaves the connections as they are, or
    adds one that has not started. *)
Lemma server_step_live l sv sv' :
  server_step l sv sv' → match l with LStart _ | LFinish _ => False | _ => True end →
  sv_live sv' = sv_live sv ∨ ∃ c, sv_live sv' = sv_live sv ++ [c] ∧ sc_guard c = None.
Proof.
  intros [i sv1 sv2 Hi Ht|i r now un sv1 Hi|j now c c' p' sv1 Hj Hst Hid|s s' h' sv1 Hne Hs Hw
    |l0 c op sv1 Hne Hl|how j c sv1 sv2 Hj Hc Hf] Hl'; try (by left); try done.
  - left. unfold take_permit in Ht. destruct (sem_acquire _); by simplify_eq/=.
  - unfold accepted. destruct r as [[inc addr]|e]; [|by left].
    destruct (claim_slot _ _ _) as [[slot|] p]; [|by left]. right.
    destruct (on_accept _ _ _ _ _ _ _) as [c p'] eqn:Eo.
    apply on_accept_spec in Eo as (_ & _ & _ & _ & _ & _ & Hg & _). by exists c.
Qed.

Lemma begin_connection_guard b now c p c' p' :
  begin_connection b now c p = Some (c', p') → is_Some (sc_guard c').
Proof.
  rewrite begin_connection_task. unfold task_started. destruct (sc_client c); [|done].
  cbn [mbind option_bind]. destruct (run_client_begins _ _ _ _ _ _) as [[g q]|]; [|done].
  cbn [mbind option_bind]. intros [= <- _]. by eexists.
Qed.

Lemma driven_step_aligned l d d' : driven_step l d d' → aligned d → aligned d'.
Proof.
  unfold aligned. intros [l' sv sv' runs Hs Hl|j now c c' p' cl sv runs Hj Hc Hb Hid
    |how j c run sv sv' runs Hj Hg Hr Hl He] Ha; cbn [fst snd] in *.
  - destruct (server_step_live _ _ _ Hs Hl) as [->|(c & -> & Hg)].
    + by rewrite Nat.sub_diag, app_nil_r.
    + rewrite length_app, Nat.add_sub_swap, Nat.sub_diag by done. simpl.
      apply Forall2_app; [done|]. by repeat constructor.
  - apply Forall2_insert; [done|]. apply begin_connection_guard in Hb as [g ->]. done.
  - rewrite end_connection_leave in He. destruct (finish_Some _ _ _ He) as (p & sm & ->).
    by apply Forall2_delete.
Qed.

Lemma driven_reachable_aligned d d' : driven_reachable d d' → aligned d → aligned d'.
Proof. apply rtc_invariant. intros ?? [l ?]. by eapply driven_step_aligned. Qed.

(** A session that hangs stays. *)
Lemma driven_step_stays c run d d' l :
  hangs c run → driven_step l d d' →
  (∃ j, sv_live d.1 !! j = Some c ∧ d.2 !! j = Some (Some run)) →
  is_Some (sc_guard c) → sc_client c = None →
  ∃ j, sv_live d'.1 !! j = Some c ∧ d'.2 !! j = Some (Some run).
Proof.
  intros Hh [l' sv sv' runs Hs Hl|i now c1 c' p' cl sv runs Hi Hc Hb Hid
    |how i c1 run1 sv sv' runs Hi Hg Hr Hl He] (j & Hj & Hrun) Hgc Hcl; cbn [fst snd] in *.
  - exists j. split; [|by apply lookup_app_l_Some].
    destruct (server_step_live _ _ _ Hs Hl) as [->|(c1 & -> & _)]; [done|by apply lookup_app_l_Some].
  - exists j. destruct (decide (i = j)) as [->|Hne]; [congruence|]. simpl.
    by rewrite !list_lookup_insert_ne.
  - rewrite end_connection_leave in He. destruct (finish_Some _ _ _ He) as (p & sm & ->). simpl.
    destruct (decide (i = j)) as [->|Hne].
    { destruct Hl as (w & Hw & Hex). simplify_eq. by rewrite (Hh w Hw) in Hex. }
    destruct (decide (j < i)) as [Hlt|Hge].
    + exists j. by rewrite !list_lookup_delete_lt.
    + exists (j - 1). rewrite !list_lookup_delete_ge by lia.
      by replace (S (j - 1)) with j by lia.
Qed.

Lemma hung_stays c run d d' :
  hangs c run → driven_reachable d d' →
  (∃ j, sv_live d.1 !! j = Some c ∧ d.2 !! j = Some (Some run)) →
  is_Some (sc_guard c) → sc_client c = None →
  ∃ j, sv_live d'.1 !! j = Some c ∧ d'.2 !! j = Some (Some run).
Proof.
  intros Hh Hr Hj Hg Hc. revert Hr Hj.
  apply (rtc_invariant _ (λ d, ∃ j, sv_live d.1 !! j = Some c ∧ d.2 !! j = Some (Some run))).
  intros x y [l Hl] Hx. by eapply driven_step_stays.
Qed.
End driven.

(** ** The connections end one by one *)

Section drain.
Context `{!Net, !ArrivalOrder, !HashOrder, !Semaphore} (max_ : usize) (cap : option usize) (k : nat).

(** The clients that wait to be started, and those of the sessions that run, have
    streams that end. *)
Definition winding (sv : Server) (runs : list (option session)) : Prop :=
  (∀ c client, c ∈ sv_live sv → sc_client c = Some client → lively k (stream client)) ∧
  (∀ client now, Some (client, now) ∈ runs → lively k (stream client)).

(** There are identifiers for those. *)
Definition ids_left (sv : Server) : Prop :=
  ∀ s, p_stats (sv_proc sv) !! ctx_stats (sv_ctx sv) = Some s →
       (next_client_id s + N.of_nat (length (sv_live sv)) < u64_modulus)%N.

(** The end of a connection uses up no identifier. *)
Lemma finish_next j sv sv' l s' :
  leave j sv = Some sv' → p_stats (sv_proc sv') !! l = Some s' →
  ∃ s, p_stats (sv_proc sv) !! l = Some s ∧ next_client_id s' = next_client_id s.
Proof.
  unfold leave, task_ended.
  intros (c & _ & ([p sm] & (q & Hd & [= -> <-])%bind_Some & [= <-])%bind_Some)%bind_Some Hs'.
  simpl in Hs'.
  assert (p_stats p = p_stats (drop_guard c (sv_proc sv))) as E.
  { revert Hd. unfold drop_slot. destruct (ctx_per_ip _), (sc_ip_slot c); try (by intros [= <-]).
    intros (lim & _ & (lim' & _ & [= <-])%bind_Some)%bind_Some. done. }
  rewrite E in Hs'. unfold drop_guard in Hs'. destruct (sc_guard c) as [g|]; [|by eauto].
  simpl in Hs'. destruct (decide (l = sc_stats c)) as [->|Hne].
  - apply on_stats_lookup_inv in Hs' as (s & ? & ->). by eauto.
  - unfold on_stats in Hs'. simpl in Hs'. rewrite list_lookup_alter_ne in Hs' by done. by eauto.
Qed.

(** A start uses up one. *)
Lemma start_client_next addr w g w1 :
  start_client addr w = (g, w1) →
  next_client_id (w_stats w1) = u64_add (next_client_id (w_stats w)) 1.
Proof.
  unfold start_client. destruct (begin_client _ _ _ _ _) as [[g0 s] h] eqn:Hb. intros [= <- <-].
  by injection Hb as <- <- <-.
Qed.

Lemma begin_connection_stats b now c client s g w1 p :
  sc_client c = Some client → p_stats p !! sc_stats c = Some s →
  start_client (sc_peer c) (session_world c client s now p) = (g, w1) →
  ∃ c' p', begin_connection b now c p = Some (c', p') ∧ sc_client c' = None ∧
           p_stats p' !! sc_stats c = Some (w_stats w1).
Proof.
  intros Hc Hs Hsc. rewrite begin_connection_task. unfold task_started, run_client_begins.
  rewrite Hc. cbn [mbind option_bind]. rewrite Hs. cbn [mbind option_bind].
  unfold session_world, cache_of in Hsc. rewrite Hsc. eexists _, _. split_and!; [done..|].
  exact (on_stats_lookup _ (λ _, w_stats w1) (set_heap (w_heap w1) p) _ Hs).
Qed.

(** The first connection, when it has started: its session returns. *)
Lemma started_ends sv c live run runs :
  Answers k → server_inv max_ cap sv → lively k (stream run.1) →
  sv_live sv = c :: live → sc_client c = None →
  ∃ sv', driven_reachable (sv, Some run :: runs) (sv', runs) ∧ sv_live sv' = live ∧
    sv_loops sv' = sv_loops sv ∧ sv_ctx sv' = sv_ctx sv ∧
    ∀ l s', p_stats (sv_proc sv') !! l = Some s' →
            ∃ s, p_stats (sv_proc sv) !! l = Some s ∧ next_client_id s' = next_client_id s.
Proof.
  intros Hk Hinv Hl Hlive Hc. destruct (si_registry _ _ _ Hinv) as (s & Hs & _).
  assert (sv_live sv !! 0 = Some c) as Hj by by rewrite Hlive.
  set (w := session_world c run.1 s run.2 (sv_proc sv)).
  destruct (run_client (sc_peer c) w) as [o w'] eqn:Hrun.
  assert (∃ how, exit_of o = Some how) as [how Hhow].
  { eapply (session_ends true) in Hrun as [->|[-> _]]; [by eexists..|exact Hk|exact Hl|done]. }
  destruct (finish_inv _ _ _ _ _ Hj Hc Hinv) as (sv' & Hf & _ & _).
  destruct (finish_Some _ _ _ Hf) as (p & sm & E). exists sv'. split_and!.
  - apply rtc_once. exists (LFinish 0). eapply (DFinish how 0 c run _ _ (Some run :: runs)).
    + done.
    + by apply (live_client max_ cap sv 0 c Hinv Hj).
    + done.
    + exists w. rewrite Hrun. split; [|done]. split; [done|done| |done].
      intros Hca. unfold w, session_world, world_of, cache_of. simpl. by rewrite Hca.
    + by rewrite end_connection_leave.
  - rewrite E. simpl. by rewrite Hlive.
  - by rewrite E.
  - by rewrite E.
  - intros l s' Hl2. by eapply finish_next.
Qed.

(** The first connection ends, after it has been started if it had not. *)
Lemma first_ends sv c live run runs :
  Answers k → server_inv max_ cap sv → aligned (sv, run :: runs) →
  winding sv (run :: runs) → ids_left sv → sv_live sv = c :: live →
  ∃ sv', driven_reachable (sv, run :: runs) (sv', runs) ∧ sv_live sv' = live ∧
         sv_loops sv' = sv_loops sv ∧ ids_left sv'.
Proof.
  intros Hk Hinv Ha [Hw Hwr] Hid Hlive. destruct (si_registry _ _ _ Hinv) as (s & Hs & _).
  assert (sv_live sv !! 0 = Some c) as Hj by by rewrite Hlive.
  pose proof (live_client _ _ _ _ _ Hinv Hj) as Hgc.
  specialize (Hid _ Hs). rewrite Hlive in Hid. simpl in Hid.
  assert (sc_stats c = ctx_stats (sv_ctx sv)) as Hst
    by (by eapply (Forall_lookup_1 _ _ _ _ (si_held _ _ _ Hinv)) in Hj as (_ & ? & _)).
  unfold aligned in Ha. simpl in Ha. rewrite Hlive in Ha. apply Forall2_cons_1 in Ha as [Hrun _].
  destruct (sc_client c) as [client|] eqn:Hc.
  - destruct (start_client (sc_peer c) (session_world c client s 0 (sv_proc sv))) as [g w1] eqn:Hsc.
    rewrite <- Hst in Hs.
    destruct (begin_connection_stats (sv_backend sv) _ _ _ _ _ _ _ Hc Hs Hsc) as (c' & p' & Hb & Hc' & Hs1).
    set (sv1 := sv_set p' (sv_sem sv) (sv_loops sv) (<[0 := c']> (sv_live sv)) sv).
    assert (driven_step (LStart 0) (sv, run :: runs) (sv1, Some (client, 0%N) :: runs)) as Hstep.
    { apply (DStart 0 0 c c' p' client sv (run :: runs)); [done..|].
      rewrite Hs. intros s' [= <-]. lia. }
    assert (server_inv max_ cap sv1) as Hinv1
      by (eapply server_step_inv; [exact (driven_server_step _ _ _ Hstep)|done]).
    destruct (started_ends sv1 c' live (client, 0%N) runs) as (sv' & Hr & Hl & Hlo & Hctx & Hn).
    + done.
    + done.
    + apply (Hw c); [rewrite Hlive; by left|done].
    + unfold sv1. simpl. by rewrite Hlive.
    + done.
    + exists sv'. split; [eapply rtc_l; [by eexists|exact Hr]|]. split; [done|]. split; [done|].
      intros s' Hs'. destruct (Hn _ _ Hs') as (s2 & Hs2 & ->). rewrite Hctx in Hs2.
      change (p_stats p' !! ctx_stats (sv_ctx sv) = Some s2) in Hs2.
      rewrite <- Hst, Hs1 in Hs2. injection Hs2 as <-. rewrite (start_client_next _ _ _ _ Hsc), Hl.
      unfold session_world, world_of. simpl. unfold u64_add. rewrite N.mod_small; lia.
  - destruct run as [run|]; [|by destruct (proj2 Hgc eq_refl) as [g Hg]; rewrite (proj1 Hrun eq_refl) in Hg].
    destruct (started_ends sv c live run runs) as (sv' & Hr & Hl & Hlo & Hctx & Hn); [done..| |done|done|].
    { destruct run as [client now]. apply (Hwr client now). by left. }
    exists sv'. split_and!; [done..|]. intros s' Hs'. destruct (Hn _ _ Hs') as (s2 & Hs2 & ->).
    rewrite Hctx in Hs2. simplify_eq. lia.
Qed.

Lemma wind_down sv runs :
  Answers k → server_inv max_ cap sv → aligned (sv, runs) → winding sv runs → ids_left sv →
  ∃ sv', driven_reachable (sv, runs) (sv', []) ∧ sv_live sv' = [] ∧ sv_loops sv' = sv_loops sv.
Proof.
  intros Hk. revert sv. induction runs as [|run runs IH]; intros sv Hinv Ha Hw Hid.
  - exists sv. split_and!; [apply rtc_refl| |done]. by apply Forall2_nil_inv_r in Ha.
  - destruct (sv_live sv) as [|c live] eqn:Hlive.
    { unfold aligned in Ha. simpl in Ha. rewrite Hlive in Ha. by apply Forall2_nil_inv_l in Ha. }
    destruct (first_ends sv c live run runs Hk Hinv Ha Hw Hid Hlive) as (sv1 & Hr & Hl & Hloops & Hid1).
    destruct (IH sv1) as (sv2 & Hr2 & Hl2 & Hloops2).
    + eapply server_reachable_inv; [exact (driven_server _ _ Hr)|done].
    + by eapply driven_reachable_aligned.
    + destruct Hw as [Hw Hwr]. split.
      * intros c' client. rewrite Hl. intros Hin. apply Hw. rewrite Hlive. by right.
      * intros client now Hin. apply (Hwr client now). by right.
    + done.
    + exists sv2. split; [by etrans|]. split; [done|congruence].
Qed.
End drain.

(** C8: When clients stop coming, the server winds down, and only because their
    sessions end.  Consider every run in which a connection that has started ends
    as [run_client] of its client does.  From any state it can be in, if the
    clients that wait or are served and their destinations let go some day and
    the resolver answers, the server can go on to a state without connections, in
    which every permit is available or with a loop waiting for a client, the
    registry is empty and no source holds a slot; the accept loops are where they
    were.  And a connection whose session hangs is still there in every state the
    server comes to: it is never idle again. *)
Theorem server_winds_down `{!Net, !ArrivalOrder, !HashOrder, !Semaphore} b ctx max_ n cap p sv0 sv runs :
  ready (ctx_stats ctx) (ctx_per_ip ctx) cap p →
  start_server b ctx max_ n p = Some sv0 → driven_reachable (sv0, []) (sv, runs) →
  (∀ k, Answers k → winding k sv runs → ids_left sv →
     ∃ sv', driven_reachable (sv, runs) (sv', []) ∧ idle max_ sv' ∧ sv_loops sv' = sv_loops sv) ∧
  (∀ j c run, sv_live sv !! j = Some c → runs !! j = Some (Some run) → hangs c run →
     ∀ sv' runs', driven_reachable (sv, runs) (sv', runs') →
       c ∈ sv_live sv' ∧ ¬ idle max_ sv').
Proof.
  intros Hready Hstart Hr.
  pose proof (reachable_inv _ _ _ _ _ _ _ Hready Hstart _ (driven_server _ _ Hr)) as Hinv.
  assert (aligned (sv, runs)) as Ha.
  { eapply driven_reachable_aligned; [exact Hr|]. unfold start_server in Hstart.
    destruct (sem_new max_); simplify_eq/=. constructor. }
  split.
  - intros k Hk Hw Hid. destruct (wind_down max_ cap k sv runs Hk Hinv Ha Hw Hid) as (sv' & Hr' & Hlive & Hloops).
    exists sv'. split; [done|]. split; [|done]. eapply server_inv_idle; [|done].
    eapply server_reachable_inv; [exact (driven_server _ _ Hr')|done].
  - intros j c run Hj Hrun Hh sv' runs' Hr'. pose proof (live_client _ _ _ _ _ Hinv Hj) as Hgc.
    assert (is_Some (sc_guard c)) as Hg.
    { eapply Forall2_lookup_lr in Ha; [|exact Hj|exact Hrun]. apply not_eq_None_Some. by rewrite <- Ha. }
    destruct (hung_stays c run _ _ Hh Hr') as (i & Hi & _); [by eexists|done|by apply Hgc|].
    simpl in Hi. split; [by eapply list_elem_of_lookup_2|]. intros Hidle.
    by rewrite (idle_live _ _ Hidle) in Hi.
Qed.

(** ** No other run does worse *)

(** What the connections of a server still have before them: to be started and
    to end, or to end. *)
Definition to_do `{!Semaphore} (sv : Server) : nat :=
  sum_list ((λ c, match sc_client c with Some _ => 2 | None => 1 end) <$> sv_live sv).

Lemma to_do_split `{!Semaphore} sv j c :
  sv_live sv !! j = Some c →
  to_do sv = match sc_client c with Some _ => 2 | None => 1 end +
             sum_list ((λ c, match sc_client c with Some _ => 2 | None => 1 end) <$>
                       delete j (sv_live sv)).
Proof.
  intros Hj. unfold to_do. rewrite (delete_Permutation _ _ _ Hj) at 1. done.
Qed.

(** Every step but an accepted connection keeps to it: a start or an end takes
    one off, whatever the order, and nothing else adds any; so without new
    connections there are [to_do sv] starts and ends left, and no more. *)
Lemma step_to_do `{!Semaphore} max_ cap l sv sv' :
  server_inv max_ cap sv → server_step l sv sv' →
  match l with
  | LAccept _ => True
  | LStart _ | LFinish _ => to_do sv = S (to_do sv')
  | LAcquire _ | LWork | LCache => to_do sv' = to_do sv
  end.
Proof.
  intros Hinv Hstep. revert Hinv.
  destruct Hstep as [i sv1 sv2 Hi Ht|i r now un sv1 Hi|j now c c' p' sv1 Hj Hst Hid
    |s s' h' sv1 Hne Hs Hw|l0 c op sv1 Hne Hl|how j c sv1 sv2 Hj Hc Hf]; intros Hinv; try done.
  - unfold take_permit in Ht. destruct (sem_acquire _); by simplify_eq/=.
  - assert (sc_client c' = None ∧ is_Some (sc_client c)) as [Hc' [client Hc]].
    { rewrite begin_connection_task in Hst. unfold task_started in Hst.
      destruct (sc_client c) as [client|]; [|done]. cbn [mbind option_bind] in Hst.
      destruct (run_client_begins _ _ _ _ _ _) as [[g q]|]; [|done].
      injection Hst as <- <-. split; [done|by eexists]. }
    rewrite (to_do_split _ _ _ Hj), Hc.
    rewrite (to_do_split (sv_set _ _ _ _ _) j c'); simpl.
    + by rewrite Hc', list_delete_insert.
    + apply list_lookup_insert_eq, lookup_lt_is_Some. by eexists.
  - apply (live_client _ _ _ _ _ Hinv Hj) in Hc. rewrite end_connection_leave in Hf.
    destruct (finish_Some _ _ _ Hf) as (p & sm & ->). by rewrite (to_do_split _ _ _ Hj), Hc.
Qed.

(** ** Witness *)

#[local] Existing Instance answering_net.
#[local] Existing Instance answering_answers.
#[local] Existing Instance map_order.
#[local] Existing Instance counting_semaphore.

(** A server with one connection that has been accepted and not yet started. *)
Definition demo_winding : Server := accepted 0 (Ok demo_incoming) 0 0 (demo_waiting Tokio 1).

Lemma demo_winding_reachable :
  driven_reachable (demo_server Tokio 1, []) (demo_winding, [None]).
Proof.
  eapply rtc_l; [exists (LAcquire 0)|apply rtc_once; exists (LAccept 0)].
  - exact (DServer _ _ (demo_waiting Tokio 1) [] (SAcquire 0 (demo_server Tokio 1) _ eq_refl eq_refl) I).
  - exact (DServer _ _ demo_winding [] (SAccept 0 (Ok demo_incoming) 0 0 (demo_waiting Tokio 1) eq_refl) I).
Qed.

(** A client that says nothing and takes no byte: after the handshake budget the
    failure reply is written to it without one, and its session hangs. *)
Definition stuck_incoming : Incoming :=
  {| in_stream := {| rx := []; rx_end := EndSilent;
                     writes := [{| w_delay := None; w_partial := 0; w_error := None |}];
                     shutdowns := []; out := [] |};
     in_local_addr := Ok demo_home |}.

Definition stuck_client : SOCKClient := new_client demo_ctx stuck_incoming.

Lemma stuck_hangs c : hangs c (stuck_client, 0%N).
Proof.
  intros w [Hc Hk _ _]. unfold run_client. destruct (start_client _ _) as [g w1] eqn:E.
  destruct (start_client_eq _ _ _ _ E) as (Hc1 & Hk1 & _). rewrite Hc in Hc1. rewrite Hk in Hk1.
  assert ((init None w1).1 = Throw (Socks TtlExpired) ∧
          (report_failure (Socks TtlExpired) None (init None w1).2).1 = Pending) as [H1 H2].
  { clear -Hc1 Hk1. destruct w1 as [clk cl st h ca dg rem]. simpl in *. rewrite Hc1, Hk1.
    split; vm_compute; reflexivity. }
  destruct (init None w1) as [o w2]. simpl in H1, H2. subst o.
  destruct (report_failure _ None w2) as [o3 w3]. simpl in H2. by subst o3.
Qed.

(** It has been accepted. *)
Definition demo_stuck : Server := accepted 0 (Ok (stuck_incoming, demo_ip)) 0 0 (demo_waiting Tokio 1).

(** The first server becomes idle; the second, once it has started the session
    that hangs, never does. *)
Lemma server_winds_down_witness :
  (∃ sv', driven_reachable (demo_winding, [None]) (sv', []) ∧ idle 2 sv' ∧ sv_loops sv' = [Acquiring]) ∧
  ∃ sv, driven_reachable (demo_server Tokio 1, []) (sv, [Some (stuck_client, 0%N)]) ∧
    ∀ sv' runs', driven_reachable (sv, [Some (stuck_client, 0%N)]) (sv', runs') → ¬ idle 2 sv'.
Proof.
  split.
  - refine (proj1 (server_winds_down Tokio demo_ctx 2 1 (Some 1) demo_process _ demo_winding [None]
      demo_process_ready (demo_started Tokio 1) demo_winding_reachable) 64 _ _ _).
    + split.
      * intros c client Hc Hcl. vm_compute in Hc. apply list_elem_of_singleton in Hc. subst c.
        injection Hcl as <-. split; [constructor|discriminate|simpl; lia].
      * intros client now Hin. apply list_elem_of_singleton in Hin. discriminate.
    + intros s Hs. injection Hs as <-. vm_compute. reflexivity.
  - assert (∃ sv c, driven_reachable (demo_server Tokio 1, []) (sv, [Some (stuck_client, 0%N)]) ∧
      sv_live sv !! 0 = Some c) as (sv & c & Hr & Hj).
    { eexists _, _. split.
      - eapply rtc_l; [exists (LAcquire 0)|eapply rtc_l; [exists (LAccept 0)|apply rtc_once; exists (LStart 0)]].
        + exact (DServer _ _ (demo_waiting Tokio 1) [] (SAcquire 0 (demo_server Tokio 1) _ eq_refl eq_refl) I).
        + exact (DServer _ _ demo_stuck []
            (SAccept 0 (Ok (stuck_incoming, demo_ip)) 0 0 (demo_waiting Tokio 1) eq_refl) I).
        + eapply (DStart 0 0 _ _ _ stuck_client demo_stuck [None]); [reflexivity..|].
          intros s Hs. injection Hs as <-. reflexivity.
      - reflexivity. }
    exists sv. split; [exact Hr|]. intros sv' runs' Hr'.
    exact (proj2 (proj2 (server_winds_down Tokio demo_ctx 2 1 (Some 1) demo_process _ sv _
      demo_process_ready (demo_started Tokio 1) Hr) 0 c (stuck_client, 0%N) Hj eq_refl (stuck_hangs c)
      sv' runs' Hr')).
Defined.
