(* ===== verification/Cli.v ===== *)
(** * The command line ([src/src/main.rs])

    Options, the choice of authentication methods, the users file, the address
    of the statistics endpoint, and how [main] puts the server together.
    Parsing of the arguments, of the CSV file and the runtime are parameters. *)
From S2P Require Import Prelude Fmt Utf8 Text Types Wire PerIp DnsCache Stats Stream Connect Client.
From S2P Require Import Relay Handshake Config Server.

(** ** The system *)

(** A users file that was opened: its permission bits, and its records as the
    CSV reader returns them. *)
Record UsersFile := {
  uf_metadata : result io_error N;
  uf_records : list (result string User)
}.

Class System := {
  file_open : string → result io_error UsersFile;
  path_debug : string → string;
  to_socket_addrs : string → result io_error (list SocketAddr)
}.

(** [Box<dyn Error>]. *)
Inductive cli_error : Type :=
  | CliIo (e : io_error)
  | CliCsv (message : string).

(** ** Options *)

Record Opt := {
  port : u16;
  ip : string;
  allow_insecure : bool;
  no_auth : bool;
  users : option string;
  max_connections : usize;
  dns_cache_ttl : u64;
  max_connections_per_ip : usize;
  dns_cache_entries : usize;
  stats_addr : option string;
  stats_token : option text;
  verbosity : u8;
  quiet : bool
}.

Definition log_level_for (verbosity : u8) : string :=
  match verbosity with
  | x01 => "merino=DEBUG"
  | x02 => "merino=TRACE"
  | _ => "merino=INFO"
  end.

(** The filter the logger is built with, if it is: [RUST_LOG] has precedence. *)
Definition log_filter (opt : Opt) (log_env : option string) : option string :=
  if quiet opt then None
  else Some (match log_env with Some filter => filter | None => log_level_for (verbosity opt) end).

Definition select_auth_methods (no_auth : bool) (users_file : option string) : list u8 :=
  let methods := if no_auth then [AuthMethods_as_u8 NoAuth] else [] in
  let methods := match users_file with
                 | Some _ => methods ++ [AuthMethods_as_u8 UserPass]
                 | None => methods
                 end in
  match methods with [] => [AuthMethods_as_u8 NoAuth] | _ :: _ => methods end.

(** [{:o}]. *)
Fixpoint oct_fixed (k : nat) (n : N) : string :=
  match k with
  | 0 => ""
  | S k => oct_fixed k (n / 8) +:+ String (hex_digit (n mod 8)) ""
  end.

Definition oct (n : N) : string := strip_zeros (oct_fixed 4 n).

Section cli.
Context `{!System}.

(** The [for] loop over the records. *)
Fixpoint read_users (records : list (result string User)) (users : list User)
    : result cli_error (list User) :=
  match records with
  | [] => Ok users
  | Ok record :: records => read_users records (users ++ [record])
  | Err e :: _ => Err (CliCsv e)
  end.

Definition load_users (users_file : string) (allow_insecure : bool)
    : result cli_error (list User) :=
  file ← map_err CliIo (file_open users_file);
  mode ← map_err CliIo (uf_metadata file);
  if bool_decide (0 < N.land mode 63)%N && negb allow_insecure then
    Err (CliIo (io_Error_new ErrorKind.PermissionDenied
      ("Permissions " +:+ oct (N.land mode 511) +:+ " for " +:+ path_debug users_file
       +:+ " are too open. It is recommended that your users file is NOT accessible by group or"
       +:+ " others. To override this check, set --allow-insecure")))
  else
    users ← read_users (uf_records file) [];
    match users with
    | [] => Err (CliIo (io_Error_new ErrorKind.InvalidData
              ("No users loaded from " +:+ path_debug users_file +:+ ". Check configuration.")))
    | _ :: _ => Ok users
    end.

Definition resolve_stats_addr (addr : string) : result cli_error SocketAddr :=
  addrs ← map_err CliIo (to_socket_addrs addr);
  match addrs with
  | first :: _ => Ok first
  | [] => Err (CliIo (io_Error_new ErrorKind.AddrNotAvailable ("no addresses resolved for " +:+ addr)))
  end.

(** [Option::map(f).transpose()]. *)
Definition transpose {A B} (f : A → result cli_error B) (o : option A)
    : result cli_error (option B) :=
  match o with Some a => Some <$> f a | None => Ok None end.

(** ** [main] *)

Context `{!Net, !Semaphore}.

(** How the program comes up: it gives up with an error, a panic, or serves,
    with the statistics endpoint and its token if there is one. *)
Inductive launch : Type :=
  | GaveUp (e : cli_error)
  | Panicked_
  | Serving (server : Server) (stats_listener : option (Listener * option text)).

(** The server, before it is started. *)
Definition build_server (opt : Opt) (now : N) (unix_now : u64)
    : result cli_error (SocksServer * option SocketAddr * Process) :=
  let auth_methods := select_auth_methods (no_auth opt) (users opt) in
  authed_users ← match users opt with
                 | Some users_file => load_users users_file (allow_insecure opt)
                 | None => Ok []
                 end;
  '(server, p) ← map_err CliIo (SocksServer_bind (port opt) (ip opt) auth_methods authed_users None
                                  now unix_now process_empty);
  let server := SocksServer_set_max_connections (max_connections opt) server in
  let '(server, p) := SocksServer_set_max_connections_per_ip (max_connections_per_ip opt) server p in
  stats_addr ← transpose resolve_stats_addr (stats_addr opt);
  let '(stats, p) := alloc_stats (Stats_new now unix_now) p in
  let p := on_stats stats (note_listeners (SocksServer_local_addrs server)) p in
  let server := SocksServer_set_stats stats server in
  let '(server, p) :=
    if (0 <? dns_cache_ttl opt)%N
    then SocksServer_set_dns_cache (from_secs (dns_cache_ttl opt)) (dns_cache_entries opt) server p
    else (server, p) in
  Ok (server, stats_addr, p).

(** The address is a [SocketAddr] by now: binding it does not suspend [main]. *)
Definition bind_stats (addr : option SocketAddr) (token : option text)
    : result cli_error (option (Listener * option text)) :=
  match addr with
  | Some addr => listener ← map_err CliIo (tcp_bind addr); Ok (Some (listener, token))
  | None => Ok None
  end.

(** [server.start()] queues the actor, whose [started] runs once [main] first
    waits: after the endpoint's listener is bound, and only if it could be. *)
Definition main (opt : Opt) (now : N) (unix_now : u64) : launch :=
  match build_server opt now unix_now with
  | Err e => GaveUp e
  | Ok (server, stats_addr, p) =>
      match bind_stats stats_addr (stats_token opt) with
      | Err e => GaveUp e
      | Ok stats_listener =>
          match SocksServer_started server p with
          | None => Panicked_
          | Some sv => Serving sv stats_listener
          end
      end
  end.

(** ** Shutdown

    What the two tasks that wait for a signal see: when [ctrl_c()] completes, if
    ever, and with what; whether the SIGTERM handler can be installed, and then
    when [recv()] completes. *)
Record signals := {
  sg_ctrl_c : option (N * result io_error unit);
  sg_terminate : result io_error (option (N * option unit))
}.

(** [let _ = ctrl_c().await]: an error stops the system as the signal does. *)
Definition ctrl_c_stops (sg : signals) : option N := fst <$> sg_ctrl_c sg.

Definition terminate_stops (sg : signals) : option N :=
  match sg_terminate sg with
  | Ok (Some (t, Some _)) => Some t
  | _ => None
  end.

(** When [System::stop] is called first. *)
Definition stopped_at (sg : signals) : option N :=
  union_with (λ a b, Some (N.min a b)) (ctrl_c_stops sg) (terminate_stops sg).

(** The process: what [main] returns and when, [None] if it does not return
    (it serves for ever, or panicked). *)
Definition main_returns (opt : Opt) (now : N) (unix_now : u64) (sg : signals)
    : option (N * result cli_error unit) :=
  match main opt now unix_now with
  | GaveUp e => Some (now, Err e)
  | Panicked_ => None
  | Serving _ _ => (λ t, (N.max now t, Ok ())) <$> stopped_at sg
  end.

(** A server that came up runs until a signal, and then ends without an error;
    one that did not come up ends with the error at once. *)
Lemma main_returns_spec opt now unix_now sg t r :
  main_returns opt now unix_now sg = Some (t, r) →
  (∃ e, r = Err e ∧ t = now ∧ main opt now unix_now = GaveUp e) ∨
  (r = Ok () ∧ ∃ server stats s, main opt now unix_now = Serving server stats ∧ t = N.max now s ∧
    ((∃ o, sg_ctrl_c sg = Some (s, o)) ∨ sg_terminate sg = Ok (Some (s, Some ())))).
Proof.
  unfold main_returns. destruct (main opt now unix_now) as [e| |server stats]; [|done|].
  - intros [= <- <-]. left. eauto.
  - unfold stopped_at, ctrl_c_stops, terminate_stops. destruct sg as [[[a oa]|] [[[b [[]|]]|]|e]];
      simpl; intros [= <- <-]; right; split; try done; eexists _, _, _; split; try done;
      split; try done; eauto.
    destruct (N.min_spec a b) as [[_ ->]|[_ ->]]; eauto.
Qed.
End cli.

(** ** The users file *)

Section theorems.
Context `{!System, !Net, !Semaphore}.

Lemma fmap_Ok_inj {E A} (l k : list A) : Ok (E:=E) <$> l = Ok <$> k → l = k.
Proof. apply (list_fmap_eq_inj Ok). by intros x y [= ->]. Qed.

Lemma registry_inv_fresh now un h : registry_inv (Stats_new now un) h [].
Proof. split; simpl; try constructor; try done. by intros g ?%not_elem_of_nil. Qed.

Lemma read_users_Ok records acc us :
  read_users records acc = Ok us ↔ ∃ l, records = Ok <$> l ∧ us = acc ++ l.
Proof.
  revert acc. induction records as [|[u|e] records IH]; intros acc; simpl.
  - split; [intros [= <-]; exists []; by rewrite app_nil_r|].
    intros ([|??] & ? & ->); [by rewrite app_nil_r|done].
  - rewrite IH. split.
    + intros (l & -> & ->). exists (u :: l). by rewrite <- app_assoc.
    + intros ([|v l] & Hl & ->); [done|]. rewrite fmap_cons in Hl. injection Hl as <- ->.
      exists l. by rewrite <- app_assoc.
  - split; [done|]. by intros ([|v l] & Hl & _).
Qed.

Lemma load_users_Ok f insecure us :
  load_users f insecure = Ok us ↔
  ∃ file mode, file_open f = Ok file ∧ uf_metadata file = Ok mode ∧
    (N.land mode 63 = 0%N ∨ insecure = true) ∧ uf_records file = Ok <$> us ∧ us ≠ [].
Proof.
  unfold load_users. destruct (file_open f) as [file|e]; simpl; [|split; [done|by intros (? & ? & ? & _)]].
  destruct (uf_metadata file) as [mode|e] eqn:Em; simpl; [|split; [done|intros (? & ? & ? & ? & _); congruence]].
  destruct (bool_decide (0 < N.land mode 63)%N && negb insecure) eqn:Ep.
  - split; [done|]. intros (? & ? & [= <-] & Hm & Hins & _). rewrite Em in Hm. injection Hm as <-.
    apply andb_prop in Ep as [Hpos%bool_decide_eq_true Hi].
    destruct Hins as [Hz| ->]; [lia|done].
  - assert (N.land mode 63 = 0%N ∨ insecure = true) as Hp.
    { apply andb_false_iff in Ep as [Hz%bool_decide_eq_false|Hi]; [left; lia|right].
      by destruct insecure. }
    destruct (read_users (uf_records file) []) as [us'|e] eqn:Er; simpl.
    + apply read_users_Ok in Er as (l & Hl & ->). simpl. split.
      * destruct l as [|u l]; [done|]. intros [= <-]. exists file, mode. by split_and!.
      * intros (? & ? & [= <-] & _ & _ & Hr & Hne). rewrite Hl in Hr.
        apply fmap_Ok_inj in Hr as ->. by destruct us.
    + split; [done|]. intros (? & ? & [= <-] & _ & _ & Hr & Hne).
      assert (read_users (uf_records file) [] = Ok us) as Hr'
        by (apply read_users_Ok; by exists us). congruence.
Qed.

(** Which users files are accepted: exactly those that can be opened, that
    neither the group nor others may touch (unless that is overridden), whose
    every record parses and that name at least one user; the users are the
    records, all of them, in order. *)
Theorem load_users_spec f insecure us :
  load_users f insecure = Ok us ↔
  ∃ file mode, file_open f = Ok file ∧ uf_metadata file = Ok mode ∧
    (N.land mode 63 = 0%N ∨ insecure = true) ∧ uf_records file = Ok <$> us ∧ us ≠ [].
Proof. apply load_users_Ok. Qed.

(** ** What [main] starts *)

Lemma build_server_spec opt now un server addr p :
  build_server opt now un = Ok (server, addr, p) →
  ready (ss_stats server) (ss_per_ip server) (cap_of (max_connections_per_ip opt)) p ∧
  ss_max_connections server = max (max_connections opt) 1 ∧
  ss_auth_methods server = select_auth_methods (no_auth opt) (users opt) ∧
  match users opt with
  | Some f => load_users f (allow_insecure opt) = Ok (ss_users server)
  | None => ss_users server = []
  end ∧
  ∃ s, p_stats p !! ss_stats server = Some s ∧
       listeners s = SocketAddr_to_string <$> ss_bound_addrs server ∧
       ∀ (ho : HashOrder) t, dns_snapshot (p_caches p) t s =
         if (0 <? dns_cache_ttl opt)%N
         then DnsCache_snapshot (DnsCache_new (from_secs (dns_cache_ttl opt)) (dns_cache_entries opt)) t
         else DnsSnapshot_disabled.
Proof.
  unfold build_server. set (us := match users opt with Some _ => _ | None => _ end).
  destruct us as [authed|e] eqn:Eus; simpl; [|done].
  destruct (SocksServer_bind _ _ _ _ _ _ _ _) as [[server1 p1]|e] eqn:Eb; simpl; [|done].
  destruct (SocksServer_bind_ready _ _ _ _ _ _ _ process_empty _ _ eq_refl Eb) as [Hready _].
  apply (new_limiter_ready _ _ _ (max_connections_per_ip opt)) in Hready.
  assert (ss_auth_methods server1 = select_auth_methods (no_auth opt) (users opt) ∧
          ss_users server1 = authed) as [Hm Hu].
  { unfold SocksServer_bind in Eb. destruct (bind_all _ _) as [ls|]; [|done]. simpl in Eb.
    destruct (collect _); [|done]. simpl in Eb. by injection Eb as <- <-. }
  unfold SocksServer_set_max_connections_per_ip. simpl.
  destruct (new_limiter (max_connections_per_ip opt) p1) as [per_ip p2]. simpl in *.
  destruct (transpose _ _) as [sa|e]; simpl; [|done].
  set (p3 := on_stats _ _ _). set (s := note_listeners (ss_bound_addrs server1) (Stats_new now un)).
  assert (p_stats p3 !! length (p_stats p2) = Some s) as Hs.
  { apply on_stats_lookup. simpl. by rewrite lookup_app_r, Nat.sub_diag. }
  assert (registry_inv s (p_heap p3) []) as Hr by apply note_listeners_inv, registry_inv_fresh.
  destruct Hready as [_ Hlim]. unfold SocksServer_set_dns_cache.
  destruct (0 <? dns_cache_ttl opt)%N eqn:Ettl; simpl; intros [= <- <- <-]; simpl;
    (split_and!; [|done|done|subst us; rewrite Hu; by destruct (users opt); simplify_eq|]).
  - split; [|done]. exists (register_dns (length (p_caches p2)) s).
    split; [|by apply register_dns_inv]. exact (on_stats_lookup _ _ _ _ Hs).
  - exists (register_dns (length (p_caches p2)) s).
    split_and!; [exact (on_stats_lookup _ _ _ _ Hs)|done|].
    intros ho t. unfold dns_snapshot, register_dns. simpl. by rewrite lookup_app_r, Nat.sub_diag.
  - split; [|done]. by exists s.
  - exists s. by split_and!.
Qed.

Lemma main_Serving opt now un sv l :
  main opt now un = Serving sv l →
  ∃ server addr p, build_server opt now un = Ok (server, addr, p) ∧
    start_server Actix (sv_ctx sv) (ss_max_connections server) (length (ss_listeners_ server)) p = Some sv ∧
    sv_ctx sv = {| ctx_users := ss_users server; ctx_auth_methods := ss_auth_methods server;
                   ctx_timeout := ss_timeout server; ctx_dns_cache := ss_dns_cache server;
                   ctx_per_ip := ss_per_ip server; ctx_stats := ss_stats server |}.
Proof.
  unfold main. destruct (build_server opt now un) as [[[server addr] p]|e]; [|done].
  destruct (bind_stats addr _) as [listener|e]; [|done].
  destruct (SocksServer_started server p) as [sv'|] eqn:E; [|done]. intros [= -> ->].
  exists server, addr, p. split; [done|].
  assert (sv_ctx sv = {| ctx_users := ss_users server; ctx_auth_methods := ss_auth_methods server;
    ctx_timeout := ss_timeout server; ctx_dns_cache := ss_dns_cache server;
    ctx_per_ip := ss_per_ip server; ctx_stats := ss_stats server |}) as Hctx.
  { unfold SocksServer_started, start_server in E. destruct (sem_new _); by simplify_eq/=. }
  split; [|done]. rewrite Hctx. exact E.
Qed.

(** The server that comes up is the one that was asked for: as many
    connections as given, at least one; the per-source cap exactly when it is not
    zero; one statistics instance, shared by the server and the dashboard, which
    shows the bound addresses, no connection yet, and the DNS cache exactly when
    it is enabled. *)
Theorem main_configured opt now un sv l :
  main opt now un = Serving sv l →
  ∃ n p bound,
    start_server Actix (sv_ctx sv) (max (max_connections opt) 1) n p = Some sv ∧
    ready (ctx_stats (sv_ctx sv)) (ctx_per_ip (sv_ctx sv)) (cap_of (max_connections_per_ip opt)) p ∧
    ∃ s, p_stats p !! ctx_stats (sv_ctx sv) = Some s ∧
         listeners s = SocketAddr_to_string <$> bound ∧ active s = 0%N ∧
         ∀ (ho : HashOrder) t, dns_snapshot (p_caches p) t s =
           if (0 <? dns_cache_ttl opt)%N
           then DnsCache_snapshot (DnsCache_new (from_secs (dns_cache_ttl opt)) (dns_cache_entries opt)) t
           else DnsSnapshot_disabled.
Proof.
  intros (server & addr & p & Hb & Hs & Hctx)%main_Serving.
  apply build_server_spec in Hb as (Hready & Hmax & _ & _ & s & Hst & Hls & Hdns).
  rewrite Hmax in Hs. exists (length (ss_listeners_ server)), p, (ss_bound_addrs server).
  rewrite Hctx in *. cbn [ctx_stats ctx_per_ip]. split_and!; [done|done|].
  exists s. split_and!; [done|done| |done]. destruct Hready as [(s' & Hs' & Hr) _].
  simplify_eq. apply (inv_active _ _ _ Hr).
Qed.

(** C3: a users file is enforced, from the command line to the wire: when the
    server was started with one (and without [--no-auth]), a request is only
    ever obtained from a connection that offered username/password
    authentication and presented the name and the password of one user of that
    file. *)
Theorem users_file_enforced opt now un sv l f inc guard cells dl w req w' :
  main opt now un = Serving sv l → users opt = Some f → no_auth opt = false →
  client w = set_guard guard cells (new_client (sv_ctx sv) inc) →
  negotiate dl w = (Done req, w') →
  ∃ us u offered creds rsv,
    load_users f (allow_insecure opt) = Ok us ∧ u ∈ us ∧
    as_bytes (username u) = up_username creds ∧ as_bytes (password u) = up_password creds ∧
    AuthMethods_as_u8 UserPass ∈ offered ∧ up_version creds = x01 ∧
    rx_bytes (in_stream inc) =
      encode_greeting SOCKS_VERSION offered ++ encode_userpass creds ++ encode_request rsv req ++
      rx_bytes (stream (client w')).
Proof.
  intros (server & addr & p & Hb & _ & Hctx)%main_Serving Hf Hna Hc Hn.
  apply build_server_spec in Hb as (_ & _ & Hm & Hu & _). rewrite Hf, Hna in Hm. rewrite Hf in Hu.
  apply negotiate_authenticated in Hn as (offered & sb & replies & rsv & _ & Hauth & _ & _ & Hrx & _).
  2: { by rewrite Hc. }
  rewrite Hc, Hctx in Hauth, Hrx. simpl in Hauth, Hrx. rewrite Hm in Hauth.
  destruct Hauth as [creds u Hin Hv _ Hu' Hn' Hp' -> _|_ Hin _ _]; simpl in *.
  - exists (ss_users server), u, offered, creds, rsv. split_and!; try done.
    by apply list_elem_of_filter in Hin as [_ ?].
  - by apply list_elem_of_filter in Hin as [[=]%list_elem_of_singleton _].
Qed.
End theorems.

(** ** Witnesses: a private file with one user *)

Definition demo_system : System :=
  {| file_open _ := Ok {| uf_metadata := Ok 33152%N; uf_records := [Ok (User_new "bob" "pw")] |};
     path_debug s := s; to_socket_addrs _ := Ok [demo_v4 x01] |}.

#[local] Existing Instance demo_system.

Definition demo_cli_net : Net := demo_net demo_remote demo_listener.
#[local] Existing Instance demo_cli_net.
#[local] Existing Instance counting_semaphore.

Definition demo_opt : Opt :=
  {| port := 1080; ip := "localhost"; allow_insecure := false; no_auth := false;
     users := Some "users.csv"; max_connections := 0; dns_cache_ttl := 0;
     max_connections_per_ip := 0; dns_cache_entries := 1024; stats_addr := None;
     stats_token := None; verbosity := x00; quiet := false |}.

Definition demo_cli_process : Process :=
  on_stats 1 (note_listeners [demo_v4 x02])
    (alloc_stats (Stats_new 0 0) (alloc_stats (Stats_new 0 0) process_empty).2).2.

Definition demo_cli_server : Server :=
  {| sv_ctx := {| ctx_users := demo_users; ctx_auth_methods := [AuthMethods_as_u8 UserPass];
                  ctx_timeout := None; ctx_dns_cache := None; ctx_per_ip := None; ctx_stats := 1 |};
     sv_backend := Actix; sv_proc := demo_cli_process; sv_sem := (1 : sem);
     sv_loops := [Acquiring]; sv_live := [] |}.

Lemma demo_main : main demo_opt 0 0 = Serving demo_cli_server None.
Proof. reflexivity. Qed.

Lemma main_configured_witness :
  ∃ n p, start_server Actix (sv_ctx demo_cli_server) 1 n p = Some demo_cli_server.
Proof.
  destruct (main_configured demo_opt 0 0 demo_cli_server None demo_main) as (n & p & _ & Hs & _).
  exists n, p. exact Hs.
Defined.

Lemma users_file_enforced_witness :
  ∃ w' us u creds, negotiate None (demo_world [x02] demo_bytes) = (Done demo_request, w') ∧
    load_users "users.csv" false = Ok us ∧ u ∈ us ∧ as_bytes (username u) = up_username creds.
Proof.
  destruct (negotiate_ready demo_offer (encode_userpass demo_creds) demo_replies x00 demo_request
    None (demo_world [x02] (demo_bytes ++ [])) []) as (w' & E & _ & _).
  - vm_compute. lia.
  - reflexivity.
  - apply demo_authenticated.
  - reflexivity.
  - reflexivity.
  - apply (demo_ready None [x02] demo_bytes []). reflexivity.
  - rewrite app_nil_r in E.
    destruct (users_file_enforced demo_opt 0 0 demo_cli_server None "users.csv"
      {| in_stream := demo_stream demo_bytes;
         in_local_addr := Err (io_Error_new ErrorKind.Other "unknown") |} None None None
      (demo_world [x02] demo_bytes) demo_request w' demo_main eq_refl eq_refl eq_refl E)
      as (us & u & _ & creds & _ & Hl & Hin & Hu & _).
    exists w', us, u, creds. split_and!; [exact E|exact Hl|exact Hin|exact Hu].
Defined.
