(* ===== verification/Overview.v ===== *)
(** * The program and its dashboard ([main.rs], [actors.rs], [stats/http.rs])

    The parts together: what [main] started, after any run of it, is asked for
    its statistics.  The answer that goes over the wire is about the connections
    that are really there. *)
From S2P Require Import Prelude Fmt Utf8 Types PerIp DnsCache Stats Stream Connect Config Server.
From S2P Require Import Relay Client Session Text Http Cli.

Section overview.
Context `{!System, !Net, !Web, !HashOrder, !Semaphore}.

(** What a request to the dashboard sees: the statistics, byte counters and
    caches of the process the server runs in. *)
Definition dashboard_view (version : string) (sv : Server) : option Shared :=
  s ← p_stats (sv_proc sv) !! ctx_stats (sv_ctx sv);
  Some {| sh_version := version; sh_stats := s; sh_heap := p_heap (sv_proc sv);
          sh_caches := p_caches (sv_proc sv) |}.

(** A row tells the truth about a running connection. *)
Definition row_of_connection (h : Heap) (row : ClientView) (c : SocksConnection) : Prop :=
  ∃ g, sc_guard c = Some g ∧ cv_id row = g_id g ∧ sock_ip (cv_peer row) = peer_ip c ∧
       cv_bytes_client_to_target row = heap_load (g_bytes_up g) h ∧
       cv_bytes_target_to_client row = heap_load (g_bytes_down g) h.

Lemma clients_view_rows s h gs t row :
  registry_inv s h gs → row ∈ clients_view h t s →
  ∃ g, g ∈ gs ∧ cv_id row = g_id g ∧ sock_ip (cv_peer row) = g_ip g ∧
       cv_bytes_client_to_target row = heap_load (g_bytes_up g) h ∧
       cv_bytes_target_to_client row = heap_load (g_bytes_down g) h.
Proof.
  intros Hinv Hrow. unfold clients_view in Hrow. rewrite sort_by_perm in Hrow.
  apply list_elem_of_fmap in Hrow as ([id r] & -> & Hr%elem_of_map_to_list).
  destruct (inv_rows _ _ _ Hinv _ _ Hr) as (g & Hg & <-).
  destruct (inv_row _ _ _ Hinv _ Hg) as (r' & Hr' & [Hip Hup Hdown]). simplify_eq.
  exists g. simpl. by rewrite Hip, Hup, Hdown.
Qed.

Lemma clients_view_ids s h gs t :
  registry_inv s h gs → cv_id <$> clients_view h t s ≡ₚ g_id <$> gs.
Proof.
  intros Hinv. rewrite <- (registry_ids _ _ _ Hinv). unfold clients_view.
  rewrite sort_by_perm, <- list_fmap_compose.
  apply Permutation_refl', list_fmap_ext. by intros _ [id r] _.
Qed.

(** The server of [main] keeps the invariant of the servers. *)
Lemma main_server_inv opt now un (sv0 : Server) l sv :
  main opt now un = Serving sv0 l → server_reachable sv0 sv →
  server_inv (max (max_connections opt) 1) (cap_of (max_connections_per_ip opt)) sv.
Proof.
  intros (server & addr & p & Hb & Hs & Hctx)%main_Serving Hr.
  apply build_server_spec in Hb as (Hready & Hmax & _). rewrite Hmax in Hs.
  eapply reachable_inv; [|exact Hs|exact Hr]. by rewrite Hctx.
Qed.

Lemma running_connection (sv : Server) g max_ cap :
  server_inv max_ cap sv → g ∈ guards sv →
  ∃ c, c ∈ sv_live sv ∧ sc_guard c = Some g ∧ g_ip g = peer_ip c.
Proof.
  intros Hinv Hg. unfold guards in Hg. apply list_elem_of_omap in Hg as (c & Hc & Hgc).
  exists c. split_and!; [done..|].
  pose proof (proj1 (list.Forall_forall _ _) (si_held _ _ _ Hinv) _ Hc) as (_ & _ & Hh).
  rewrite Hgc in Hh. by destruct Hh.
Qed.

(** C19: the dashboard tells the truth, from the command line to the wire.  In
    whatever state the program that [main] started has come to, a request for
    the clients that presents the token, if there is one, is answered with the
    encoding of a list that has exactly one row for each connection that runs
    then - its number, its source and the bytes it has moved so far - and the
    statistics count as many, never more than the configured maximum. *)
Theorem dashboard_truthful opt now un (sv0 sv : Server) listener token version dl c head c1
    request :
  main opt now un = Serving sv0 (Some (listener, token)) → server_reachable sv0 sv →
  read_head dl c = (Done (Some head), c1) → parse_head head = Some request →
  method request = scalars "GET" →
  match token with Some expected => bearer request = Some expected | None => True end →
  path request = scalars "/clients" → if_none_match request = None →
  writable (h_stream c1) → deadline_ok dl (h_clock c1) = true → shutdowns (h_stream c1) = [] →
  ∃ sh rows body c2, dashboard_view version sv = Some sh ∧
    handle_conn sh token dl c = (Done (), c2) ∧ closed (h_stream c2) ∧
    body = default (as_bytes "{}") (to_vec_clients rows) ∧
    tx (h_stream c2) = tx (h_stream c1) ++
      response_head "200 OK" "application/json" body
        [("ETag", etag_of body); ("Cache-Control", "no-store")] ++ body ∧
    cv_id <$> rows ≡ₚ g_id <$> guards sv ∧
    (∀ row, row ∈ rows → ∃ k, k ∈ sv_live sv ∧ row_of_connection (p_heap (sv_proc sv)) row k) ∧
    active (sh_stats sh) = N.of_nat (length rows) ∧ length rows ≤ max (max_connections opt) 1.
Proof.
  intros Hmain Hreach Hread Hparse Hm Htok Hpath Htag Hw Hdl Hs.
  pose proof (main_server_inv _ _ _ _ _ _ Hmain Hreach) as Hinv.
  destruct (si_registry _ _ _ Hinv) as (s & Hst & Hreg).
  set (sh := {| sh_version := version; sh_stats := s; sh_heap := p_heap (sv_proc sv);
                sh_caches := p_caches (sv_proc sv) |}).
  set (rows := clients_view (sh_heap sh) (h_clock c1) (sh_stats sh)).
  destruct (stats_served sh token dl c head c1 request "/clients" (to_vec_clients rows)
              Hread Hparse Hm Htok Hpath ltac:(by right) Hw Hdl Hs) as (c2 & Hrun & Hcl & Htx).
  rewrite Htag in Htx. rewrite bool_decide_eq_false_2 in Htx by done.
  pose proof (clients_view_ids _ _ _ (h_clock c1) Hreg) as Hids.
  assert (length rows = length (guards sv)) as Hlen
    by (rewrite <- (length_fmap cv_id), <- (length_fmap g_id); by apply Permutation_length).
  exists sh, rows, (default (as_bytes "{}") (to_vec_clients rows)), c2.
  split_and!; [unfold dashboard_view; by rewrite Hst|done..| | |].
  - intros row Hrow. destruct (clients_view_rows _ _ _ _ _ Hreg Hrow) as (g & Hg & ? & Hip & ? & ?).
    destruct (running_connection _ _ _ _ Hinv Hg) as (k & Hk & Hgk & Hgip).
    exists k. split; [done|]. exists g. by rewrite Hip, Hgip.
  - rewrite Hlen. apply (inv_active _ _ _ Hreg).
  - rewrite Hlen. pose proof (si_permits _ _ _ Hinv). unfold guards.
    pose proof (omap_length_le sc_guard (sv_live sv)). lia.
Qed.
End overview.

(** ** Witness: one connection on a server with a dashboard *)

Definition demo_named : System :=
  {| file_open := @file_open demo_system; path_debug s := s;
     to_socket_addrs _ := Ok [demo_v4 x02] |}.

#[local] Existing Instance demo_named.
#[local] Existing Instance demo_cli_net.
#[local] Existing Instance demo_web.
#[local] Existing Instance map_order.
#[local] Existing Instance counting_semaphore.

Definition demo_watched : Opt :=
  {| port := 1080; ip := "localhost"; allow_insecure := false; no_auth := true;
     users := None; max_connections := 2; dns_cache_ttl := 0;
     max_connections_per_ip := 0; dns_cache_entries := 1024; stats_addr := Some "localhost:8080";
     stats_token := Some demo_token; verbosity := x00; quiet := false |}.

Definition demo_watched_server (s : sem) (l : loop_at) : Server :=
  {| sv_ctx := {| ctx_users := []; ctx_auth_methods := [AuthMethods_as_u8 NoAuth];
                  ctx_timeout := None; ctx_dns_cache := None; ctx_per_ip := None; ctx_stats := 1 |};
     sv_backend := Actix; sv_proc := demo_cli_process; sv_sem := s; sv_loops := [l]; sv_live := [] |}.

Lemma demo_watched_main :
  main demo_watched 0 0 =
  Serving (demo_watched_server (2 : nat) Acquiring) (Some (demo_listener, Some demo_token)).
Proof. reflexivity. Qed.

Definition demo_visited : Server :=
  accepted 0 (Ok demo_incoming) 0 0 (demo_watched_server (1 : nat) Accepting).

Lemma demo_visited_reachable :
  server_reachable (demo_watched_server (2 : nat) Acquiring) demo_visited.
Proof.
  eapply rtc_l; [exists (LAcquire 0); by apply SAcquire|].
  apply rtc_once. exists (LAccept 0). by apply SAccept.
Qed.

(** The connection was accepted and its session has begun. *)
Lemma demo_running :
  ∃ sv, server_reachable (demo_watched_server (2 : nat) Acquiring) sv ∧ length (guards sv) = 1.
Proof.
  destruct (sv_live demo_visited) as [|c [|]] eqn:El; [discriminate| |discriminate].
  assert (is_Some (begin_connection (sv_backend demo_visited) 0 c (sv_proc demo_visited))) as ([c' p'] & Hs).
  { injection El as <-. eexists. reflexivity. }
  assert (is_Some (sc_guard c')) as [g Hg].
  { rewrite begin_connection_task in Hs. unfold task_started in Hs.
    apply bind_Some in Hs as (? & _ & ([g p] & _ & [= <- _])%bind_Some). eauto. }
  eexists. split.
  - eapply rtc_r; [apply demo_visited_reachable|]. exists (LStart 0).
    eapply (SStart 0 0 c c' p'); [by rewrite El|exact Hs|].
    injection El as <-. intros s [= <-]. done.
  - unfold guards. rewrite El. simpl. rewrite Hg. reflexivity.
Qed.

Definition demo_clients_request : text :=
  render (scalars "GET") (scalars "/clients") (scalars "HTTP/1.1")
    [(scalars "Authorization", scalars "Bearer " ++ demo_token)].

Definition demo_clients_head : list u8 := Utf8.encode demo_clients_request ++ CRLF2.

Definition demo_clients_conn : Conn :=
  {| h_clock := 5; h_stream := demo_stream demo_clients_head; h_reads := [] |}.

Definition demo_clients_after : Conn := (read_head None demo_clients_conn).2.

Definition demo_clients_parsed : ParsedHead :=
  {| method := scalars "GET"; path := scalars "/clients"; bearer := Some demo_token;
     if_none_match := None |}.

Lemma demo_clients_read :
  read_head None demo_clients_conn = (Done (Some demo_clients_head), demo_clients_after).
Proof. vm_compute. reflexivity. Qed.

Lemma dashboard_truthful_witness :
  ∃ sv sh rows c2, dashboard_view "0.1.3" sv = Some sh ∧
    handle_conn sh (Some demo_token) None demo_clients_conn = (Done (), c2) ∧
    closed (h_stream c2) ∧ length rows = 1 ∧
    ∀ row, row ∈ rows → ∃ k, k ∈ sv_live sv ∧ row_of_connection (p_heap (sv_proc sv)) row k.
Proof.
  destruct demo_running as (sv & Hsv & Hone).
  destruct (dashboard_truthful demo_watched 0 0 _ sv demo_listener (Some demo_token)
    "0.1.3" None demo_clients_conn demo_clients_head demo_clients_after demo_clients_parsed
    demo_watched_main Hsv demo_clients_read)
    as (sh & rows & body & c2 & ? & ? & ? & _ & _ & Hids & Hrows & _ & _);
    [vm_compute; reflexivity|reflexivity|reflexivity|reflexivity|reflexivity|constructor|
     reflexivity|reflexivity|].
  exists sv, sh, rows, c2. split; [done|]. split; [done|]. split; [done|].
  split; [|exact Hrows].
  apply Permutation_length in Hids. rewrite !length_fmap, Hone in Hids. exact Hids.
Defined.
