(* ===== verification/PageService.v ===== *)
(** * The page and the endpoint ([stats/http.rs] on both sides of the wire)

    What the page shows when its requests are answered by the endpoint of a
    server that [main] started: with an open endpoint the connections that run,
    behind a token nothing at all. *)
From Stdlib Require Import QArith.
From S2P Require Import Prelude Fmt Utf8 Types PerIp DnsCache Stats Stream Connect Config Server.
From S2P Require Import Relay Client Session Text Http HttpSpec Cli Overview.
From S2P Require Import PageText Number Dom Dashboard Html DashboardSpec.

(** [Response.json()] on what [serde_json] wrote: both encoders are total on
    these types, and the parser reads back what was encoded; the plain text of a
    refusal is not JSON. *)
Class Json `{!Web} := {
  json_snapshot : list u8 → option Snapshot;
  json_clients : list u8 → option (list ClientView);
  json_snapshot_law s : ∃ b, to_vec_snapshot s = Some b ∧ json_snapshot b = Some s;
  json_clients_law l : ∃ b, to_vec_clients l = Some b ∧ json_clients b = Some l;
  json_refusal : json_snapshot (as_bytes ("unauthorized" +:+ of_bytes [x0a])) = None
}.

(** A request as the script's [fetch] sends it: without credentials, and without
    an entity tag since it asks not to store anything. *)
Definition page_head (target : string) (head : list u8) : Prop :=
  ∃ request, parse_head head = Some request ∧ method request = scalars "GET" ∧
    path request = scalars target ∧ bearer request = None ∧ if_none_match request = None.

Section service.
Context `{!System, !Net, !Web, !HashOrder, !Semaphore, !Json, !Browser}.

(** What [Promise.all] resolves to, if it does. *)
Definition fetched_of (stats clients : Response) : fetched :=
  s ← json_snapshot (rs_body stats); l ← json_clients (rs_body clients); Some (s, l).

(** A request for the page is answered with the text a browser reads as the tab
    that has just been opened. *)
Lemma page_served sh t request :
  path request = scalars "/" →
  document_of (rs_body (HttpSpec.page sh t request)) = Some (document (shown opened)).
Proof.
  intros Hpath. unfold HttpSpec.page. rewrite bool_decide_eq_true_2 by done.
  exact document_of_dashboard.
Qed.

Lemma answer_stats sh t head :
  page_head "/stats" head →
  json_snapshot (rs_body (answer sh None t (Some head))) =
  Some (snapshot (sh_version sh) (sh_caches sh) t (sh_stats sh)).
Proof.
  intros (request & Hp & Hm & Hpath & Hb & Ht). unfold answer. cbn [mbind option_bind].
  rewrite Hp, bool_decide_eq_true_2 by done. cbn [negb authorized].
  unfold HttpSpec.page. rewrite Hpath, bool_decide_eq_false_2, bool_decide_eq_true_2 by done.
  unfold resource. rewrite Ht, bool_decide_eq_false_2 by done. cbn [rs_body].
  destruct (json_snapshot_law (snapshot (sh_version sh) (sh_caches sh) t (sh_stats sh)))
    as (b & -> & Hj). exact Hj.
Qed.

Lemma answer_clients sh t head :
  page_head "/clients" head →
  json_clients (rs_body (answer sh None t (Some head))) =
  Some (clients_view (sh_heap sh) t (sh_stats sh)).
Proof.
  intros (request & Hp & Hm & Hpath & Hb & Ht). unfold answer. cbn [mbind option_bind].
  rewrite Hp, bool_decide_eq_true_2 by done. cbn [negb authorized].
  unfold HttpSpec.page. rewrite Hpath, !bool_decide_eq_false_2, bool_decide_eq_true_2 by done.
  unfold resource. rewrite Ht, bool_decide_eq_false_2 by done. cbn [rs_body].
  destruct (json_clients_law (clients_view (sh_heap sh) t (sh_stats sh))) as (b & -> & Hj). exact Hj.
Qed.

Lemma answer_refused sh expected t target head :
  page_head target head →
  answer sh (Some expected) t (Some head) = plain "401 Unauthorized" "unauthorized" [].
Proof.
  intros (request & Hp & Hm & _ & Hb & _). unfold answer. cbn [mbind option_bind].
  rewrite Hp, bool_decide_eq_true_2 by done. cbn [negb authorized]. by rewrite Hb.
Qed.

(** C17: the page tells the truth about the server.  When the two requests of a
    call of [tick] reach the open endpoint of a server that [main] started, in
    whatever states the server and the page have come to, the page shows as
    active the number of connections that run when the first is answered, and
    lists, with source, state and bytes, exactly the connections that run when
    the second is. *)
Theorem page_tracks_server opt now un sv0 sv1 sv2 listener version sh1 sh2 t1 t2 h1 h2 tab tick started :
  main opt now un = Serving sv0 (Some (listener, None)) →
  (N.of_nat (max_connections opt) < 2 ^ 53)%N →
  server_reachable sv0 sv1 → dashboard_view version sv1 = Some sh1 → page_head "/stats" h1 →
  server_reachable sv0 sv2 → dashboard_view version sv2 = Some sh2 → page_head "/clients" h2 →
  started_text (started_at_unix (sh_stats sh1)) = Some started → tab_reachable opened tab →
  ∃ p c rows,
    resume tick (fetched_of (answer sh1 None t1 (Some h1)) (answer sh2 None t2 (Some h2)))
      (shown tab) = (Some (), p) ∧
    document p = layout "dot" c ∧
    take 2 (textContent <$> c ConnectionsList) =
      ["active:"; dec (N.of_nat (length (guards sv1)))] ∧
    cells <$> c ClientsTable = rows_text (client_cells <$> rows) ∧
    cv_id <$> rows ≡ₚ g_id <$> guards sv2 ∧
    ∀ row, row ∈ rows → ∃ k, k ∈ sv_live sv2 ∧ row_of_connection (p_heap (sv_proc sv2)) row k.
Proof.
  intros Hmain Hmax Hr1 Hv1 Hh1 Hr2 Hv2 Hh2 Hs Htab.
  pose proof (main_server_inv _ _ _ _ _ _ Hmain Hr1) as Hi1.
  pose proof (main_server_inv _ _ _ _ _ _ Hmain Hr2) as Hi2.
  destruct (si_registry _ _ _ Hi1) as (s1 & Hst1 & Hreg1).
  destruct (si_registry _ _ _ Hi2) as (s2 & Hst2 & Hreg2).
  unfold dashboard_view in Hv1, Hv2. rewrite Hst1 in Hv1. rewrite Hst2 in Hv2.
  injection Hv1 as <-. injection Hv2 as <-. cbn [sh_stats] in Hs.
  unfold fetched_of. rewrite answer_stats, answer_clients by done. cbn [mbind option_bind].
  set (snap := snapshot _ _ _ _) in *. set (rows := clients_view _ _ _).
  destruct (page_shows tab tick snap rows started Htab Hs) as
    (p & c & E & Hd & _ & Hconn & _ & _ & _ & _ & Hcl).
  exists p, c, rows. split; [exact E|]. split; [done|]. split.
  - rewrite Hconn. unfold connections_pairs, kv_text. cbn [flat_map take app fst snd].
    rewrite count_text_dec.
    + change (cs_active (snap_connections snap)) with (active s1).
      rewrite (inv_active _ _ _ Hreg1). done.
    + change (cs_active (snap_connections snap)) with (active s1). rewrite (inv_active _ _ _ Hreg1).
      pose proof (si_permits _ _ _ Hi1). unfold guards.
      pose proof (omap_length_le sc_guard (sv_live sv1)). lia.
  - split; [exact Hcl|]. split; [by apply clients_view_ids|]. intros row Hrow.
    destruct (clients_view_rows _ _ _ _ _ Hreg2 Hrow) as (g & Hg & ? & Hip & ? & ?).
    destruct (running_connection _ _ _ _ Hi2 Hg) as (k & Hk & Hgk & Hgip).
    exists k. split; [done|]. exists g. by rewrite Hip, Hgip.
Qed.

(** The page when every call is answered by an endpoint with this token. *)
Inductive behind (token : option text) : Tab → Tab → Prop :=
  | BTick now tab :
      behind token tab {| shown := shown tab; waiting := waiting tab ++ [now] |}
  | BAnswer i now sh1 sh2 t1 t2 h1 h2 tab :
      waiting tab !! i = Some now → page_head "/stats" h1 → page_head "/clients" h2 →
      behind token tab
        {| shown := (resume now (fetched_of (answer sh1 token t1 (Some h1))
                                            (answer sh2 token t2 (Some h2))) (shown tab)).2;
           waiting := delete i (waiting tab) |}.

Lemma behind_tab token tab tab' : behind token tab tab' → tab_step tab tab'.
Proof. intros []; [apply TTick|by apply TAnswer]. Qed.

(** C40: with a token the page stays blind.  Its script cannot present one: every
    request it sends is answered [401], so that however long the page is open
    and whatever happens in the server, it shows what it showed when it was
    opened, with the dot off once a call has been answered. *)
Theorem token_blinds_page expected tab :
  rtc (behind (Some expected)) opened tab →
  (document (shown tab) = layout "dot" served_contents ∨
   document (shown tab) = layout "dot off" served_contents) ∧
  activeHistory (shown tab) = replicate SPARK_LEN 0%Z.
Proof.
  intros Hr. eapply (rtc_invariant _ (λ t,
    (document (shown t) = layout "dot" served_contents ∨
     document (shown t) = layout "dot off" served_contents) ∧
    activeHistory (shown t) = replicate SPARK_LEN 0%Z)) in Hr; [done| |split; [by left|reflexivity]].
  intros ?? [now t|i now sh1 sh2 t1 t2 h1 h2 t Hi Hh1 Hh2] [Hd Hh]; [done|].
  unfold fetched_of. rewrite (answer_refused sh1 expected t1 "/stats" h1) by done.
  cbn [rs_body plain]. rewrite json_refusal. cbn [mbind option_bind resume shown].
  unfold on_document. destruct Hd as [-> | ->]; rewrite layout_dot; split; try done; by right.
Qed.
End service.

(** ** Witnesses: an encoder that is read back *)

Definition client_fields (v : ClientView) :=
  (cv_id v, cv_peer v, cv_local v, cv_elapsed_secs v, cv_state v, cv_command v,
   cv_bytes_client_to_target v, cv_bytes_target_to_client v).

Definition client_of_fields f : ClientView :=
  let '(a, b, c, d, e, f, g, h) := f in Build_ClientView a b c d e f g h.

Definition snapshot_fields (s : Snapshot) :=
  let a := snap_server s in let c := snap_connections s in let d := snap_dns s in
  let t := snap_traffic s in
  ((ss_version a, ss_uptime_secs a, ss_started_at_unix a, ss_listeners a),
   (cs_active c, (λ i, (ic_ip i, ic_count i)) <$> cs_active_per_ip c, cs_accepted_total c,
    cs_refused_per_ip_total c, cs_handshake_timeouts c, cs_auth_failures c, cs_disconnects c),
   (ds_enabled d, ds_ttl_secs d, ds_max_entries d, ds_entries d, ds_hits d, ds_misses d,
    ds_inserts d, ds_evictions d, ds_expired_dropped d,
    (λ n, (dn_name n, dn_expires_in_secs n)) <$> ds_names d),
   (ts_bytes_client_to_target t, ts_bytes_target_to_client t, ts_udp_datagrams t,
    rq_connect (ts_requests t), rq_bind (ts_requests t), rq_udp_associate (ts_requests t)),
   (λ e, (es_code e, es_name e, es_count e)) <$> snap_errors s).

Definition snapshot_of_fields f : Snapshot :=
  let '((v, u, st, l), (ac, pi, total, rf, ht, af, di), (en, life, me, ne, hi, mi, ins, ev, ex, nm),
        (up, down, ud, rc, rb, ru), er) := f in
  {| snap_server := Build_ServerSnapshot v u st l;
     snap_connections := Build_ConnectionsSnapshot ac ((λ i, Build_IpCount i.1 i.2) <$> pi) total rf ht af di;
     snap_dns := {| ds_enabled := en; ds_ttl_secs := life; ds_max_entries := me; ds_entries := ne;
                    ds_hits := hi; ds_misses := mi; ds_inserts := ins; ds_evictions := ev;
                    ds_expired_dropped := ex;
                    ds_names := (λ n, {| dn_name := n.1; dn_expires_in_secs := n.2 |}) <$> nm |};
     snap_traffic := Build_TrafficSnapshot up down ud (Build_RequestsSnapshot rc rb ru);
     snap_errors := (λ e, Build_ErrorSnapshot e.1.1 e.1.2 e.2) <$> er |}.

Lemma snapshot_of_fields_fields s : snapshot_of_fields (snapshot_fields s) = s.
Proof.
  assert (∀ {A B} (f : A → B) (g : B → A) (l : list A), (∀ x, g (f x) = x) → g <$> (f <$> l) = l) as Hinv.
  { intros A B f g l E. induction l as [|x l IH]; [done|]. cbn. by rewrite E, IH. }
  destruct s as [[] [] [] [? ? ? []] errors]. unfold snapshot_of_fields, snapshot_fields. cbn.
  rewrite !Hinv; [done|by intros []..].
Qed.

Fixpoint digits (p : positive) : list u8 :=
  match p with xH => [] | xO p => x30 :: digits p | xI p => x31 :: digits p end.

Fixpoint undigits (l : list u8) : option positive :=
  match l with
  | [] => Some xH
  | x30 :: l => xO <$> undigits l
  | x31 :: l => xI <$> undigits l
  | _ => None
  end.

Lemma undigits_digits p : undigits (digits p) = Some p.
Proof. by induction p as [p IH|p IH|]; simpl; rewrite ?IH. Qed.

Definition coded_web : Web :=
  {| to_vec_snapshot s := Some (digits (countable.encode (snapshot_fields s)));
     to_vec_clients l := Some (digits (countable.encode (client_fields <$> l)));
     default_hash l := N.of_nat (length l) |}.
#[local] Existing Instance coded_web.

#[local] Instance coded_json : Json.
Proof.
  refine {| json_snapshot b := snapshot_of_fields <$> (undigits b ≫= countable.decode);
            json_clients b := l ← undigits b ≫= countable.decode; Some (List.map client_of_fields l) |}.
  - intros s. eexists. split; [reflexivity|]. rewrite undigits_digits. cbn [mbind option_bind].
    rewrite decode_encode. cbn [fmap option_fmap option_map]. by rewrite snapshot_of_fields_fields.
  - intros l. eexists. split; [reflexivity|]. rewrite undigits_digits. cbn [mbind option_bind].
    rewrite decode_encode. cbn [mbind option_bind]. f_equal.
    induction l as [|[] l IH]; [done|]. cbn in *. by f_equal.
  - reflexivity.
Defined.

#[local] Existing Instance demo_named.
#[local] Existing Instance demo_cli_net.
#[local] Existing Instance map_order.
#[local] Existing Instance counting_semaphore.
#[local] Existing Instance demo_browser.

(** As [demo_watched], without a token. *)
Definition demo_open : Opt :=
  {| port := 1080; ip := "localhost"; allow_insecure := false; no_auth := true;
     users := None; max_connections := 2; dns_cache_ttl := 0;
     max_connections_per_ip := 0; dns_cache_entries := 1024; stats_addr := Some "localhost:8080";
     stats_token := None; verbosity := x00; quiet := false |}.

Lemma demo_open_main :
  main demo_open 0 0 =
  Serving (demo_watched_server (2 : nat) Acquiring) (Some (demo_listener, None)).
Proof. reflexivity. Qed.

Definition demo_page_head (target : string) : list u8 :=
  Utf8.encode (render (scalars "GET") (scalars target) (scalars "HTTP/1.1")
    [(scalars "Host", scalars "localhost:8080")]) ++ CRLF2.

Lemma demo_page_head_ok target :
  target = "/stats" ∨ target = "/clients" → page_head target (demo_page_head target).
Proof. by intros [-> | ->]; (eexists; split; [vm_compute; reflexivity|]). Qed.

Lemma page_tracks_server_witness :
  ∃ sv2 p c rows, length (guards sv2) = 1 ∧ document p = layout "dot" c ∧
    take 2 (textContent <$> c ConnectionsList) = ["active:"; "0"] ∧
    cells <$> c ClientsTable = rows_text (client_cells <$> rows) ∧ length rows = 1.
Proof.
  destruct demo_running as (sv2 & Hr2 & Hone).
  pose proof (main_server_inv _ _ _ _ _ _ demo_open_main Hr2) as Hi2.
  destruct (si_registry _ _ _ Hi2) as (s2 & Hs2 & _).
  destruct (page_tracks_server demo_open 0 0 _ (demo_watched_server (2 : nat) Acquiring) sv2
    demo_listener "0.1.3" _ _ 5 6 (demo_page_head "/stats") (demo_page_head "/clients")
    opened 1000 "1970-01-01 00:00:00Z" demo_open_main eq_refl (rtc_refl _ _) eq_refl
    (demo_page_head_ok _ ltac:(by left)) Hr2 ltac:(unfold dashboard_view; rewrite Hs2; reflexivity)
    (demo_page_head_ok _ ltac:(by right)) eq_refl (rtc_refl _ _))
    as (p & c & rows & _ & Hd & Hconn & Hcl & Hids & _).
  exists sv2, p, c, rows. split; [exact Hone|]. split; [exact Hd|]. split; [exact Hconn|].
  split; [exact Hcl|]. apply Permutation_length in Hids. rewrite !length_fmap, Hone in Hids.
  exact Hids.
Defined.

Lemma demo_blind :
  rtc (behind (Some demo_token)) opened
    {| shown := (resume 7 (fetched_of
         (answer demo_shared (Some demo_token) 5 (Some (demo_page_head "/stats")))
         (answer demo_shared (Some demo_token) 5 (Some (demo_page_head "/clients")))) page).2;
       waiting := [] |}.
Proof.
  eapply rtc_l; [apply (BTick _ 7)|]. apply rtc_once.
  apply (BAnswer _ 0 7 demo_shared demo_shared 5 5 _ _
           {| shown := shown opened; waiting := waiting opened ++ [7%Z] |});
    [reflexivity|apply demo_page_head_ok; by left|apply demo_page_head_ok; by right].
Qed.

Lemma token_blinds_page_witness :
  ∃ tab, rtc (behind (Some demo_token)) opened tab ∧
         activeHistory (shown tab) = replicate SPARK_LEN 0%Z.
Proof.
  eexists. split; [exact demo_blind|]. apply (token_blinds_page demo_token _ demo_blind).
Defined.
