(* ===== verification/Tests.v ===== *)
(** * The unit tests of the library, run on the model ([src/src/lib.rs]:
      [mod tests], the synchronous ones)

    Each test of the repository is translated assertion by assertion and
    evaluated on the definitions of this development: what the authors expect
    of the code holds of the model.  A test that panics in an [unwrap] fails. *)
From S2P Require Import Prelude Fmt Types Wire Credentials Display PerIp DnsCache Stream Connect.

(** ** Assertions *)

(** The assertions of a test, in order. *)
Abbreviation test := (list bool).

Definition passes (t : test) : Prop := forallb id t = true.

Definition assert (b : bool) : test := [b].
Definition assert_eq `{EqDecision A} (a b : A) : test := [bool_decide (a = b)].
Definition assert_ne `{EqDecision A} (a b : A) : test := [bool_decide (a ≠ b)].
Definition is_err {E A} (r : result E A) : bool := match r with Err _ => true | Ok _ => false end.
Definition unwrap {E A} (r : result E A) (k : A → test) : test :=
  match r with Ok a => k a | Err _ => [false] end.
Definition unwrap_err {E A} (r : result E A) (k : E → test) : test :=
  match r with Ok _ => [false] | Err e => k e end.
Definition expect {A} (o : option A) (k : A → test) : test :=
  match o with Some a => k a | None => [false] end.
Definition is_socks {A} (code : ResponseCode) (r : result MerinoError A) : bool :=
  match r with Err (Socks c) => bool_decide (c = code) | _ => false end.
Definition contains (needle s : string) : bool :=
  match String.index 0 needle s with Some _ => true | None => false end.

(** [Ipv6Addr::new(0x2001, 0xdb8, 0, 0, 0, 0, 0, 1)]. *)
Definition v6_doc : Ipv6Addr :=
  [# x20; x01; x0d; xb8; x00; x00; x00; x00; x00; x00; x00; x00; x00; x00; x00; x01].
Definition v4_local (d : u8) : Ipv4Addr := [# x7f; x00; x00; d].

(** ** Enumerations and errors *)

Definition addr_type_from_byte : test :=
  assert_eq (AddrType_from 1) (Some V4) ++
  assert_eq (AddrType_from 3) (Some Domain) ++
  assert_eq (AddrType_from 4) (Some V6) ++
  assert_eq (AddrType_from 0) None ++
  assert_eq (AddrType_from 2) None ++
  assert_eq (AddrType_from 255) None.

Definition sock_command_from_byte : test :=
  assert_eq (SockCommand_from 1) (Some Types.Connect) ++
  assert_eq (SockCommand_from 2) (Some Bind) ++
  assert_eq (SockCommand_from 3) (Some UdpAssosiate) ++
  assert_eq (SockCommand_from 0) None ++
  assert_eq (SockCommand_from 4) None ++
  assert_eq (SockCommand_from 255) None.

Definition method_and_response_codes_match_rfc : test :=
  assert_eq (AuthMethods_as_u8 NoAuth) x00 ++
  assert_eq (AuthMethods_as_u8 UserPass) x02 ++
  assert_eq (AuthMethods_as_u8 NoMethods) xff ++
  assert_eq (ResponseCode_as_u8 Success) x00 ++
  assert_eq (ResponseCode_as_u8 Failure) x01 ++
  assert_eq (ResponseCode_as_u8 RuleFailure) x02 ++
  assert_eq (ResponseCode_as_u8 NetworkUnreachable) x03 ++
  assert_eq (ResponseCode_as_u8 HostUnreachable) x04 ++
  assert_eq (ResponseCode_as_u8 ConnectionRefused) x05 ++
  assert_eq (ResponseCode_as_u8 TtlExpired) x06 ++
  assert_eq (ResponseCode_as_u8 CommandNotSupported) x07 ++
  assert_eq (ResponseCode_as_u8 AddrTypeNotSupported) x08.

Definition merino_error_to_response_code : test :=
  assert_eq (ResponseCode_as_u8 (ResponseCode_from (Socks HostUnreachable)))
    (ResponseCode_as_u8 HostUnreachable) ++
  assert_eq (ResponseCode_as_u8 (ResponseCode_from (Io (io_Error_new ErrorKind.Other "boom"))))
    (ResponseCode_as_u8 Failure).

Definition client_disconnects_are_classified : test :=
  ([ErrorKind.UnexpectedEof; ErrorKind.ConnectionReset; ErrorKind.ConnectionAborted;
    ErrorKind.BrokenPipe] ≫= λ kind,
     assert (is_disconnect_kind kind) ++
     assert (is_client_disconnect (Io (io_Error_new kind "gone")))) ++
  assert (negb (is_client_disconnect (Socks HostUnreachable))) ++
  assert (negb (is_client_disconnect (Io (io_Error_new ErrorKind.PermissionDenied "nope")))) ++
  assert (negb (is_disconnect_kind ErrorKind.PermissionDenied)).

Definition connection_failures_are_classified : test :=
  ([NetworkUnreachable; HostUnreachable; ConnectionRefused; TtlExpired] ≫= λ code,
     assert (is_connection_failure (Socks code))) ++
  assert (is_connection_failure (Io (io_Error_new ErrorKind.TimedOut "snooze"))) ++
  assert (negb (is_connection_failure (Socks Failure))) ++
  assert (negb (is_connection_failure (Io (io_Error_new ErrorKind.PermissionDenied "nope")))) ++
  assert (negb (is_connection_failure (Io (io_Error_new ErrorKind.ConnectionReset "hang up")))).

Definition default_connect_timeout_is_reasonable : test :=
  assert (from_secs 5 <=? DEFAULT_CONNECT_TIMEOUT)%N.

Definition connect_timeout_maps_to_ttl_expired : test :=
  assert_eq connect_timeout_error (Socks TtlExpired).

Definition connect_error_maps_network_failures_to_reply_codes : test :=
  let code_of kind := connect_error (io_Error_new kind "") in
  assert_eq (code_of ErrorKind.ConnectionRefused) (Socks ConnectionRefused) ++
  assert_eq (code_of ErrorKind.NetworkUnreachable) (Socks NetworkUnreachable) ++
  assert_eq (code_of ErrorKind.NetworkDown) (Socks NetworkUnreachable) ++
  assert_eq (code_of ErrorKind.HostUnreachable) (Socks HostUnreachable) ++
  assert_eq (code_of ErrorKind.AddrNotAvailable) (Socks HostUnreachable) ++
  assert (match connect_error (io_Error_new ErrorKind.PermissionDenied "") with
          | Io _ => true
          | Socks _ => false
          end).

Definition dns_failure_is_host_unreachable : test :=
  assert_eq dns_failure_error (Socks HostUnreachable).

(** ** What is logged of a destination *)

Definition pretty_print_ipv4 : test :=
  assert_eq (pretty_print_addr V4 [x7f; x00; x00; x01]) "127.0.0.1" ++
  assert_eq (pretty_print_addr V4 [x08; x08; x04; x04]) "8.8.4.4".

Definition pretty_print_ipv6 : test :=
  assert_eq (pretty_print_addr V6 (vec_to_list v6_doc)) "2001:db8:0:0:0:0:0:1".

Definition pretty_print_domain : test :=
  assert_eq (pretty_print_addr Domain (as_bytes "example.com")) "example.com".

Definition pretty_print_domain_escapes_control_bytes : test :=
  assert_eq (pretty_print_addr Domain (x1b :: as_bytes "[31mexample.com")) "\x1b[31mexample.com" ++
  assert_eq (pretty_print_addr Domain [x61; x00; x62; x0a; x63; x0d; x64; xff])
    "a\x00b\x0ac\x0dd\xff" ++
  assert_eq (pretty_print_addr Domain (as_bytes "a b~!")) "a b~!".

Definition pretty_print_short_addresses_do_not_panic : test :=
  assert (contains "invalid" (pretty_print_addr V4 [x01; x02])) ++
  assert (contains "invalid" (pretty_print_addr V6 [x01; x02; x03])).

Definition expected_ip_only_accepts_concrete_addresses : test :=
  assert_eq (expected_ip V4 [x7f; x00; x00; x01]) (Some (IpV4 (v4_local x01))) ++
  assert_eq (expected_ip V4 [x00; x00; x00; x00]) None ++
  assert_eq (expected_ip Domain (as_bytes "example.com")) None ++
  assert_eq (expected_ip V4 [x01; x02]) None.

Definition expected_ip_handles_ipv6 : test :=
  assert_eq (expected_ip V6 (vec_to_list v6_doc)) (Some (IpV6 v6_doc)) ++
  assert_eq (expected_ip V6 (replicate 16 x00)) None ++
  assert_eq (expected_ip V6 (replicate 8 x00)) None.

(** ** Wire formats *)

Definition socks_reply_wire_format : test :=
  assert_eq (buf (SocksReply_new Success)) [x05; x00; x00; x01; x00; x00; x00; x00; x00; x00] ++
  assert_eq (buf (SocksReply_new ConnectionRefused))
    [x05; x05; x00; x01; x00; x00; x00; x00; x00; x00].

Definition parse_greeting_basic : test :=
  unwrap (parse_greeting [x05; x02; x00; x02]) (λ '(version, nmethods, methods, consumed),
    assert_eq version x05 ++ assert_eq nmethods x02 ++ assert_eq methods [x00; x02] ++
    assert_eq consumed 4).

Definition parse_greeting_leaves_pipelined_bytes : test :=
  unwrap (parse_greeting [x05; x01; x00; xaa; xbb]) (λ '(_, _, methods, consumed),
    assert_eq methods [x00] ++ assert_eq consumed 3).

Definition parse_greeting_truncated_errors : test :=
  assert (is_err (parse_greeting [])) ++
  assert (is_err (parse_greeting [x05])) ++
  assert (is_err (parse_greeting [x05; x02; x00])).

Definition parse_userpass_basic : test :=
  let frame := [x01; x02; x61; x62; x03; x78; x79; x7a] in
  unwrap (parse_userpass frame) (λ '(parsed, consumed),
    assert_eq (up_version parsed) x01 ++
    assert_eq (up_username parsed) (as_bytes "ab") ++
    assert_eq (up_password parsed) (as_bytes "xyz") ++
    assert_eq consumed (length frame)).

Definition parse_userpass_truncated_errors : test :=
  assert (is_err (parse_userpass [])) ++
  assert (is_err (parse_userpass [x01; x05; x61])) ++
  assert (is_err (parse_userpass [x01; x01; x61])) ++
  assert (is_err (parse_userpass [x01; x01; x61; x04; x62])).

Definition parse_request_ipv4_roundtrip : test :=
  let frame := [x05; x01; x00; x01; x7f; x00; x00; x01; x1f; x90] in
  unwrap (parse_request frame) (λ '(req, consumed),
    assert_eq (req_version req) x05 ++
    assert_eq (req_command req) Types.Connect ++
    assert_eq (req_addr_type req) V4 ++
    assert_eq (req_addr req) [x7f; x00; x00; x01] ++
    assert_eq (req_port req) 8080%N ++
    assert_eq consumed (length frame)).

Definition parse_request_domain_roundtrip : test :=
  let frame := [x05; x01; x00; x03; x0b] in
  let frame := frame ++ as_bytes "example.com" in
  let frame := frame ++ u16_to_be_bytes 443 in
  unwrap (parse_request frame) (λ '(req, consumed),
    assert_eq (req_addr_type req) Domain ++
    assert_eq (req_addr req) (as_bytes "example.com") ++
    assert_eq (req_port req) 443%N ++
    assert_eq consumed (length frame)).

Definition parse_request_rejects_bad_command_and_addr_type : test :=
  assert (is_socks CommandNotSupported
            (parse_request [x05; x09; x00; x01; x00; x00; x00; x00; x00; x00])) ++
  assert (is_socks AddrTypeNotSupported
            (parse_request [x05; x01; x00; x02; x00; x00; x00; x00])).

Definition parse_request_truncated_errors : test :=
  assert (is_err (parse_request [x05; x01; x00])) ++
  assert (is_err (parse_request [x05; x01; x00; x01; x01; x02; x03])) ++
  assert (is_err (parse_request [x05; x01; x00; x01; x7f; x00; x00; x01; x00])) ++
  assert (is_err (parse_request [x05; x01; x00; x03; xc8; x61])).

Definition parse_request_truncated_domain_and_v6 : test :=
  assert (is_err (parse_request [x05; x01; x00; x03])) ++
  assert (is_err (parse_request [x05; x01; x00; x04; x00; x00; x00; x00])).

Definition socks_reply_with_ipv4_bound_addr : test :=
  let reply := SocksReply_with_addr Success (SockV4 (v4_local x01) 4321) in
  let port := u16_to_be_bytes 4321 in
  assert_eq (SocksReply_as_bytes reply)
    [x05; x00; x00; x01; x7f; x00; x00; x01; byte_at port 0; byte_at port 1].

Definition socks_reply_with_ipv6_bound_addr : test :=
  let reply := SocksReply_with_addr Success (SockV6 v6_doc 443 0 0) in
  let bytes := SocksReply_as_bytes reply in
  assert_eq (length bytes) 22 ++
  assert_eq (bytes !! 0) (Some x05) ++
  assert_eq (bytes !! 1) (Some x00) ++
  assert_eq (bytes !! 3) (Some x04) ++
  assert_eq (firstn 16 (skipn 4 bytes))
    [x20; x01; x0d; xb8; x00; x00; x00; x00; x00; x00; x00; x00; x00; x00; x00; x01] ++
  assert_eq (firstn 2 (skipn 20 bytes)) (u16_to_be_bytes 443).

Definition parse_udp_header_ipv4 : test :=
  let frame := [x00; x00; x00; x01; x7f; x00; x00; x01; x1f; x90; x68; x69] in
  unwrap (parse_udp_header frame) (λ '(header, consumed),
    assert_eq (udp_frag header) x00 ++
    assert_eq (udp_addr_type header) V4 ++
    assert_eq (udp_addr header) [x7f; x00; x00; x01] ++
    assert_eq (udp_port header) 8080%N ++
    assert_eq consumed 10 ++
    assert_eq (skipn consumed frame) (as_bytes "hi")).

Definition parse_udp_header_domain_and_frag : test :=
  let frame := [x00; x00; x03; x03; x0b] in
  let frame := frame ++ as_bytes "example.com" in
  let frame := frame ++ u16_to_be_bytes 443 in
  unwrap (parse_udp_header frame) (λ '(header, consumed),
    assert_eq (udp_frag header) x03 ++
    assert_eq (udp_addr_type header) Domain ++
    assert_eq (udp_addr header) (as_bytes "example.com") ++
    assert_eq (udp_port header) 443%N ++
    assert_eq consumed (length frame)).

Definition parse_udp_header_rejects_truncated_and_bad_type : test :=
  assert (is_err (parse_udp_header [])) ++
  assert (is_err (parse_udp_header [x00; x00; x00])) ++
  assert (is_socks AddrTypeNotSupported (parse_udp_header [x00; x00; x00; x02])) ++
  assert (is_err (parse_udp_header [x00; x00; x00; x01; x01; x02; x03])) ++
  assert (is_err (parse_udp_header [x00; x00; x00; x01; x7f; x00; x00; x01; x00])).

Definition parse_udp_header_truncates_domain_and_ipv6 : test :=
  assert (is_err (parse_udp_header [x00; x00; x00; x03])) ++
  assert (is_err (parse_udp_header [x00; x00; x00; x03; xc8; x61])) ++
  assert (is_err (parse_udp_header [x00; x00; x00; x04; x01; x02; x03])) ++
  assert (is_err (parse_udp_header ([x00; x00; x00; x04] ++ replicate 16 x00))).

Definition encode_udp_header_roundtrips : test :=
  let addr := SockV4 (v4_local x01) 9000 in
  let encoded := encode_udp_header addr in
  assert_eq (encoded !! 0) (Some x00) ++
  assert_eq (encoded !! 1) (Some x00) ++
  assert_eq (encoded !! 2) (Some x00) ++
  unwrap (parse_udp_header encoded) (λ '(header, consumed),
    assert_eq consumed (length encoded) ++
    assert_eq (udp_addr header) [x7f; x00; x00; x01] ++
    assert_eq (udp_port header) 9000%N).

Definition encode_udp_header_ipv6_roundtrips : test :=
  let addr := SockV6 v6_doc 4444 0 0 in
  let encoded := encode_udp_header addr in
  assert_eq (firstn 4 encoded) [x00; x00; x00; x04] ++
  unwrap (parse_udp_header encoded) (λ '(header, consumed),
    assert_eq consumed (length encoded) ++
    assert_eq (udp_addr header) (vec_to_list v6_doc) ++
    assert_eq (udp_port header) 4444%N).

(** ** Credentials *)

Definition ct_eq_is_equality : test :=
  let width := 8 in
  assert (ct_eq (as_bytes "secret") (as_bytes "secret") width) ++
  assert (negb (ct_eq (as_bytes "secret") (as_bytes "secrez") width)) ++
  assert (negb (ct_eq (as_bytes "secret") (as_bytes "secret2") width)) ++
  assert (negb (ct_eq (as_bytes "") (as_bytes "x") width)) ++
  assert (ct_eq (as_bytes "") (as_bytes "") width) ++
  assert (negb (ct_eq (as_bytes "secrets!") (as_bytes "secret") width)) ++
  assert (negb (ct_eq (as_bytes "secret") (as_bytes "secrets!") width)) ++
  assert (negb (ct_eq [x73; x65; x63; x00; x72; x65; x74] (as_bytes "secret") width)).

Definition credential_width_is_the_longest_value : test :=
  assert_eq (credential_width []) 0 ++
  assert_eq (credential_width [User_new "alice" "secret"]) (length (as_bytes "secret")) ++
  assert_eq (credential_width [User_new "alice" "secret"; User_new "bob" "hunter2!"])
    (length (as_bytes "hunter2!")).

(** ** Shared objects *)

Definition per_ip_limiter_bounds_each_source_and_releases_on_drop : test :=
  let limiter := PerIpLimiter_new 1 in
  let ip := IpV4 (v4_local x01) in
  let other := IpV4 (v4_local x02) in
  let '(held, limiter) := try_acquire limiter ip in
  expect held (λ held,
  let '(again, limiter) := try_acquire limiter ip in
  assert_eq (slot_ip <$> again) None ++
  let '(other_held, limiter) := try_acquire limiter other in
  expect other_held (λ other_held,
  expect (IpSlot_drop held limiter) (λ limiter,
  let '(freed, limiter) := try_acquire limiter ip in
  expect freed (λ freed,
  (** the temporary of the assertion, then [other_held] *)
  expect (IpSlot_drop freed limiter) (λ limiter,
  expect (IpSlot_drop other_held limiter) (λ _, [])))))).

Section dns.
Context `{!HashOrder}.

(** [cache.insert(name, addrs)] at a given instant; a panic fails the test. *)
Definition inserted (cache : DnsCache) (name : string) (l : list SocketAddr) (now : N)
    (k : DnsCache → test) : test :=
  match DnsCache_insert cache name l now with Returned cache => k cache | Panicked _ => [false] end.

Definition got (cache : DnsCache) (name : string) (now : N)
    (k : option (list SocketAddr) → DnsCache → test) : test :=
  let '(r, cache) := DnsCache_get cache name now in k r cache.

Definition localhost_80 : SocketAddr := SockV4 (v4_local x01) 80.

Definition dns_cache_returns_positive_entries_only : test :=
  let cache := DnsCache_new (from_secs 60) 8 in
  let addr := localhost_80 in
  got cache "example.com:80" 1 (λ r cache, assert_eq r None ++
  inserted cache "example.com:80" [addr] 2 (λ cache,
  got cache "example.com:80" 3 (λ r cache, assert_eq r (Some [addr]) ++
  inserted cache "nxdomain.invalid:80" [] 4 (λ cache,
  got cache "nxdomain.invalid:80" 5 (λ r cache, assert_eq r None ++
  got cache "example.com:443" 6 (λ r _, assert_eq r None)))))).

Definition dns_cache_expires_after_its_ttl : test :=
  let cache := DnsCache_new 0 8 in
  inserted cache "example.com:80" [localhost_80] 1 (λ cache,
  got cache "example.com:80" 2 (λ r cache, assert_eq r None ++
  assert_eq (size (entries cache)) 0)).

Definition dns_cache_is_bounded_and_evicts_the_oldest : test :=
  let cache := DnsCache_new (from_secs 60) 2 in
  inserted cache "first:80" [localhost_80] 1 (λ cache,
  inserted cache "second:80" [localhost_80] 2 (λ cache,
  inserted cache "third:80" [localhost_80] 3 (λ cache,
  assert_eq (size (entries cache)) 2 ++
  got cache "third:80" 4 (λ r _, assert (is_some r))))).

Definition dns_cache_has_at_least_one_slot : test :=
  let cache := DnsCache_new (from_secs 60) 0 in
  inserted cache "example.com:80" [localhost_80] 1 (λ cache,
  got cache "example.com:80" 2 (λ r _, assert_eq r (Some [localhost_80]))).

Definition dns_cache_accounts_hits_misses_evictions_and_expiry : test :=
  let cache := DnsCache_new (from_secs 60) 2 in
  let addr := localhost_80 in
  got cache "example.com:80" 1 (λ r cache, assert_eq r None ++
  inserted cache "example.com:80" [addr] 2 (λ cache,
  got cache "example.com:80" 3 (λ r cache, assert_eq r (Some [addr]) ++
  got cache "example.com:80" 4 (λ r cache, assert_eq r (Some [addr]) ++
  inserted cache "nxdomain.invalid:80" [] 5 (λ cache,
  got cache "nxdomain.invalid:80" 6 (λ r cache, assert_eq r None ++
  inserted cache "a:80" [addr] 7 (λ cache,
  inserted cache "b:80" [addr] 8 (λ cache,
  inserted cache "c:80" [addr] 9 (λ cache,
  let snap := DnsCache_snapshot cache 10 in
  assert_eq (ds_hits snap) 2%N ++
  assert_eq (ds_misses snap) 2%N ++
  assert_eq (ds_inserts snap) 4%N ++
  assert_eq (ds_evictions snap) 2%N ++
  assert_eq (ds_entries snap) 2 ++
  assert_eq (length (ds_names snap)) 2 ++
  assert (ds_enabled snap) ++
  assert_eq (ds_max_entries snap) 2 ++
  let expired := DnsCache_new 0 8 in
  inserted expired "gone:80" [addr] 11 (λ expired,
  got expired "gone:80" 12 (λ r expired, assert_eq r None ++
  let snap := DnsCache_snapshot expired 13 in
  assert_eq (ds_expired_dropped snap) 1%N ++
  assert_eq (ds_entries snap) 0))))))))))).
End dns.

(** ** They pass *)

#[local] Existing Instance map_order.

Lemma tests_of_enumerations_pass :
  Forall passes [addr_type_from_byte; sock_command_from_byte; method_and_response_codes_match_rfc;
    merino_error_to_response_code; client_disconnects_are_classified;
    connection_failures_are_classified; default_connect_timeout_is_reasonable;
    connect_timeout_maps_to_ttl_expired; connect_error_maps_network_failures_to_reply_codes;
    dns_failure_is_host_unreachable].
Proof. repeat constructor. Qed.

Lemma tests_of_display_pass :
  Forall passes [pretty_print_ipv4; pretty_print_ipv6; pretty_print_domain;
    pretty_print_domain_escapes_control_bytes; pretty_print_short_addresses_do_not_panic;
    expected_ip_only_accepts_concrete_addresses; expected_ip_handles_ipv6].
Proof. repeat constructor. Qed.

Lemma tests_of_wire_pass :
  Forall passes [socks_reply_wire_format; parse_greeting_basic;
    parse_greeting_leaves_pipelined_bytes; parse_greeting_truncated_errors; parse_userpass_basic;
    parse_userpass_truncated_errors; parse_request_ipv4_roundtrip; parse_request_domain_roundtrip;
    parse_request_rejects_bad_command_and_addr_type; parse_request_truncated_errors;
    parse_request_truncated_domain_and_v6; socks_reply_with_ipv4_bound_addr;
    socks_reply_with_ipv6_bound_addr; parse_udp_header_ipv4; parse_udp_header_domain_and_frag;
    parse_udp_header_rejects_truncated_and_bad_type; parse_udp_header_truncates_domain_and_ipv6;
    encode_udp_header_roundtrips; encode_udp_header_ipv6_roundtrips].
Proof. repeat constructor. Qed.

Lemma tests_of_credentials_pass :
  Forall passes [ct_eq_is_equality; credential_width_is_the_longest_value].
Proof. repeat constructor. Qed.

Lemma tests_of_shared_objects_pass :
  Forall passes [per_ip_limiter_bounds_each_source_and_releases_on_drop;
    dns_cache_returns_positive_entries_only; dns_cache_expires_after_its_ttl;
    dns_cache_is_bounded_and_evicts_the_oldest; dns_cache_has_at_least_one_slot;
    dns_cache_accounts_hits_misses_evictions_and_expiry].
Proof. vm_compute. repeat constructor. Qed.
