(* ===== verification/Fuzz.v ===== *)
(** * The parsers with their panics, and the fuzz targets
      ([src/src/lib.rs], [src/fuzz/fuzz_targets])

    [Wire] and [Display] give the parsers and the renderer of addresses as
    functions that cannot fail but with an error.  Here the same code is followed
    one level down, where a slice operation out of range, an arithmetic overflow
    and a capacity beyond [isize::MAX] are panics, as in the builds the code is
    fuzzed with; the fuzz targets are written over these definitions.  On every
    slice there can be, nothing panics, and the results are those of [Wire] and
    [Display], which the rest of the development may therefore use.  Running out
    of memory is not a panic, and left out. *)
From S2P Require Import Prelude Fmt Types Wire Display.

(** ** Code that may panic *)

(** What a piece of code comes to. *)
Inductive ran (A : Type) : Type :=
  | Returns (a : A)
  | Panics.
Arguments Returns {A} a.
Arguments Panics {A}.

#[global] Instance ran_ret : MRet ran := λ A a, Returns a.
#[global] Instance ran_bind : MBind ran := λ A B f r,
  match r with Returns a => f a | Panics => Panics end.

(** [x?] in a function that returns a [Result]. *)
Definition question {E A B} (r : ran (result E A)) (k : A → ran (result E B)) : ran (result E B) :=
  match r with
  | Returns (Ok a) => k a
  | Returns (Err e) => Returns (Err e)
  | Panics => Panics
  end.

(** [slice.split_at(mid)] panics when [mid] is out of range. *)
Definition split_at (bytes : list u8) (mid : usize) : ran (list u8 * list u8) :=
  if mid <=? length bytes then Returns (firstn mid bytes, skipn mid bytes) else Panics.

(** [&slice[..n]] panics when [n] is out of range; [slice.get(..n)] checks first. *)
Definition slice_to (bytes : list u8) (n : usize) : ran (list u8) :=
  if n <=? length bytes then Returns (firstn n bytes) else Panics.

Definition get_to (bytes : list u8) (n : usize) : ran (option (list u8)) :=
  if length bytes <? n then Returns None else slice ← slice_to bytes n; Returns (Some slice).

(** No slice is longer than this. *)
Definition isize_max : N := 9223372036854775807.

(** [String::with_capacity(n)]. *)
Definition with_capacity (n : usize) : ran string :=
  if (N.of_nat n <=? isize_max)%N then Returns "" else Panics.

(** [+] and [-] on [usize], 64 bits wide, with overflow checks. *)
Definition usize_add (a b : usize) : ran usize :=
  if (N.of_nat a + N.of_nat b <? u64_modulus)%N then Returns (a + b) else Panics.

Definition usize_sub (a b : usize) : ran usize :=
  if b <=? a then Returns (a - b) else Panics.

(** ** The parsers *)

Definition take_ran (bytes : list u8) (len : usize) : ran (result MerinoError (list u8 * list u8)) :=
  if length bytes <? len then Returns (Err truncated)
  else halves ← split_at bytes len; Returns (Ok halves).

Definition take_addr_ran (bytes : list u8) (addr_type : AddrType)
    : ran (result MerinoError (list u8 * list u8)) :=
  match addr_type with
  | Domain =>
      match bytes with
      | dlen :: rest => take_ran rest (usize_of_u8 dlen)
      | [] => Returns (Err truncated)
      end
  | V4 => take_ran bytes 4
  | V6 => take_ran bytes 16
  end.

Definition parse_greeting_ran (bytes : list u8)
    : ran (result MerinoError (u8 * u8 * list u8 * usize)) :=
  match bytes with
  | version :: nmethods :: rest =>
      question (take_ran rest (usize_of_u8 nmethods)) (λ halves,
        let methods := fst halves in
        consumed ← usize_add 2 (length methods);
        Returns (Ok (version, nmethods, methods, consumed)))
  | _ => Returns (Err truncated)
  end.

Definition parse_userpass_ran (bytes : list u8)
    : ran (result MerinoError (UserPassRequest * usize)) :=
  match bytes with
  | version :: ulen :: rest =>
      question (take_ran rest (usize_of_u8 ulen)) (λ '(username, rest),
        match rest with
        | plen :: rest =>
            question (take_ran rest (usize_of_u8 plen)) (λ '(password, rest),
              consumed ← usize_sub (length bytes) (length rest);
              Returns (Ok ({| up_version := version; up_username := username;
                              up_password := password |}, consumed)))
        | [] => Returns (Err truncated)
        end)
  | _ => Returns (Err truncated)
  end.

Definition parse_request_ran (bytes : list u8) : ran (result MerinoError (SOCKSReq * usize)) :=
  match bytes with
  | version :: command :: _rsv :: atyp :: rest =>
      question (Returns (ok_or (SockCommand_from (usize_of_u8 command)) (Socks CommandNotSupported)))
        (λ command,
      question (Returns (ok_or (AddrType_from (usize_of_u8 atyp)) (Socks AddrTypeNotSupported)))
        (λ addr_type,
      question (take_addr_ran rest addr_type) (λ '(addr, rest),
      question (Returns (take_port rest)) (λ '(port, rest),
        consumed ← usize_sub (length bytes) (length rest);
        Returns (Ok ({| req_version := version; req_command := command;
                        req_addr_type := addr_type; req_addr := addr; req_port := port |},
                     consumed))))))
  | _ => Returns (Err truncated)
  end.

Definition parse_udp_header_ran (bytes : list u8) : ran (result MerinoError (UdpRequest * usize)) :=
  match bytes with
  | _rsv :: _rsv2 :: frag :: atyp :: rest =>
      question (Returns (ok_or (AddrType_from (usize_of_u8 atyp)) (Socks AddrTypeNotSupported)))
        (λ addr_type,
      question (take_addr_ran rest addr_type) (λ '(addr, rest),
      question (Returns (take_port rest)) (λ '(port, rest),
        consumed ← usize_sub (length bytes) (length rest);
        Returns (Ok ({| udp_frag := frag; udp_addr_type := addr_type; udp_addr := addr;
                        udp_port := port |}, consumed)))))
  | _ => Returns (Err truncated)
  end.

(** ** The renderer *)

Definition sanitize_domain_ran (addr : list u8) : ran string :=
  rendered ← with_capacity (length addr);
  fold_left (λ rendered byte, rendered ← rendered;
    Returns (if is_printable byte then rendered +:+ char_from byte
             else rendered +:+ "\x" +:+ hex_fixed 2 (Byte.to_N byte))) addr (Returns rendered).

Definition pretty_print_addr_ran (addr_type : AddrType) (addr : list u8) : ran string :=
  match addr_type with
  | Domain => sanitize_domain_ran addr
  | V4 =>
      match addr with
      | a :: b :: c :: d :: _ =>
          Returns (dec (Byte.to_N a) +:+ "." +:+ dec (Byte.to_N b) +:+ "." +:+
                   dec (Byte.to_N c) +:+ "." +:+ dec (Byte.to_N d))
      | _ => Returns ("<invalid ipv4: " +:+ dec (N.of_nat (length addr)) +:+ " bytes>")
      end
  | V6 =>
      first ← get_to addr 16;
      match first ≫= try_from_slice 16 with
      | Some octets => Returns (Fmt.join ":" (hex_u16 <$> segments (vec_to_list octets)))
      | None => Returns ("<invalid ipv6: " +:+ dec (N.of_nat (length addr)) +:+ " bytes>")
      end
  end.

(** ** The fuzz targets *)

(** [let _ = ...;]. *)
Definition discard {A} (r : ran A) : ran unit := _ ← r; Returns ().

Definition fuzz_parse_greeting (data : list u8) : ran unit := discard (parse_greeting_ran data).
Definition fuzz_parse_userpass (data : list u8) : ran unit := discard (parse_userpass_ran data).
Definition fuzz_parse_request (data : list u8) : ran unit := discard (parse_request_ran data).
Definition fuzz_parse_udp_header (data : list u8) : ran unit := discard (parse_udp_header_ran data).

Definition fuzz_pretty_print_addr (data : list u8) : ran unit :=
  _ ← pretty_print_addr_ran V4 data;
  _ ← pretty_print_addr_ran V6 data;
  _ ← pretty_print_addr_ran Domain data;
  Returns ().

(** ** Nothing panics *)

Lemma take_ran_eq bytes n : take_ran bytes n = Returns (take_ bytes n).
Proof.
  unfold take_ran, take_, split_at. destruct (Nat.ltb_spec (length bytes) n) as [|Hle]; [done|].
  by apply Nat.leb_le in Hle as ->.
Qed.

Lemma take_addr_ran_eq bytes t : take_addr_ran bytes t = Returns (take_addr bytes t).
Proof. destruct t; [|destruct bytes|]; simpl; rewrite ?take_ran_eq; done. Qed.

Lemma usize_sub_ok a b : b ≤ a → usize_sub a b = Returns (a - b).
Proof. intros H. unfold usize_sub. by apply Nat.leb_le in H as ->. Qed.

Lemma usize_add_ok a b : a < 256 → b < 256 → usize_add a b = Returns (a + b).
Proof.
  intros Ha Hb. unfold usize_add, u64_modulus. by rewrite (proj2 (N.ltb_lt _ _)) by lia.
Qed.

(** What is left of a frame is no longer than the frame. *)
Lemma take_rest l n a r : take_ l n = Ok (a, r) → length r ≤ length l.
Proof. intros [_ ->]%take_Ok. rewrite length_app. lia. Qed.

Lemma take_addr_rest l t a r : take_addr l t = Ok (a, r) → length r ≤ length l.
Proof. intros [_ ->]%take_addr_Ok. rewrite length_app. lia. Qed.

Lemma take_port_rest l p r : take_port l = Ok (p, r) → length r ≤ length l.
Proof. intros [_ ->]%take_port_Ok. rewrite length_app. lia. Qed.

#[local] Hint Resolve take_rest take_addr_rest take_port_rest : core.

Lemma parse_greeting_ran_eq data : parse_greeting_ran data = Returns (parse_greeting data).
Proof.
  unfold parse_greeting. destruct data as [|v [|n rest]]; [done..|]. simpl. rewrite take_ran_eq.
  destruct (take_ rest _) as [[methods r]|e] eqn:E; [|done]. apply take_Ok in E as [Hl _].
  pose proof (usize_of_u8_lt n). cbn [question fst]. rewrite usize_add_ok by lia. done.
Qed.

Lemma parse_userpass_ran_eq data : parse_userpass_ran data = Returns (parse_userpass data).
Proof.
  unfold parse_userpass. destruct data as [|v [|n rest]]; [done..|]. simpl. rewrite take_ran_eq.
  destruct (take_ rest _) as [[u [|k r]]|e] eqn:E; [done| |done].
  cbn [question mbind result_bind]. rewrite take_ran_eq. apply take_rest in E. simpl in E.
  destruct (take_ r _) as [[p r']|e] eqn:E'; [|done]. apply take_rest in E'.
  cbn [question]. rewrite usize_sub_ok by (simpl; lia). done.
Qed.

(** The common end of a request and of a UDP header. *)
Lemma tail_ran_eq {A} (n : usize) rest t (k : list u8 → u16 → A) :
  length rest ≤ n →
  question (take_addr_ran rest t) (λ '(addr, rest),
    question (Returns (take_port rest)) (λ '(port, rest),
      consumed ← usize_sub n (length rest); Returns (Ok (k addr port, consumed)))) =
  Returns ('(addr, rest) ← take_addr rest t; '(port, rest) ← take_port rest;
           Ok (k addr port, n - length rest)).
Proof.
  intros Hn. rewrite take_addr_ran_eq. destruct (take_addr rest t) as [[a r]|e] eqn:E; [|done].
  cbn [question mbind result_bind]. destruct (take_port r) as [[p r']|e] eqn:E'; [|done].
  apply take_addr_rest in E. apply take_port_rest in E'. cbn [question mbind result_bind].
  by rewrite usize_sub_ok by lia.
Qed.

Lemma parse_request_ran_eq data : parse_request_ran data = Returns (parse_request data).
Proof.
  unfold parse_request. destruct data as [|v [|c [|rsv [|t rest]]]]; [done..|].
  unfold parse_request_ran. destruct (SockCommand_from _) as [cmd|]; [|done].
  destruct (AddrType_from _) as [ty|]; [|done]. cbn [ok_or question mbind result_bind].
  apply (tail_ran_eq _ rest ty (λ addr port, {| req_version := v; req_command := cmd;
    req_addr_type := ty; req_addr := addr; req_port := port |})). simpl. lia.
Qed.

Lemma parse_udp_header_ran_eq data : parse_udp_header_ran data = Returns (parse_udp_header data).
Proof.
  unfold parse_udp_header. destruct data as [|v [|c [|f [|t rest]]]]; [done..|].
  unfold parse_udp_header_ran. destruct (AddrType_from _) as [ty|]; [|done].
  cbn [ok_or question mbind result_bind].
  apply (tail_ran_eq _ rest ty (λ addr port, {| udp_frag := f; udp_addr_type := ty;
    udp_addr := addr; udp_port := port |})). simpl. lia.
Qed.

(** A fold whose steps return is a fold. *)
Lemma fold_left_ran {A B} (f : A → B → A) (g : ran A → B → ran A) l a :
  (∀ a b, g (Returns a) b = Returns (f a b)) →
  fold_left g l (Returns a) = Returns (fold_left f l a).
Proof. intros H. revert a. induction l as [|b l IH]; intros a; [done|]. simpl. by rewrite H. Qed.

Lemma sanitize_domain_ran_eq addr :
  (N.of_nat (length addr) ≤ isize_max)%N → sanitize_domain_ran addr = Returns (sanitize_domain addr).
Proof.
  intros H. unfold sanitize_domain_ran, sanitize_domain, with_capacity.
  apply N.leb_le in H as ->. cbn [mbind ran_bind]. apply fold_left_ran. done.
Qed.

Lemma pretty_print_addr_ran_eq t addr :
  (N.of_nat (length addr) ≤ isize_max)%N →
  pretty_print_addr_ran t addr = Returns (pretty_print_addr t addr).
Proof.
  intros H. destruct t; simpl.
  - by destruct addr as [|? [|? [|? [|? ?]]]].
  - by apply sanitize_domain_ran_eq.
  - unfold get_to, get_octets, slice_to. destruct (Nat.ltb_spec (length addr) 16) as [|Hl]; [done|].
    apply Nat.leb_le in Hl as ->. cbn [mbind ran_bind option_bind].
    by destruct (try_from_slice 16 _).
Qed.


