(* ===== verification/Properties.v ===== *)
(** * The repository's property tests, for every input ([src/tests/properties.rs])

    Each property test is the function of its inputs that it is in the code, the
    assertions in order as in [Tests]; where the code draws a few hundred inputs
    from the ranges of its strategies, here they are all of them.  That nothing
    panics is [Fuzz.parsers_never_panic]. *)
From S2P Require Import Prelude Fmt Types Wire Display Fuzz Tests.

(** ** Assertions that hold *)

Lemma passes_app (t u : test) : passes (t ++ u) ↔ passes t ∧ passes u.
Proof. unfold passes. by rewrite forallb_app, andb_true_iff. Qed.

Lemma passes_assert b : passes (assert b) ↔ b = true.
Proof. unfold passes, assert, id. simpl. by rewrite andb_true_r. Qed.

Lemma passes_assert_eq `{EqDecision A} (a b : A) : passes (assert_eq a b) ↔ a = b.
Proof. unfold passes, assert_eq, id. simpl. by rewrite andb_true_r, bool_decide_eq_true. Qed.

Lemma passes_nil : passes [] ↔ True.
Proof. done. Qed.

Create Rewrite HintDb passes.
#[export] Hint Rewrite passes_app passes_assert @passes_assert_eq passes_nil : passes.

(** ** The tests *)

Definition response_code (code : u8) : ResponseCode :=
  match code with
  | x00 => Success
  | x01 => Failure
  | x02 => RuleFailure
  | x03 => NetworkUnreachable
  | x04 => HostUnreachable
  | x05 => ConnectionRefused
  | x06 => TtlExpired
  | x07 => CommandNotSupported
  | _ => AddrTypeNotSupported
  end.

(** The [unwrap] of the code is the caller's. *)
Definition command (code : u8) : option SockCommand := SockCommand_from (usize_of_u8 code).

(** [if let Ok(x) = r { k }]. *)
Definition if_let_Ok {E A} (r : result E A) (k : A → test) : test :=
  match r with Ok a => k a | Err _ => [] end.

Definition consumed_never_exceeds_input (data : list u8) : test :=
  if_let_Ok (parse_greeting data) (λ '(_, _, _, consumed), assert (consumed <=? length data)) ++
  if_let_Ok (parse_userpass data) (λ '(_, consumed), assert (consumed <=? length data)) ++
  if_let_Ok (parse_request data) (λ '(_, consumed), assert (consumed <=? length data)) ++
  if_let_Ok (parse_udp_header data) (λ '(_, consumed), assert (consumed <=? length data)).

Definition parsed_addr_length_matches_type (data : list u8) : test :=
  if_let_Ok (parse_request data) (λ '(req, _),
    match req_addr_type req with
    | V4 => assert_eq (length (req_addr req)) 4
    | V6 => assert_eq (length (req_addr req)) 16
    | Domain => assert (length (req_addr req) <=? 255)
    end).

Definition ipv4_request_roundtrip (ip : vec u8 4) (port : u16) (cmd : u8) : test :=
  let frame := [x05; cmd; x00; x01] ++ vec_to_list ip ++ u16_to_be_bytes port in
  unwrap (parse_request frame) (λ '(req, consumed),
    assert_eq consumed (length frame) ++
    expect (command cmd) (λ cmd, assert_eq (req_command req) cmd) ++
    assert_eq (req_addr_type req) V4 ++
    assert_eq (req_addr req) (vec_to_list ip) ++
    assert_eq (req_port req) port).

Definition ipv6_request_roundtrip (ip : vec u8 16) (port : u16) (cmd : u8) : test :=
  let frame := [x05; cmd; x00; x04] ++ vec_to_list ip ++ u16_to_be_bytes port in
  unwrap (parse_request frame) (λ '(req, consumed),
    assert_eq consumed (length frame) ++
    expect (command cmd) (λ cmd, assert_eq (req_command req) cmd) ++
    assert_eq (req_addr_type req) V6 ++
    assert_eq (req_addr req) (vec_to_list ip) ++
    assert_eq (req_port req) port).

Definition domain_request_roundtrip (domain : list u8) (port : u16) (cmd : u8) : test :=
  let frame := [x05; cmd; x00; x03; u8_of_usize (length domain)] ++ domain ++ u16_to_be_bytes port in
  unwrap (parse_request frame) (λ '(req, consumed),
    assert_eq consumed (length frame) ++
    assert_eq (req_addr_type req) Domain ++
    assert_eq (req_addr req) domain ++
    assert_eq (req_port req) port).

Definition reply_is_always_ten_bytes (code : u8) : test :=
  let reply := SocksReply_new (response_code code) in
  assert_eq (length (SocksReply_as_bytes reply)) 10 ++
  expect (SocksReply_as_bytes reply !! 0) (λ b, assert_eq b x05) ++
  expect (SocksReply_as_bytes reply !! 1) (λ b, assert_eq b code) ++
  expect (SocksReply_as_bytes reply !! 2) (λ b, assert_eq b x00).

(** ** They pass on every input *)

Lemma consumed_app_le {A} (l k r : list A) n : l = k ++ r → n = length k → (n <=? length l) = true.
Proof. intros -> ->. rewrite length_app. apply Nat.leb_le. lia. Qed.

Lemma consumed_never_exceeds_input_passes data : passes (consumed_never_exceeds_input data).
Proof.
  unfold consumed_never_exceeds_input. autorewrite with passes. split_and!.
  - destruct (parse_greeting data) as [[[[v nm] ms] n]|e] eqn:E; [|done].
    apply parse_greeting_spec in E as (rest & _ & _ & Hd & Hn).
    apply passes_assert. by eapply consumed_app_le.
  - destruct (parse_userpass data) as [[r n]|e] eqn:E; [|done].
    apply parse_userpass_Ok in E as (rest & _ & Hd & Hn).
    apply passes_assert. by eapply consumed_app_le.
  - destruct (parse_request data) as [[r n]|e] eqn:E; [|done].
    apply parse_request_Ok in E as (rsv & rest & _ & Hd & Hn).
    apply passes_assert. by eapply consumed_app_le.
  - destruct (parse_udp_header data) as [[r n]|e] eqn:E; [|done].
    apply parse_udp_header_spec in E as (rsv & rsv2 & rest & _ & Hd & Hn).
    apply passes_assert. by eapply consumed_app_le.
Qed.

Lemma parsed_addr_length_passes data : passes (parsed_addr_length_matches_type data).
Proof.
  unfold parsed_addr_length_matches_type.
  destruct (parse_request data) as [[r n]|e] eqn:E; [|done].
  apply parse_request_Ok in E as (rsv & rest & [Ha _]%andb_prop & _ & _).
  simpl. destruct (req_addr_type r); simpl in Ha; autorewrite with passes; lia.
Qed.

(** The three kinds of request in one: what [encode_request] gives is parsed. *)
Lemma parse_frame cmd c t addr port :
  command cmd = Some c → addr_wf t addr = true → u16_wf port = true →
  let frame := [x05; cmd; x00; AddrType_as_u8 t] ++ encode_addr t addr ++ u16_to_be_bytes port in
  parse_request frame =
    Ok ({| req_version := x05; req_command := c; req_addr_type := t; req_addr := addr;
           req_port := port |}, length frame).
Proof.
  intros Hc%SockCommand_from_inv Ha Hp frame. apply parse_request_Ok. exists x00, [].
  unfold request_wf, encode_request. simpl. rewrite Ha, Hp, app_nil_r, <- Hc. done.
Qed.

(** Rewrites the parser's result on the frame of a test. *)
Ltac parsed E :=
  let H := fresh in
  pose proof E as H; cbv zeta in H;
  match type of H with
  | parse_request ?f = _ =>
      match goal with |- context [parse_request ?g] => change g with f; rewrite H; clear H end
  end; cbn [unwrap req_command req_addr_type req_addr req_port].

Lemma command_ok cmd : (1 ≤ Byte.to_N cmd ≤ 3)%N → is_Some (command cmd).
Proof. destruct cmd; (by eexists) || (intros H; exfalso; simpl in H; lia). Qed.

Lemma ipv4_request_passes ip port cmd :
  u16_wf port = true → (1 ≤ Byte.to_N cmd ≤ 3)%N → passes (ipv4_request_roundtrip ip port cmd).
Proof.
  intros Hp [c Hc]%command_ok. unfold ipv4_request_roundtrip. cbv zeta.
  assert (addr_wf V4 (vec_to_list ip) = true) as Ha by (simpl; by rewrite length_vec_to_list).
  parsed (parse_frame cmd c V4 (vec_to_list ip) port Hc Ha Hp).
  rewrite Hc. cbn [expect]. by autorewrite with passes.
Qed.

Lemma ipv6_request_passes ip port cmd :
  u16_wf port = true → (1 ≤ Byte.to_N cmd ≤ 3)%N → passes (ipv6_request_roundtrip ip port cmd).
Proof.
  intros Hp [c Hc]%command_ok. unfold ipv6_request_roundtrip. cbv zeta.
  assert (addr_wf V6 (vec_to_list ip) = true) as Ha by (simpl; by rewrite length_vec_to_list).
  parsed (parse_frame cmd c V6 (vec_to_list ip) port Hc Ha Hp).
  rewrite Hc. cbn [expect]. by autorewrite with passes.
Qed.

Lemma domain_request_passes domain port cmd :
  length domain ≤ 255 → u16_wf port = true → (1 ≤ Byte.to_N cmd ≤ 3)%N →
  passes (domain_request_roundtrip domain port cmd).
Proof.
  intros Hl Hp [c Hc]%command_ok. unfold domain_request_roundtrip. cbv zeta.
  assert (addr_wf Domain domain = true) as Ha by (apply Nat.ltb_lt; lia).
  parsed (parse_frame cmd c Domain domain port Hc Ha Hp).
  by autorewrite with passes.
Qed.

Lemma reply_ten_bytes_passes code :
  (Byte.to_N code ≤ 8)%N → passes (reply_is_always_ten_bytes code).
Proof. destruct code; done || (intros H; exfalso; simpl in H; lia). Qed.
