(* ===== verification/TestsAsync.v ===== *)
(** * More of the repository's tests, run on the model ([src/src/lib.rs]: the
      asynchronous part of [mod tests]; [src/src/stats.rs] and
      [src/src/main.rs]: [mod tests])

    A test's peer is the script of what it sends and when; its sockets on the
    loopback interface are those of a small network. *)
From S2P Require Import Prelude Fmt Types Wire Credentials PerIp DnsCache Stats Stream Relay.
From S2P Require Import Connect Client Handshake Resolve Session Cli Tests.

(** ** The loopback interface *)

Definition loopback (port : u16) : SocketAddr := SockV4 (v4_local x01) port.

(** A connection to an echo server.  The code under test has no use for
    [peer_addr]; the server is told by the port it announces. *)
Definition echo_at (port : u16) : Remote :=
  {| remote_stream := demo_stream (u16_to_be_bytes port); remote_schedule := [] |}.

Definition announced (r : Remote) : list u8 := rx_bytes (remote_stream r).

Definition listening (a : SocketAddr) : Listener :=
  {| l_local_addr := Ok a; l_accept _ := None |}.

(** Connections to [remotes] are accepted at once, all others are refused; the
    ports [taken] are in use, and port 0 is an ephemeral one. *)
Definition loopback_net (remotes : list (u16 * Remote)) (taken : list u16) : Net := {|
  lookup_host _ _ := Some (0%N, Ok []);
  lookup_host_port _ port := Ok [loopback port];
  tcp_connect a _ :=
    match List.find (λ r, bool_decide (loopback r.1 = a)) remotes with
    | Some r => Some (0%N, Ok r.2)
    | None => Some (0%N, Err (io_Error_new ErrorKind.ConnectionRefused "connection refused"))
    end;
  tcp_bind a :=
    if bool_decide (sock_port a ∈ taken)
    then Err (io_Error_new ErrorKind.AddrInUse "address in use")
    else Ok (listening (if bool_decide (sock_port a = 0%N) then loopback 50000 else a));
  udp_bind a := Ok {| u_local_addr := Ok a; u_events := [] |};
  set_nonblocking _ := Ok ();
  from_std l := Ok l
|}.

(** A handler run on its own, from the start of time. *)
Definition run {A} (m : M MerinoError A) (c : SOCKClient) : outcome MerinoError A * World :=
  m None {| clock := 0; client := c; w_stats := Stats_new 0 0; w_heap := heap_empty;
            w_cache := None; w_datagrams := []; w_remote := None |}.

Definition done {E A} (o : outcome E A) (k : A → test) : test :=
  match o with Done a => k a | _ => [false] end.
Definition threw {E A} (o : outcome E A) (k : E → test) : test :=
  match o with Throw e => k e | _ => [false] end.

(** A client whose peer sends [bytes] at once and keeps the connection open. *)
Definition silent_after (bytes : list u8) : Stream :=
  {| rx := (λ b, (0%N, b)) <$> bytes; rx_end := EndSilent; writes := []; shutdowns := []; out := [] |}.

#[local] Existing Instance map_order.

(** ** [lib.rs]: clients and addresses *)

Definition new_no_auth_builds_client : test :=
  let client := SOCKClient_new_no_auth (silent_after []) (Some (from_secs 1)) in
  assert_eq (auth_nmethods client) x00 ++
  assert_eq (socks_version client) x00 ++
  assert_eq (auth_methods client) [AuthMethods_as_u8 NoAuth].

Definition resolved (ty : AddrType) (addr : list u8) (port : u16)
    : outcome MerinoError (list SocketAddr) :=
  (run (m_map_err Io (@addr_to_socket (loopback_net [] []) map_order ty addr port))
     (SOCKClient_new_no_auth (silent_after []) None)).1.

Definition addr_to_socket_ipv4 : test :=
  done (resolved V4 [x7f; x00; x00; x01] 8080) (λ addr,
    assert_eq addr [SockV4 (v4_local x01) 8080]).

Definition addr_to_socket_ipv6 : test :=
  done (resolved V6 (vec_to_list v6_doc) 443) (λ addr, assert_eq addr [SockV6 v6_doc 443 0 0]).

Definition addr_to_socket_rejects_short_addresses : test :=
  threw (resolved V4 [x01; x02; x03] 0) (λ _, []) ++
  threw (resolved V6 (replicate 15 x00) 0) (λ _, []).

(** ** [lib.rs]: binding *)

Definition bind_listeners_reports_empty_input : test :=
  unwrap_err (@bind_listeners (loopback_net [] []) []) (λ err,
    assert_eq (io_kind err) ErrorKind.AddrNotAvailable).

Definition bind_listeners_reports_last_failure_when_none_succeed : test :=
  let addrs := [loopback 40001; loopback 40002] in
  unwrap_err (@bind_listeners (loopback_net [] [40001; 40002]%N) addrs) (λ err,
    assert_eq (io_kind err) ErrorKind.AddrInUse).

Definition bind_listeners_skips_failed_addresses : test :=
  let taken_addr := loopback 40001 in
  unwrap (@bind_listeners (loopback_net [] [40001]%N) [taken_addr; loopback 0]) (λ listeners,
    assert_eq (length listeners) 1 ++
    expect (head listeners) (λ l,
    unwrap (l_local_addr l) (λ a, assert_ne a taken_addr))).

Definition bind_all_reports_bind_failure : test :=
  unwrap_err (@bind_all (loopback_net [] [40001]%N) "127.0.0.1" 40001) (λ err,
    assert_eq (io_kind err) ErrorKind.AddrInUse).

(** ** [lib.rs]: the handshake *)

Definition handle_client_relays_a_prepared_request : test :=
  let port := 40001%N in
  let req := [x05; x01; x00; x01; x7f; x00; x00; x01] ++ u16_to_be_bytes port in
  let stream :=
    {| rx := ((λ b, (0%N, b)) <$> req) ++ ((λ b, (1%N, b)) <$> as_bytes "hi");
       rx_end := EndEof 3; writes := []; shutdowns := []; out := [] |} in
  let echo :=
    {| remote_stream := {| rx := (λ b, (2%N, b)) <$> as_bytes "hi"; rx_end := EndEof 2;
                           writes := []; shutdowns := []; out := [] |};
       remote_schedule := [ReadA 16; ReadB 16; ReadB 16; ReadA 16] |} in
  let client := SOCKClient_new stream [] [AuthMethods_as_u8 NoAuth] None in
  let '(o, w) := run (@handle_client (loopback_net [(port, echo)] []) _ _) client in
  done o (λ n,
    let received := tx (Client.stream (Client.client w)) in
    assert_eq (received !! 1) (Some x00) ++
    assert_eq (skipn 10 received) (as_bytes "hi") ++
    assert_eq n 2).

Definition auth_failure_replies_once_and_closes : test :=
  let frame := [x01; x05] ++ as_bytes "alice" ++ [x06] ++ as_bytes "wrong!" in
  let request := [x05; x01; x00; x01; x7f; x00; x00; x01] ++ u16_to_be_bytes 80 in
  let client := set_handshake_timeout (from_secs 5)
    (SOCKClient_new (silent_after ([x05; x01; x02] ++ frame ++ request))
       [User_new "alice" "secret"] [AuthMethods_as_u8 UserPass] None) in
  let '(o, w) := run (@init (loopback_net [] []) _ _) client in
  threw o (λ err, assert_eq err (Socks Failure)) ++
  assert_eq (tx (Client.stream (Client.client w))) ([x05; x02] ++ [x01; x01]).

Definition handle_client_times_out_within_the_handshake_budget : test :=
  let client := set_handshake_timeout (from_millis 50)
    (SOCKClient_new (silent_after []) [] [AuthMethods_as_u8 NoAuth] None) in
  let '(o, w) := run (@handle_client (loopback_net [] []) _ _) client in
  threw o (λ err, assert_eq err (Socks TtlExpired)).

Definition from_stream_rejects_unsupported_version : test :=
  threw (run SOCKSReq_from_stream
           (SOCKClient_new_no_auth (silent_after [x04; x01; x00; x01]) None)).1 (λ err,
    assert_eq err (Socks Failure)).

Definition from_stream_parses_ipv6_request : test :=
  let frame := [x05; x01; x00; x04] ++ replicate 16 x00 ++ [x00; x50] in
  done (run SOCKSReq_from_stream (SOCKClient_new_no_auth (silent_after frame) None)).1 (λ req,
    assert_eq (req_addr_type req) V6 ++
    assert_eq (length (req_addr req)) 16 ++
    assert_eq (req_port req) 80%N).

(** ** [lib.rs]: the race over the resolved addresses *)

(** The result of [connect_any(addrs).await] from the start of time, with its
    instant, on a network with echo servers at [echos]. *)
Definition connected (echos : list u16) (addrs : list SocketAddr)
    (k : N → result io_error Remote → test) : test :=
  expect (@connect_any (loopback_net ((λ p, (p, echo_at p)) <$> echos) []) _ addrs 0)
    (λ '(t, r), k t r).

Definition connect_any_skips_a_refused_address : test :=
  let dead := loopback 40001 in
  let echo := loopback 40002 in
  connected [40002]%N [dead; echo] (λ _ r,
    unwrap r (λ stream, assert_eq (announced stream) (u16_to_be_bytes 40002))).

Definition connect_any_wins_with_the_first_healthy_address : test :=
  let first := loopback 40001 in
  let second := loopback 40002 in
  connected [40001; 40002]%N [first; second] (λ _ r,
    unwrap r (λ stream, assert_eq (announced stream) (u16_to_be_bytes 40001))).

Definition connect_any_reports_a_failure_when_every_address_refuses : test :=
  connected [] [loopback 40001; loopback 40002] (λ _ r,
    unwrap_err r (λ err, assert_eq (io_kind err) ErrorKind.ConnectionRefused)).

Definition connect_any_reports_addr_not_available_for_an_empty_list : test :=
  connected [] [] (λ _ r,
    unwrap_err r (λ err, assert_eq (io_kind err) ErrorKind.AddrNotAvailable)).

Definition connect_any_does_not_serialise_many_attempts : test :=
  let addrs := (λ i, loopback (40000 + N.of_nat i)) <$> seq 0 12 in
  let addrs := addrs ++ [loopback 40012] in
  connected [40012]%N addrs (λ t r,
    assert (t <=? from_secs 5)%N ++
    unwrap r (λ stream, assert_eq (announced stream) (u16_to_be_bytes 40012))) ++
  assert_eq (length addrs) 13.

(** ** [stats.rs] *)

Definition counters_reflect_snapshot : test :=
  let stats := Stats_new 0 0 in
  let stats := note_accepted stats in
  let stats := note_accepted stats in
  let stats := note_refused_per_ip stats in
  let stats := note_handshake_timeout stats in
  let stats := note_auth_failure stats in
  let stats := note_relay 100 200 stats in
  let stats := note_error x05 stats in
  let snap := snapshot "test" [] 1 stats in
  assert_eq (cs_accepted_total (snap_connections snap)) 2%N ++
  assert_eq (cs_refused_per_ip_total (snap_connections snap)) 1%N ++
  assert_eq (cs_handshake_timeouts (snap_connections snap)) 1%N ++
  assert_eq (cs_auth_failures (snap_connections snap)) 1%N ++
  assert_eq (ts_bytes_client_to_target (snap_traffic snap)) 100%N ++
  assert_eq (ts_bytes_target_to_client (snap_traffic snap)) 200%N ++
  assert_eq (length (snap_errors snap)) 1 ++
  expect (head (snap_errors snap)) (λ e,
    assert_eq (es_code e) x05 ++ assert_eq (es_name e) "connection_refused") ++
  assert (negb (ds_enabled (snap_dns snap))).

Definition active_guard_tracks_per_ip_and_clients : test :=
  let peer := loopback 1234 in
  let '(guard, stats, heap) := begin_client peer None 0 (Stats_new 0 0) heap_empty in
  let snap s := snapshot "test" [] 1 s in
  assert_eq (cs_active (snap_connections (snap stats))) 1%N ++
  assert_eq (length (clients_view heap 1 stats)) 1 ++
  assert_eq (cv_id <$> clients_view heap 1 stats) [0%N] ++
  (let per_ip := cs_active_per_ip (snap_connections (snap stats)) in
   assert_eq (length per_ip) 1 ++ assert_eq (ic_count <$> per_ip) [1%N]) ++
  let stats := ActiveGuard_drop guard stats in
  assert_eq (cs_active (snap_connections (snap stats))) 0%N ++
  assert_eq (length (clients_view heap 1 stats)) 0 ++
  assert_eq (length (cs_active_per_ip (snap_connections (snap stats)))) 0.

Definition request_counters_map_commands : test :=
  let stats := Stats_new 0 0 in
  let stats := note_request None Types.Connect stats in
  let stats := note_request None Bind stats in
  let stats := note_request None UdpAssosiate stats in
  let requests := ts_requests (snap_traffic (snapshot "test" [] 1 stats)) in
  assert_eq (rq_connect requests) 1%N ++
  assert_eq (rq_bind requests) 1%N ++
  assert_eq (rq_udp_associate requests) 1%N.

Definition note_request_tags_the_live_client_row : test :=
  let peer := SockV4 [# x0a; x00; x00; x01] 53 in
  let '(guard, stats, heap) := begin_client peer None 0 (Stats_new 0 0) heap_empty in
  let stats := note_request (Some (g_id guard)) Types.Connect stats in
  expect (head (clients_view heap 1 stats)) (λ client,
    assert_eq (cv_command client) (Some "connect") ++
    assert_eq (cv_state client) "relaying") ++
  let counters := ActiveGuard_relay_counters guard in
  let heap := heap_store counters.1 5 heap in
  let heap := heap_store counters.2 9 heap in
  expect (head (clients_view heap 1 stats)) (λ client,
    assert_eq (cv_bytes_client_to_target client) 5%N ++
    assert_eq (cv_bytes_target_to_client client) 9%N).

(** ** [main.rs] *)

Definition log_level_maps_verbosity : test :=
  assert_eq (log_level_for x00) "merino=INFO" ++
  assert_eq (log_level_for x01) "merino=DEBUG" ++
  assert_eq (log_level_for x02) "merino=TRACE" ++
  assert_eq (log_level_for x09) "merino=INFO".

Definition auth_methods_selection : test :=
  assert_eq (select_auth_methods true None) [AuthMethods_as_u8 NoAuth] ++
  assert_eq (select_auth_methods true (Some "u.csv"))
    [AuthMethods_as_u8 NoAuth; AuthMethods_as_u8 UserPass] ++
  assert_eq (select_auth_methods false (Some "u.csv")) [AuthMethods_as_u8 UserPass] ++
  assert_eq (select_auth_methods false None) [AuthMethods_as_u8 NoAuth].

(** [write_temp_csv]: a regular file with the given permissions, whose records
    the CSV reader returns; addresses as the standard library resolves them. *)
Definition temp_csv (records : list (result string User)) (mode : N) : System :=
  {| file_open path :=
       if bool_decide (path = "merino-test.csv")
       then Ok {| uf_metadata := Ok (32768 + mode)%N; uf_records := records |}
       else Err (io_Error_new ErrorKind.NotFound "no such file");
     path_debug path := path;
     to_socket_addrs addr :=
       if bool_decide (addr = "127.0.0.1:9090") then Ok [loopback 9090]
       else if bool_decide (addr = "[::1]:9090")
       then Ok [SockV6 [# x00; x00; x00; x00; x00; x00; x00; x00; x00; x00; x00; x00; x00; x00; x00; x01] 9090 0 0]
       else if bool_decide (addr = "localhost:9090") then Ok [loopback 9090]
       else Err (io_Error_new ErrorKind.InvalidInput "invalid socket address") |}.

Definition alice : result string User := Ok (User_new "alice" "secret").

(** [load_users] on such a file; [0o600] is 384. *)
Definition loaded (records : list (result string User)) (mode : N) (allow_insecure : bool)
    : result cli_error (list User) :=
  @load_users (temp_csv records mode) "merino-test.csv" allow_insecure.

Definition load_users_reads_private_file : test :=
  unwrap (loaded [alice; Ok (User_new "bob" "hunter2")] 384 false) (λ users,
    assert_eq (length users) 2 ++
    assert_eq (users !! 0) (Some (User_new "alice" "secret")) ++
    assert_eq (users !! 1) (Some (User_new "bob" "hunter2"))).

(** [0o644], [0o640] and [0o620]. *)
Definition load_users_rejects_world_readable_file : test :=
  assert (is_err (loaded [alice] 420 false)).
Definition load_users_rejects_group_readable_file : test :=
  assert (is_err (loaded [alice] 416 false)).
Definition load_users_rejects_group_writable_file : test :=
  assert (is_err (loaded [alice] 400 false)).
Definition load_users_allows_world_readable_with_insecure_flag : test :=
  assert (negb (is_err (loaded [alice] 420 true))).
Definition load_users_allows_group_readable_with_insecure_flag : test :=
  assert (negb (is_err (loaded [alice] 416 true))).
Definition load_users_errors_on_missing_file : test :=
  assert (is_err (@load_users (temp_csv [] 384) "merino-test-missing-xyz.csv" false)).
Definition load_users_errors_on_malformed_csv : test :=
  assert (is_err (loaded [Err "found record with 1 fields"] 384 false)).
Definition load_users_errors_on_empty_list : test :=
  assert (is_err (loaded [] 384 false)).

Definition resolve_stats_addr_accepts_ip_literal : test :=
  unwrap (@resolve_stats_addr (temp_csv [] 384) "127.0.0.1:9090") (λ addr,
    assert_eq addr (loopback 9090)) ++
  unwrap (@resolve_stats_addr (temp_csv [] 384) "[::1]:9090") (λ addr,
    assert_eq addr (SockV6 [# x00; x00; x00; x00; x00; x00; x00; x00; x00; x00; x00; x00; x00; x00; x00; x01]
                      9090 0 0)).
Definition resolve_stats_addr_resolves_a_hostname : test :=
  unwrap (@resolve_stats_addr (temp_csv [] 384) "localhost:9090") (λ addr,
    assert_eq (sock_ip addr) (IpV4 (v4_local x01)) ++
    assert_eq (sock_port addr) 9090%N).
Definition resolve_stats_addr_rejects_garbage : test :=
  assert (is_err (@resolve_stats_addr (temp_csv [] 384) "no-port-here")) ++
  assert (is_err (@resolve_stats_addr (temp_csv [] 384) ":notaport")).

(** ** They pass *)

Lemma tests_of_addresses_pass :
  Forall passes [new_no_auth_builds_client; addr_to_socket_ipv4; addr_to_socket_ipv6;
    addr_to_socket_rejects_short_addresses; bind_listeners_reports_empty_input;
    bind_listeners_reports_last_failure_when_none_succeed; bind_listeners_skips_failed_addresses;
    bind_all_reports_bind_failure].
Proof. repeat constructor. Qed.

Lemma tests_of_handshake_pass :
  Forall passes [handle_client_relays_a_prepared_request; auth_failure_replies_once_and_closes;
    handle_client_times_out_within_the_handshake_budget; from_stream_rejects_unsupported_version;
    from_stream_parses_ipv6_request].
Proof. repeat constructor. Qed.

Lemma tests_of_connect_pass :
  Forall passes [connect_any_skips_a_refused_address;
    connect_any_wins_with_the_first_healthy_address;
    connect_any_reports_a_failure_when_every_address_refuses;
    connect_any_reports_addr_not_available_for_an_empty_list;
    connect_any_does_not_serialise_many_attempts].
Proof. repeat constructor. Qed.

Lemma tests_of_statistics_pass :
  Forall passes [counters_reflect_snapshot; active_guard_tracks_per_ip_and_clients;
    request_counters_map_commands; note_request_tags_the_live_client_row].
Proof. repeat constructor. Qed.

Lemma tests_of_command_line_pass :
  Forall passes [log_level_maps_verbosity; auth_methods_selection; load_users_reads_private_file;
    load_users_rejects_world_readable_file; load_users_rejects_group_readable_file;
    load_users_rejects_group_writable_file; load_users_allows_world_readable_with_insecure_flag;
    load_users_allows_group_readable_with_insecure_flag; load_users_errors_on_missing_file;
    load_users_errors_on_malformed_csv; load_users_errors_on_empty_list;
    resolve_stats_addr_accepts_ip_literal; resolve_stats_addr_resolves_a_hostname;
    resolve_stats_addr_rejects_garbage].
Proof. repeat constructor. Qed.
