(* ===== verification/Scenarios.v ===== *)
(** * The integration tests of a session, run on the model ([src/tests/socks5.rs],
      [src/tests/hardening.rs], [src/tests/relay.rs], [src/tests/relay_reset.rs])

    The tests drive a server, or a client over an in-memory stream, from the
    outside.  Here the client of a test is the script of what it sends and when,
    the conversation is what [run_client] (or [init], for the tests that look at
    its result) makes of it, and the assertions are those of the tests on the
    bytes that came back.  Echo servers are scripts as well. *)
From S2P Require Import Prelude Fmt Types Wire Credentials PerIp DnsCache Stats Stream Relay.
From S2P Require Import Connect Client Handshake Resolve Udp Session Config Server Tests TestsAsync.

#[local] Existing Instance map_order.

(** ** Clients *)

(** Messages, each sent at its instant (in milliseconds); the client then closes
    its side at [leaves]. *)
Definition client_script (messages : list (N * list u8)) (leaves : N) : Stream :=
  {| rx := messages ≫= λ m, (λ b, (from_millis m.1, b)) <$> m.2;
     rx_end := EndEof (from_millis leaves); writes := []; shutdowns := []; out := [] |}.

(** The same, with a client that stays. *)
Definition patient_script (messages : list (N * list u8)) : Stream :=
  {| rx := rx (client_script messages 0); rx_end := EndSilent; writes := []; shutdowns := [];
     out := [] |}.

Definition greeting (methods : list u8) : list u8 := x05 :: u8_of_usize (length methods) :: methods.

Definition ipv4_request (cmd : u8) (ip : Ipv4Addr) (port : u16) : list u8 :=
  [x05; cmd; x00; x01] ++ vec_to_list ip ++ u16_to_be_bytes port.

Definition domain_request (cmd : u8) (domain : string) (port : u16) : list u8 :=
  [x05; cmd; x00; x03; u8_of_usize (length (as_bytes domain))] ++ as_bytes domain ++
  u16_to_be_bytes port.

Definition userpass_frame (version : u8) (user : string) (pass : list u8) : list u8 :=
  version :: u8_of_usize (length (as_bytes user)) :: as_bytes user ++
  u8_of_usize (length pass) :: pass.

(** ** Servers *)

Definition no_auth : list u8 := [AuthMethods_as_u8 NoAuth].
Definition userpass : list u8 := [AuthMethods_as_u8 NoAuth; AuthMethods_as_u8 UserPass].
Definition alice : list User := [User_new "alice" "secret"].

(** A connection of [start_merino(auth_methods, users)], from its acceptance to
    its end; [cache] is the server's. *)
Definition served_with (cache : option DnsCache) (net : Net) (auth_methods : list u8)
    (users : list User) (s : Stream) : outcome MerinoError unit * World :=
  let ctx := {| ctx_users := users; ctx_auth_methods := auth_methods; ctx_timeout := None;
                ctx_dns_cache := None; ctx_per_ip := None; ctx_stats := 0 |} in
  let client := new_client ctx {| in_stream := s; in_local_addr := Ok (loopback 1080) |} in
  @run_client net _ _ (loopback 50001)
    {| clock := 0; client := client; w_stats := Stats_new 0 0; w_heap := heap_empty;
       w_cache := cache; w_datagrams := []; w_remote := None |}.

Definition served := served_with None.

(** What came back: nothing gets through once the stream is shut down. *)
Fixpoint until_shutdown (l : list out_event) : list u8 :=
  match l with
  | OutWrite data n :: l => firstn n data ++ until_shutdown l
  | OutShutdown :: _ | [] => []
  end.

Definition answered (w : World) : list u8 := until_shutdown (out (Client.stream (Client.client w))).

Definition received (r : outcome MerinoError unit * World) : list u8 := answered r.2.

(** [n] bytes of what came back, from [i] on. *)
Definition at_ (i n : nat) (l : list u8) : list u8 := firstn n (skipn i l).

(** The connection was closed after [n] bytes. *)
Definition closed_after (n : nat) (r : outcome MerinoError unit * World) : bool :=
  bool_decide (length (received r) = n) &&
  existsb (λ o, bool_decide (o = OutShutdown)) (out (Client.stream (Client.client r.2))).

(** An echo server on [port] that a connection sends [payload] in all, at [t]. *)
Definition echo (port : u16) (t : N) (payload : list u8) : u16 * Remote :=
  (port, {| remote_stream :=
              {| rx := (λ b, (from_millis t, b)) <$> payload; rx_end := EndEof (from_millis t);
                 writes := []; shutdowns := []; out := [] |};
            remote_schedule := [ReadA 1024; ReadB 1024; ReadB 1024; ReadA 1024] |}).

Definition nowhere : Net := loopback_net [] [].

(** ** [socks5.rs] *)

Definition noauth_negotiation_succeeds : test :=
  assert_eq (at_ 0 2 (received (served nowhere no_auth [] (client_script [(0%N, greeting [x00])] 1))))
    [x05; x00].

Definition noauth_server_rejects_userpass_only_client : test :=
  assert_eq (at_ 0 2 (received (served nowhere no_auth [] (client_script [(0%N, greeting [x02])] 1))))
    [x05; xff].

Definition userpass_success_then_connect_relays_data : test :=
  let hello := as_bytes "hello socks" in
  let r := served (loopback_net [echo 40001 4 hello] []) userpass alice
    (client_script [(0%N, greeting [x02]); (1%N, userpass_frame x01 "alice" (as_bytes "secret"));
                    (2%N, ipv4_request x01 (v4_local x01) 40001); (3%N, hello)] 5) in
  assert_eq (at_ 0 2 (received r)) [x05; x02] ++
  assert_eq (at_ 2 2 (received r)) [x01; x00] ++
  assert_eq (at_ 4 2 (received r)) [x05; x00] ++
  assert_eq (at_ 14 11 (received r)) hello.

Definition userpass_bad_credentials_are_rejected : test :=
  let r := served nowhere userpass alice
    (client_script [(0%N, greeting [x02]); (1%N, userpass_frame x01 "alice" (as_bytes "wrong"))] 2) in
  assert_eq (at_ 0 2 (received r)) [x05; x02] ++
  assert_eq (at_ 2 2 (received r)) [x01; x01] ++
  assert (closed_after 4 r).

Definition connect_relays_data_bidirectionally : test :=
  let r := served (loopback_net [echo 40001 4 (as_bytes "firstsecond")] []) no_auth []
    (client_script [(0%N, greeting [x00]); (1%N, ipv4_request x01 (v4_local x01) 40001);
                    (2%N, as_bytes "first"); (3%N, as_bytes "second")] 5) in
  assert_eq (at_ 0 2 (received r)) [x05; x00] ++
  assert_eq (at_ 3 1 (received r)) [x00] ++
  assert_eq (at_ 12 5 (received r)) (as_bytes "first") ++
  assert_eq (at_ 17 6 (received r)) (as_bytes "second").

(** A resolver that knows one name. *)
Definition resolving (name : string) (addrs : list SocketAddr) (net : Net) : Net := {|
  lookup_host n _ := Some (0%N, if bool_decide (n = name) then Ok addrs
                                else Err (io_Error_new ErrorKind.Other "unknown name"));
  lookup_host_port := @lookup_host_port net; tcp_connect := @tcp_connect net;
  tcp_bind := @tcp_bind net; udp_bind := @udp_bind net;
  set_nonblocking := @set_nonblocking net; from_std := @from_std net
|}.

Definition connect_by_domain_name_succeeds : test :=
  let net := resolving "localhost:40001" [loopback 40001] (loopback_net [echo 40001 2 []] []) in
  let r := served net no_auth []
    (client_script [(0%N, greeting [x00]); (1%N, domain_request x01 "localhost" 40001)] 2) in
  assert_eq (at_ 2 2 (received r)) [x05; x00].

(** The second connection is answered from the cache: the resolver is gone. *)
Definition dns_cache_serves_repeated_domain_connects : test :=
  let data := as_bytes "cached dns" in
  let script := client_script [(0%N, greeting [x00]); (1%N, domain_request x01 "localhost" 40001);
                               (2%N, data)] 4 in
  let net := loopback_net [echo 40001 3 data] [] in
  let first := served_with (Some (DnsCache_new (from_secs 60) 8))
                 (resolving "localhost:40001" [loopback 40001] net) no_auth [] script in
  let second := served_with (w_cache first.2) (resolving "" [] net) no_auth [] script in
  ([first; second] ≫= λ r,
    assert_eq (at_ 2 2 (received r)) [x05; x00] ++ assert_eq (at_ 12 10 (received r)) data).

Definition connect_to_unresolvable_domain_is_host_unreachable : test :=
  let r := served (resolving "" [] nowhere) no_auth []
    (client_script [(0%N, greeting [x00]); (1%N, domain_request x01 "unresolvable.invalid" 80)] 2) in
  assert_eq (at_ 2 2 (received r)) [x05; x04].

Definition connect_to_dead_port_is_refused : test :=
  let r := served nowhere no_auth []
    (client_script [(0%N, greeting [x00]); (1%N, ipv4_request x01 (v4_local x01) 40001)] 2) in
  assert_eq (at_ 2 2 (received r)) [x05; x05].

Definition unsupported_version_is_rejected : test :=
  assert (closed_after 0 (served nowhere no_auth [] (client_script [(0%N, [x04; x01; x00])] 1))).

(** ** [hardening.rs] *)

Definition byte_at_a_time_greeting_is_reassembled : test :=
  assert_eq (at_ 0 2 (received (served nowhere no_auth []
    (client_script [(0%N, [x05]); (1%N, [x01]); (2%N, [x00])] 3)))) [x05; x00].

(** One byte per message, from [t] on. *)
Fixpoint one_by_one (t : N) (l : list u8) : list (N * list u8) :=
  match l with b :: l => (t, [b]) :: one_by_one (t + 1) l | [] => [] end.

Definition fragmented_connect_request_is_reassembled : test :=
  let payload := as_bytes "fragmented" in
  let r := served (loopback_net [echo 40001 21 payload] []) no_auth []
    (client_script ((0%N, greeting [x00]) ::
       one_by_one 1 (ipv4_request x01 (v4_local x01) 40001) ++ [(20%N, payload)]) 22) in
  assert_eq (at_ 0 2 (received r)) [x05; x00] ++
  assert_eq (at_ 3 1 (received r)) [x00] ++
  assert_eq (at_ 12 10 (received r)) payload.

Definition truncated_greeting_is_answered_with_failure : test :=
  let r := served nowhere no_auth [] (client_script [(0%N, [x05])] 1) in
  assert_eq (at_ 1 1 (received r)) [x01] ++ assert (closed_after 10 r).

Definition invalid_command_gets_command_not_supported : test :=
  let r := served nowhere no_auth []
    (client_script [(0%N, greeting [x00]); (1%N, [x05; x09; x00; x01])] 2) in
  assert_eq (at_ 3 1 (received r)) [x07].

Definition invalid_addr_type_gets_addr_type_not_supported : test :=
  let r := served nowhere no_auth []
    (client_script [(0%N, greeting [x00]); (1%N, [x05; x01; x00; x02])] 2) in
  assert_eq (at_ 3 1 (received r)) [x08].

Definition nonzero_reserved_byte_is_ignored : test :=
  let req := <[2 := xab]> (ipv4_request x01 (v4_local x01) 40001) in
  let r := served (loopback_net [echo 40001 2 []] []) no_auth []
    (client_script [(0%N, greeting [x00]); (1%N, req)] 2) in
  assert_eq (at_ 3 1 (received r)) [x00].

Definition userpass_non_utf8_password_is_rejected : test :=
  let r := served nowhere userpass alice
    (client_script [(0%N, greeting [x02]); (1%N, userpass_frame x01 "alice" [xff; xfe])] 2) in
  assert_eq (at_ 0 2 (received r)) [x05; x02] ++ assert_eq (at_ 2 2 (received r)) [x01; x01].

(** A client on its own, as [duplex_client] makes it. *)
Definition duplex_client (methods : list u8) (users : list User) (timeout : option Duration)
    (s : Stream) : SOCKClient := SOCKClient_new s users methods timeout.

Definition relay_survives_handshake_timeout : test :=
  let alive := as_bytes "alive" in
  let client := set_handshake_timeout (from_millis 100) (duplex_client no_auth [] None
    (client_script [(0%N, greeting [x00]); (1%N, ipv4_request x01 (v4_local x01) 40001);
                    (301%N, alive)] 303)) in
  let '(o, w) := run (@init (loopback_net [echo 40001 302 alive] []) _ _) client in
  assert_eq (at_ 0 2 (answered w)) [x05; x00] ++
  assert_eq (at_ 3 1 (answered w)) [x00] ++
  assert_eq (at_ 12 5 (answered w)) alive.

Definition stalled_handshake_times_out : test :=
  let client := set_handshake_timeout (from_millis 50)
    (duplex_client no_auth [] None (patient_script [])) in
  threw (run (@init nowhere _ _) client).1 (λ err, assert_eq err (Socks TtlExpired)).

Definition nmethods_overflow_times_out : test :=
  let client := set_handshake_timeout (from_millis 50)
    (duplex_client no_auth [] None (patient_script [(0%N, [x05; xff])])) in
  threw (run (@init nowhere _ _) client).1 (λ err, assert_eq err (Socks TtlExpired)).

Definition userpass_wrong_version_is_rejected : test :=
  let client := set_handshake_timeout (from_secs 5)
    (duplex_client [AuthMethods_as_u8 UserPass] alice None
       (patient_script [(0%N, greeting [x02]);
                        (1%N, userpass_frame x02 "alice" (as_bytes "secret"))])) in
  let '(o, w) := run (@init nowhere _ _) client in
  assert_eq (at_ 0 2 (answered w)) [x05; x02] ++
  assert_eq (at_ 2 2 (answered w)) [x01; x01] ++
  threw o (λ err, assert_eq err (Socks Failure)).

(** ** BIND ([socks5.rs], [relay.rs]) *)

(** The listener of a BIND is connected to by [remote], from [peer], after a
    while, or by no one. *)
Definition binding (inbound : option (Remote * SocketAddr)) : Net := {|
  lookup_host := @lookup_host nowhere; lookup_host_port := @lookup_host_port nowhere;
  tcp_connect := @tcp_connect nowhere;
  tcp_bind a := Ok {| l_local_addr := Ok (loopback 50000);
                      l_accept _ := (λ i, (from_millis 10, Ok i)) <$> inbound |};
  udp_bind := @udp_bind nowhere; set_nonblocking := @set_nonblocking nowhere;
  from_std := @from_std nowhere
|}.

Definition bind_relays_an_inbound_connection : test :=
  let peer := {| remote_stream := client_script [(12%N, as_bytes "from peer")] 14;
                 remote_schedule := [ReadB 64; ReadA 64; ReadA 64; ReadB 64] |} in
  let r := served (binding (Some (peer, loopback 50002))) no_auth []
    (client_script [(0%N, greeting [x00]); (1%N, ipv4_request x02 (v4_local x01) 0);
                    (13%N, as_bytes "from client")] 14) in
  assert_eq (at_ 3 1 (received r)) [x00] ++
  assert_eq (at_ 6 6 (received r)) (vec_to_list (v4_local x01) ++ u16_to_be_bytes 50000) ++
  assert_eq (at_ 13 1 (received r)) [x00] ++
  assert_eq (at_ 22 9 (received r)) (as_bytes "from peer") ++
  expect (w_remote r.2) (λ peer, assert_eq (tx peer) (as_bytes "from client")).

Definition bind_with_unexpected_peer_gets_rule_failure : test :=
  let peer := {| remote_stream := client_script [] 14; remote_schedule := [] |} in
  let client := duplex_client no_auth [] None
    (patient_script [(0%N, greeting [x00]); (1%N, ipv4_request x02 (v4_local x02) 0)]) in
  let '(o, w) := run (@init (binding (Some (peer, loopback 50002))) _ _) client in
  assert_eq (at_ 2 3 (answered w)) [x05; x00; x00] ++
  threw o (λ err, assert_eq err (Socks RuleFailure)).

Definition bind_without_inbound_peer_times_out : test :=
  let client := duplex_client no_auth [] (Some (from_millis 150))
    (patient_script [(0%N, greeting [x00]); (1%N, ipv4_request x02 UNSPECIFIED_V4 0)]) in
  let '(o, w) := run (@init (binding None) _ _) client in
  assert_eq (at_ 2 3 (answered w)) [x05; x00; x00] ++
  threw o (λ err, assert_eq err (Socks TtlExpired)).

(** ** CONNECT to destinations that do not answer ([relay.rs], [relay_reset.rs]) *)

(** Connections to [addr] come to [r]. *)
Definition connecting (addr : SocketAddr) (r : option (N * result io_error Remote)) : Net := {|
  lookup_host := @lookup_host nowhere; lookup_host_port := @lookup_host_port nowhere;
  tcp_connect a t := if bool_decide (a = addr) then r else @tcp_connect nowhere a t;
  tcp_bind := @tcp_bind nowhere; udp_bind := @udp_bind nowhere;
  set_nonblocking := @set_nonblocking nowhere; from_std := @from_std nowhere
|}.

Definition connect_to_blackholed_destination_fails_within_budget : test :=
  let ip := [# xc0; x00; x02; x01] : Ipv4Addr in
  let client := duplex_client no_auth [] (Some (from_millis 300))
    (patient_script [(0%N, greeting [x00]); (1%N, ipv4_request x01 ip 80)]) in
  let '(o, w) := run (@init (connecting (SockV4 ip 80) None) _ _) client in
  threw o (λ err, match err with
                  | Socks TtlExpired | Io _ => assert true
                  | _ => assert false
                  end) ++
  assert (clock w <=? from_secs 5)%N.

Definition connect_to_unroutable_address_is_network_unreachable : test :=
  let ip := [# xff; xff; xff; xff] : Ipv4Addr in
  let refused := Err (io_Error_new ErrorKind.NetworkUnreachable "network unreachable") in
  let client := duplex_client no_auth [] None
    (patient_script [(0%N, greeting [x00]); (1%N, ipv4_request x01 ip 1)]) in
  threw (run (@init (connecting (SockV4 ip 1) (Some (0%N, refused))) _ _) client).1 (λ err,
    assert_eq err (Socks NetworkUnreachable)).

(** The destination takes the payload, and then the connection is reset. *)
Definition connect_relay_reports_upstream_failure : test :=
  let reset := io_Error_new ErrorKind.ConnectionReset "connection reset" in
  let sink := {| remote_stream := {| rx := []; rx_end := EndErr (from_millis 3) reset;
                                     writes := []; shutdowns := []; out := [] |};
                 remote_schedule := [ReadA 16; ReadB 16] |} in
  let client := duplex_client no_auth [] None
    (patient_script [(0%N, greeting [x00]); (1%N, ipv4_request x01 (v4_local x01) 40001);
                     (2%N, replicate 2048 x07)]) in
  let '(o, w) := run (@init (connecting (loopback 40001) (Some (0%N, Ok sink))) _ _) client in
  assert_eq (at_ 3 1 (answered w)) [x00] ++
  threw o (λ err, match err with Io _ => assert true | _ => assert false end).

(** ** UDP ASSOCIATE ([socks5.rs], [relay.rs]) *)

Definition udp_packet (dest : SocketAddr) (payload : list u8) : list u8 :=
  encode_udp_header dest ++ payload.

(** The association's socket, on port 50000, is woken by [events]. *)
Definition associating (events : list udp_event) : Net := {|
  lookup_host _ _ := Some (0%N, Err (io_Error_new ErrorKind.Other "unknown name"));
  lookup_host_port := @lookup_host_port nowhere;
  tcp_connect := @tcp_connect nowhere; tcp_bind := @tcp_bind nowhere;
  udp_bind _ := Ok {| u_local_addr := Ok (loopback 50000); u_events := events |};
  set_nonblocking := @set_nonblocking nowhere; from_std := @from_std nowhere
|}.

(** The client's socket and the echo server. *)
Definition sock : SocketAddr := loopback 50001.
Definition udp_echo : SocketAddr := loopback 7.

Definition from_sock (bytes : list u8) : udp_event := Datagram (Ok (bytes, sock)).
Definition from_echo (bytes : list u8) : udp_event := Datagram (Ok (bytes, udp_echo)).

(** The result of an association whose control connection carries [stray] and
    then closes. *)
Definition associated (ip : Ipv4Addr) (stray : list u8) (events : list udp_event)
    : outcome MerinoError unit * World :=
  run (@init (associating events) _ _) (duplex_client no_auth [] None
    (client_script [(0%N, greeting [x00]); (1%N, ipv4_request x03 ip 0); (2%N, stray)] 3)).

Definition udp_associate_relays_datagrams : test :=
  let ping := as_bytes "ping-udp" in
  let '(o, w) := associated UNSPECIFIED_V4 []
    [from_sock (udp_packet udp_echo ping); from_echo ping; Control] in
  assert_eq (at_ 3 1 (answered w)) [x00] ++
  assert_eq (at_ 10 2 (answered w)) (u16_to_be_bytes 50000) ++
  assert_eq (w_datagrams w) [(udp_echo, ping); (sock, udp_packet udp_echo ping)].

Definition udp_associate_drops_fragmented_datagrams : test :=
  let packet := <[2 := x01]> (udp_packet udp_echo (as_bytes "frag")) in
  let '(o, w) := associated UNSPECIFIED_V4 [] [from_sock packet; Control] in
  assert_eq (w_datagrams w) [].

Definition udp_control_data_is_ignored_and_close_ends_relay : test :=
  let ping := as_bytes "ping" in
  let post := as_bytes "post-stray" in
  let '(o, w) := associated UNSPECIFIED_V4 (as_bytes "stray")
    ([from_sock (udp_packet udp_echo ping); from_echo ping] ++ replicate 5 Control ++
     [from_sock (udp_packet udp_echo post); from_echo post; Control]) in
  assert_eq (w_datagrams w)
    [(udp_echo, ping); (sock, udp_packet udp_echo ping);
     (udp_echo, post); (sock, udp_packet udp_echo post)] ++
  done o (λ _, []).

Definition udp_first_datagram_from_unexpected_source_is_dropped : test :=
  let '(o, w) := associated (v4_local x02) []
    [from_sock (udp_packet udp_echo (as_bytes "spoofed")); Control] in
  assert_eq (w_datagrams w) [] ++ done o (λ _, []).

Definition udp_invalid_header_and_unresolvable_destination_are_dropped : test :=
  let ok := as_bytes "ok" in
  let bogus := [x00; x00; x00; x03; u8_of_usize (length (as_bytes "invalid.invalid"))] ++
               as_bytes "invalid.invalid" ++ u16_to_be_bytes 12345 in
  let '(o, w) := associated UNSPECIFIED_V4 []
    [from_sock (udp_packet udp_echo ok); from_echo ok;
     from_sock [x00; x00; x00; x02; x00; x00; x00; x00; x00; x00]; from_sock bogus; Control] in
  assert_eq (w_datagrams w) [(udp_echo, ok); (sock, udp_packet udp_echo ok)] ++
  done o (λ _, []).

(** ** They pass *)

Lemma tests_of_negotiation_pass :
  Forall passes [noauth_negotiation_succeeds; noauth_server_rejects_userpass_only_client;
    userpass_bad_credentials_are_rejected; unsupported_version_is_rejected;
    byte_at_a_time_greeting_is_reassembled; truncated_greeting_is_answered_with_failure;
    invalid_command_gets_command_not_supported; invalid_addr_type_gets_addr_type_not_supported;
    userpass_non_utf8_password_is_rejected; stalled_handshake_times_out;
    nmethods_overflow_times_out; userpass_wrong_version_is_rejected].
Proof. repeat constructor. Qed.

Lemma tests_of_relays_pass :
  Forall passes [userpass_success_then_connect_relays_data; connect_relays_data_bidirectionally;
    connect_by_domain_name_succeeds; dns_cache_serves_repeated_domain_connects;
    connect_to_unresolvable_domain_is_host_unreachable; connect_to_dead_port_is_refused;
    fragmented_connect_request_is_reassembled; nonzero_reserved_byte_is_ignored;
    relay_survives_handshake_timeout; connect_to_blackholed_destination_fails_within_budget;
    connect_to_unroutable_address_is_network_unreachable; connect_relay_reports_upstream_failure].
Proof. repeat constructor. Qed.

Lemma tests_of_bind_pass :
  Forall passes [bind_relays_an_inbound_connection; bind_with_unexpected_peer_gets_rule_failure;
    bind_without_inbound_peer_times_out].
Proof. repeat constructor. Qed.

Lemma tests_of_udp_pass :
  Forall passes [udp_associate_relays_datagrams; udp_associate_drops_fragmented_datagrams;
    udp_control_data_is_ignored_and_close_ends_relay;
    udp_first_datagram_from_unexpected_source_is_dropped;
    udp_invalid_header_and_unresolvable_destination_are_dropped].
Proof. repeat constructor. Qed.
