(* ===== verification/Services.v ===== *)
(** * The integration tests of whole servers, run on the model
      ([src/tests/hardening.rs], [src/tests/actors.rs], [src/tests/socks5.rs],
      [src/tests/stats.rs])

    As in [Scenarios], but from the server that is bound and configured on:
    connections are accepted by its loops, run one after the other, and are
    released when they end; the statistics they leave are asked for over HTTP.
    That running a session at once is one of the interleavings of the server is
    [Trace.run_client_simulated]. *)
From S2P Require Import Prelude Fmt Types PerIp DnsCache Stats Stream Relay Connect Client.
From S2P Require Import Session Config Server Text PageText Http Overview Tests TestsAsync Scenarios.

#[local] Existing Instance map_order.
#[local] Existing Instance counting_semaphore.

(** ** Servers *)

Definition source : SocketAddr := loopback 50001.

(** [Merino::new(0, "127.0.0.1", [NoAuth], [], None)], some setters, and [serve]. *)
Definition merino_with (net : Net) (set : Merino → Process → Merino * Process) : option Server :=
  match Merino_new 0 "127.0.0.1" no_auth [] None 0 0 process_empty with
  | Ok (merino, p) => let '(merino, p) := set merino p in Merino_serve merino p
  | Err _ => None
  end.

(** The same of [SocksServer::bind] and [start]. *)
Definition actors_with (net : Net) (set : SocksServer → Process → SocksServer * Process)
    : option Server :=
  match SocksServer_bind 0 "127.0.0.1" no_auth [] None 0 0 process_empty with
  | Ok (server, p) => let '(server, p) := set server p in SocksServer_started server p
  | Err _ => None
  end.

(** [start_no_auth()]: statistics of the test's own. *)
Definition start_no_auth (net : Net) : option Server :=
  merino_with net (λ merino p,
    let '(stats, p) := alloc_stats (Stats_new 0 0) p in (Merino_set_stats stats merino, p)).

(** The next iteration of loop [i]: the connection of a client that sends [s]. *)
Definition accept_next (i : nat) (s : Stream) (sv : Server) : option Server :=
  sv ← take_permit i sv;
  Some (accepted i (Ok ({| in_stream := s; in_local_addr := Ok (loopback 1080) |}, source)) 0 0 sv).

(** The task of the connection at [j], until it ends or waits for good. *)
Definition run_task (net : Net) (j : nat) (sv : Server) : option (World * Server) :=
  c ← sv_live sv !! j;
  client ← sc_client c;
  stats ← p_stats (sv_proc sv) !! sc_stats c;
  let cache := l ← sc_cache c; p_caches (sv_proc sv) !! l in
  let '(o, w) := run_client (sc_peer c) (world_of client stats cache 0 (sv_proc sv)) in
  let p := on_stats (sc_stats c) (λ _, w_stats w) (set_heap (w_heap w) (sv_proc sv)) in
  let p := match sc_cache c, w_cache w with
           | Some l, Some cache => set_caches (<[l := cache]> (p_caches p)) p
           | _, _ => p
           end in
  let c := {| sc_client := None; sc_peer := sc_peer c; sc_permit := sc_permit c;
              sc_ip_slot := sc_ip_slot c; sc_stats := sc_stats c; sc_cache := sc_cache c;
              sc_guard := None |} in
  let sv := sv_set p (sv_sem sv) (sv_loops sv) (<[j := c]> (sv_live sv)) sv in
  match o with
  | Pending => Some (w, sv)
  | _ => sv ← end_connection Returned j sv; Some (w, sv)
  end.

(** A client that greets without authentication and leaves. *)
Definition greets : Stream := client_script [(0%N, greeting [x00])] 400.

Definition greeted (net : Net) (i j : nat) (sv : Server) (k : Server → test) : test :=
  expect (accept_next i greets sv) (λ sv,
  expect (run_task net j sv) (λ '(w, sv), assert_eq (at_ 0 2 (answered w)) [x05; x00] ++ k sv)).

(** ** Caps *)

(** The second client waits in the backlog while the first holds the permit. *)
Definition throttles_excess_clients (start : option Server) : test :=
  expect start (λ sv,
  expect (accept_next 0 greets sv) (λ sv,
  assert (match take_permit 0 sv with Some _ => false | None => true end) ++
  expect (run_task nowhere 0 sv) (λ '(w, sv),
  assert_eq (at_ 0 2 (answered w)) [x05; x00] ++
  greeted nowhere 0 0 sv (λ _, [])))).

Definition actix_connection_cap_throttles_excess_clients : test :=
  throttles_excess_clients (actors_with nowhere (λ server p,
    (SocksServer_set_max_connections 1 server, p))).

Definition merino_connection_cap_throttles_excess_clients : test :=
  throttles_excess_clients (merino_with nowhere (λ merino p,
    (Merino_set_max_connections 1 merino, p))).

(** The second client is closed, not queued; the first is unaffected, and once it
    has ended the source may connect again. *)
Definition drops_excess_from_one_source (start : option Server) : test :=
  expect start (λ sv,
  expect (accept_next 0 greets sv) (λ sv,
  assert_eq (length (sv_live sv)) 1 ++
  expect (accept_next 0 greets sv) (λ sv,
  assert_eq (length (sv_live sv)) 1 ++
  expect (run_task nowhere 0 sv) (λ '(w, sv),
  assert_eq (at_ 0 2 (answered w)) [x05; x00] ++
  greeted nowhere 0 0 sv (λ _, []))))).

Definition merino_per_ip_cap_drops_excess_from_one_source : test :=
  drops_excess_from_one_source (merino_with nowhere (Merino_set_max_connections_per_ip 1)).

Definition actors_per_ip_cap_drops_excess_from_one_source : test :=
  drops_excess_from_one_source (actors_with nowhere (SocksServer_set_max_connections_per_ip 1)).

(** ** Listeners *)

(** [localhost] is two addresses here. *)
Definition two_addresses : Net := {|
  lookup_host := @lookup_host nowhere;
  lookup_host_port _ _ := Ok [loopback 1080; loopback 1081];
  tcp_connect := @tcp_connect nowhere; tcp_bind := @tcp_bind nowhere;
  udp_bind := @udp_bind nowhere; set_nonblocking := @set_nonblocking nowhere;
  from_std := @from_std nowhere |}.

(** A client of each loop, one after the other. *)
Fixpoint greeted_on_all (loops : list nat) (sv : Server) : test :=
  match loops with
  | [] => []
  | i :: loops => greeted two_addresses i 0 sv (greeted_on_all loops)
  end.

Definition merino_listens_on_every_resolved_address : test :=
  unwrap (@Merino_new two_addresses 0 "localhost" no_auth [] None 0 0 process_empty) (λ '(merino, p),
  unwrap (Merino_local_addrs merino) (λ addrs,
  assert_ne addrs [] ++
  expect (Merino_serve merino p) (greeted_on_all (seq 0 (length addrs))))).

Definition listens_on_every_resolved_address : test :=
  unwrap (@SocksServer_bind two_addresses 0 "localhost" no_auth [] None 0 0 process_empty)
    (λ '(server, p),
  let addrs := SocksServer_local_addrs server in
  assert_ne addrs [] ++
  expect (SocksServer_started server p) (greeted_on_all (seq 0 (length addrs)))).

(** All of the clients are accepted before the first is served. *)
Definition many_concurrent_greetings_are_served : test :=
  let accept_all := Nat.iter 32 (λ o, o ≫= accept_next 0 greets) in
  expect (accept_all (start_no_auth nowhere)) (λ sv,
    assert_eq (length (sv_live sv)) 32 ++
    (Nat.iter 32 (λ k sv,
       expect (run_task nowhere 0 sv) (λ '(w, sv), assert_eq (at_ 0 2 (answered w)) [x05; x00] ++ k sv))
     (λ sv, assert_eq (length (sv_live sv)) 0)) sv).

(** ** Statistics *)

(** [run_one_relay]: one CONNECT that is echoed four bytes. *)
Definition ping : list u8 := as_bytes "ping".

Definition relaying : Net := loopback_net [echo 40001 3 ping] [].

Definition one_relay : Stream :=
  client_script [(0%N, greeting [x00]); (1%N, ipv4_request x01 (v4_local x01) 40001); (2%N, ping)] 4.

Definition run_one_relay (k : Server → test) : test :=
  expect (start_no_auth relaying) (λ sv,
  expect (accept_next 0 one_relay sv) (λ sv,
  expect (run_task relaying 0 sv) (λ '(w, sv),
  assert_eq (at_ 0 4 (answered w)) [x05; x00; x05; x00] ++
  assert_eq (at_ 12 4 (answered w)) ping ++ k sv))).

(** [server.stats], as [snapshot] and [clients] see it. *)
Definition stats_of (sv : Server) (k : Shared → test) : test := expect (dashboard_view "0.1.3" sv) k.

Definition snapshot_at (now : N) (sh : Shared) : Snapshot :=
  snapshot (sh_version sh) (sh_caches sh) now (sh_stats sh).

Definition counters_track_a_relayed_connection : test :=
  run_one_relay (λ sv, stats_of sv (λ sh,
    let snap := snapshot_at 0 sh in
    assert_eq (cs_active (snap_connections snap)) 0%N ++
    assert (1 <=? cs_accepted_total (snap_connections snap))%N ++
    assert_eq (rq_connect (ts_requests (snap_traffic snap))) 1%N ++
    assert_eq (ts_bytes_client_to_target (snap_traffic snap)) 4%N ++
    assert_eq (ts_bytes_target_to_client (snap_traffic snap)) 4%N)).

(** The client stays, as does the echo server: the relay waits after a tick. *)
Definition payload : list u8 := replicate 4096 x55.

Definition staying : Net := loopback_net
  [(40001%N, {| remote_stream :=
      {| rx := (λ b, (from_millis 3, b)) <$> payload; rx_end := EndSilent; writes := [];
         shutdowns := []; out := [] |};
      remote_schedule := [ReadA 4096; ReadB 4096; Tick] |})] [].

Definition open_relay : Stream :=
  patient_script [(0%N, greeting [x00]); (1%N, ipv4_request x01 (v4_local x01) 40001); (2%N, payload)].

Definition is_loopback (ip : IpAddr) : bool := bool_decide (ip = sock_ip (loopback 0)).

Definition active_per_ip_tracks_an_open_connection : test :=
  expect (start_no_auth staying) (λ sv,
  expect (accept_next 0 open_relay sv) (λ sv,
  expect (run_task staying 0 sv) (λ '(w, sv),
  assert_eq (at_ 2 2 (answered w)) [x05; x00] ++
  assert_eq (at_ 12 4096 (answered w)) payload ++
  stats_of sv (λ sh,
    let clients := clients_view (sh_heap sh) (from_millis 2000) (sh_stats sh) in
    assert (existsb (λ entry, is_loopback (ic_ip entry) && (1 <=? ic_count entry)%N)
              (cs_active_per_ip (snap_connections (snapshot_at 0 sh)))) ++
    assert (existsb (λ c, is_loopback (sock_ip (cv_peer c)) &&
                          bool_decide (cv_command c = Some "connect")) clients) ++
    assert (existsb (λ c, (4096 <=? cv_bytes_client_to_target c)%N) clients))))).

(** The second connection to the same name is answered from the cache; the port
    is closed. *)
Definition refusing : Net := resolving "localhost:1" [loopback 1] nowhere.

Definition by_name : Stream :=
  client_script [(0%N, greeting [x00]); (1%N, domain_request x01 "localhost" 1)] 2.

Definition refused_by_name (net : Net) (sv : Server) (k : Server → test) : test :=
  expect (accept_next 0 by_name sv) (λ sv,
  expect (run_task net 0 sv) (λ '(w, sv),
  assert_eq (at_ 0 2 (answered w)) [x05; x00] ++
  assert_eq (at_ 3 1 (answered w)) [x05] ++ k sv)).

Definition dns_cache_counters_flow_through_the_server : test :=
  let start := merino_with nowhere (λ merino p,
    let '(stats, p) := alloc_stats (Stats_new 0 0) p in
    Merino_set_dns_cache (from_secs 60) 1024 (Merino_set_stats stats merino) p) in
  expect start (λ sv,
  refused_by_name refusing sv (λ sv,
  refused_by_name (resolving "" [] nowhere) sv (λ sv, stats_of sv (λ sh,
    let dns := snap_dns (snapshot_at 0 sh) in
    assert (ds_enabled dns) ++
    assert (1 <=? ds_inserts dns)%N ++
    assert (1 <=? ds_hits dns)%N ++
    assert (1 <=? ds_entries dns))))).

(** ** The statistics endpoint

    The JSON encoder is a parameter; the tests look for a few members. *)
Definition member (name : string) (n : N) : string :=
  let quote := of_bytes [x22] in quote +:+ name +:+ quote +:+ ":" +:+ dec n.

#[local] Instance members_web : Web := {|
  to_vec_snapshot s := Some (as_bytes ("{"
    +:+ member "accepted_total" (cs_accepted_total (snap_connections s)) +:+ ","
    +:+ member "bytes_client_to_target" (ts_bytes_client_to_target (snap_traffic s)) +:+ ","
    +:+ member "connect" (rq_connect (ts_requests (snap_traffic s))) +:+ "}"));
  to_vec_clients l := Some (as_bytes "[" ++ as_bytes (String.concat "," (member "id" ∘ cv_id <$> l)) ++ as_bytes "]");
  default_hash l := N.of_nat (length l) |}.

Definition contains (needle response : string) : bool :=
  match String.index 0 needle response with Some _ => true | None => false end.

Definition raw (method path : string) (headers : list (string * string)) : Stream :=
  patient_script [(0%N, as_bytes (method +:+ " " +:+ path +:+ " HTTP/1.1" +:+ crlf) ++
    flat_map (λ h, as_bytes (header_text h)) (("Host", "localhost") :: headers) ++ as_bytes crlf)].

(** All of the response. *)
Definition response (sh : Shared) (token : option text) (request : Stream) : string :=
  of_bytes (until_shutdown (out (h_stream
    (serve_one sh token {| h_clock := 0; h_stream := request; h_reads := [] |}).2))).

Definition raw_get (sh : Shared) (token : option text) (path : string)
    (headers : list (string * string)) : string := response sh token (raw "GET" path headers).

(** The endpoint of statistics of its own. *)
Definition alone (s : Stats) : Shared :=
  {| sh_version := "0.1.3"; sh_stats := s; sh_heap := heap_empty; sh_caches := [] |}.

Definition web_service_serves_a_running_proxy_snapshot : test :=
  run_one_relay (λ sv, stats_of sv (λ sh,
    let response := raw_get sh None "/stats" [] in
    assert (contains "200 OK" response) ++
    assert (contains (member "accepted_total" 1) response) ++
    assert (contains (member "connect" 1) response) ++
    assert (contains (member "bytes_client_to_target" 4) response))).

Definition stats_endpoints_cover_dashboard_health_clients_and_404 : test :=
  let sh := alone (note_accepted (Stats_new 0 0)) in
  let dashboard := raw_get sh None "/" [] in
  let health := raw_get sh None "/healthz" [] in
  let clients := raw_get sh None "/clients" [] in
  assert (contains "200 OK" dashboard && contains "text/html" dashboard) ++
  assert (contains "merino" dashboard) ++
  assert (contains "200 OK" health && contains "uptime_secs" health) ++
  assert (contains "200 OK" clients && contains "[]" clients) ++
  assert (contains "404 Not Found" (raw_get sh None "/nope" [])).

Definition non_get_methods_are_rejected : test :=
  assert (contains "405 Method Not Allowed" (response (alone (Stats_new 0 0)) None (raw "POST" "/stats" []))).

Definition stats_token_is_enforced : test :=
  let get := raw_get (alone (Stats_new 0 0)) (Some (Text.scalars "s3cret")) "/stats" in
  assert (contains "401 Unauthorized" (get [])) ++
  assert (contains "200 OK" (get [("Authorization", "Bearer s3cret")])).

(** The value of a header of a response. *)
Definition header_value (name response : string) : option string :=
  start ← String.index 0 (crlf +:+ name) response;
  let start := start + String.length (crlf +:+ name) in
  stop ← String.index start crlf response;
  Some (String.substring start (stop - start) response).

Definition conditional_get_returns_304 : test :=
  let sh := alone (Stats_new 0 0) in
  expect (header_value "ETag: " (raw_get sh None "/stats" [])) (λ etag,
  let fresh := raw_get sh None "/stats" [("If-None-Match", etag)] in
  assert (contains "304 Not Modified" fresh) ++
  assert (negb (contains "accepted_total" fresh))).

(** ** They pass *)

Lemma tests_of_servers_pass :
  Forall passes [actix_connection_cap_throttles_excess_clients;
    merino_connection_cap_throttles_excess_clients; merino_per_ip_cap_drops_excess_from_one_source;
    actors_per_ip_cap_drops_excess_from_one_source; merino_listens_on_every_resolved_address;
    listens_on_every_resolved_address; many_concurrent_greetings_are_served].
Proof. vm_compute. repeat constructor. Qed.

Lemma tests_of_service_statistics_pass :
  Forall passes [counters_track_a_relayed_connection; active_per_ip_tracks_an_open_connection;
    dns_cache_counters_flow_through_the_server].
Proof. vm_compute. repeat constructor. Qed.

Lemma tests_of_endpoint_pass :
  Forall passes [web_service_serves_a_running_proxy_snapshot;
    stats_endpoints_cover_dashboard_health_clients_and_404; non_get_methods_are_rejected;
    stats_token_is_enforced; conditional_get_returns_304].
Proof. vm_compute. repeat constructor. Qed.
